(* ===== verification/_CoqProject ===== *)
-Q . S2P
Prelude.v
Float32.v
Pjlib.v
Env.v
SimEnv.v
State.v
NullVideoDev.v
Framing.v
Compact.v
SimJson.v
Wire.v
JsonUtil.v
Events.v
Invariant.v
Device.v
Account.v
Im.v
Call.v
Watchdog.v
Dispatch.v
Requests.v
Server.v
Media.v
Schema.v
ServerInput.v
ServerLoop.v
Liveness.v
Config.v
Startup.v
System.v
Threads.v
Lifecycle.v
Session.v
Pools.v
Dialogue.v
Progress.v
News.v
Runs.v
