(* ===== verification/Prelude.v ===== *)
(** * pjsocky, a headless SIP call daemon: the verification library

    pjsocky is a daemon around pjsua-lib.  A controller connects to its Unix
    socket and exchanges lines of JSON: requests with responses, and events
    pushed at any time.  This library models the C sources of the daemon
    (src/ and src/proto/) as executable functions and proves what they do.

    ** The program and its model

    One process, with two kinds of activity.  The main thread runs the accept
    loop (proto/server.c): [select], then at most one read of the control
    connection and one [accept].  A read fills the receive buffer
    (proto/framing.c) and every complete line in it is dispatched
    (proto/dispatch.c) to a command handler, which works on account.c,
    device.c, im.c or call.c, and whose response is written back under the
    lock of the event hub (proto/events.c).  pjsua-lib's own threads run
    callbacks and timers of account.c, im.c and call.c, which change the static
    variables of those files and push events through the same hub.

    The state of the process is one record ([State.St]): a record per C file
    that has static variables, the server and connection objects, and the
    history of every library call made so far.  A C function becomes a
    function of the state monad [M] below, which can also run into undefined
    behaviour ([Undef]) or out of fuel ([NoFuel]).  A call of a library that is
    not part of the repository - POSIX, pjlib, pjlib-util, pjsua-lib, pjmedia -
    appends itself to the history and is answered by a field of the class
    [Env.Env], an arbitrary function of the history before it; the pure JSON
    functions are the class [Env.PjJson].  Theorems hold for all instances;
    what the libraries document is in [EnvLaws], [PjJsonLaws] and
    [PjJsonWriteLaws].  SimEnv.v and SimJson.v are concrete instances with
    proofs of these laws; the witnesses evaluate the daemon on them.

    ** Files

    - Prelude: the monad, its weakest preconditions, record update, integers.
    - Float32: C's conversions between [int] and [float].
    - Pjlib, Env: the data types and the interfaces of the libraries.
    - SimEnv, SimJson: a simulated machine and a JSON library.
    - State: the process state, library calls as operations, timers and
      sockets as read off the history.
    - Framing, Compact, Wire: proto/framing.c - the receive buffer against a
      specification on pending bytes; the compacter against a grammar of
      JSON lexemes; sending, deadlines and what reaches the wire.
    - JsonUtil: proto/jsonutil.c, proto/version.c.  Events: proto/events.c.
    - Invariant: the invariant of account.c's and call.c's variables.
    - Device, Account, Im, Call: the C file of the same name.  Watchdog:
      video failure and incoming calls of call.c.
    - Dispatch: proto/dispatch.c.  Requests: its contract and handlers.
      Media: changes of a call's media, and what [call.get_info] tells.
    - Schema: the types of everything the daemon writes to a client and of
      the parameters it requires.
    - Server, ServerInput, ServerLoop: proto/server.c - operations; the byte
      stream semantics of input handling; the loop and its invariant.
      Liveness: the path of a request through all of it.
    - Config: what main.c makes of its environment variables.  Startup:
      main()'s sequence of calls up to the control socket, and the codec loop.
    - System: what the other threads do, and main() from its first call to the
      exit code, with the server loop one iteration at a time.
    - Threads: the main thread one operation at a time, with the other threads
      between any two of them ([interleaved]); the invariant there.
    - Lifecycle: an abstract specification of a call's life, and that the
      daemon implements it.  Pools: which memory pools exist.
    - Session: the protocol as a conversation, and what each operation of the
      daemon contributes to one.  Dialogue: what a client hears and says is a
      conversation.
    - Progress: no thread gets stuck, and how many operations the main thread
      is from its next test of the loop condition; main() with the server loop
      one operation at a time.  News: what each callback tells the client.
    - Runs: the theorems of System and of the files after it on simulated
      clients and cameras.
    - NullVideoDev: null_video_dev.c; Startup runs its factory when main()
      registers it.

    C names are kept, so [pjsocky_framing_fill] is the function of that name;
    a loop of a C function is a Fixpoint named after it ([send_loop],
    [input_loop], [rtp_counters_loop]).  A [pj_timer_entry] is the call id it
    was initialised with; the event hub's framing pointer is the name of the
    one connection's framing object; a line handed out by the framing object
    is an offset and a length into its buffer, so that sharing is visible.  A
    log line is a call of the history like any other, with its level, its
    format and its arguments ([PJ_LOG], [PJ_PERROR], [pjsua_perror]).

    ** What is proved

    The following hold with callbacks, timers and the signal handler acting
    between any two operations of the main thread:

    - Threads: the invariant - account, timers, event lock, connection, receive
      buffer, open sockets; that a failing [accept] ends the daemon, and how.
      Pools: no memory pool leaks.
    - Progress: every operation of every thread returns - no deadlock, no
      endless wait, and no undefined behaviour but that of a request whose
      numbers do not fit an [int]; the main thread is back at the
      loop condition within a bounded number of operations, and a client that
      reads has then been answered every request taken from its socket; every
      run of main() that ends leaves no socket open and destroys pjsua, and
      main() returns after the shutdown signal.  The runs of
      [pjsocky_server_run] by iterations are among these.
    - Dialogue: the bytes delivered by a client's socket and the bytes its
      socket has taken, both read off the history of the whole process since
      the client was accepted, are a conversation of the protocol: the
      greeting, typed events, and one reply per line, in order.  A client that
      reads is sent whole lines only, and exactly one response for each of
      its requests.  The greeting is first unless another thread acts just
      before it.
    - News: every callback is told to a client that reads, as exactly the line
      of its event, unless that does not fit the print buffer; and an event
      that another thread pushes just before the greeting precedes it.
    - Lifecycle: a specification of which call is current, timed, watched,
      reported on and given up, as labelled steps; every state represents a
      specified one, and every activity of the daemon takes steps of its own
      cause only - of the main thread's operations, only the one that runs a
      request may change the current call.  Hence an invariant of the
      watchdog, which is what Watchdog assumes of the states the timer
      expires in.

    And of the parts:

    - Liveness: one iteration of the server loop answers all requests it has
      read, in order.
    - Framing, Compact, Wire, Events: refinement of the buffer operations, the
      compacter as removal of white space between lexemes, deadline and
      content of everything written, one uninterrupted line per message: the
      exact calls between taking the event lock and giving it back
      ([Events.push_made], used by the theorems on the callbacks).
    - ServerInput, System: input handling serves exactly the complete lines
      of the byte stream, in order; error paths of the server.
    - Dispatch, Requests: every request answered in the documented form, by
      the handler of its name; call ids checked before pjsua sees them;
      outcomes and round trips of single commands.
    - Schema: results and events have the member names and types documented
      for their command, whatever the libraries answer; a request whose
      required parameters are missing or of the wrong type is refused.
    - Account, Call, Watchdog, Media: outcomes of operations and callbacks on
      every branch; the video watchdog against a specification on packet
      counts.
    - Config, Startup, NullVideoDev: which values are honoured, within which
      bounds; the calls of start-up, log lines included, where it stops and
      what it has destroyed by then; the frame format of every codec after the
      override; the life of a stream of the null renderer, through the
      operation tables pjmedia has of it.

    ** Bounds and fuel

    [send_all] runs with two units of fuel per byte, one per millisecond of the
    deadline and two more, which is enough where [select] waits
    ([Wire.send_all_returns]).  [handle_conn_input] has one unit
    more than the buffer has bytes, every round consuming at least one.  The
    accept loop is not bounded by the program: [server_loop] and
    [Progress.drive] run along a schedule that says what the other threads do
    before each iteration, or before each operation, and is as long as one
    likes.  [Progress.turns_left] is the number of operations that are enough
    to get back to the loop condition: three for each byte pending - a line
    takes three, and at least one byte -, and a few.

    ** Hypotheses

    [EnvLaws] and [PjJsonLaws] hold of the libraries as documented.  Theorems
    that say something terminates assume that [select] waits ([select_waits]):
    a socket it reports writable takes or refuses the next bytes, unless the
    wait took a millisecond, and a signal interrupts it only after as long -
    without that, the loop of [send_all] may go round without bound.  Those
    that rule out undefined behaviour of the C code assume what it relies on:
    numbers of a client that fit an [int] - of one line ([line_ok]), or of
    every line a client of the environment ever sends
    ([Progress.clients_in_range]; it restricts the clients, not the parser) -,
    a deadline that fits [long] ([write_timeout]), codecs with a frame rate
    that can be divided by and memory for the null renderer
    ([Startup.start_up_safe]).  [reads] is a client
    that takes at least a byte of what it is sent, [memory] that the pool of
    an event can be had; [accept_fresh] that [accept] returns no descriptor
    that is open; [counters_unsigned] is the type of RTCP's packet counter.

    ** Not modelled

    - Interleaving inside an operation of the main thread - one [select],
      [recv], dispatched command, response, event, [accept] or change of the
      connection - or inside a callback; callbacks are not concurrent with each
      other.  The programs of the model are functions on states, so the
      points between two library calls of one command are not there to act
      at; and what pjsua-lib runs, under which of its own locks, from inside
      a call of the daemon is not in this repository.  (A callback at the end
      of a command - a hang-up that reports DISCONNECTED - is one between the
      operations [Dispatching] and [Answering].)  The events lock is modelled,
      and that no operation takes it twice; data races on the static variables
      are not.
    - The streams of the null renderer between the other activity: pjmedia
      creates, uses and destroys them, and NullVideoDev says what each of
      these operations does, but the interleavings contain none, so the
      streams' pools are not among those counted in Pools.
    - What is in a memory pool: pools are created, reset and released, and
      their creation can fail, but allocation from one cannot.
    - The in-place modification of a line by the JSON parser, FD_SETSIZE, the
      buffering of stdout (setvbuf).
    - The macros of log lines expand to calls that format their arguments;
      the text itself is left to the library.
    - The signal handler after [pjsua_destroy]: the object it writes to lives
      in a pool, whose contents are not modelled.
    - tests/, packaging/, cmake/: not part of the daemon. *)

From Stdlib Require Export ZArith Lia Ascii String.
From stdpp Require Export base decidable sets list list_numbers numbers option strings relations.
#[global] Open Scope Z_scope.

(** ** Outcomes of C code

    A C function either returns, or runs into undefined behaviour (an access
    outside an object, a conversion whose value does not fit, locking a mutex
    its own thread holds), or - for a loop that is run with fuel - has not
    returned when the fuel is used up. *)
Inductive res (A : Type) : Type :=
| Ok (a : A)
| Undef
| NoFuel.
Arguments Ok {A} a.
Arguments Undef {A}.
Arguments NoFuel {A}.

(** The state monad over [res] every stateful function is written in. *)
Definition M (S A : Type) : Type := S -> res (A * S).

#[global] Instance M_ret {S} : MRet (M S) := fun A a s => Ok (a, s).
#[global] Instance M_bind {S} : MBind (M S) := fun A B k m s =>
  match m s with
  | Ok (a, s') => k a s'
  | Undef => Undef
  | NoFuel => NoFuel
  end.

Definition gets {S A} (f : S -> A) : M S A := fun s => Ok (f s, s).
Definition modify {S} (f : S -> S) : M S unit := fun s => Ok (tt, f s).
Definition undef {S A} : M S A := fun _ => Undef.
Definition nofuel {S A} : M S A := fun _ => NoFuel.
Definition when {S} (b : bool) (m : M S unit) : M S unit :=
  if b then m else mret tt.

(** ** Weakest preconditions

    [wpf F m Q s]: running [m] from [s] either returns a value and a state
    that satisfy [Q], or does not return and [F] holds.  [wp] is the total
    reading ([m] returns), [wlp] the partial one. *)
Definition wpf {S A} (F : Prop) (m : M S A) (Q : A -> S -> Prop) (s : S) : Prop :=
  match m s with
  | Ok (a, s') => Q a s'
  | Undef => F
  | NoFuel => F
  end.
Abbreviation wp := (wpf False).
Abbreviation wlp := (wpf True).

Section wp_rules.
Context {S : Type}.
Implicit Types s : S.

Lemma wpf_ret F {A} (a : A) Q s : Q a s -> wpf F (mret a) Q s.
Proof. done. Qed.

Lemma wpf_bind F {A B} (m : M S A) (k : A -> M S B) Q s :
  wpf F m (fun a s' => wpf F (k a) Q s') s -> wpf F (m ≫= k) Q s.
Proof. unfold wpf, mbind, M_bind. destruct (m s) as [[a s']| |]; done. Qed.

Lemma wpf_bind_inv F {A B} (m : M S A) (k : A -> M S B) Q s :
  wpf F (m ≫= k) Q s -> wpf F m (fun a s' => wpf F (k a) Q s') s.
Proof. unfold wpf, mbind, M_bind. destruct (m s) as [[a s']| |]; done. Qed.

Lemma wpf_gets F {A} (f : S -> A) Q s : Q (f s) s -> wpf F (gets f) Q s.
Proof. done. Qed.

Lemma wpf_modify F (f : S -> S) Q s : Q tt (f s) -> wpf F (modify f) Q s.
Proof. done. Qed.

Lemma wpf_when F b (m : M S unit) Q s :
  (b = true -> wpf F m Q s) -> (b = false -> Q tt s) -> wpf F (when b m) Q s.
Proof. destruct b; unfold when; auto using wpf_ret. Qed.

Lemma wpf_mono F {A} (m : M S A) (Q Q' : A -> S -> Prop) s :
  wpf F m Q s -> (forall a s', Q a s' -> Q' a s') -> wpf F m Q' s.
Proof. unfold wpf. destruct (m s) as [[a s']| |]; eauto. Qed.

Lemma wpf_conj F {A} (m : M S A) (Q Q' : A -> S -> Prop) s :
  wpf F m Q s -> wpf F m Q' s -> wpf F m (fun a s' => Q a s' /\ Q' a s') s.
Proof. unfold wpf. destruct (m s) as [[a s']| |]; done. Qed.

Lemma wpf_run F {A} (m : M S A) Q s :
  wpf F m Q s -> wpf F m (fun a s' => Q a s' /\ m s = Ok (a, s')) s.
Proof. unfold wpf. by destruct (m s) as [[a s']| |]. Qed.

Lemma wlp_run {A} (m : M S A) Q s a s' : wlp m Q s -> m s = Ok (a, s') -> Q a s'.
Proof. unfold wpf. intros Hw Hm. by rewrite Hm in Hw. Qed.

Lemma wlp_undef {A} Q s : wlp (undef : M S A) Q s.
Proof. done. Qed.

Lemma wlp_nofuel {A} Q s : wlp (nofuel : M S A) Q s.
Proof. done. Qed.

Lemma wp_wlp {A} (m : M S A) Q s : wp m Q s -> wlp m Q s.
Proof. unfold wpf. destruct (m s) as [[a s']| |]; done. Qed.

Lemma wlp_wpf F {A} (m : M S A) Q s :
  wlp m Q s -> F \/ wp m (fun _ _ => True) s -> wpf F m Q s.
Proof. unfold wpf. destruct (m s) as [[a s']| |]; tauto. Qed.

Lemma wpf_conj_wlp F {A} (m : M S A) (Q Q' : A -> S -> Prop) s :
  wpf F m Q s -> wlp m Q' s -> wpf F m (fun a s' => Q a s' /\ Q' a s') s.
Proof. unfold wpf. destruct (m s) as [[a s']| |]; done. Qed.

Lemma wp_eq {A} (m : M S A) a s s' :
  wp m (fun a' t => a' = a /\ t = s') s <-> m s = Ok (a, s').
Proof.
  unfold wpf. destruct (m s) as [[b t]| |]; split; try done.
  - intros [-> ->]. done.
  - intros [= -> ->]. done.
Qed.

(** A specification that relates the state before and after by a
    preorder is closed under sequencing. *)
Definition respects {A} (R : S -> S -> Prop) (m : M S A) : Prop :=
  forall s, wlp m (fun _ s' => R s s') s.

Lemma respects_bind {A B} R `{!PreOrder R} (m : M S A) (k : A -> M S B) :
  respects R m -> (forall a, respects R (k a)) -> respects R (m ≫= k).
Proof.
  intros Hm Hk s. apply wpf_bind. eapply wpf_mono; [apply Hm|].
  intros a s' HR. eapply wpf_mono; [apply Hk|]. intros b s'' HR'.
  simpl in *. by transitivity s'.
Qed.

Lemma respects_ret {A} R `{!PreOrder R} (a : A) : respects R (mret a : M S A).
Proof. intros s. apply wpf_ret. reflexivity. Qed.

Lemma respects_gets {A} R `{!PreOrder R} (f : S -> A) : respects R (gets f).
Proof. intros s. apply wpf_gets. reflexivity. Qed.

Lemma respects_modify R (f : S -> S) :
  (forall s, R s (f s)) -> respects R (modify f).
Proof. intros HR s. apply wpf_modify, HR. Qed.

Lemma respects_when R `{!PreOrder R} b (m : M S unit) :
  respects R m -> respects R (when b m).
Proof. intros Hm. destruct b; [done|]. by apply respects_ret. Qed.

Lemma respects_undef {A} R : respects R (undef : M S A).
Proof. by intros s. Qed.

Lemma respects_nofuel {A} R : respects R (nofuel : M S A).
Proof. by intros s. Qed.

(** A predicate of states is kept by a program; the programs that keep it
    are closed under the program constructs. *)
Definition keeps {A} (F : Prop) (I : S -> Prop) (m : M S A) : Prop :=
  forall s, I s -> wpf F m (fun _ s' => I s') s.

Lemma keeps_bind {A B} F I (m : M S A) (k : A -> M S B) :
  keeps F I m -> (forall a, keeps F I (k a)) -> keeps F I (m ≫= k).
Proof.
  intros Hm Hk s Hs. apply wpf_bind. eapply wpf_mono; [by apply Hm|].
  intros a s' Hs'. by apply Hk.
Qed.

Lemma keeps_ret {A} F I (a : A) : keeps F I (mret a : M S A).
Proof. intros s Hs. by apply wpf_ret. Qed.

Lemma keeps_gets {A} F I (f : S -> A) : keeps F I (gets f).
Proof. intros s Hs. by apply wpf_gets. Qed.

Lemma keeps_modify F I (f : S -> S) :
  (forall s, I s -> I (f s)) -> keeps F I (modify f).
Proof. intros Hf s Hs. by apply wpf_modify, Hf. Qed.

Lemma keeps_when F I b (m : M S unit) : keeps F I m -> keeps F I (when b m).
Proof. intros Hm. destruct b; [done|]. apply keeps_ret. Qed.

Lemma keeps_undef {A} I : keeps True I (undef : M S A).
Proof. by intros s. Qed.

Lemma keeps_conj {A} F I J (m : M S A) :
  keeps F I m -> keeps F J m -> keeps F (fun s => I s /\ J s) m.
Proof. intros Hm Hm' s [HI HJ]. apply wpf_conj; auto. Qed.

(** A program that keeps [I] may be stepped over. *)
Lemma wpf_keeps_bind F I {A B} (m : M S A) (k : A -> M S B) Q s :
  I s -> keeps F I m -> (forall a s', I s' -> wpf F (k a) Q s') ->
  wpf F (m ≫= k) Q s.
Proof.
  intros Hs Hm Hk. apply wpf_bind. eapply wpf_mono; [by apply Hm|].
  intros a s'. apply Hk.
Qed.

Lemma keeps_wlp {A} F I (m : M S A) : keeps F I m -> keeps True I m.
Proof.
  intros Hm s Hs. specialize (Hm s Hs). unfold wpf in *.
  by destruct (m s) as [[a s']| |].
Qed.

Lemma respects_keeps {A} R I (m : M S A) :
  respects R m -> (forall s s', R s s' -> I s -> I s') -> keeps True I m.
Proof. intros Hm HI s Hs. eapply wpf_mono; [apply Hm|]. intros a s' HR. exact (HI s s' HR Hs). Qed.
End wp_rules.

(** [wp_step] applies the rule of the head of the program; [wp_go] repeats it
    and splits the program's own case distinctions. *)
Ltac wp_step :=
  lazymatch goal with
  | |- wpf _ (mbind _ _) _ _ => apply wpf_bind
  | |- wpf _ (mret _) _ _ => apply wpf_ret
  | |- wpf _ (gets _) _ _ => apply wpf_gets
  | |- wpf _ (modify _) _ _ => apply wpf_modify
  | |- wpf True undef _ _ => exact I
  | |- wpf True nofuel _ _ => exact I
  | |- wpf _ (let '(_, _) := ?p in _) _ _ => destruct p eqn:?
  | |- wpf _ (if ?b then _ else _) _ _ => destruct b eqn:?
  | |- wpf _ (match ?x with _ => _ end) _ _ => destruct x eqn:?
  end; cbn beta iota.
Ltac wp_go := repeat wp_step.

Create HintDb respects_db.

(** [respects_go] proves that a program respects a preorder from the
    [respects_db] facts about the operations it calls. *)
Ltac respects_step :=
  lazymatch goal with
  | |- forall _, _ => intros ?
  | |- respects _ (mbind _ _) => apply respects_bind; [exact _|..]
  | |- respects _ (mret _) => apply respects_ret; exact _
  | |- respects _ (gets _) => apply respects_gets; exact _
  | |- respects _ (when _ _) => apply respects_when; [exact _|]
  | |- respects _ undef => apply respects_undef
  | |- respects _ nofuel => apply respects_nofuel
  | |- respects _ (let '(_, _) := ?p in _) => destruct p
  | |- respects _ (if ?b then _ else _) => destruct b
  | |- respects _ (match ?x with _ => _ end) => destruct x
  | |- respects _ _ => first [solve [auto with nocore respects_db]
                             | apply respects_modify; intros; reflexivity
                             | eauto 2 with nocore respects_db]
  end.
Ltac respects_go := repeat (respects_step; cbn beta iota).

Create HintDb keeps_db.
Create HintDb ops.

(** [keeps_go] proves that a program keeps a predicate from the [keeps_db]
    facts about the operations it calls. *)
Ltac keeps_step :=
  lazymatch goal with
  | |- forall _, _ => intros ?
  | |- keeps _ _ (mbind _ _) => apply keeps_bind
  | |- keeps _ _ (mret _) => apply keeps_ret
  | |- keeps _ _ (gets _) => apply keeps_gets
  | |- keeps _ _ (when _ _) => apply keeps_when
  | |- keeps True _ undef => apply keeps_undef
  | |- keeps _ _ (let '(_, _) := ?p in _) => destruct p
  | |- keeps _ _ (if ?b then _ else _) => destruct b
  | |- keeps _ _ (match ?x with _ => _ end) => destruct x
  | |- keeps _ _ (modify _) =>
      first [solve [eauto 3 with nocore keeps_db] | apply keeps_modify; intros ?]
  | |- keeps _ _ _ =>
      first [solve [eauto 3 with nocore keeps_db] | progress autounfold with ops]
  end.
Ltac keeps_go := repeat (keeps_step; cbn beta iota).

(** Steps over the first operation of a program, which keeps the predicate
    that hypothesis [H] asserts of the state. *)
Ltac keeps_over H :=
  lazymatch type of H with
  | ?I ?s => eapply (wpf_keeps_bind _ I); [exact H|keeps_go|clear H; intros ? ? H]
  end.

(** ** Record update

    [r <| proj := v |>] is [r] with field [proj] replaced, for every record
    type with a [Settable] instance (its eta expansion). *)
Class Settable (R : Type) := eta_record : R -> R.
Class SetterOf {R T : Type} (proj : R -> T) := set_with : (T -> T) -> R -> R.
Arguments set_with {R T} proj {_} _ _ /.

Ltac solve_setter :=
  match goal with
  | |- @SetterOf ?R ?T ?proj =>
      let i := constr:(ltac:(typeclasses eauto) : Settable R) in
      let e := eval red in i in
      let g := eval pattern proj in e in
      lazymatch g with
      | ?g' _ => exact (fun upd r => g' (fun x => upd (proj x)) r)
      end
  end.
#[global] Hint Extern 1 (SetterOf _) => solve_setter : typeclass_instances.

Declare Scope update_scope.
Delimit Scope update_scope with upd.
#[global] Open Scope update_scope.
Notation "r <| proj := v |>" := (set_with proj (fun _ => v) r)
  (at level 12, left associativity, format "r  <| proj  :=  v |>") : update_scope.

(** ** Machine integers of the C sources *)

(** [int] and [unsigned] have 32 bits on every target of the daemon; the
    width of [long] differs between them and is a parameter where it
    matters. *)
Definition to_unsigned (z : Z) : Z := z mod 2 ^ 32.
Definition is_int (z : Z) : bool := (- 2 ^ 31 <=? z) && (z <? 2 ^ 31).
Definition is_unsigned (z : Z) : bool := (0 <=? z) && (z <? 2 ^ 32).

(** Conversion of a value to a signed [w]-bit type (two's complement). *)
Definition to_signed (w z : Z) : Z :=
  (z + 2 ^ (w - 1)) mod 2 ^ w - 2 ^ (w - 1).

Lemma to_unsigned_range z : 0 <= to_unsigned z < 2 ^ 32.
Proof. apply Z.mod_pos_bound. lia. Qed.

Lemma to_unsigned_small z : 0 <= z < 2 ^ 32 -> to_unsigned z = z.
Proof. apply Z.mod_small. Qed.

(** ** Bytes and characters *)
Abbreviation bytes := (list ascii).
Definition NUL : ascii := "000"%char.
Definition TAB : ascii := "009"%char.
Definition LF : ascii := "010"%char.
Definition CR : ascii := "013"%char.
Definition SPACE : ascii := " "%char.
Definition QUOTE : ascii := "034"%char.
(** A string between double quotes. *)
Definition quoted (s : string) : string := String QUOTE (s ++ String QUOTE EmptyString).
Definition BACKSLASH : ascii := "\"%char.

Abbreviation bytes_of_string := String.list_ascii_of_string.
Abbreviation string_of_bytes := String.string_of_list_ascii.

#[global] Instance ascii_eq_dec : EqDecision ascii := Ascii.ascii_dec.
