(* ===== verification/Float32.v ===== *)
(** * Single-precision numbers

    [pj_json_elem] carries every JSON number in a C [float], so each integer
    the daemon puts on the wire or takes from it passes through an IEEE 754
    binary32 conversion: [(float)x] in the builders (call.c, account.c,
    dispatch.c) and [(int)el->value.num] in [get_int_member] (dispatch.c).
    Both conversions are defined here on the Standard Library's [spec_float],
    with precision 24 and maximal exponent 128. *)

From S2P Require Import Prelude.
From Stdlib Require Export SpecFloat.

Abbreviation float := spec_float.

(** C's [(float)x] of an integer [x]: round to nearest, ties to even. *)
Definition float_of_int (z : Z) : float := binary_normalize 24 128 z 0 false.

(** The integer part of a finite number, towards zero. *)
Definition trunc (f : float) : option Z :=
  match f with
  | S754_zero _ => Some 0
  | S754_finite s m e =>
      let a := if 0 <=? e then Zpos m * 2 ^ e else Zpos m / 2 ^ (- e) in
      Some (if s then - a else a)
  | S754_infinity _ => None
  | S754_nan => None
  end.

(** C's [(int)f]: truncation; the behaviour is undefined ([None]) when the
    truncated value is not an [int]. *)
Definition int_of_float (f : float) : option Z :=
  match trunc f with
  | Some z => if is_int z then Some z else None
  | None => None
  end.

Example float_of_int_7 : float_of_int 7 = S754_finite false 14680064 (-21).
Proof. reflexivity. Qed.
Example float_of_int_ties : trunc (float_of_int (2 ^ 24 + 1)) = Some (2 ^ 24).
Proof. reflexivity. Qed.

(** ** Integers of at most 24 bits are exact *)

Lemma digits2_pos_log2 p : Zpos (digits2_pos p) = Z.log2 (Zpos p) + 1.
Proof.
  induction p as [p IH|p IH|]; simpl digits2_pos; [| |done].
  - rewrite Pos2Z.inj_succ, IH. change (Zpos p~1) with (2 * Zpos p + 1).
    rewrite Z.log2_succ_double by lia. lia.
  - rewrite Pos2Z.inj_succ, IH. change (Zpos p~0) with (2 * Zpos p).
    rewrite Z.log2_double by lia. lia.
Qed.

Lemma shift_pos_spec n m : Zpos (shift_pos n m) = Zpos m * 2 ^ Zpos n.
Proof. rewrite shift_pos_correct, Z.pow_pos_fold. lia. Qed.

Lemma digits2_pos_shift n m :
  Zpos (digits2_pos (shift_pos n m)) = Zpos (digits2_pos m) + Zpos n.
Proof.
  rewrite !digits2_pos_log2, shift_pos_spec, Z.log2_mul_pow2 by lia. lia.
Qed.

(** With at most 24 significant bits nothing is shifted out: the mantissa is
    the integer scaled up to 24 bits. *)
Lemma binary_round_small s p :
  Zpos (digits2_pos p) <= 24 ->
  exists m e, binary_round 24 128 s p 0 = S754_finite s m e /\
              e <= 0 /\ Zpos m = Zpos p * 2 ^ (- e).
Proof.
  intros Hd. unfold binary_round.
  set (k := Zpos (digits2_pos p)) in *.
  assert (Hk : 1 <= k) by lia.
  assert (Hf : fexp 24 128 (k + 0) = k - 24) by (unfold fexp, emin; lia).
  assert (Haux : forall m e, Zpos (digits2_pos m) = 24 -> -23 <= e <= 0 ->
    binary_round_aux 24 128 s (Zpos m) e loc_Exact = S754_finite s m e).
  { intros m e Hm He. unfold binary_round_aux, shr_fexp, shr_record_of_loc.
    cbn [Zdigits2]. rewrite Hm.
    replace (fexp 24 128 (24 + e) - e) with 0 by (unfold fexp, emin; lia).
    cbn [shr shr_m loc_of_shr_record round_nearest_even Zdigits2]. rewrite Hm.
    replace (fexp 24 128 (24 + e) - e) with 0 by (unfold fexp, emin; lia).
    cbn [shr shr_m]. destruct (Z.leb_spec e (128 - 24)); [done|lia]. }
  rewrite Hf. unfold shl_align. rewrite Z.sub_0_r.
  destruct (k - 24) as [|q|q] eqn:Ek; [| lia |].
  - exists p, 0. rewrite Haux by (unfold k in *; lia). split; [done|lia].
  - change (Pos.iter xO p q) with (shift_pos q p).
    exists (shift_pos q p), (Zneg q). rewrite Haux.
    + split; [done|]. split; [lia|]. rewrite shift_pos_spec. f_equal.
    + rewrite digits2_pos_shift. fold k. lia.
    + lia.
Qed.

Lemma trunc_scaled s p m e :
  e <= 0 -> Zpos m = Zpos p * 2 ^ (- e) ->
  trunc (S754_finite s m e) = Some (if s then Zneg p else Zpos p).
Proof.
  intros He Hm. simpl trunc. destruct (Z.leb_spec 0 e) as [H0|H0].
  - replace e with 0 in * by lia. rewrite Z.pow_0_r in *.
    replace m with p by lia. destruct s; f_equal; lia.
  - rewrite Hm, Z.div_mul by (apply Z.pow_nonzero; lia). by destruct s.
Qed.

Lemma digits2_pos_24 p : Zpos p < 2 ^ 24 -> Zpos (digits2_pos p) <= 24.
Proof.
  intros Hp. rewrite digits2_pos_log2.
  assert (Z.log2 (Zpos p) < 24) by (apply Z.log2_lt_pow2; lia). lia.
Qed.

(** Every integer of magnitude up to 2^24 survives the trip through [float]. *)
Lemma trunc_float_of_int z :
  - 2 ^ 24 <= z <= 2 ^ 24 -> trunc (float_of_int z) = Some z.
Proof.
  intros Hz.
  destruct (decide (z = 2 ^ 24)) as [->|]; [reflexivity|].
  destruct (decide (z = - 2 ^ 24)) as [->|]; [reflexivity|].
  unfold float_of_int, binary_normalize. destruct z as [|p|p]; [done| |].
  - destruct (binary_round_small false p) as (m & e & -> & He & Hm);
      [apply digits2_pos_24; lia|]. by rewrite (trunc_scaled _ p).
  - destruct (binary_round_small true p) as (m & e & -> & He & Hm);
      [apply digits2_pos_24; lia|]. by rewrite (trunc_scaled _ p).
Qed.

Lemma is_int_spec z : is_int z = true <-> - 2 ^ 31 <= z < 2 ^ 31.
Proof. unfold is_int. rewrite andb_true_iff, Z.leb_le, Z.ltb_lt. done. Qed.

Lemma int_of_float_of_int z :
  - 2 ^ 24 <= z <= 2 ^ 24 -> int_of_float (float_of_int z) = Some z.
Proof.
  intros Hz. unfold int_of_float. rewrite trunc_float_of_int by done.
  replace (is_int z) with true; [done|]. symmetry. apply is_int_spec. lia.
Qed.
