(* ===== verification/Pjlib.v ===== *)
(** * The daemon's environment: data types of pjlib, pjsua-lib and POSIX

    The structures, enumerations and constants of the library headers that
    the daemon reads or writes, with the fields it touches.  What a library
    function answers is not defined anywhere in this development: the
    functions are the fields of the classes of Env.v. *)

From S2P Require Import Prelude Float32.

(** ** Status codes

    [pj_status_t] is an [int]; the codes the daemon tells apart are distinct
    constants, every other code is [PJ_STATUS_OTHER]. *)
Inductive os_error : Type := EAGAIN | EWOULDBLOCK | EINTR | ERRNO (n : Z).

Inductive pj_status : Type :=
| PJ_SUCCESS
| PJ_EPENDING
| PJ_EINVAL
| PJ_ENAMETOOLONG
| PJ_ENOTFOUND
| PJ_ENOMEM
| PJ_ETIMEDOUT
| PJ_EINVALIDOP
| PJ_EEXISTS
| PJ_EEOF
| PJ_ETOOBIG
| PJMEDIA_EVID_INVDEV
| PJMEDIA_EVID_INVCAP
| PJ_STATUS_FROM_OS (e : os_error)
| PJ_STATUS_OTHER (code : Z).

#[global] Instance os_error_eq_dec : EqDecision os_error.
Proof. solve_decision. Defined.
#[global] Instance pj_status_eq_dec : EqDecision pj_status.
Proof. solve_decision. Defined.

(** [status == PJ_SUCCESS] *)
Definition ok (st : pj_status) : bool := bool_decide (st = PJ_SUCCESS).

Lemma ok_true st : ok st = true <-> st = PJ_SUCCESS.
Proof. apply bool_decide_eq_true. Qed.
Lemma ok_false st : ok st = false <-> st <> PJ_SUCCESS.
Proof. apply bool_decide_eq_false. Qed.

(** ** JSON elements (pjlib-util/json.h)

    A [pj_json_elem] is a name and a tagged value; the children of an array
    or an object form a list in insertion order. *)
Inductive jelem : Type := Elem (name : string) (value : jvalue)
with jvalue : Type :=
| PJ_JSON_VAL_NULL
| PJ_JSON_VAL_BOOL (is_true : bool)
| PJ_JSON_VAL_NUMBER (num : float)
| PJ_JSON_VAL_STRING (str : string)
| PJ_JSON_VAL_ARRAY (children : list jelem)
| PJ_JSON_VAL_OBJ (children : list jelem).

Definition el_name (e : jelem) : string := let 'Elem n _ := e in n.
Definition el_value (e : jelem) : jvalue := let 'Elem _ v := e in v.
Definition children_of (v : jvalue) : list jelem :=
  match v with
  | PJ_JSON_VAL_ARRAY cs | PJ_JSON_VAL_OBJ cs => cs
  | _ => []
  end.

(** ** pjmedia and pjsip enumerations *)

Definition PJSUA_INVALID_ID : Z := -1.

(** [pjmedia_dir] is a bit mask: bit 0 is the encoding (capture) direction,
    bit 1 the decoding (render, playback) direction. *)
Definition PJMEDIA_DIR_NONE : Z := 0.
Definition PJMEDIA_DIR_ENCODING : Z := 1.
Definition PJMEDIA_DIR_CAPTURE : Z := PJMEDIA_DIR_ENCODING.
Definition PJMEDIA_DIR_DECODING : Z := 2.
Definition PJMEDIA_DIR_RENDER : Z := PJMEDIA_DIR_DECODING.
Definition PJMEDIA_DIR_ENCODING_DECODING : Z := 3.
Definition PJMEDIA_DIR_CAPTURE_PLAYBACK : Z := PJMEDIA_DIR_ENCODING_DECODING.

(** [dir & bit] as a truth value *)
Definition dir_has (dir bit : Z) : bool := negb (Z.land dir bit =? 0).

Inductive media_type : Type :=
| PJMEDIA_TYPE_AUDIO | PJMEDIA_TYPE_VIDEO | PJMEDIA_TYPE_OTHER (n : Z).
#[global] Instance media_type_eq_dec : EqDecision media_type.
Proof. solve_decision. Defined.

Inductive media_status : Type :=
| PJSUA_CALL_MEDIA_NONE | PJSUA_CALL_MEDIA_ACTIVE | PJSUA_CALL_MEDIA_LOCAL_HOLD
| PJSUA_CALL_MEDIA_REMOTE_HOLD | PJSUA_CALL_MEDIA_ERROR
| PJSUA_CALL_MEDIA_OTHER (n : Z).
#[global] Instance media_status_eq_dec : EqDecision media_status.
Proof. solve_decision. Defined.

Inductive inv_state : Type :=
| PJSIP_INV_STATE_NULL | PJSIP_INV_STATE_CALLING | PJSIP_INV_STATE_INCOMING
| PJSIP_INV_STATE_EARLY | PJSIP_INV_STATE_CONNECTING
| PJSIP_INV_STATE_CONFIRMED | PJSIP_INV_STATE_DISCONNECTED
| PJSIP_INV_STATE_OTHER (n : Z).
#[global] Instance inv_state_eq_dec : EqDecision inv_state.
Proof. solve_decision. Defined.

Definition PJSIP_SC_TEMPORARILY_UNAVAILABLE : Z := 480.

(** ** pjsua structures

    Fields the daemon never touches are collected in an opaque
    [.._other] component, so that a copy of a structure keeps them. *)

Inductive cred_data_type : Type :=
| PJSIP_CRED_DATA_PLAIN_PASSWD | CRED_DATA_OTHER (n : Z).

Record cred_info : Type := {
  cred_realm : string; cred_scheme : string; cred_username : string;
  cred_data_type_ : cred_data_type; cred_data : string }.

Record acc_config : Type := {
  acc_id_uri : string; acc_reg_uri : string; register_on_acc_add : bool;
  vid_in_auto_show : bool; vid_out_auto_transmit : bool; vid_cap_dev : Z;
  cred_count : Z; cred_info0 : cred_info; acc_other : Z }.
#[global] Instance acc_config_settable : Settable acc_config := fun c =>
  {| acc_id_uri := acc_id_uri c; acc_reg_uri := acc_reg_uri c;
     register_on_acc_add := register_on_acc_add c;
     vid_in_auto_show := vid_in_auto_show c;
     vid_out_auto_transmit := vid_out_auto_transmit c;
     vid_cap_dev := vid_cap_dev c; cred_count := cred_count c;
     cred_info0 := cred_info0 c; acc_other := acc_other c |}.

Record acc_info : Type := {
  acc_info_id : Z; acc_info_status : Z; acc_info_status_text : string }.

(** [pjsua_reg_info]: [renew] tells a REGISTER from an un-REGISTER. *)
Record reg_info : Type := { renew : bool }.

Record call_setting : Type := { vid_cnt : Z; txt_cnt : Z; setting_other : Z }.
#[global] Instance call_setting_settable : Settable call_setting := fun c =>
  {| vid_cnt := vid_cnt c; txt_cnt := txt_cnt c; setting_other := setting_other c |}.

(** [pjsua_call_media_info]; [media_conf_slot] is [stream.aud.conf_slot]. *)
Record call_media_info : Type := {
  media_type_ : media_type; media_status_ : media_status;
  media_dir : Z; media_conf_slot : Z }.

(** [pjsua_call_info]; [media_cnt] is the length of [call_media]. *)
Record call_info : Type := {
  call_info_id : Z; call_info_acc_id : Z; call_state : inv_state;
  last_status : Z; last_status_text : string; remote_info : string;
  call_media : list call_media_info; rem_aud_cnt : Z; rem_vid_cnt : Z;
  connect_duration_sec : Z }.

(** The packet counters of [pjsua_stream_stat]. *)
Record stream_stat : Type := { rtcp_tx_pkt : Z; rtcp_rx_pkt : Z }.

(** The fields of [pjsua_stream_info] the negotiation log prints. *)
Record stream_info : Type := {
  stream_type : media_type; stream_codec : string;
  stream_tx_pt : Z; stream_rx_pt : Z }.

Record aud_dev_info : Type := {
  aud_id : Z; aud_name : string; input_count : Z; output_count : Z }.
Record vid_dev_info : Type := {
  vid_id : Z; vid_name : string; vid_driver : string; vid_dir : Z }.

Inductive vid_strm_op : Type :=
| PJSUA_CALL_VID_STRM_REMOVE | PJSUA_CALL_VID_STRM_CHANGE_CAP_DEV.

Record vid_strm_op_param : Type := {
  op_med_idx : Z; op_cap_dev : Z; op_other : Z }.
#[global] Instance vid_strm_op_param_settable : Settable vid_strm_op_param :=
  fun p => {| op_med_idx := op_med_idx p; op_cap_dev := op_cap_dev p;
              op_other := op_other p |}.

Inductive snd_dev_mode : Type :=
| PJSUA_SND_DEV_NO_IMMEDIATE_OPEN | SND_DEV_MODE_OTHER (n : Z).
Record snd_dev_param : Type := {
  capture_dev : Z; playback_dev : Z; snd_mode : snd_dev_mode; snd_other : Z }.
#[global] Instance snd_dev_param_settable : Settable snd_dev_param :=
  fun p => {| capture_dev := capture_dev p; playback_dev := playback_dev p;
              snd_mode := snd_mode p; snd_other := snd_other p |}.

(** The three [pj_timer_entry] objects of call.c. *)
Inductive timer : Type := RING_TIMER | VIDEO_WATCHDOG | MEDIA_REPORT.
#[global] Instance timer_eq_dec : EqDecision timer.
Proof. solve_decision. Defined.

(** [pj_time_val]; both fields are [long]. *)
Record time_val : Type := { sec : Z; msec : Z }.
Definition time_msec (t : time_val) : Z := sec t * 1000 + msec t.

(** An SDP media line as [on_call_rx_offer] reads it. *)
Record sdp_media : Type := { sdp_media_name : string; sdp_port : Z }.

(** ** Start-up structures

    The callback slots of [pjsua_config] that the daemon fills; the lists
    are the [nameserver] and [stun_srv] arrays with their counts. *)
Inductive callback : Type :=
| on_reg_state2 | on_call_state | on_call_media_state | on_call_media_event
| on_call_rx_offer | on_incoming_call | on_pager2 | on_pager_status2 | on_typing2.
#[global] Instance callback_eq_dec : EqDecision callback.
Proof. solve_decision. Defined.

Record pjsua_config : Type := {
  nameserver : list bytes; cfg_user_agent : bytes; stun_srv : list bytes;
  stun_ignore_failure : bool; cb : list callback; ua_other : Z }.
#[global] Instance pjsua_config_settable : Settable pjsua_config := fun c =>
  {| nameserver := nameserver c; cfg_user_agent := cfg_user_agent c; stun_srv := stun_srv c;
     stun_ignore_failure := stun_ignore_failure c; cb := cb c; ua_other := ua_other c |}.

Record pjsua_logging_config : Type := { level : Z; console_level : Z; logging_other : Z }.
#[global] Instance pjsua_logging_config_settable : Settable pjsua_logging_config := fun c =>
  {| level := level c; console_level := console_level c; logging_other := logging_other c |}.

Record pjsua_media_config : Type := { no_vad : bool; enable_ice : bool; media_other : Z }.
#[global] Instance pjsua_media_config_settable : Settable pjsua_media_config := fun c =>
  {| no_vad := no_vad c; enable_ice := enable_ice c; media_other := media_other c |}.

(** The encoder's video format in [pjmedia_vid_codec_param]. *)
Record vid_codec_param : Type := {
  size_w : Z; size_h : Z; fps_num : Z; fps_denum : Z; codec_other : Z }.
#[global] Instance vid_codec_param_settable : Settable vid_codec_param := fun p =>
  {| size_w := size_w p; size_h := size_h p; fps_num := fps_num p;
     fps_denum := fps_denum p; codec_other := codec_other p |}.

(** ** What [select()] reports *)
Inductive select_result : Type :=
| SelectError
| SelectTimeout
| SelectReady (fds : list Z).

(** Arguments of a log line; [LogErrno] is the text [strerror] gives. *)
Inductive log_arg : Type := LogNum (n : Z) | LogStr (s : string) | LogErrno (e : pj_status).
