(* ===== verification/Env.v ===== *)
(** * The interfaces to the libraries

    Everything the daemon calls outside its own sources is a field of one of
    two classes.  [PjJson] holds the pure functions of pjlib-util and pjlib
    (JSON tree building, parsing and printing, string comparison, error
    texts).  [Env] holds the functions with effects: each field is the answer
    of one library function, as a function of the history of all calls the
    daemon has made so far, so a library with any internal state - and any
    behaviour of the network, the clock and the SIP peers - is an instance.
    Documented properties of the answers are the fields of [PjJsonLaws] and
    [EnvLaws]. *)

From S2P Require Import Prelude Float32 Pjlib.

(** ** pjlib-util's JSON and pjlib's string functions *)
Class PjJson : Type := {
  pj_json_elem_bool : string -> bool -> jelem;
  pj_json_elem_number : string -> float -> jelem;
  pj_json_elem_string : string -> string -> jelem;
  pj_json_elem_array : string -> jelem;
  pj_json_elem_obj : string -> jelem;
  pj_json_elem_add : jelem -> jelem -> jelem;
  (** [pj_json_parse(pool, buf, &size, &err)]: [None] is a NULL result. *)
  pj_json_parse : bytes -> option jelem;
  (** [pj_json_write(elem, buf, &size)] into a buffer of the given size. *)
  pj_json_write : jelem -> Z -> pj_status * bytes;
  pj_strcmp2 : string -> string -> Z;
  pj_stricmp2 : string -> string -> Z;
  pj_strerror : pj_status -> string;
}.

(** What pjlib-util/json.h and pj/string.h document of these functions. *)
Class PjJsonLaws `{PjJson} : Prop := {
  elem_bool_spec n b : pj_json_elem_bool n b = Elem n (PJ_JSON_VAL_BOOL b);
  elem_number_spec n f : pj_json_elem_number n f = Elem n (PJ_JSON_VAL_NUMBER f);
  elem_string_spec n v : pj_json_elem_string n v = Elem n (PJ_JSON_VAL_STRING v);
  elem_array_spec n : pj_json_elem_array n = Elem n (PJ_JSON_VAL_ARRAY []);
  elem_obj_spec n : pj_json_elem_obj n = Elem n (PJ_JSON_VAL_OBJ []);
  elem_add_obj n cs e :
    pj_json_elem_add (Elem n (PJ_JSON_VAL_OBJ cs)) e
    = Elem n (PJ_JSON_VAL_OBJ (cs ++ [e]));
  elem_add_array n cs e :
    pj_json_elem_add (Elem n (PJ_JSON_VAL_ARRAY cs)) e
    = Elem n (PJ_JSON_VAL_ARRAY (cs ++ [e]));
  strcmp2_spec a b : pj_strcmp2 a b = 0 <-> a = b;
}.

Create Rewrite HintDb json.
#[export] Hint Rewrite @elem_bool_spec @elem_number_spec @elem_string_spec
  @elem_array_spec @elem_obj_spec @elem_add_obj @elem_add_array
  using exact _ : json.

(** ** The history of calls

    One constructor per library function the daemon calls, with the arguments
    and - where a statement reads it back - the answer.  The last one
    records what happens to the daemon: a timer of its own fires. *)
Inductive action : Type :=
| A_sock_send (s : Z) (data : bytes) (answer : pj_status * Z)
| A_sock_recv (s : Z) (cap : nat)
| A_gettickcount
| A_select_write (s : Z) (tv_sec tv_usec : Z)
| A_select_read (fds : list Z) (tv_sec tv_usec : Z)
| A_fcntl_getfl (s : Z)
| A_fcntl_setfl (s flags : Z)
| A_get_os_error
| A_accept (s : Z) (answer : pj_status * Z)
| A_close (s : Z)
| A_socket (answer : pj_status * Z)
| A_bind (s : Z) (path : string)
| A_chmod (path : string) (mode : Z)
| A_listen (s backlog : Z)
| A_unlink (path : string)
| A_pool_create (name : string) (answer : bool)
| A_pool_reset (name : string)
| A_pool_release (name : string)
| A_mutex_create (name : string)
| A_mutex_lock
| A_mutex_unlock
| A_acc_add (cfg : acc_config) (is_default : bool)
| A_acc_del (acc : Z)
| A_acc_set_registration (acc : Z) (renew : bool)
| A_acc_get_info (acc : Z)
| A_acc_get_config (acc : Z)
| A_acc_modify (acc : Z) (cfg : acc_config)
| A_call_make_call (acc : Z) (uri : string) (opt : call_setting)
| A_call_hangup (call code : Z)
| A_call_answer2 (call : Z) (opt : call_setting) (code : Z)
| A_call_get_info (call : Z)
| A_call_get_stream_stat (call : Z) (med_idx : nat)
| A_call_get_stream_info (call : Z) (med_idx : nat)
| A_call_set_vid_strm (call : Z) (op : vid_strm_op) (param : vid_strm_op_param)
| A_call_get_max_count
| A_call_get_count
| A_conf_connect (source sink : Z)
| A_schedule_timer (t : timer) (delay : time_val) (answer : pj_status)
| A_cancel_timer (t : timer)
| A_im_send (acc : Z) (to mime_type content : string)
| A_im_typing (acc : Z) (to : string) (is_typing : bool)
| A_enum_aud_devs
| A_vid_enum_devs
| A_snd_is_active
| A_set_no_snd_dev
| A_set_snd_dev2 (param : snd_dev_param)
| A_vid_dev_get_info (id : Z)
| A_pjsua_create (answer : pj_status)
| A_pjsua_destroy
| A_tsx_set_timers (t1 t2 t4 td : Z)
| A_pjsua_init (ua : pjsua_config) (log : pjsua_logging_config) (media : pjsua_media_config)
| A_register_null_factory
| A_vid_enum_codecs
| A_vid_codec_get_param (codec : string) (answer : pj_status * vid_codec_param)
| A_vid_codec_set_param (codec : string) (param : vid_codec_param) (answer : pj_status)
| A_transport_create
| A_pjsua_start
| A_aud_dev_count
| A_set_null_snd_dev
| A_log (level : Z) (fmt : string) (args : list log_arg)
| A_perror (level : Z) (status : pj_status) (fmt : string) (args : list log_arg)
| A_sua_perror (title : string) (status : pj_status)
| A_timer_fired (t : timer).

Abbreviation history := (list action).

(** What pjmedia does with a device factory that is registered with it, before
    the registration returns: it may not get to create it, create and
    initialise it, or destroy it again after that. *)
Inductive factory_use : Type := FACTORY_UNUSED | FACTORY_KEPT | FACTORY_DROPPED.

(** ** Effects: POSIX, pjlib and pjsua-lib

    An out-parameter the library may leave alone is an [option]. *)
Class Env : Type := {
  (* sockets, clock, pools *)
  ans_sock_send : history -> Z -> bytes -> pj_status * Z;
  ans_sock_recv : history -> Z -> nat -> pj_status * bytes;
  ans_gettickcount : history -> time_val;
  ans_select_write : history -> Z -> Z -> Z -> select_result;
  ans_select_read : history -> list Z -> Z -> Z -> select_result;
  ans_fcntl_getfl : history -> Z -> Z;
  ans_fcntl_setfl : history -> Z -> Z -> Z;
  ans_get_os_error : history -> pj_status;
  ans_accept : history -> Z -> pj_status * Z;
  ans_socket : history -> pj_status * Z;
  ans_bind : history -> Z -> string -> pj_status;
  ans_chmod : history -> string -> Z -> Z;
  ans_listen : history -> Z -> Z -> pj_status;
  ans_pool_create : history -> string -> bool;
  ans_mutex_create : history -> string -> pj_status;
  (* accounts *)
  ans_acc_add : history -> acc_config -> bool -> pj_status * option Z;
  ans_acc_del : history -> Z -> pj_status;
  ans_acc_set_registration : history -> Z -> bool -> pj_status;
  ans_acc_get_info : history -> Z -> pj_status * acc_info;
  ans_acc_get_config : history -> Z -> pj_status * acc_config;
  ans_acc_modify : history -> Z -> acc_config -> pj_status;
  (* calls *)
  ans_call_make_call : history -> Z -> string -> call_setting -> pj_status * option Z;
  ans_call_hangup : history -> Z -> Z -> pj_status;
  ans_call_answer2 : history -> Z -> call_setting -> Z -> pj_status;
  ans_call_get_info : history -> Z -> pj_status * call_info;
  ans_call_get_stream_stat : history -> Z -> nat -> pj_status * stream_stat;
  ans_call_get_stream_info : history -> Z -> nat -> pj_status * stream_info;
  ans_call_set_vid_strm : history -> Z -> vid_strm_op -> vid_strm_op_param -> pj_status;
  ans_call_get_max_count : history -> Z;
  ans_call_get_count : history -> Z;
  ans_conf_connect : history -> Z -> Z -> pj_status;
  ans_schedule_timer : history -> timer -> time_val -> pj_status;
  (* instant messages *)
  ans_im_send : history -> Z -> string -> string -> string -> pj_status;
  ans_im_typing : history -> Z -> string -> bool -> pj_status;
  (* devices *)
  ans_enum_aud_devs : history -> nat -> pj_status * list aud_dev_info;
  ans_vid_enum_devs : history -> nat -> pj_status * list vid_dev_info;
  ans_snd_is_active : history -> bool;
  ans_set_snd_dev2 : history -> snd_dev_param -> pj_status;
  ans_vid_dev_get_info : history -> Z -> pj_status * vid_dev_info;
  (* start-up *)
  ans_pjsua_create : history -> pj_status;
  ans_pjsua_init : history -> pjsua_config -> pjsua_logging_config -> pjsua_media_config -> pj_status;
  ans_register_null_factory : history -> pj_status * factory_use;
  ans_vid_enum_codecs : history -> nat -> pj_status * list string;
  ans_vid_codec_get_param : history -> string -> pj_status * vid_codec_param;
  ans_vid_codec_set_param : history -> string -> vid_codec_param -> pj_status;
  ans_transport_create : history -> pj_status;
  ans_pjsua_start : history -> pj_status;
  ans_aud_dev_count : history -> Z;
  ans_set_null_snd_dev : history -> pj_status;
  (* initialisers and constants of the library headers and of the build *)
  acc_config_default : acc_config;
  call_setting_default : call_setting;
  vid_strm_op_param_default : vid_strm_op_param;
  snd_dev_param_default : snd_dev_param;
  pjsua_config_default : pjsua_config;
  pjsua_logging_config_default : pjsua_logging_config;
  pjsua_media_config_default : pjsua_media_config;
  PJMEDIA_CODEC_MGR_MAX_CODECS : nat;
  sys_info : string;
  PJMEDIA_VID_INVALID_DEV : Z;
  O_NONBLOCK : Z;
  sizeof_sun_path : nat;
  LONG_BIT : Z;
  pj_get_version : string;
  PJSOCKY_VERSION : string;
}.

(** What the manual pages and headers document of the answers: [send] takes
    at most what it was given, [recv] fills at most the room it was given,
    the device enumerations respect the capacity they were given, a socket
    number is not negative, an account id is written exactly when adding the
    account succeeds, a device factory that is registered with success is
    there, the error of a failed system call (the daemon asks for no other) is
    not success, and the tick count does not run backwards. *)
Class EnvLaws `{Env} : Prop := {
  send_count h s data n :
    ans_sock_send h s data = (PJ_SUCCESS, n) -> n <= Z.of_nat (length data);
  recv_count h s cap data :
    ans_sock_recv h s cap = (PJ_SUCCESS, data) -> (length data <= cap)%nat;
  enum_aud_count h cap st devs :
    ans_enum_aud_devs h cap = (st, devs) -> (length devs <= cap)%nat;
  enum_vid_count h cap st devs :
    ans_vid_enum_devs h cap = (st, devs) -> (length devs <= cap)%nat;
  clock_monotone l h :
    time_msec (ans_gettickcount h) <= time_msec (ans_gettickcount (l ++ h));
  socket_valid h n : ans_socket h = (PJ_SUCCESS, n) -> 0 <= n;
  os_error_fails h : ans_get_os_error h <> PJ_SUCCESS;
  acc_add_writes h cfg d st o :
    ans_acc_add h cfg d = (st, o) -> (st = PJ_SUCCESS <-> is_Some o);
  acc_add_id h cfg d st id :
    ans_acc_add h cfg d = (st, Some id) -> id <> PJSUA_INVALID_ID;
  register_keeps h use :
    ans_register_null_factory h = (PJ_SUCCESS, use) -> use = FACTORY_KEPT;
}.
