(* ===== verification/SimEnv.v ===== *)
(** * A concrete environment

    A simulated machine, network and SIP stack: one instance of the class
    [Env] per script, with the documented laws.  The theorems of the
    development hold for every environment; this one is where their
    hypotheses are shown to be met, and where definitions are run. *)

From S2P Require Import Prelude Float32 Pjlib Env.
#[local] Open Scope string_scope.
#[local] Open Scope Z_scope.

(** What a script decides: what the control socket does, and what the SIP
    side answers. *)
Record script := {
  sim_send : history -> bytes -> pj_status * Z;
  sim_recv : history -> nat -> pj_status * bytes;
  sim_select_read : history -> select_result;
  sim_accept : history -> pj_status * Z;
  sim_bind : pj_status;
  sim_acc_add : pj_status * option Z;
  sim_acc_info : acc_info;
  sim_make_call : pj_status * option Z;
  sim_call_info : Z -> pj_status * call_info;
  sim_stream_stat : Z -> nat -> pj_status * stream_stat;
  sim_cameras : list vid_dev_info }.
#[global] Instance script_settable : Settable script := fun x =>
  {| sim_send := sim_send x; sim_recv := sim_recv x;
     sim_select_read := sim_select_read x; sim_accept := sim_accept x;
     sim_bind := sim_bind x; sim_acc_add := sim_acc_add x;
     sim_acc_info := sim_acc_info x; sim_make_call := sim_make_call x;
     sim_call_info := sim_call_info x; sim_stream_stat := sim_stream_stat x;
     sim_cameras := sim_cameras x |}.

(** A quiet script: writes succeed, nothing is read, no call exists. *)
Definition no_call : call_info :=
  {| call_info_id := 0; call_info_acc_id := 0; call_state := PJSIP_INV_STATE_NULL;
     last_status := 0; last_status_text := ""; remote_info := "";
     call_media := []; rem_aud_cnt := 0; rem_vid_cnt := 0;
     connect_duration_sec := 0 |}.

Definition quiet : script :=
  {| sim_send := fun _ data => (PJ_SUCCESS, Z.of_nat (length data));
     sim_recv := fun _ _ => (PJ_STATUS_FROM_OS EAGAIN, []);
     sim_select_read := fun _ => SelectTimeout;
     sim_accept := fun _ => (PJ_SUCCESS, 7);
     sim_bind := PJ_SUCCESS;
     sim_acc_add := (PJ_SUCCESS, Some 0);
     sim_acc_info := {| acc_info_id := 0; acc_info_status := 200;
                        acc_info_status_text := "OK" |};
     sim_make_call := (PJ_SUCCESS, Some 0);
     sim_call_info := fun _ => (PJ_EINVAL, no_call);
     sim_stream_stat := fun _ _ => (PJ_SUCCESS, {| rtcp_tx_pkt := 0; rtcp_rx_pkt := 0 |});
     sim_cameras := [{| vid_id := 3; vid_name := "cam"; vid_driver := "v4l2";
                        vid_dir := PJMEDIA_DIR_CAPTURE |}] |}.

(** What the laws ask of a script. *)
Record script_ok (x : script) : Prop := {
  sim_send_ok h data n : sim_send x h data = (PJ_SUCCESS, n) -> n <= Z.of_nat (length data);
  sim_recv_ok h cap data : sim_recv x h cap = (PJ_SUCCESS, data) -> (length data <= cap)%nat;
  sim_acc_add_ok : (sim_acc_add x).1 = PJ_SUCCESS <-> is_Some (sim_acc_add x).2;
  sim_acc_id_ok : (sim_acc_add x).2 <> Some PJSUA_INVALID_ID }.

Lemma quiet_ok : script_ok quiet.
Proof.
  split; simpl; try done. intros h data n [= <-]. lia.
Qed.

Definition default_cred : cred_info :=
  {| cred_realm := ""; cred_scheme := ""; cred_username := "";
     cred_data_type_ := CRED_DATA_OTHER 0; cred_data := "" |}.

(** Every call takes one millisecond. *)
Definition sim_clock (h : history) : time_val := {| sec := 0; msec := Z.of_nat (length h) |}.

Definition env_of (x : script) : Env :=
  {| ans_sock_send := fun h _ data => sim_send x h data;
     ans_sock_recv := fun h _ cap => sim_recv x h cap;
     ans_gettickcount := sim_clock;
     ans_select_write := fun _ s _ _ => SelectReady [s];
     ans_select_read := fun h _ _ _ => sim_select_read x h;
     ans_fcntl_getfl := fun _ _ => 2;
     ans_fcntl_setfl := fun _ _ _ => 0;
     ans_get_os_error := fun _ => PJ_STATUS_FROM_OS EINTR;
     ans_accept := fun h _ => sim_accept x h;
     ans_socket := fun _ => (PJ_SUCCESS, 5);
     ans_bind := fun _ _ _ => sim_bind x;
     ans_chmod := fun _ _ _ => 0;
     ans_listen := fun _ _ _ => PJ_SUCCESS;
     ans_pool_create := fun _ _ => true;
     ans_mutex_create := fun _ _ => PJ_SUCCESS;
     ans_acc_add := fun _ _ _ => sim_acc_add x;
     ans_acc_del := fun _ _ => PJ_SUCCESS;
     ans_acc_set_registration := fun _ _ _ => PJ_SUCCESS;
     ans_acc_get_info := fun _ _ => (PJ_SUCCESS, sim_acc_info x);
     ans_acc_get_config := fun _ _ => (PJ_EINVAL,
       {| acc_id_uri := ""; acc_reg_uri := ""; register_on_acc_add := true;
          vid_in_auto_show := false; vid_out_auto_transmit := false; vid_cap_dev := -1;
          cred_count := 0; cred_info0 := default_cred; acc_other := 0 |});
     ans_acc_modify := fun _ _ _ => PJ_SUCCESS;
     ans_call_make_call := fun _ _ _ _ => sim_make_call x;
     ans_call_hangup := fun _ _ _ => PJ_SUCCESS;
     ans_call_answer2 := fun _ _ _ _ => PJ_SUCCESS;
     ans_call_get_info := fun _ c => sim_call_info x c;
     ans_call_get_stream_stat := fun _ c i => sim_stream_stat x c i;
     ans_call_get_stream_info := fun _ _ _ => (PJ_EINVAL,
       {| stream_type := PJMEDIA_TYPE_AUDIO; stream_codec := ""; stream_tx_pt := 0;
          stream_rx_pt := 0 |});
     ans_call_set_vid_strm := fun _ _ _ _ => PJ_SUCCESS;
     ans_call_get_max_count := fun _ => 4;
     ans_call_get_count := fun _ => 0;
     ans_conf_connect := fun _ _ _ => PJ_SUCCESS;
     ans_schedule_timer := fun _ _ _ => PJ_SUCCESS;
     ans_im_send := fun _ _ _ _ _ => PJ_SUCCESS;
     ans_im_typing := fun _ _ _ _ => PJ_SUCCESS;
     ans_enum_aud_devs := fun _ _ => (PJ_SUCCESS, []);
     ans_vid_enum_devs := fun _ cap => (PJ_SUCCESS, take cap (sim_cameras x));
     ans_snd_is_active := fun _ => false;
     ans_set_snd_dev2 := fun _ _ => PJ_SUCCESS;
     ans_vid_dev_get_info := fun _ i => (PJ_SUCCESS,
       {| vid_id := i; vid_name := "cam"; vid_driver := "v4l2"; vid_dir := PJMEDIA_DIR_CAPTURE |});
     ans_pjsua_create := fun _ => PJ_SUCCESS;
     ans_pjsua_init := fun _ _ _ _ => PJ_SUCCESS;
     ans_register_null_factory := fun _ => (PJ_SUCCESS, FACTORY_KEPT);
     ans_vid_enum_codecs := fun _ cap => (PJ_SUCCESS, take cap ["H264"; "VP8"]);
     ans_vid_codec_get_param := fun _ c => (PJ_SUCCESS,
       {| size_w := 720; size_h := 480; fps_num := 15; fps_denum := 1; codec_other := 0 |});
     ans_vid_codec_set_param := fun _ c _ =>
       if String.eqb c "H264" then PJ_SUCCESS else PJ_EINVAL;
     ans_transport_create := fun _ => PJ_SUCCESS;
     ans_pjsua_start := fun _ => PJ_SUCCESS;
     ans_aud_dev_count := fun _ => 0;
     ans_set_null_snd_dev := fun _ => PJ_SUCCESS;
     acc_config_default :=
       {| acc_id_uri := ""; acc_reg_uri := ""; register_on_acc_add := true;
          vid_in_auto_show := false; vid_out_auto_transmit := false; vid_cap_dev := -1;
          cred_count := 0; cred_info0 := default_cred; acc_other := 0 |};
     call_setting_default := {| vid_cnt := 1; txt_cnt := 1; setting_other := 0 |};
     vid_strm_op_param_default := {| op_med_idx := -1; op_cap_dev := -1; op_other := 0 |};
     snd_dev_param_default := {| capture_dev := -1; playback_dev := -2;
                                 snd_mode := SND_DEV_MODE_OTHER 0; snd_other := 0 |};
     pjsua_config_default :=
       {| nameserver := []; cfg_user_agent := []; stun_srv := []; stun_ignore_failure := false;
          cb := []; ua_other := 0 |};
     pjsua_logging_config_default := {| level := 5; console_level := 4; logging_other := 0 |};
     pjsua_media_config_default := {| no_vad := false; enable_ice := false; media_other := 0 |};
     PJMEDIA_CODEC_MGR_MAX_CODECS := 64;
     sys_info := "Linux-6.1/armv7l/glibc-2.36";
     PJMEDIA_VID_INVALID_DEV := -3;
     O_NONBLOCK := 2048;
     sizeof_sun_path := 108;
     LONG_BIT := 64;
     pj_get_version := "2.15";
     PJSOCKY_VERSION := "1.0.0.1" |}.

Lemma env_of_laws x : script_ok x -> @EnvLaws (env_of x).
Proof.
  intros []. split; simpl; try done.
  - intros h _ data n. apply sim_send_ok0.
  - intros h _ cap data. apply sim_recv_ok0.
  - intros h cap st devs [= <- <-]. simpl. lia.
  - intros h cap st devs [= <- <-]. rewrite length_take. lia.
  - intros l h. unfold sim_clock, time_msec. rewrite length_app. simpl. lia.
  - intros h n [= <-]. done.
  - intros h cfg d st o Ho. rewrite Ho in sim_acc_add_ok0. apply sim_acc_add_ok0.
  - intros h cfg d st id Hid. rewrite Hid in sim_acc_id_ok0. simpl in *. congruence.
  - by intros h use [= <-].
Qed.

Lemma quiet_laws : @EnvLaws (env_of quiet).
Proof. apply env_of_laws, quiet_ok. Qed.
