(* ===== verification/State.v ===== *)
(** * The state of the process

    The structures of the daemon's own headers and the static variables of
    its translation units, one record per C file, together with the history
    of library calls; and the lifting of every library function of Env.v to
    a state-passing operation that appends the call to the history. *)

From S2P Require Import Prelude Float32 Pjlib Env.

(** ** proto/framing.h *)
Definition PJSOCKY_MAX_LINE : nat := Z.to_nat 8192.

Record framing := {
  f_sock : Z; f_write_timeout_msec : Z;
  f_start : nat; f_len : nat; f_buf : bytes }.
#[global] Instance framing_settable : Settable framing := fun f =>
  {| f_sock := f_sock f; f_write_timeout_msec := f_write_timeout_msec f;
     f_start := f_start f; f_len := f_len f; f_buf := f_buf f |}.

(** ** proto/events.c

    [pjsocky_events.framing] points into the server's [conn_state]; that
    object is the only one the pointer is ever set to, so a non-NULL pointer
    is the name of that object, read through [deref_framing] below. *)
Inductive framing_ptr : Type := CONN_FRAMING.

Record events := { ev_lock_held : bool; ev_framing : option framing_ptr }.
#[global] Instance events_settable : Settable events := fun e =>
  {| ev_lock_held := ev_lock_held e; ev_framing := ev_framing e |}.

(** ** proto/server.c *)
Record server := {
  listen_sock : Z; sun_path : string; srv_write_timeout_msec : Z;
  stop_requested : bool }.
#[global] Instance server_settable : Settable server := fun x =>
  {| listen_sock := listen_sock x; sun_path := sun_path x;
     srv_write_timeout_msec := srv_write_timeout_msec x;
     stop_requested := stop_requested x |}.

Record conn_state := { active : bool; conn_sock : Z; conn_framing : framing }.
#[global] Instance conn_state_settable : Settable conn_state := fun c =>
  {| active := active c; conn_sock := conn_sock c; conn_framing := conn_framing c |}.

(** ** account.c, device.c *)
Record account_st := { g_acc_id : Z; g_registered : bool }.
#[global] Instance account_settable : Settable account_st := fun a =>
  {| g_acc_id := g_acc_id a; g_registered := g_registered a |}.

Record device_st := { g_video_capture_id : Z }.
#[global] Instance device_settable : Settable device_st := fun d =>
  {| g_video_capture_id := g_video_capture_id d |}.

(** ** call.c

    A [pj_timer_entry] is represented by its [user_data], the call id the
    entry was initialised with. *)
Record call_st := {
  g_call_id : Z;
  g_ring_timeout_sec : Z;
  g_ring_timer : Z;
  g_ring_timer_scheduled : bool;
  g_video_failed_call_id : Z;
  g_video_watchdog : Z;
  g_video_watchdog_scheduled : bool;
  g_video_tx_packets_seen : Z;
  g_video_stall_ticks : Z;
  g_media_report : Z;
  g_media_report_scheduled : bool }.
#[global] Instance call_settable : Settable call_st := fun c =>
  {| g_call_id := g_call_id c;
     g_ring_timeout_sec := g_ring_timeout_sec c;
     g_ring_timer := g_ring_timer c;
     g_ring_timer_scheduled := g_ring_timer_scheduled c;
     g_video_failed_call_id := g_video_failed_call_id c;
     g_video_watchdog := g_video_watchdog c;
     g_video_watchdog_scheduled := g_video_watchdog_scheduled c;
     g_video_tx_packets_seen := g_video_tx_packets_seen c;
     g_video_stall_ticks := g_video_stall_ticks c;
     g_media_report := g_media_report c;
     g_media_report_scheduled := g_media_report_scheduled c |}.

(** ** The whole process *)
Record St := {
  acc : account_st; dev : device_st; call : call_st;
  g_instance : option events; srv : server; conn : conn_state;
  hist : history }.
#[global] Instance St_settable : Settable St := fun s =>
  {| acc := acc s; dev := dev s; call := call s; g_instance := g_instance s;
     srv := srv s; conn := conn s; hist := hist s |}.

Abbreviation C := (M St).

Definition deref_framing (p : framing_ptr) : C framing :=
  match p with CONN_FRAMING => gets (fun s => conn_framing (conn s)) end.

Lemma wpf_deref_framing F p (Q : framing -> St -> Prop) s :
  Q (conn_framing (conn s)) s -> wpf F (deref_framing p) Q s.
Proof. by destruct p. Qed.

Definition set_acc (f : account_st -> account_st) : C unit :=
  modify (fun s => s <| acc := f (acc s) |>).
Definition set_dev (f : device_st -> device_st) : C unit :=
  modify (fun s => s <| dev := f (dev s) |>).
Definition set_call (f : call_st -> call_st) : C unit :=
  modify (fun s => s <| call := f (call s) |>).
Definition set_srv (f : server -> server) : C unit :=
  modify (fun s => s <| srv := f (srv s) |>).
Definition set_conn (f : conn_state -> conn_state) : C unit :=
  modify (fun s => s <| conn := f (conn s) |>).

(** [log_call a] appends a call without an answer, [ask q act] one whose
    answer is [q] of the history so far. *)
Definition log_call (a : action) : C unit :=
  modify (fun s => s <| hist := a :: hist s |>).
Definition ask {A} (q : history -> A) (act : A -> action) : C A := fun s =>
  let a := q (hist s) in Ok (a, s <| hist := act a :: hist s |>).

Lemma wpf_ask F {A} (q : history -> A) act Q s :
  Q (q (hist s)) (s <| hist := act (q (hist s)) :: hist s |>) ->
  wpf F (ask q act) Q s.
Proof. done. Qed.

Lemma wpf_log_call F a (Q : unit -> St -> Prop) s :
  Q tt (s <| hist := a :: hist s |>) -> wpf F (log_call a) Q s.
Proof. done. Qed.

Example set_nested (s : St) :
  s <| call := call s <| g_call_id := 3 |> |> = s -> g_call_id (call s) = 3.
Proof. intros <-. reflexivity. Qed.

(** ** The library calls as operations of the process *)
Section operations.
Context `{!Env}.

Definition pj_sock_send (s : Z) (data : bytes) : C (pj_status * Z) :=
  ask (fun h => ans_sock_send h s data) (A_sock_send s data).
Definition pj_sock_recv (s : Z) (cap : nat) : C (pj_status * bytes) :=
  ask (fun h => ans_sock_recv h s cap) (fun _ => A_sock_recv s cap).
Definition pj_gettickcount : C time_val :=
  ask ans_gettickcount (fun _ => A_gettickcount).
Definition select_write (s tv_sec tv_usec : Z) : C select_result :=
  ask (fun h => ans_select_write h s tv_sec tv_usec)
      (fun _ => A_select_write s tv_sec tv_usec).
Definition select_read (fds : list Z) (tv_sec tv_usec : Z) : C select_result :=
  ask (fun h => ans_select_read h fds tv_sec tv_usec)
      (fun _ => A_select_read fds tv_sec tv_usec).
Definition fcntl_getfl (s : Z) : C Z :=
  ask (fun h => ans_fcntl_getfl h s) (fun _ => A_fcntl_getfl s).
Definition fcntl_setfl (s flags : Z) : C Z :=
  ask (fun h => ans_fcntl_setfl h s flags) (fun _ => A_fcntl_setfl s flags).
Definition pj_get_os_error : C pj_status :=
  ask ans_get_os_error (fun _ => A_get_os_error).
Definition pj_sock_accept (s : Z) : C (pj_status * Z) :=
  ask (fun h => ans_accept h s) (A_accept s).
Definition pj_sock_close (s : Z) : C unit := log_call (A_close s).
Definition pj_sock_socket : C (pj_status * Z) := ask ans_socket A_socket.
Definition pj_sock_bind (s : Z) (path : string) : C pj_status :=
  ask (fun h => ans_bind h s path) (fun _ => A_bind s path).
Definition chmod (path : string) (mode : Z) : C Z :=
  ask (fun h => ans_chmod h path mode) (fun _ => A_chmod path mode).
Definition pj_sock_listen (s backlog : Z) : C pj_status :=
  ask (fun h => ans_listen h s backlog) (fun _ => A_listen s backlog).
Definition unlink (path : string) : C unit := log_call (A_unlink path).
Definition pj_pool_create (name : string) : C bool :=
  ask (fun h => ans_pool_create h name) (A_pool_create name).
Definition pj_pool_reset (name : string) : C unit := log_call (A_pool_reset name).
Definition pj_pool_release (name : string) : C unit :=
  log_call (A_pool_release name).
Definition pj_mutex_create_simple (name : string) : C pj_status :=
  ask (fun h => ans_mutex_create h name) (fun _ => A_mutex_create name).

Definition pjsua_acc_add (cfg : acc_config) (is_default : bool)
  : C (pj_status * option Z) :=
  ask (fun h => ans_acc_add h cfg is_default) (fun _ => A_acc_add cfg is_default).
Definition pjsua_acc_del (id : Z) : C pj_status :=
  ask (fun h => ans_acc_del h id) (fun _ => A_acc_del id).
Definition pjsua_acc_set_registration (id : Z) (renew : bool) : C pj_status :=
  ask (fun h => ans_acc_set_registration h id renew)
      (fun _ => A_acc_set_registration id renew).
Definition pjsua_acc_get_info (id : Z) : C (pj_status * acc_info) :=
  ask (fun h => ans_acc_get_info h id) (fun _ => A_acc_get_info id).
Definition pjsua_acc_get_config (id : Z) : C (pj_status * acc_config) :=
  ask (fun h => ans_acc_get_config h id) (fun _ => A_acc_get_config id).
Definition pjsua_acc_modify (id : Z) (cfg : acc_config) : C pj_status :=
  ask (fun h => ans_acc_modify h id cfg) (fun _ => A_acc_modify id cfg).

Definition pjsua_call_make_call (id : Z) (uri : string) (opt : call_setting)
  : C (pj_status * option Z) :=
  ask (fun h => ans_call_make_call h id uri opt) (fun _ => A_call_make_call id uri opt).
Definition pjsua_call_hangup (id code : Z) : C pj_status :=
  ask (fun h => ans_call_hangup h id code) (fun _ => A_call_hangup id code).
Definition pjsua_call_answer2 (id : Z) (opt : call_setting) (code : Z)
  : C pj_status :=
  ask (fun h => ans_call_answer2 h id opt code) (fun _ => A_call_answer2 id opt code).
Definition pjsua_call_get_info (id : Z) : C (pj_status * call_info) :=
  ask (fun h => ans_call_get_info h id) (fun _ => A_call_get_info id).
Definition pjsua_call_get_stream_stat (id : Z) (i : nat) : C (pj_status * stream_stat) :=
  ask (fun h => ans_call_get_stream_stat h id i) (fun _ => A_call_get_stream_stat id i).
Definition pjsua_call_get_stream_info (id : Z) (i : nat) : C (pj_status * stream_info) :=
  ask (fun h => ans_call_get_stream_info h id i) (fun _ => A_call_get_stream_info id i).
Definition pjsua_call_set_vid_strm (id : Z) (op : vid_strm_op) (p : vid_strm_op_param)
  : C pj_status :=
  ask (fun h => ans_call_set_vid_strm h id op p) (fun _ => A_call_set_vid_strm id op p).
Definition pjsua_call_get_max_count : C Z :=
  ask ans_call_get_max_count (fun _ => A_call_get_max_count).
Definition pjsua_call_get_count : C Z :=
  ask ans_call_get_count (fun _ => A_call_get_count).
Definition pjsua_conf_connect (source sink : Z) : C pj_status :=
  ask (fun h => ans_conf_connect h source sink) (fun _ => A_conf_connect source sink).
Definition pjsua_schedule_timer (t : timer) (delay : time_val) : C pj_status :=
  ask (fun h => ans_schedule_timer h t delay) (A_schedule_timer t delay).
Definition pjsua_cancel_timer (t : timer) : C unit := log_call (A_cancel_timer t).

Definition pjsua_im_send (id : Z) (to mime_type content : string) : C pj_status :=
  ask (fun h => ans_im_send h id to mime_type content)
      (fun _ => A_im_send id to mime_type content).
Definition pjsua_im_typing (id : Z) (to : string) (is_typing : bool) : C pj_status :=
  ask (fun h => ans_im_typing h id to is_typing) (fun _ => A_im_typing id to is_typing).

Definition pjsua_enum_aud_devs (cap : nat) : C (pj_status * list aud_dev_info) :=
  ask (fun h => ans_enum_aud_devs h cap) (fun _ => A_enum_aud_devs).
Definition pjsua_vid_enum_devs (cap : nat) : C (pj_status * list vid_dev_info) :=
  ask (fun h => ans_vid_enum_devs h cap) (fun _ => A_vid_enum_devs).
Definition pjsua_snd_is_active : C bool := ask ans_snd_is_active (fun _ => A_snd_is_active).
Definition pjsua_set_no_snd_dev : C unit := log_call A_set_no_snd_dev.
Definition pjsua_set_snd_dev2 (p : snd_dev_param) : C pj_status :=
  ask (fun h => ans_set_snd_dev2 h p) (fun _ => A_set_snd_dev2 p).
Definition pjmedia_vid_dev_get_info (id : Z) : C (pj_status * vid_dev_info) :=
  ask (fun h => ans_vid_dev_get_info h id) (fun _ => A_vid_dev_get_info id).

Definition pjsua_create : C pj_status := ask ans_pjsua_create A_pjsua_create.
Definition pjsua_destroy : C unit := log_call A_pjsua_destroy.
Definition pjsip_tsx_set_timers (t1 t2 t4 td : Z) : C unit :=
  log_call (A_tsx_set_timers t1 t2 t4 td).
Definition pjsua_init (ua : pjsua_config) (log : pjsua_logging_config)
    (media : pjsua_media_config) : C pj_status :=
  ask (fun h => ans_pjsua_init h ua log media) (fun _ => A_pjsua_init ua log media).
Definition register_null_factory : C (pj_status * factory_use) :=
  ask ans_register_null_factory (fun _ => A_register_null_factory).
Definition pjsua_vid_enum_codecs (cap : nat) : C (pj_status * list string) :=
  ask (fun h => ans_vid_enum_codecs h cap) (fun _ => A_vid_enum_codecs).
Definition pjsua_vid_codec_get_param (codec : string) : C (pj_status * vid_codec_param) :=
  ask (fun h => ans_vid_codec_get_param h codec) (A_vid_codec_get_param codec).
Definition pjsua_vid_codec_set_param (codec : string) (p : vid_codec_param) : C pj_status :=
  ask (fun h => ans_vid_codec_set_param h codec p) (A_vid_codec_set_param codec p).
Definition pjsua_transport_create : C pj_status :=
  ask ans_transport_create (fun _ => A_transport_create).
Definition pjsua_start : C pj_status := ask ans_pjsua_start (fun _ => A_pjsua_start).
Definition pjmedia_aud_dev_count : C Z := ask ans_aud_dev_count (fun _ => A_aud_dev_count).
Definition pjsua_set_null_snd_dev : C pj_status :=
  ask ans_set_null_snd_dev (fun _ => A_set_null_snd_dev).

Definition PJ_LOG (level : Z) (fmt : string) (args : list log_arg) : C unit :=
  log_call (A_log level fmt args).
Definition PJ_PERROR (level : Z) (status : pj_status) (fmt : string) (args : list log_arg)
  : C unit := log_call (A_perror level status fmt args).
Definition pjsua_perror (title : string) (status : pj_status) : C unit :=
  log_call (A_sua_perror title status).
End operations.

(** ** Accessors other modules call (account.c, device.c) *)
Definition pjsocky_account_get_id : C Z := gets (fun s => g_acc_id (acc s)).
Definition pjsocky_account_is_registered : C bool :=
  gets (fun s => g_registered (acc s)).
Definition pjsocky_device_get_video_capture : C Z :=
  gets (fun s => g_video_capture_id (dev s)).

(** ** The state at start-up

    The static initialisers of the translation units, before main() has
    created anything; [zero_conn] is [pj_bzero(&conn, sizeof(conn))], and
    [zero_framing] also stands for the storage of the framing object of
    [refuse_conn], whose buffer is never read. *)
Definition PJ_INVALID_SOCKET : Z := -1.
Definition zero_framing : framing :=
  {| f_sock := 0; f_write_timeout_msec := 0; f_start := 0; f_len := 0;
     f_buf := replicate (S PJSOCKY_MAX_LINE) NUL |}.
Definition zero_conn : conn_state :=
  {| active := false; conn_sock := 0; conn_framing := zero_framing |}.
Definition initial_account : account_st :=
  {| g_acc_id := PJSUA_INVALID_ID; g_registered := false |}.
Definition initial_call : call_st :=
  {| g_call_id := PJSUA_INVALID_ID; g_ring_timeout_sec := 0;
     g_ring_timer := 0; g_ring_timer_scheduled := false;
     g_video_failed_call_id := PJSUA_INVALID_ID;
     g_video_watchdog := 0; g_video_watchdog_scheduled := false;
     g_video_tx_packets_seen := 0; g_video_stall_ticks := 0;
     g_media_report := 0; g_media_report_scheduled := false |}.
Definition initial_state `{!Env} : St :=
  {| acc := initial_account;
     dev := {| g_video_capture_id := PJMEDIA_VID_INVALID_DEV |};
     call := initial_call; g_instance := None;
     srv := {| listen_sock := PJ_INVALID_SOCKET; sun_path := "";
               srv_write_timeout_msec := 0; stop_requested := false |};
     conn := zero_conn; hist := [] |}.

#[export] Hint Unfold
  pj_sock_send pj_sock_recv pj_gettickcount select_write
  select_read fcntl_getfl fcntl_setfl pj_get_os_error
  pj_sock_accept pj_sock_close pj_sock_socket pj_sock_bind
  chmod pj_sock_listen unlink pj_pool_create
  pj_pool_reset pj_pool_release pj_mutex_create_simple pjsua_acc_add
  pjsua_acc_del pjsua_acc_set_registration pjsua_acc_get_info pjsua_acc_get_config
  pjsua_acc_modify pjsua_call_make_call pjsua_call_hangup pjsua_call_answer2
  pjsua_call_get_info pjsua_call_get_stream_stat pjsua_call_get_stream_info pjsua_call_set_vid_strm
  pjsua_call_get_max_count pjsua_call_get_count pjsua_conf_connect pjsua_schedule_timer
  pjsua_cancel_timer pjsua_im_send pjsua_im_typing pjsua_enum_aud_devs
  pjsua_vid_enum_devs pjsua_snd_is_active pjsua_set_no_snd_dev pjsua_set_snd_dev2
  pjmedia_vid_dev_get_info pjsua_create pjsua_destroy pjsip_tsx_set_timers pjsua_init
  register_null_factory pjsua_vid_enum_codecs pjsua_vid_codec_get_param
  pjsua_vid_codec_set_param pjsua_transport_create pjsua_start pjmedia_aud_dev_count
  pjsua_set_null_snd_dev PJ_LOG PJ_PERROR pjsua_perror pjsocky_account_get_id pjsocky_account_is_registered
  pjsocky_device_get_video_capture
  set_acc set_dev set_call set_srv set_conn : ops.

(** ** Timers and the history

    [armed t h]: the last thing that happened to timer [t] is a successful
    [pjsua_schedule_timer]. *)
Fixpoint armed (t : timer) (h : history) : bool :=
  match h with
  | [] => false
  | A_schedule_timer t' _ st :: h =>
      if decide (t' = t) then ok st || armed t h else armed t h
  | A_cancel_timer t' :: h | A_timer_fired t' :: h =>
      if decide (t' = t) then false else armed t h
  | _ :: h => armed t h
  end.

(** ** Sockets and the history

    [live n h]: how often socket number [n] has been opened more than closed. *)
Fixpoint live (n : Z) (h : history) : Z :=
  match h with
  | [] => 0
  | A_accept _ (PJ_SUCCESS, m) :: h | A_socket (PJ_SUCCESS, m) :: h =>
      live n h + (if decide (m = n) then 1 else 0)
  | A_close m :: h => live n h - (if decide (m = n) then 1 else 0)
  | _ :: h => live n h
  end.

(** Calls that own a resource: timers and sockets.  Most of the daemon makes
    no other. *)
Definition owned_action (a : action) : bool :=
  match a with
  | A_schedule_timer _ _ _ | A_cancel_timer _ | A_timer_fired _
  | A_accept _ _ | A_socket _ | A_close _ => true
  | _ => false
  end.

(** Lines of the log. *)
Definition is_log (a : action) : bool :=
  match a with A_log _ _ _ | A_perror _ _ _ _ | A_sua_perror _ _ => true | _ => false end.

(** A failure that is only reported. *)
Lemma wpf_report F b level st fmt args (Q : unit -> St -> Prop) s :
  (forall l, Forall is_log l -> Q tt (s <| hist := l ++ hist s |>)) ->
  wpf F (when b (PJ_PERROR level st fmt args)) Q s.
Proof.
  intros HQ. apply wpf_when; intros _.
  - apply (HQ [A_perror level st fmt args]). by repeat constructor.
  - specialize (HQ [] (Forall_nil_2 _)). by destruct s.
Qed.

Lemma wpf_sua_report F b title st (Q : unit -> St -> Prop) s :
  (forall l, Forall is_log l -> Q tt (s <| hist := l ++ hist s |>)) ->
  wpf F (when b (pjsua_perror title st)) Q s.
Proof.
  intros HQ. apply wpf_when; intros _.
  - apply (HQ [A_sua_perror title st]). by repeat constructor.
  - specialize (HQ [] (Forall_nil_2 _)). by destruct s.
Qed.

Lemma logs_unowned l : Forall is_log l -> Forall (fun a => owned_action a = false) l.
Proof. intros Hl. eapply Forall_impl; [exact Hl|]. by intros [] []. Qed.

Lemma armed_other t a h : owned_action a = false -> armed t (a :: h) = armed t h.
Proof. by destruct a. Qed.

Lemma live_other n a h : owned_action a = false -> live n (a :: h) = live n h.
Proof. by destruct a. Qed.

(** ** Predicates that other library calls do not disturb *)
Class Stable (I : St -> Prop) : Prop :=
  stable s a : owned_action a = false -> I s -> I (s <| hist := a :: hist s |>).

#[global] Instance stable_and I J :
  Stable I -> Stable J -> Stable (fun s => I s /\ J s).
Proof. intros HI HJ s a Ha [? ?]. split; [by apply HI|by apply HJ]. Qed.

Lemma stable_app I `{!Stable I} s l :
  Forall (fun a => owned_action a = false) l -> I s -> I (s <| hist := l ++ hist s |>).
Proof.
  intros Hl Hs. induction Hl as [|a l Ha _ IH]; [by destruct s|].
  exact (stable (s <| hist := l ++ hist s |>) a Ha IH).
Qed.

Section stable.
Context (F : Prop) (I : St -> Prop) `{!Stable I}.

Lemma keeps_ask {A} (q : history -> A) act :
  (forall a, owned_action (act a) = false) -> keeps F I (ask q act).
Proof. intros Ha s Hs. apply wpf_ask. by apply (stable s). Qed.
Lemma keeps_log_call a : owned_action a = false -> keeps F I (log_call a).
Proof. intros Ha s Hs. apply wpf_log_call. by apply stable. Qed.
End stable.
#[export] Hint Extern 3 (keeps _ _ (ask _ _)) =>
  apply keeps_ask; [exact _|by intros] : keeps_db.
#[export] Hint Extern 3 (keeps _ _ (log_call _)) =>
  apply keeps_log_call; [exact _|done] : keeps_db.

(** ** What a program adds to the history

    [logs P s0 s]: since [s0] only calls that satisfy [P] were made. *)
Definition logs (P : action -> Prop) (s0 s : St) : Prop :=
  exists l, hist s = l ++ hist s0 /\ Forall P l.

Lemma logs_refl P s : logs P s s.
Proof. by exists []. Qed.

Lemma logs_cons P s0 s a : P a -> logs P s0 s -> logs P s0 (s <| hist := a :: hist s |>).
Proof. intros Ha (l & Hl & HP). exists (a :: l). simpl. rewrite Hl. split; [done|by constructor]. Qed.

Lemma logs_app P s0 s l :
  Forall P l -> logs P s0 s -> logs P s0 (s <| hist := l ++ hist s |>).
Proof.
  intros Hl (k & Hk & HP). exists (l ++ k). simpl. rewrite Hk, app_assoc.
  split; [done|by apply Forall_app].
Qed.

Section logs.
Context (F : Prop) (P : action -> Prop) (s0 : St).

Lemma keeps_ask_logs {A} (q : history -> A) act :
  (forall a, P (act a)) -> keeps F (logs P s0) (ask q act).
Proof. intros HP s Hs. apply wpf_ask. by apply logs_cons. Qed.
Lemma keeps_log_call_logs a : P a -> keeps F (logs P s0) (log_call a).
Proof. intros HP s Hs. apply wpf_log_call. by apply logs_cons. Qed.
Lemma keeps_modify_logs (f : St -> St) :
  (forall s, hist (f s) = hist s) -> keeps F (logs P s0) (modify f).
Proof. intros Hf. apply keeps_modify. intros s (l & Hl & HP). exists l. by rewrite Hf. Qed.
End logs.
#[export] Hint Extern 1 (keeps _ (logs _ _) (ask _ _)) =>
  apply keeps_ask_logs; solve [intros; simpl; auto] : keeps_db.
#[export] Hint Extern 1 (keeps _ (logs _ _) (log_call _)) =>
  apply keeps_log_call_logs; solve [simpl; auto] : keeps_db.
#[export] Hint Extern 1 (keeps _ (logs _ _) (modify _)) =>
  apply keeps_modify_logs; by intros : keeps_db.

(** [adds P s0 s]: from [s0] to [s] nothing else happened at all. *)
Definition adds (P : action -> Prop) (s0 s : St) : Prop :=
  exists l, s = s0 <| hist := l ++ hist s0 |> /\ Forall P l.

Lemma adds_refl P s : adds P s s.
Proof. by exists []; destruct s. Qed.

Lemma adds_cons P s0 s a : P a -> adds P s0 s -> adds P s0 (s <| hist := a :: hist s |>).
Proof. intros Ha (l & -> & HP). exists (a :: l). split; [done|by constructor]. Qed.

Lemma adds_trans P s0 s1 s2 : adds P s0 s1 -> adds P s1 s2 -> adds P s0 s2.
Proof.
  intros (l & -> & Hl) (k & -> & Hk). exists (k ++ l).
  split; [simpl; by rewrite app_assoc|by apply Forall_app].
Qed.

Section adds.
Context (F : Prop) (P : action -> Prop) (s0 : St).

Lemma keeps_ask_adds {A} (q : history -> A) act :
  (forall a, P (act a)) -> keeps F (adds P s0) (ask q act).
Proof. intros HP s Hs. apply wpf_ask. by apply adds_cons. Qed.
Lemma keeps_log_call_adds a : P a -> keeps F (adds P s0) (log_call a).
Proof. intros HP s Hs. apply wpf_log_call. by apply adds_cons. Qed.
End adds.
#[export] Hint Extern 1 (keeps _ (adds _ _) (ask _ _)) =>
  apply keeps_ask_adds; solve [intros; simpl; auto] : keeps_db.
#[export] Hint Extern 1 (keeps _ (adds _ _) (log_call _)) =>
  apply keeps_log_call_adds; solve [simpl; auto] : keeps_db.
