(* ===== verification/NullVideoDev.v ===== *)
(** * The null video renderer (src/null_video_dev.c)

    A video device factory with one render-only device that discards every
    frame: the factory operations, the stream operations, the tables pjmedia
    reaches them through, and what pjmedia's video port relies on. *)

From S2P Require Import Prelude Float32 Pjlib Env SimEnv State.
#[local] Open Scope string_scope.
#[local] Open Scope list_scope.
#[local] Open Scope Z_scope.

Definition PJMEDIA_VID_DEV_CAP_FORMAT : Z := 1.

Section null_video_dev.
Context `{!Env}.
(** [pjmedia_format] is built by [pjmedia_format_init_video(fmt, I420, w,
    h, fps_num, fps_denum)]; its all-zero value is what [pj_bzero] leaves.
    [NDEBUG] tells whether assertions are compiled out. *)
Context {format : Type}.
Variable pjmedia_format_init_video : Z -> Z -> Z -> Z -> format.
Variable NDEBUG : bool.

(** [PJ_ASSERT_RETURN]: a failed assertion ends the process, and is treated
    like undefined behaviour. *)
Definition PJ_ASSERT_RETURN {A} (expr : bool) (retval : A) (k : C A) : C A :=
  if expr then k else if NDEBUG then mret retval else undef.

Record dev_info := {
  info_name : string; info_driver : string; info_dir : Z;
  has_callback : bool; caps : Z; fmts : list format }.

Record vid_dev_param := {
  param_dir : Z; rend_id : Z; cap_id : Z; clock_rate : Z; flags : Z;
  fmt : option format }.

(** A pool is there or has been released (NULL). *)
Record null_vid_factory := { nf_pool : bool; nf_info : option dev_info }.
Record null_vid_stream := { strm_pool : bool; strm_param : vid_dev_param }.
#[local] Instance param_settable : Settable vid_dev_param := fun p =>
  {| param_dir := param_dir p; rend_id := rend_id p; cap_id := cap_id p;
     clock_rate := clock_rate p; flags := flags p; fmt := fmt p |}.
#[local] Instance stream_settable : Settable null_vid_stream := fun s =>
  {| strm_pool := strm_pool s; strm_param := strm_param s |}.
#[local] Instance factory_settable : Settable null_vid_factory := fun f =>
  {| nf_pool := nf_pool f; nf_info := nf_info f |}.

(** *** The factory *)

(** The factory lives in its pool, whose creation is not checked. *)
Definition pjsocky_null_vid_factory : C null_vid_factory :=
  pool ← pj_pool_create "null-vid-render";
  if negb pool then undef else mret {| nf_pool := true; nf_info := None |}.

Definition factory_init (nf : null_vid_factory) : C (pj_status * null_vid_factory) :=
  let nf := nf <| nf_info := Some
     {| info_name := "Null renderer"; info_driver := "Null";
        info_dir := PJMEDIA_DIR_RENDER; has_callback := false;
        caps := PJMEDIA_VID_DEV_CAP_FORMAT;
        fmts := [pjmedia_format_init_video 640 480 25 1] |} |> in
  PJ_LOG 4 "Null video renderer initialized" [];;
  mret (PJ_SUCCESS, nf).

Definition factory_destroy (nf : null_vid_factory) : C (pj_status * null_vid_factory) :=
  when (nf_pool nf) (pj_pool_release "null-vid-render");;
  mret (PJ_SUCCESS, nf <| nf_pool := false |>).

Definition factory_refresh (nf : null_vid_factory) : C pj_status := mret PJ_SUCCESS.
Definition factory_get_dev_count (nf : null_vid_factory) : C Z := mret 1.

Definition factory_get_dev_info (nf : null_vid_factory) (index : Z)
  : C (pj_status * option dev_info) :=
  PJ_ASSERT_RETURN (index =? 0) (PJMEDIA_EVID_INVDEV, None)
    (mret (PJ_SUCCESS, nf_info nf)).

Definition factory_default_param (nf : null_vid_factory) (index : Z)
  : C (pj_status * option vid_dev_param) :=
  PJ_ASSERT_RETURN (index =? 0) (PJMEDIA_EVID_INVDEV, None)
    (mret (PJ_SUCCESS, Some
      {| param_dir := PJMEDIA_DIR_RENDER; rend_id := index;
         cap_id := PJMEDIA_VID_INVALID_DEV; clock_rate := 0; flags := 0;
         fmt := i ← nf_info nf; head (fmts i) |})).

Definition factory_create_stream (nf : null_vid_factory) (param : vid_dev_param)
  : C (pj_status * option null_vid_stream) :=
  if negb (param_dir param =? PJMEDIA_DIR_RENDER) then
    PJ_LOG 1 "Null renderer asked for direction %d; it can only render"
      [LogNum (param_dir param)];;
    mret (PJMEDIA_EVID_INVDEV, None)
  else
    pool ← pj_pool_create "null-vid-render-strm";
    PJ_ASSERT_RETURN pool (PJ_ENOMEM, None)
      (mret (PJ_SUCCESS, Some {| strm_pool := true; strm_param := param |})).

(** *** The stream *)

Definition stream_get_param (strm : null_vid_stream) : C (pj_status * vid_dev_param) :=
  mret (PJ_SUCCESS, strm_param strm).

Definition stream_get_cap (strm : null_vid_stream) (cap : Z)
  : C (pj_status * option (option format)) :=
  if cap =? PJMEDIA_VID_DEV_CAP_FORMAT
  then mret (PJ_SUCCESS, Some (fmt (strm_param strm)))
  else mret (PJMEDIA_EVID_INVCAP, None).

(** [pval] is a [pjmedia_format *] for the format capability. *)
Definition stream_set_cap (strm : null_vid_stream) (cap : Z) (pval : format)
  : C (pj_status * null_vid_stream) :=
  if cap =? PJMEDIA_VID_DEV_CAP_FORMAT
  then mret (PJ_SUCCESS,
             strm <| strm_param := strm_param strm <| fmt := Some pval |> |>)
  else mret (PJMEDIA_EVID_INVCAP, strm).

Definition stream_start (strm : null_vid_stream) : C pj_status := mret PJ_SUCCESS.
Definition stream_put_frame (strm : null_vid_stream) (frame : bytes) : C pj_status :=
  mret PJ_SUCCESS.
Definition stream_stop (strm : null_vid_stream) : C pj_status := mret PJ_SUCCESS.
Definition stream_destroy (strm : null_vid_stream) : C (pj_status * null_vid_stream) :=
  when (strm_pool strm) (pj_pool_release "null-vid-render-strm");;
  mret (PJ_SUCCESS, strm <| strm_pool := false |>).

(** *** The tables

    pjmedia knows the operations only through these; a NULL entry is
    [None]. *)
Record pjmedia_vid_dev_factory_op := {
  op_init : null_vid_factory -> C (pj_status * null_vid_factory);
  op_factory_destroy : null_vid_factory -> C (pj_status * null_vid_factory);
  op_get_dev_count : null_vid_factory -> C Z;
  op_get_dev_info : null_vid_factory -> Z -> C (pj_status * option dev_info);
  op_default_param : null_vid_factory -> Z -> C (pj_status * option vid_dev_param);
  op_create_stream :
    null_vid_factory -> vid_dev_param -> C (pj_status * option null_vid_stream);
  op_refresh : null_vid_factory -> C pj_status }.

Definition factory_op : pjmedia_vid_dev_factory_op := {|
  op_init := factory_init;
  op_factory_destroy := factory_destroy;
  op_get_dev_count := factory_get_dev_count;
  op_get_dev_info := factory_get_dev_info;
  op_default_param := factory_default_param;
  op_create_stream := factory_create_stream;
  op_refresh := factory_refresh |}.

Record pjmedia_vid_dev_stream_op := {
  op_get_param : null_vid_stream -> C (pj_status * vid_dev_param);
  op_get_cap : null_vid_stream -> Z -> C (pj_status * option (option format));
  op_set_cap : null_vid_stream -> Z -> format -> C (pj_status * null_vid_stream);
  op_start : null_vid_stream -> C pj_status;
  op_get_frame : option (null_vid_stream -> C (pj_status * bytes));
  op_put_frame : null_vid_stream -> bytes -> C pj_status;
  op_stop : null_vid_stream -> C pj_status;
  op_destroy : null_vid_stream -> C (pj_status * null_vid_stream) }.

Definition stream_op : pjmedia_vid_dev_stream_op := {|
  op_get_param := stream_get_param;
  op_get_cap := stream_get_cap;
  op_set_cap := stream_set_cap;
  op_start := stream_start;
  op_get_frame := None;
  op_put_frame := stream_put_frame;
  op_stop := stream_stop;
  op_destroy := stream_destroy |}.

(** *** What pjmedia does with a stream

    Any of the operations a render port uses, in any order; the stream it
    goes on with. *)
Inductive stream_call : Type :=
| GetParam | GetCap (cap : Z) | SetCap (cap : Z) (f : format)
| Start | PutFrame (frame : bytes) | Stop.

Definition stream_step (op : pjmedia_vid_dev_stream_op) (strm : null_vid_stream)
    (c : stream_call) : C null_vid_stream :=
  match c with
  | GetParam => op_get_param op strm;; mret strm
  | GetCap cap => op_get_cap op strm cap;; mret strm
  | SetCap cap f => '(_, strm) ← op_set_cap op strm cap f; mret strm
  | Start => op_start op strm;; mret strm
  | PutFrame frame => op_put_frame op strm frame;; mret strm
  | Stop => op_stop op strm;; mret strm
  end.
Fixpoint stream_steps (op : pjmedia_vid_dev_stream_op) (strm : null_vid_stream)
    (calls : list stream_call) : C null_vid_stream :=
  match calls with
  | [] => mret strm
  | c :: calls => strm ← stream_step op strm c; stream_steps op strm calls
  end.

(** The format of the last format change a sequence of calls made. *)
Definition last_format (calls : list stream_call) (f0 : option format) : option format :=
  foldl (fun f c => match c with
                    | SetCap cap g => if cap =? PJMEDIA_VID_DEV_CAP_FORMAT then Some g else f
                    | _ => f
                    end) f0 calls.

Lemma stream_steps_run calls strm s :
  stream_steps stream_op strm calls s =
  Ok (strm <| strm_param :=
        strm_param strm <| fmt := last_format calls (fmt (strm_param strm)) |> |>, s).
Proof.
  revert strm. induction calls as [|c calls IH]; intros strm; simpl.
  { by destruct strm as [? []]. }
  unfold mbind, M_bind. destruct c as [|cap|cap f| |frame|]; simpl; try apply IH.
  - unfold stream_get_cap. destruct (cap =? _); apply IH.
  - unfold stream_set_cap. unfold last_format. simpl. destruct (cap =? _); simpl; by rewrite IH.
Qed.

(** The whole life of a stream: created, used, asked for its parameters and
    its format, destroyed. *)
Definition stream_life (nf : null_vid_factory) (param : vid_dev_param)
    (calls : list stream_call) : C (pj_status * option (vid_dev_param * option format)) :=
  '(status, strm) ← op_create_stream factory_op nf param;
  match strm with
  | None => mret (status, None)
  | Some strm =>
      strm ← stream_steps stream_op strm calls;
      '(_, p) ← op_get_param stream_op strm;
      '(_, f) ← op_get_cap stream_op strm PJMEDIA_VID_DEV_CAP_FORMAT;
      op_destroy stream_op strm;;
      mret (status, f ← f; Some (p, f))
  end.
End null_video_dev.

(** ** Properties *)

(** C40: The null device renders, remembers its format and leaks nothing: a
    stream asked for any other direction is refused with a line in the log,
    without a pool; for the render direction, if the pool can be had, what
    pjmedia reads back after any sequence of operations are the parameters
    it gave, with the format it last set - as [get_param] and as the format
    capability -, and the stream's one pool is released when it is
    destroyed. *)
Theorem null_stream_keeps_format `{!Env} {format : Type} (NDEBUG : bool) init_video nf
    (param : vid_dev_param (format := format)) calls (s : St) :
  stream_life init_video NDEBUG nf param calls s =
  if param_dir param =? PJMEDIA_DIR_RENDER then
    let pool := ans_pool_create (hist s) "null-vid-render-strm" in
    let h := A_pool_create "null-vid-render-strm" pool :: hist s in
    let f := last_format calls (fmt param) in
    if pool then
      Ok (PJ_SUCCESS, Some ({| param_dir := PJMEDIA_DIR_RENDER; rend_id := rend_id param;
            cap_id := cap_id param; clock_rate := clock_rate param;
            flags := flags param; fmt := f |}, f),
          s <| hist := A_pool_release "null-vid-render-strm" :: h |>)
    else if NDEBUG then Ok (PJ_ENOMEM, None, s <| hist := h |>) else Undef
  else Ok (PJMEDIA_EVID_INVDEV, None,
           s <| hist := A_log 1 "Null renderer asked for direction %d; it can only render"
                          [LogNum (param_dir param)] :: hist s |>).
Proof.
  unfold stream_life. cbn [op_create_stream factory_op]. unfold factory_create_stream.
  destruct (Z.eqb_spec (param_dir param) PJMEDIA_DIR_RENDER) as [Hd|]; cbn [negb]; [|done].
  unfold mbind, M_bind, pj_pool_create, ask. cbv zeta.
  destruct (ans_pool_create _ _); cbn [PJ_ASSERT_RETURN]; [|by destruct NDEBUG].
  unfold mret at 1, M_ret at 1. cbn iota beta. rewrite stream_steps_run. simpl.
  by rewrite <-Hd.
Qed.

(** The factory: device 0 is the only one; once the factory is initialised,
    its default parameters are ones it creates a stream for, with the format
    it was initialised with; its pool is released once, however often it is
    destroyed. *)
Theorem null_factory_renders_only `{!Env} {format : Type} (init_video : Z -> Z -> Z -> Z -> format)
    (NDEBUG : bool) nf (s : St) :
  (forall index, index <> 0 -> factory_default_param NDEBUG nf index s =
     if NDEBUG then Ok (PJMEDIA_EVID_INVDEV, None, s) else Undef) /\
  wp ('(_, nf) ← factory_init init_video nf; factory_default_param NDEBUG nf 0)
    (fun r _ => exists param, r = (PJ_SUCCESS, Some param) /\
       fmt param = Some (init_video 640 480 25 1) /\ param_dir param = PJMEDIA_DIR_RENDER) s /\
  wp ('(_, nf) ← factory_destroy nf; factory_destroy nf)
    (fun r s' => r.1 = PJ_SUCCESS /\
       s' = s <| hist := (if nf_pool nf then [A_pool_release "null-vid-render"] else [])
                         ++ hist s |>) s.
Proof.
  split_and!.
  - intros index Hne. unfold factory_default_param, PJ_ASSERT_RETURN.
    rewrite (proj2 (Z.eqb_neq index 0)) by done. by destruct NDEBUG.
  - by eexists.
  - unfold factory_destroy. destruct nf as [[] ?]; simpl; split; try done. by destruct s.
Qed.

Definition a_render_param (f : Z) : vid_dev_param (format := Z) :=
  {| param_dir := PJMEDIA_DIR_RENDER; rend_id := 0; cap_id := -3; clock_rate := 0; flags := 0;
     fmt := Some f |}.

(** A stream whose format is changed while frames arrive. *)
Example a_stream_life :
  (fun r => match r with Ok (a, s) => Some (a, hist s) | _ => None end)
    (stream_life (H := env_of quiet) (fun w _ _ _ => w) false
       {| nf_pool := true; nf_info := None |} (a_render_param 25)
       [Start; SetCap 1 30; PutFrame []; SetCap 7 99] (initial_state (H := env_of quiet)))
  = Some ((PJ_SUCCESS, Some (a_render_param 30, Some 30)),
          [A_pool_release "null-vid-render-strm"; A_pool_create "null-vid-render-strm" true]).
Proof. vm_compute. reflexivity. Qed.
