(* ===== verification/Framing.v ===== *)
(** * NDJSON framing (src/proto/framing.c)

    The receive buffer with its in-place line extraction, the bounded-time
    sender, the in-place JSON compactor, and their specifications. *)

From S2P Require Import Prelude Float32 Pjlib Env SimEnv State.

(** ** Access to C arrays

    Reading or writing outside the array is undefined behaviour. *)
Definition read_range (off n : nat) (buf : bytes) : option bytes :=
  if decide (off + n <= length buf)%nat then Some (take n (drop off buf)) else None.
Definition write_range (off : nat) (bs buf : bytes) : option bytes :=
  if decide (off + length bs <= length buf)%nat
  then Some (take off buf ++ bs ++ drop (off + length bs) buf) else None.
Definition check {A} (o : option A) : C A :=
  match o with Some a => mret a | None => undef end.

Lemma wpf_check F {A} (o : option A) a (Q : A -> St -> Prop) s :
  o = Some a -> Q a s -> wpf F (check o) Q s.
Proof. by intros ->. Qed.

(** [memchr(p, c, n)], as the offset of the first match from [p]. *)
Definition memchr (c : ascii) (bs : bytes) : option nat := fst <$> list_find (c =.) bs.

(** ** Compaction (compact_json)

    The loop of [compact_json], on the buffer itself: [i] is the read index,
    [out] the write index, [n] the number of bytes left to read. *)
Definition is_insignificant (c : ascii) : bool :=
  bool_decide (c = SPACE) || bool_decide (c = TAB)
  || bool_decide (c = CR) || bool_decide (c = LF).

Fixpoint compact_json_loop (n i out : nat) (in_string escaped : bool) (buf : bytes)
  : option (bytes * nat) :=
  match n with
  | O => Some (buf, out)
  | S n =>
      c ← buf !! i;
      if in_string then
        buf ← write_range out [c] buf;
        let '(in_string, escaped) :=
          if escaped then (true, false)
          else if decide (c = BACKSLASH) then (true, true)
          else if decide (c = QUOTE) then (false, false)
          else (true, false) in
        compact_json_loop n (S i) (S out) in_string escaped buf
      else if decide (c = QUOTE) then
        buf ← write_range out [c] buf;
        compact_json_loop n (S i) (S out) true escaped buf
      else if is_insignificant c then
        compact_json_loop n (S i) out in_string escaped buf
      else
        buf ← write_range out [c] buf;
        compact_json_loop n (S i) (S out) in_string escaped buf
  end.

Definition compact_json (buf : bytes) (len : nat) : option (bytes * nat) :=
  compact_json_loop len 0 0 false false buf.

(** ** Receiving *)
Section framing.
Context `{!Env}.

Definition pjsocky_framing_init (sock write_timeout_msec : Z) (f : framing)
  : framing :=
  f <| f_sock := sock |> <| f_write_timeout_msec := write_timeout_msec |>
    <| f_start := 0%nat |> <| f_len := 0%nat |>.

Definition is_would_block (status : pj_status) : bool :=
  bool_decide (status = PJ_STATUS_FROM_OS EAGAIN)
  || bool_decide (status = PJ_STATUS_FROM_OS EWOULDBLOCK).

(** The compaction step at the head of [pjsocky_framing_fill]. *)
Definition framing_reclaim (f : framing) : option framing :=
  if decide (0 < f_start f)%nat then
    buf ← (if decide (0 < f_len f)%nat
           then bs ← read_range (f_start f) (f_len f) (f_buf f);
                write_range 0 bs (f_buf f)
           else Some (f_buf f));
    Some (f <| f_buf := buf |> <| f_start := 0%nat |>)
  else Some f.

Definition pjsocky_framing_fill (f : framing) : C (pj_status * framing) :=
  f ← check (framing_reclaim f);
  let recv_len := Z.of_nat PJSOCKY_MAX_LINE - Z.of_nat (f_len f) in
  if recv_len <=? 0 then mret (PJ_SUCCESS, f) else
  '(status, data) ← pj_sock_recv (f_sock f) (Z.to_nat recv_len);
  if negb (ok status)
  then mret (if is_would_block status then PJ_EPENDING else status, f)
  else if decide (length data = 0%nat) then mret (PJ_EEOF, f)
  else
    buf ← check (write_range (f_len f) data (f_buf f));
    mret (PJ_SUCCESS, f <| f_buf := buf |> <| f_len := (f_len f + length data)%nat |>).

(** The result is the status, the line as an offset and a length into the
    framing's own buffer, and the framing object. *)
Definition pjsocky_framing_extract_line (f : framing)
  : option (pj_status * option (nat * nat) * framing) :=
  let base := f_start f in
  pending ← read_range base (f_len f) (f_buf f);
  match memchr LF pending with
  | None =>
      if decide (PJSOCKY_MAX_LINE <= f_len f)%nat
      then Some (PJ_ETOOBIG, None, f <| f_len := 0%nat |> <| f_start := 0%nat |>)
      else Some (PJ_EPENDING, None, f)
  | Some nl =>
      let consumed := S nl in
      buf ← write_range (base + nl) [NUL] (f_buf f);
      let f := f <| f_buf := buf |> <| f_start := (f_start f + consumed)%nat |>
                 <| f_len := (f_len f - consumed)%nat |> in
      let f := if decide (f_len f = 0%nat) then f <| f_start := 0%nat |> else f in
      Some (PJ_SUCCESS, Some (base, nl), f)
  end.

(** ** Sending *)

(** [PJ_TIME_VAL_SUB(now, start); PJ_TIME_VAL_MSEC(now)] *)
Definition elapsed_msec (now start : time_val) : Z :=
  time_msec now - time_msec start.

(** The block that waits for writability within what is left of the
    deadline: [Some st] where it returns [st], [None] where the loop goes
    round again. *)
Definition wait_writable (sock timeout_msec : Z) (start : time_val)
  : C (option pj_status) :=
  now ← pj_gettickcount;
  let remaining_msec :=
    to_signed LONG_BIT timeout_msec - elapsed_msec now start in
  if remaining_msec <=? 0 then mret (Some PJ_ETIMEDOUT) else
  n ← select_write sock (remaining_msec / 1000) ((remaining_msec mod 1000) * 1000);
  match n with
  | SelectError =>
      sel_status ← pj_get_os_error;
      if bool_decide (sel_status = PJ_STATUS_FROM_OS EINTR) then mret None
      else mret (Some sel_status)
  | SelectTimeout => mret (Some PJ_ETIMEDOUT)
  | SelectReady _ => mret None
  end.

Fixpoint send_loop (fuel : nat) (sock : Z) (buf : bytes) (timeout_msec : Z)
    (start : time_val) (sent_total : nat) : C pj_status :=
  match fuel with
  | O => nofuel
  | S fuel =>
      if decide (sent_total < length buf)%nat then
        '(status, sent) ← pj_sock_send sock (drop sent_total buf);
        if ok status then
          if sent <=? 0 then mret PJ_EEOF
          else send_loop fuel sock buf timeout_msec start
                 (sent_total + Z.to_nat sent)
        else if negb (is_would_block status) then mret status
        else
          w ← wait_writable sock timeout_msec start;
          match w with
          | Some status => mret status
          | None => send_loop fuel sock buf timeout_msec start sent_total
          end
      else mret PJ_SUCCESS
  end.

(** Two units of fuel per byte, one per millisecond of the deadline, and two
    more: see [send_all_returns]. *)
Definition send_fuel (buf : bytes) (timeout_msec : Z) : nat :=
  S (S (2 * length buf + Z.to_nat timeout_msec)).

Definition send_all (sock : Z) (buf : bytes) (timeout_msec : Z) : C pj_status :=
  start ← pj_gettickcount;
  send_loop (send_fuel buf timeout_msec) sock buf timeout_msec start 0.

Definition pjsocky_framing_write_line (f : framing) (line : bytes) : C pj_status :=
  status ← send_all (f_sock f) line (f_write_timeout_msec f);
  if negb (ok status) then mret status
  else send_all (f_sock f) [LF] (f_write_timeout_msec f).

Context `{!PjJson}.

Definition pjsocky_framing_write_json (f : framing) (elem : jelem)
    (scratch_size : nat) : C pj_status :=
  let '(status, scratch) := pj_json_write elem (to_unsigned (Z.of_nat scratch_size)) in
  if negb (ok status) then mret status else
  '(scratch, compact_len) ← check (compact_json scratch (length scratch));
  pjsocky_framing_write_line f (take compact_len scratch).
End framing.

(** ** The abstract receiver

    To its client the receive buffer is the list of bytes received and not
    yet handed out. *)
Definition pending (f : framing) : bytes := take (f_len f) (drop (f_start f) (f_buf f)).

Definition spec_fill (answer : pj_status * bytes) (p : bytes) : pj_status * bytes :=
  if decide (PJSOCKY_MAX_LINE <= length p)%nat then (PJ_SUCCESS, p) else
  match answer with
  | (PJ_SUCCESS, []) => (PJ_EEOF, p)
  | (PJ_SUCCESS, data) => (PJ_SUCCESS, p ++ data)
  | (status, _) => (if is_would_block status then PJ_EPENDING else status, p)
  end.

Definition spec_extract (p : bytes) : pj_status * option bytes * bytes :=
  match memchr LF p with
  | Some n => (PJ_SUCCESS, Some (take n p), drop (S n) p)
  | None =>
      if decide (PJSOCKY_MAX_LINE <= length p)%nat then (PJ_ETOOBIG, None, [])
      else (PJ_EPENDING, None, p)
  end.

(** The invariant of the framing object: the array has one byte beyond the
    maximal line for the terminator, the pending bytes lie below it, and an
    empty buffer starts at offset 0. *)
Record wf_framing (f : framing) : Prop := {
  wf_buf : length (f_buf f) = S PJSOCKY_MAX_LINE;
  wf_room : (f_start f + f_len f <= PJSOCKY_MAX_LINE)%nat;
  wf_empty : f_len f = 0%nat -> f_start f = 0%nat }.

Lemma memchr_Some c bs n :
  memchr c bs = Some n <->
  bs = (take n bs ++ c :: drop (S n) bs) /\ (c ∉ take n bs) /\ (n < length bs)%nat.
Proof.
  unfold memchr. rewrite fmap_Some. split.
  - intros ([i a] & Hf & ->). simpl. apply list_find_Some in Hf as (Hl & <- & Hlt).
    pose proof (lookup_lt_Some _ _ _ Hl). split_and!; [|..|done].
    + by rewrite take_drop_middle.
    + intros (j & Hj)%list_elem_of_lookup. apply lookup_take_Some in Hj as [Hj ?].
      by apply (Hlt j c).
  - intros (Heq & Hnin & Hlen). exists (n, c). split; [|done].
    apply list_find_Some. split_and!; [|done|].
    + rewrite Heq, lookup_app_r; rewrite length_take; [|lia].
      by rewrite Nat.min_l, Nat.sub_diag by lia.
    + intros j y Hj Hlt <-. apply Hnin, list_elem_of_lookup. exists j.
      by apply lookup_take_Some.
Qed.

Lemma memchr_None c bs : memchr c bs = None <-> c ∉ bs.
Proof.
  unfold memchr. rewrite fmap_None, list_find_None, Forall_forall. split.
  - intros H Hin. by apply (H c).
  - by intros H x Hx <-.
Qed.

Lemma read_range_Some off n buf bs :
  read_range off n buf = Some bs <->
  (off + n <= length buf)%nat /\ bs = take n (drop off buf).
Proof. unfold read_range. destruct (decide _); naive_solver. Qed.

Lemma write_range_Some off bs buf buf' :
  write_range off bs buf = Some buf' <->
  (off + length bs <= length buf)%nat /\
  buf' = take off buf ++ bs ++ drop (off + length bs) buf.
Proof. unfold write_range. destruct (decide _); naive_solver. Qed.

Lemma length_write_range off bs buf buf' :
  write_range off bs buf = Some buf' -> length buf' = length buf.
Proof.
  intros [? ->]%write_range_Some. rewrite !length_app, length_take, length_drop. lia.
Qed.

Lemma length_pending f : wf_framing f -> length (pending f) = f_len f.
Proof.
  intros []. unfold pending. rewrite length_take, length_drop. lia.
Qed.

Lemma read_pending f : wf_framing f -> read_range (f_start f) (f_len f) (f_buf f) = Some (pending f).
Proof. intros []. apply read_range_Some. split; [lia|done]. Qed.

(** A write outside a range leaves what is read from the range alone. *)
Lemma read_write_disjoint off bs buf buf' o n :
  write_range off bs buf = Some buf' ->
  (o + n <= off \/ off + length bs <= o)%nat ->
  take n (drop o buf') = take n (drop o buf).
Proof.
  intros [Hlen ->]%write_range_Some Hdis. apply list_eq. intros i.
  destruct (decide (i < n)%nat) as [Hi|Hi];
    [|by rewrite !lookup_take_ge by lia].
  rewrite !lookup_take_lt, !lookup_drop by lia.
  destruct Hdis as [?|?].
  - rewrite lookup_app_l by (rewrite length_take; lia). by rewrite lookup_take_lt by lia.
  - rewrite lookup_app_r by (rewrite length_take; lia).
    rewrite lookup_app_r by (rewrite length_take; lia).
    rewrite lookup_drop, length_take. f_equal. lia.
Qed.

(** ** Refinement of the receive side *)
Section receive.
Context `{!Env}.
Implicit Types f : framing.

Lemma framing_reclaim_spec f :
  wf_framing f ->
  exists f', framing_reclaim f = Some f' /\ wf_framing f' /\ f_start f' = 0%nat /\
             f_len f' = f_len f /\ pending f' = pending f /\ f_sock f' = f_sock f /\
             f_write_timeout_msec f' = f_write_timeout_msec f.
Proof.
  intros Hwf. pose proof Hwf as []. unfold framing_reclaim.
  case_decide as Hs; [|exists f; split_and!; done || lia].
  destruct (decide (0 < f_len f)%nat) as [Hl|]; [|destruct wf_empty0; lia].
  rewrite read_pending by done. simpl.
  assert (Hp := length_pending f Hwf).
  destruct (write_range 0 (pending f) (f_buf f)) as [buf|] eqn:Hw.
  2:{ unfold write_range in Hw. case_decide; [done|lia]. }
  eexists; split; [done|]. pose proof (length_write_range _ _ _ _ Hw).
  apply write_range_Some in Hw as [_ Hbuf].
  split_and!; simpl; try done; [split; simpl; lia|].
  unfold pending; simpl. rewrite Hbuf, take_0, app_nil_l, drop_0.
  rewrite <-Hp at 1. by rewrite take_app_length.
Qed.

Lemma fill_wf_step f data buf :
  wf_framing f -> f_start f = 0%nat ->
  (f_len f + length data <= PJSOCKY_MAX_LINE)%nat ->
  write_range (f_len f) data (f_buf f) = Some buf ->
  let f' := f <| f_buf := buf |> <| f_len := (f_len f + length data)%nat |> in
  wf_framing f' /\ pending f' = pending f ++ data.
Proof.
  intros Hwf Hs Hlen Hw f'. destruct Hwf as [Hb _ _].
  pose proof (length_write_range _ _ _ _ Hw). split; [split; simpl; lia|].
  apply write_range_Some in Hw as [_ Hbuf].
  unfold f', pending; simpl. rewrite Hs, !drop_0, Hbuf, app_assoc.
  rewrite take_app_length'; [done|]. rewrite length_app, length_take. lia.
Qed.

Lemma fill_refines_aux `{!EnvLaws} f (s : St) :
  wf_framing f ->
  wp (pjsocky_framing_fill f) (fun '(st, f') s' =>
    wf_framing f' /\
    (st, pending f') =
      spec_fill (ans_sock_recv (hist s) (f_sock f) (PJSOCKY_MAX_LINE - f_len f))
                (pending f) /\
    f_sock f' = f_sock f /\ f_write_timeout_msec f' = f_write_timeout_msec f) s.
Proof.
  intros Hwf. unfold pjsocky_framing_fill.
  destruct (framing_reclaim_spec f Hwf)
    as (f0 & -> & Hwf0 & Hs0 & Hl0 & Hp0 & Hk0 & Ht0).
  pose proof (length_pending f Hwf) as Hlen. unfold spec_fill. rewrite Hlen, <-Hp0, <-Hl0.
  wp_step. eapply wpf_check; [done|].
  destruct (Z.leb_spec (Z.of_nat PJSOCKY_MAX_LINE - Z.of_nat (f_len f0)) 0).
  { apply wpf_ret. rewrite decide_True by lia. done. }
  rewrite decide_False by lia. wp_step. apply wpf_ask.
  replace (Z.to_nat (Z.of_nat PJSOCKY_MAX_LINE - Z.of_nat (f_len f0)))
    with (PJSOCKY_MAX_LINE - f_len f0)%nat by lia. rewrite Hk0.
  destruct (ans_sock_recv (hist s) (f_sock f) (PJSOCKY_MAX_LINE - f_len f0))
    as [st data] eqn:Hrecv. cbn beta iota.
  destruct (ok st) eqn:Hok; cbn [negb].
  2:{ apply ok_false in Hok. apply wpf_ret. destruct st; done. }
  apply ok_true in Hok as ->. apply recv_count in Hrecv.
  destruct data as [|b data]; [by apply wpf_ret|]. rewrite decide_False by done.
  destruct (write_range (f_len f0) (b :: data) (f_buf f0)) as [buf|] eqn:Hw.
  2:{ unfold write_range in Hw. destruct Hwf0. case_decide; [done|lia]. }
  wp_step. eapply wpf_check; [done|]. apply wpf_ret.
  destruct (fill_wf_step f0 (b :: data) buf) as [? ->]; try done. lia.
Qed.

Lemma extract_line_SUCCESS f n :
  wf_framing f -> memchr LF (pending f) = Some n ->
  exists f', pjsocky_framing_extract_line f = Some (PJ_SUCCESS, Some (f_start f, n), f') /\
    wf_framing f' /\ pending f' = drop (S n) (pending f) /\
    write_range (f_start f + n) [NUL] (f_buf f) = Some (f_buf f') /\
    (n < f_len f)%nat /\
    ((f_start f' = f_start f + S n /\ f_len f' = f_len f - S n)%nat
     \/ (f_start f' = 0%nat /\ f_len f' = 0%nat)) /\
    f_sock f' = f_sock f /\ f_write_timeout_msec f' = f_write_timeout_msec f.
Proof.
  intros Hwf Hn. pose proof (length_pending f Hwf) as Hlen.
  unfold pjsocky_framing_extract_line. rewrite read_pending by done. simpl.
  rewrite Hn. apply memchr_Some in Hn as (_ & _ & Hlt). destruct Hwf.
  destruct (write_range (f_start f + n) [NUL] (f_buf f)) as [buf|] eqn:Hw.
  2:{ unfold write_range in Hw. simpl in Hw. case_decide; [done|lia]. }
  simpl. eexists. split; [done|]. pose proof (length_write_range _ _ _ _ Hw).
  assert (Hpend : take (f_len f - S n) (drop (f_start f + S n) buf)
                  = drop (S n) (pending f)).
  { rewrite (read_write_disjoint _ _ _ _ _ _ Hw) by (simpl; lia).
    unfold pending. by rewrite skipn_firstn_comm, drop_drop. }
  case_decide as He; simpl in *.
  - split_and!; [split; simpl; lia| |done|lia|by right|done|done].
    rewrite <-Hpend, He, !take_0. done.
  - split_and!; [split; simpl; lia|done|done|lia|by left|done|done].
Qed.

Lemma extract_line_other f :
  wf_framing f -> memchr LF (pending f) = None ->
  pjsocky_framing_extract_line f =
    Some (if decide (PJSOCKY_MAX_LINE <= f_len f)%nat
          then (PJ_ETOOBIG, None, f <| f_len := 0%nat |> <| f_start := 0%nat |>)
          else (PJ_EPENDING, None, f)).
Proof.
  intros Hwf Hn. unfold pjsocky_framing_extract_line.
  rewrite read_pending by done. simpl. rewrite Hn. by case_decide.
Qed.

(** The text of a returned line, read back from the buffer. *)
Definition line_text (line : option (nat * nat)) (buf : bytes) : option bytes :=
  '(off, n) ← line; read_range off n buf.

Lemma extract_refines_aux f :
  wf_framing f ->
  exists st line f', pjsocky_framing_extract_line f = Some (st, line, f') /\
    wf_framing f' /\
    (st, line_text line (f_buf f'), pending f') = spec_extract (pending f).
Proof.
  intros Hwf. unfold spec_extract. rewrite (length_pending f Hwf).
  destruct (memchr LF (pending f)) as [n|] eqn:Hn.
  - destruct (extract_line_SUCCESS f n Hwf Hn)
      as (f' & -> & Hwf' & Hp & Hw & Hlt & _ & _).
    eexists _, _, f'. split_and!; [done..|]. rewrite Hp. f_equal. f_equal. simpl.
    pose proof Hwf. pose proof Hwf'. destruct H0, H1. unfold read_range.
    rewrite decide_True by lia.
    rewrite (read_write_disjoint _ _ _ _ _ _ Hw) by (simpl; lia).
    unfold pending. by rewrite take_take, Nat.min_l by lia.
  - rewrite extract_line_other by done. destruct Hwf. case_decide.
    + eexists _, _, _. split_and!; [done|split; simpl; lia|done].
    + eexists _, _, _. split_and!; done.
Qed.

(** *** Lines stay valid while further lines are extracted *)

Definition extract_step f f' : Prop :=
  exists st line, pjsocky_framing_extract_line f = Some (st, line, f').

(** The [n] bytes at [off] and their terminator are behind the read
    position. *)
Definition handed_out (off n : nat) f : Prop :=
  wf_framing f /\ (off + n < length (f_buf f))%nat /\
  (f_len f = 0%nat \/ off + n < f_start f)%nat.

Lemma extract_step_keeps f f' off n :
  handed_out off n f -> extract_step f f' ->
  handed_out off n f' /\
  take (S n) (drop off (f_buf f')) = take (S n) (drop off (f_buf f)).
Proof.
  intros (Hwf & Hlt & Hpos) (st & line & Hx).
  destruct (memchr LF (pending f)) as [k|] eqn:Hk.
  - destruct (extract_line_SUCCESS f k Hwf Hk)
      as (f1 & Hx1 & Hwf1 & _ & Hw & Hkl & Hst & _).
    rewrite Hx1 in Hx. simplify_eq. pose proof (length_write_range _ _ _ _ Hw).
    split; [split_and!; [done|lia|lia]|].
    by rewrite (read_write_disjoint _ _ _ _ _ _ Hw) by (simpl; lia).
  - rewrite extract_line_other in Hx by done. destruct Hwf.
    case_decide; simplify_eq; split; try done; split_and!; simpl; try lia.
    all: split; simpl; lia.
Qed.

Lemma extract_steps_wf f f' : wf_framing f -> rtc extract_step f f' -> wf_framing f'.
Proof.
  intros Hwf Hs. revert Hwf. induction Hs as [|f f1 f' (st & line & Hx) _ IH]; [done|].
  intros Hwf. apply IH. destruct (extract_refines_aux f Hwf) as (? & ? & ? & Hx' & Hwf' & _).
  by simplify_eq.
Qed.

Lemma extract_steps_keep f f' off n :
  rtc extract_step f f' -> handed_out off n f ->
  take (S n) (drop off (f_buf f')) = take (S n) (drop off (f_buf f)).
Proof.
  induction 1 as [|f f1 f' Hs _ IH]; [done|]. intros Hh.
  destruct (extract_step_keeps f f1 off n Hh Hs) as [Hh1 <-]. by apply IH.
Qed.
End receive.

(** ** Lines of a byte stream *)
Fixpoint split_lines (p : bytes) : list bytes * bytes :=
  match p with
  | [] => ([], [])
  | c :: p =>
      let '(ls, r) := split_lines p in
      if decide (c = LF) then ([] :: ls, r)
      else match ls with
           | [] => ([], c :: r)
           | l :: ls => ((c :: l) :: ls, r)
           end
  end.

Lemma split_lines_app p q :
  split_lines (p ++ q) =
    let '(l1, r1) := split_lines p in
    let '(l2, r2) := split_lines (r1 ++ q) in (l1 ++ l2, r2).
Proof.
  induction p as [|c p IH]; simpl; [by destruct (split_lines q)|].
  rewrite IH. destruct (split_lines p) as [l1 r1].
  destruct (decide (c = LF)) as [Hc|Hc].
  - by destruct (split_lines (r1 ++ q)).
  - destruct l1 as [|l l1]; simpl.
    + destruct (split_lines (r1 ++ q)) as [l2 r2]. simpl. rewrite decide_False by done.
      by destruct l2.
    + by destruct (split_lines (r1 ++ q)).
Qed.

Lemma split_lines_no_newline p : LF ∉ p -> split_lines p = ([], p).
Proof.
  induction p as [|c p IH]; [done|]. intros Hn. simpl.
  rewrite IH by set_solver. rewrite decide_False by set_solver. done.
Qed.

Lemma split_lines_newline l q :
  LF ∉ l -> split_lines (l ++ LF :: q) = (l :: (split_lines q).1, (split_lines q).2).
Proof.
  intros Hl. induction l as [|c l IH]; simpl; [by destruct (split_lines q)|].
  rewrite IH by set_solver. by rewrite decide_False by set_solver.
Qed.

Lemma split_lines_memchr p n :
  memchr LF p = Some n ->
  split_lines p =
    (take n p :: (split_lines (drop (S n) p)).1, (split_lines (drop (S n) p)).2).
Proof. intros (Hp & Hn & _)%memchr_Some. rewrite Hp at 1. by rewrite split_lines_newline. Qed.

(** Splitting loses nothing, and no line contains a newline. *)
Lemma split_lines_join p :
  let '(ls, r) := split_lines p in
  p = concat ((fun l => l ++ [LF]) <$> ls) ++ r /\ LF ∉ r /\
  Forall (fun l => LF ∉ l) ls.
Proof.
  induction p as [|c p IH]; [split_and!; [done|set_solver|done]|]. simpl.
  destruct (split_lines p) as [ls r]. destruct IH as (-> & Hr & Hls).
  destruct (decide (c = LF)) as [->|Hc].
  - split_and!; [done|done|by constructor; [set_solver|]].
  - destruct ls as [|l ls].
    + split_and!; [done|set_solver|done].
    + inversion_clear Hls. split_and!; [done|done|by constructor; [set_solver|]].
Qed.

(** ** Properties *)

(** A framing object with two pending bytes at the end of its storage, and a
    peer that sends a newline. *)
Definition sample_framing : framing :=
  {| f_sock := 7; f_write_timeout_msec := 5000; f_start := 8190; f_len := 2;
     f_buf := replicate 8190 NUL ++ ["a"%char; "b"%char; NUL] |}.
Definition newline_peer : script :=
  quiet <| sim_recv := fun _ cap => (PJ_SUCCESS, take cap [LF]) |>.

Lemma sample_framing_wf : wf_framing sample_framing.
Proof. by split; vm_compute; try lia. Qed.
Lemma newline_peer_ok : script_ok newline_peer.
Proof.
  destruct quiet_ok. split; simpl; try done.
  intros h cap data [= <-]. rewrite length_take. lia.
Qed.

(** C23: Receiving refines the abstract receiver: from a well-formed framing
    object, [pjsocky_framing_fill] stays inside its buffer, returns, keeps
    the object well-formed, and appends exactly what the socket delivered to
    the pending bytes - or reports end of file, "nothing to read", the
    socket's error, or a full buffer, leaving the pending bytes alone. *)
Theorem fill_refines `{!Env, !EnvLaws} f (s : St) :
  wf_framing f ->
  wp (pjsocky_framing_fill f) (fun '(st, f') s' =>
    wf_framing f' /\
    (st, pending f') =
      spec_fill (ans_sock_recv (hist s) (f_sock f) (PJSOCKY_MAX_LINE - f_len f))
                (pending f) /\
    f_sock f' = f_sock f /\ f_write_timeout_msec f' = f_write_timeout_msec f) s.
Proof. apply fill_refines_aux. Qed.

Lemma fill_refines_witness :
  @wpf St _ False (@pjsocky_framing_fill (env_of newline_peer) sample_framing)
    (fun '(st, f') _ => wf_framing f' /\
       (st, pending f') =
       spec_fill (PJ_SUCCESS, take (PJSOCKY_MAX_LINE - 2) [LF]) (pending sample_framing) /\
       f_sock f' = 7 /\ f_write_timeout_msec f' = 5000)
    (@initial_state (env_of newline_peer)).
Proof.
  apply (@fill_refines (env_of newline_peer) (env_of_laws _ newline_peer_ok)
           sample_framing _ sample_framing_wf).
Defined.

(** C22: Line extraction refines the abstract receiver: it never leaves the
    buffer, hands out exactly the bytes before the first pending newline and
    keeps the rest pending; without a newline it asks for more data, or - the
    buffer being full - reports the line as too long and drops it. *)
Theorem extract_refines f :
  wf_framing f ->
  exists st line f', pjsocky_framing_extract_line f = Some (st, line, f') /\
    wf_framing f' /\
    (st, line_text line (f_buf f'), pending f') = spec_extract (pending f).
Proof. apply extract_refines_aux. Qed.

Lemma extract_refines_witness :
  exists st line f', pjsocky_framing_extract_line sample_framing = Some (st, line, f') /\
    wf_framing f' /\
    (st, line_text line (f_buf f'), pending f') = (PJ_EPENDING, None, ["a"%char; "b"%char]).
Proof. exact (extract_refines sample_framing sample_framing_wf). Defined.

(** A line that was handed out, and its terminating NUL, stay as they
    are in the buffer while any number of further lines are extracted - the
    pointer [pjsocky_framing_extract_line] returned is valid until the next
    fill. *)
Theorem extracted_line_survives f st off n f1 f2 :
  wf_framing f ->
  pjsocky_framing_extract_line f = Some (st, Some (off, n), f1) ->
  rtc extract_step f1 f2 ->
  read_range off (S n) (f_buf f2) = read_range off (S n) (f_buf f1) /\
  (f_buf f1 !! (off + n)%nat = Some NUL).
Proof.
  intros Hwf Hx Hsteps.
  destruct (memchr LF (pending f)) as [k|] eqn:Hk.
  2:{ rewrite extract_line_other in Hx by done. case_decide; simplify_eq. }
  destruct (extract_line_SUCCESS f k Hwf Hk) as (f' & Hx' & Hwf' & _ & Hw & Hlt & Hst & _).
  rewrite Hx' in Hx. simplify_eq.
  pose proof (length_write_range _ _ _ _ Hw). pose proof Hwf as [].
  assert (handed_out (f_start f) n f1) as Hh by (split_and!; [done|lia|lia]).
  pose proof (extract_steps_wf f1 f2 Hwf' Hsteps) as [].
  pose proof (extract_steps_keep f1 f2 _ _ Hsteps Hh) as Hkeep.
  unfold read_range. rewrite !decide_True, Hkeep by lia. split; [done|].
  apply write_range_Some in Hw as [_ ->].
  rewrite lookup_app_r; rewrite length_take; [|lia].
  by rewrite Nat.min_l, Nat.sub_diag by lia.
Qed.

(** Two complete lines, and the object after one extraction. *)
Definition two_lines : framing :=
  let lines := ["a"%char; "b"%char; LF; "c"%char; LF] in
  {| f_sock := 7; f_write_timeout_msec := 5000; f_start := 0; f_len := 5;
     f_buf := lines ++ replicate (S PJSOCKY_MAX_LINE - length lines) NUL |}.
Definition next_framing (f : framing) : framing :=
  match pjsocky_framing_extract_line f with Some (_, _, f') => f' | None => f end.

Lemma two_lines_wf : wf_framing two_lines.
Proof. by split; vm_compute; try lia. Qed.

Lemma extracted_line_survives_witness :
  read_range 0 3 (f_buf (next_framing (next_framing two_lines))) =
    read_range 0 3 (f_buf (next_framing two_lines)) /\
  f_buf (next_framing two_lines) !! 2%nat = Some NUL.
Proof.
  apply (extracted_line_survives two_lines PJ_SUCCESS 0 2 (next_framing two_lines)
           (next_framing (next_framing two_lines))).
  - exact two_lines_wf.
  - vm_compute. reflexivity.
  - apply rtc_once. exists PJ_SUCCESS, (Some (3, 1)%nat). vm_compute. reflexivity.
Defined.
