(* ===== verification/Compact.v ===== *)
(** * The JSON compactor (src/proto/framing.c, compact_json)

    The in-place loop is equal to a pure filter, and on any text made of
    whitespace, punctuation and string literals it removes exactly the
    whitespace between the tokens. *)

From S2P Require Import Prelude Float32 Pjlib Env State Framing.

(** ** The loop and its pure reading *)
Fixpoint compact (in_string escaped : bool) (l : bytes) : bytes :=
  match l with
  | [] => []
  | c :: l =>
      if in_string then
        c :: (if escaped then compact true false l
              else if decide (c = BACKSLASH) then compact true true l
              else if decide (c = QUOTE) then compact false false l
              else compact true false l)
      else if decide (c = QUOTE) then c :: compact true escaped l
      else if is_insignificant c then compact false escaped l
      else c :: compact false escaped l
  end.

Lemma write_one buf out c :
  (out < length buf)%nat ->
  exists buf', write_range out [c] buf = Some buf' /\
    length buf' = length buf /\ take (S out) buf' = take out buf ++ [c] /\
    forall i, (out < i)%nat -> drop i buf' = drop i buf.
Proof.
  intros Hlt. unfold write_range. rewrite decide_True by (simpl; lia).
  eexists; split; [done|]. split_and!.
  - rewrite !length_app, length_take, length_drop. simpl. lia.
  - rewrite app_assoc, take_app_length'; [done|].
    rewrite length_app, length_take. simpl. lia.
  - intros i Hi. rewrite app_assoc, drop_app_ge;
      rewrite length_app, length_take; simpl; [|lia].
    rewrite drop_drop. f_equal. lia.
Qed.

Lemma compact_json_loop_spec n i out ins esc buf :
  (out <= i)%nat -> (i + n <= length buf)%nat ->
  exists buf' out', compact_json_loop n i out ins esc buf = Some (buf', out') /\
    length buf' = length buf /\ (out <= out' <= out + n)%nat /\
    take out' buf' = take out buf ++ compact ins esc (take n (drop i buf)).
Proof.
  revert i out ins esc buf. induction n as [|n IH]; intros i out ins esc buf Ho Hi.
  { exists buf, out. split_and!; [done|done|lia|lia|]. by rewrite take_0, app_nil_r. }
  destruct (lookup_lt_is_Some_2 buf i) as [c Hc]; [lia|]. cbn [compact_json_loop].
  rewrite Hc. simpl. rewrite (drop_S buf c i Hc). cbn [take compact].
  destruct (write_one buf out c) as (b & Hb & Hlb & Htb & Hdb); [lia|].
  assert (Hemit : forall ins' esc', exists buf' out',
    compact_json_loop n (S i) (S out) ins' esc' b = Some (buf', out') /\
    length buf' = length buf /\ (out <= out' <= out + S n)%nat /\
    take out' buf' = take out buf ++ c :: compact ins' esc' (take n (drop (S i) buf))).
  { intros ins' esc'. destruct (IH (S i) (S out) ins' esc' b)
      as (b' & o' & -> & Hl & Hle & Ht); [lia|lia|].
    exists b', o'. split_and!; [done|lia|lia|lia|].
    by rewrite Ht, Htb, Hdb, <-app_assoc by lia. }
  assert (Hskip : forall esc', exists buf' out',
    compact_json_loop n (S i) out false esc' buf = Some (buf', out') /\
    length buf' = length buf /\ (out <= out' <= out + S n)%nat /\
    take out' buf' = take out buf ++ compact false esc' (take n (drop (S i) buf))).
  { intros esc'. destruct (IH (S i) out false esc' buf)
      as (b' & o' & -> & Hl & Hle & Ht); [lia|lia|].
    exists b', o'. split_and!; [done|lia|lia|lia|done]. }
  destruct ins; [|destruct (decide (c = QUOTE)); [|destruct (is_insignificant c)]];
    rewrite ?Hb; simpl; try apply Hemit; [|apply Hskip].
  destruct esc; [apply Hemit|].
  destruct (decide (c = BACKSLASH)); [apply Hemit|].
  destruct (decide (c = QUOTE)); apply Hemit.
Qed.

(** The compactor never leaves the buffer, and the compacted text is the pure
    filter of the original. *)
Lemma compact_json_eq buf :
  exists buf' n, compact_json buf (length buf) = Some (buf', n) /\
    (n <= length buf)%nat /\ take n buf' = compact false false buf.
Proof.
  destruct (compact_json_loop_spec (length buf) 0 0 false false buf)
    as (buf' & n & Hloop & _ & Hle & Ht); [lia|lia|].
  exists buf', n. split_and!; [done|lia|].
  by rewrite Ht, take_0, drop_0, firstn_all.
Qed.

(** ** Lexical structure of JSON text *)

(** A character of a string literal: plain, or a backslash and any byte. *)
Inductive strchar : Type := Plain (c : ascii) | Escaped (c : ascii).
Inductive lexeme : Type :=
| Space (c : ascii)
| Symbol (c : ascii)
| Literal (body : list strchar).

Definition wf_strchar (x : strchar) : Prop :=
  match x with Plain c => c <> QUOTE /\ c <> BACKSLASH | Escaped _ => True end.
Definition wf_lexeme (x : lexeme) : Prop :=
  match x with
  | Space c => is_insignificant c = true
  | Symbol c => is_insignificant c = false /\ c <> QUOTE
  | Literal body => Forall wf_strchar body
  end.
Definition is_space (x : lexeme) : bool :=
  match x with Space _ => true | _ => false end.
#[global] Instance is_space_dec x : Decision (~ is_space x).
Proof. solve_decision. Defined.

Definition render_strchar (x : strchar) : bytes :=
  match x with Plain c => [c] | Escaped c => [BACKSLASH; c] end.
Definition render_lexeme (x : lexeme) : bytes :=
  match x with
  | Space c | Symbol c => [c]
  | Literal body => QUOTE :: concat (render_strchar <$> body) ++ [QUOTE]
  end.
Definition render (xs : list lexeme) : bytes := concat (render_lexeme <$> xs).

Lemma space_not_quote c : is_insignificant c = true -> c <> QUOTE.
Proof. by intros H ->. Qed.

Lemma compact_literal body rest :
  Forall wf_strchar body ->
  compact true false (concat (render_strchar <$> body) ++ QUOTE :: rest) =
  concat (render_strchar <$> body) ++ QUOTE :: compact false false rest.
Proof.
  induction 1 as [|[c|c] body Hx _ IH]; csimpl; [done| |].
  - destruct Hx as [Hq Hb]. rewrite decide_False, decide_False by done. by rewrite IH.
  - by rewrite IH.
Qed.

Lemma compact_render_app xs rest :
  Forall wf_lexeme xs ->
  compact false false (render xs ++ rest) =
  render (filter (fun x => ~ is_space x) xs) ++ compact false false rest.
Proof.
  unfold render. induction 1 as [|x xs Hx _ IH]; [done|]. rewrite filter_cons.
  destruct x as [c|c|body]; csimpl in *.
  - rewrite decide_False by (by apply space_not_quote). by rewrite Hx, IH.
  - destruct Hx as [Hs Hq]. rewrite decide_False by done. by rewrite Hs, IH.
  - rewrite <-!app_assoc. csimpl.
    rewrite compact_literal by done. by rewrite IH.
Qed.

Lemma compact_render xs :
  Forall wf_lexeme xs ->
  compact false false (render xs) = render (filter (fun x => ~ is_space x) xs).
Proof.
  intros H. rewrite <-(app_nil_r (render xs)), compact_render_app by done.
  by rewrite app_nil_r.
Qed.

(** A string literal holds no raw newline. *)
Definition one_line_lexeme (x : lexeme) : Prop :=
  match x with Literal body => LF ∉ concat (render_strchar <$> body) | _ => True end.

Lemma render_one_line xs :
  Forall wf_lexeme xs -> Forall one_line_lexeme xs ->
  LF ∉ render (filter (fun x => ~ is_space x) xs).
Proof.
  unfold render. induction 1 as [|x xs Hx _ IH]; intros Ho; [set_solver|].
  inversion_clear Ho as [|? ? Hone Hrest]. specialize (IH Hrest).
  rewrite filter_cons. destruct x as [c|c|body]; csimpl in *; [done| |].
  - destruct Hx as [Hs _]. rewrite elem_of_cons. intros [<-|?]; done.
  - rewrite elem_of_cons, !elem_of_app, list_elem_of_singleton.
    intros [?|[[?|?]|?]]; done.
Qed.

(** What json.h documents of [pj_json_write]'s output, lexically: its length
    is bounded by the buffer, and it is a sequence of tokens whose literals
    have their control characters escaped. *)
Class PjJsonWriteLaws `{PjJson} : Prop := {
  write_length e n out :
    pj_json_write e n = (PJ_SUCCESS, out) -> Z.of_nat (length out) <= n;
  write_lexes e n out :
    pj_json_write e n = (PJ_SUCCESS, out) ->
    exists xs, out = render xs /\ Forall wf_lexeme xs /\ Forall one_line_lexeme xs;
}.

(** ** Properties *)

(** C21: Compaction is exact: on any text made of whitespace, punctuation and
    string literals (escapes included), [compact_json] never leaves the
    buffer and leaves in its first [n] bytes exactly the same tokens with the
    whitespace between them - and none inside a literal - removed.  Where no
    literal holds a raw newline, as in what [pj_json_write] prints, no newline
    is left. *)
Theorem compact_json_tokens xs :
  Forall wf_lexeme xs ->
  exists buf n, compact_json (render xs) (length (render xs)) = Some (buf, n) /\
    (n <= length (render xs))%nat /\
    take n buf = render (filter (fun x => ~ is_space x) xs) /\
    (Forall one_line_lexeme xs -> LF ∉ take n buf).
Proof.
  intros Hxs. destruct (compact_json_eq (render xs)) as (buf & n & Hc & Hn & Ht).
  exists buf, n. rewrite Ht, compact_render by done. split_and!; [done..|].
  by apply render_one_line.
Qed.

(** An object with a space and an escaped quote inside a literal. *)
Definition sample_lexemes : list lexeme :=
  [Symbol "{"%char; Space LF; Literal [Plain "k"%char; Plain SPACE; Escaped QUOTE];
   Symbol ":"%char; Space SPACE; Symbol "1"%char; Space LF; Symbol "}"%char].

Lemma compact_json_tokens_witness :
  exists buf n, compact_json (render sample_lexemes) 13 = Some (buf, n) /\
    (n <= 13)%nat /\
    take n buf = ["{"; QUOTE; "k"; SPACE; BACKSLASH; QUOTE; QUOTE; ":"; "1"; "}"]%char /\
    (Forall one_line_lexeme sample_lexemes -> LF ∉ take n buf).
Proof.
  apply (compact_json_tokens sample_lexemes).
  repeat constructor; try done; by repeat constructor.
Defined.
