(* ===== verification/SimJson.v ===== *)
(** * A concrete JSON library

    One instance of [PjJson]: a printer that lays objects out with spaces and
    newlines the way pjlib-util does, and a parser of the same text, enough
    for requests without escapes, arrays or fractions. *)

From S2P Require Import Prelude Float32 Pjlib Env State Framing Compact.
#[local] Open Scope Z_scope.

(** ** Printing, as lexemes *)
Definition sim_strchar (c : ascii) : strchar :=
  if decide (c = QUOTE \/ c = BACKSLASH) then Escaped c
  else if decide (c = LF) then Escaped "n"%char else Plain c.
Definition sim_literal (s : string) : lexeme :=
  Literal (sim_strchar <$> bytes_of_string s).

Definition digit_char (d : Z) : ascii := ascii_of_nat (48 + Z.to_nat (d mod 10)).
Fixpoint digits (fuel : nat) (z : Z) : bytes :=
  match fuel with
  | O => []
  | S fuel => (if decide (z < 10) then [] else digits fuel (z / 10)) ++ [digit_char z]
  end.
Definition sim_symbols (s : bytes) : list lexeme :=
  Symbol <$> filter (fun c => is_insignificant c = false /\ c <> QUOTE) s.
Definition sim_number (f : float) : bytes :=
  match trunc f with
  | Some z => if z <? 0 then "-"%char :: digits 12 (- z) else digits 12 z
  | None => bytes_of_string "null"
  end.

Fixpoint sim_lexemes (depth : nat) (e : jelem) : list lexeme :=
  match depth with
  | O => []
  | S depth =>
      let 'Elem name v := e in
      (if decide (name = EmptyString) then [] else [sim_literal name; Symbol ":"%char; Space SPACE]) ++
      let children cs := concat (fmap (fun c => c ++ [Symbol ","%char; Space LF])
                                      (sim_lexemes depth <$> removelast cs)) ++
                         match last cs with Some c => sim_lexemes depth c | None => [] end in
      match v with
      | PJ_JSON_VAL_NULL => sim_symbols (bytes_of_string "null")
      | PJ_JSON_VAL_BOOL true => sim_symbols (bytes_of_string "true")
      | PJ_JSON_VAL_BOOL false => sim_symbols (bytes_of_string "false")
      | PJ_JSON_VAL_NUMBER f => sim_symbols (sim_number f)
      | PJ_JSON_VAL_STRING s => [sim_literal s]
      | PJ_JSON_VAL_ARRAY cs => [Symbol "["%char; Space LF] ++ children cs ++ [Symbol "]"%char]
      | PJ_JSON_VAL_OBJ cs => [Symbol "{"%char; Space LF] ++ children cs ++ [Symbol "}"%char]
      end
  end.

Definition sim_depth : nat := 8.
Definition sim_write (e : jelem) (size : Z) : pj_status * bytes :=
  let out := render (sim_lexemes sim_depth e) in
  if Z.of_nat (length out) <=? size then (PJ_SUCCESS, out) else (PJ_ETOOBIG, []).

Definition good_lexeme (x : lexeme) : Prop := wf_lexeme x /\ one_line_lexeme x.

Lemma sim_literal_good s : good_lexeme (sim_literal s).
Proof.
  split; simpl.
  - apply Forall_fmap, Forall_true. intros c. unfold compose, sim_strchar.
    case_decide; [done|]. case_decide; [done|]. simpl. tauto.
  - induction (bytes_of_string s) as [|c l IH]; csimpl; [set_solver|].
    unfold sim_strchar at 1. case_decide as H1; [|case_decide as H2]; simpl.
    + rewrite !elem_of_cons. intros [?|[<-|?]]; [done| |done]. by destruct H1.
    + rewrite !elem_of_cons. intros [?|[?|?]]; done.
    + rewrite elem_of_cons. intros [<-|?]; done.
Qed.

Lemma sim_symbols_good s : Forall good_lexeme (sim_symbols s).
Proof.
  apply Forall_fmap, Forall_forall. intros c [Hc _]%list_elem_of_filter. by split.
Qed.

Lemma symbol_good c : is_insignificant c = false -> c <> QUOTE -> good_lexeme (Symbol c).
Proof. by split. Qed.
Lemma space_good c : is_insignificant c = true -> good_lexeme (Space c).
Proof. by split. Qed.

Lemma sim_lexemes_good depth e : Forall good_lexeme (sim_lexemes depth e).
Proof.
  revert e. induction depth as [|depth IH]; intros [name v]; [done|]. cbn [sim_lexemes].
  assert (Hcs : forall cs, Forall good_lexeme
    (concat (fmap (fun c => c ++ [Symbol ","%char; Space LF])
                  (sim_lexemes depth <$> removelast cs)) ++
     match last cs with Some c => sim_lexemes depth c | None => [] end)).
  { intros cs. apply Forall_app. split; [|by destruct (last cs)].
    induction (removelast cs) as [|c l IHl]; csimpl; [done|].
    rewrite !Forall_app. repeat split; [apply IH| |apply IHl].
    by repeat (constructor; try done). }
  apply Forall_app. split.
  - case_decide; [done|]. constructor; [apply sim_literal_good|]. by repeat (constructor; try done).
  - destruct v as [|[]| |s|cs|cs]; try apply sim_symbols_good.
    + constructor; [apply sim_literal_good|done].
    + apply Forall_app. split; [|apply Forall_app; split; [apply Hcs|]]; by repeat (constructor; try done).
    + apply Forall_app. split; [|apply Forall_app; split; [apply Hcs|]]; by repeat (constructor; try done).
Qed.

(** ** Parsing *)
Fixpoint sim_string (acc : bytes) (s : bytes) : option (string * bytes) :=
  match s with
  | [] => None
  | c :: rest => if decide (c = QUOTE) then Some (string_of_bytes acc, rest)
                 else sim_string (acc ++ [c]) rest
  end.
Fixpoint sim_skip (s : bytes) : bytes :=
  match s with
  | c :: rest => if is_insignificant c then sim_skip rest else s
  | [] => []
  end.
Fixpoint sim_digits (acc : Z) (s : bytes) : Z * bytes :=
  match s with
  | c :: rest => if decide (48 <= nat_of_ascii c <= 57)%nat
                 then sim_digits (10 * acc + Z.of_nat (nat_of_ascii c) - 48) rest else (acc, s)
  | [] => (acc, [])
  end.
Definition sim_word (w : string) (s : bytes) : option bytes :=
  if decide (take (String.length w) s = bytes_of_string w)
  then Some (drop (String.length w) s) else None.

Fixpoint sim_value (fuel : nat) (s : bytes) : option (jvalue * bytes) :=
  match fuel with
  | O => None
  | S fuel =>
      match sim_skip s with
      | c :: rest =>
          if decide (c = QUOTE) then
            '(t, rest) ← sim_string [] rest; Some (PJ_JSON_VAL_STRING t, rest)
          else if decide (c = "{"%char) then
            '(cs, rest) ← sim_members fuel (sim_skip rest); Some (PJ_JSON_VAL_OBJ cs, rest)
          else if decide (c = "-"%char) then
            let '(z, rest) := sim_digits 0 rest in
            Some (PJ_JSON_VAL_NUMBER (float_of_int (- z)), rest)
          else match sim_word "true" (c :: rest), sim_word "false" (c :: rest) with
               | Some rest, _ => Some (PJ_JSON_VAL_BOOL true, rest)
               | _, Some rest => Some (PJ_JSON_VAL_BOOL false, rest)
               | None, None =>
                   if decide (48 <= nat_of_ascii c <= 57)%nat then
                     let '(z, rest) := sim_digits 0 (c :: rest) in
                     Some (PJ_JSON_VAL_NUMBER (float_of_int z), rest)
                   else None
               end
      | [] => None
      end
  end
with sim_members (fuel : nat) (s : bytes) : option (list jelem * bytes) :=
  match fuel with
  | O => None
  | S fuel =>
      match s with
      | c :: rest =>
          if decide (c = "}"%char) then Some ([], rest)
          else if decide (c = ","%char) then sim_members fuel (sim_skip rest)
          else if decide (c = QUOTE) then
            '(name, rest) ← sim_string [] rest;
            match sim_skip rest with
            | c :: rest =>
                if decide (c = ":"%char) then
                  '(v, rest) ← sim_value fuel rest;
                  '(cs, rest) ← sim_members fuel (sim_skip rest);
                  Some (Elem name v :: cs, rest)
                else None
            | [] => None
            end
          else None
      | [] => None
      end
  end.

Definition sim_parse (s : bytes) : option jelem :=
  '(v, _) ← sim_value (length s) s; Some (Elem EmptyString v).

Definition sim_add (e c : jelem) : jelem :=
  match e with
  | Elem n (PJ_JSON_VAL_OBJ cs) => Elem n (PJ_JSON_VAL_OBJ (cs ++ [c]))
  | Elem n (PJ_JSON_VAL_ARRAY cs) => Elem n (PJ_JSON_VAL_ARRAY (cs ++ [c]))
  | _ => e
  end.
Definition sim_strcmp (a b : string) : Z := if decide (a = b) then 0 else 1.

Definition sim_json : PjJson := {|
  pj_json_elem_bool := fun n b => Elem n (PJ_JSON_VAL_BOOL b);
  pj_json_elem_number := fun n f => Elem n (PJ_JSON_VAL_NUMBER f);
  pj_json_elem_string := fun n v => Elem n (PJ_JSON_VAL_STRING v);
  pj_json_elem_array := fun n => Elem n (PJ_JSON_VAL_ARRAY []);
  pj_json_elem_obj := fun n => Elem n (PJ_JSON_VAL_OBJ []);
  pj_json_elem_add := sim_add;
  pj_json_parse := sim_parse;
  pj_json_write := sim_write;
  pj_strcmp2 := sim_strcmp;
  pj_stricmp2 := sim_strcmp;
  pj_strerror := fun _ => "error"%string
|}.

Lemma sim_json_laws : @PjJsonLaws sim_json.
Proof.
  split; try done. intros a b. simpl. unfold sim_strcmp. by case_decide.
Qed.

Lemma sim_write_spec e n out :
  sim_write e n = (PJ_SUCCESS, out) ->
  out = render (sim_lexemes sim_depth e) /\ Z.of_nat (length out) <= n.
Proof.
  unfold sim_write. generalize (render (sim_lexemes sim_depth e)). intros r.
  destruct (Z.leb_spec (Z.of_nat (length r)) n); by intros [= <-].
Qed.

Lemma sim_json_write_laws : @PjJsonWriteLaws sim_json.
Proof.
  split; intros e n out [-> Hn]%sim_write_spec; [done|].
  pose proof (sim_lexemes_good sim_depth e) as H. revert H.
  generalize (sim_lexemes sim_depth e). intros xs [Hw Ho]%Forall_and. by exists xs.
Qed.

(** A JSON text, written with single quotes. *)
Definition json_text (s : string) : bytes :=
  (fun c => if decide (c = "'"%char) then QUOTE else c) <$> bytes_of_string s.

Example sim_parse_request :
  sim_parse (json_text "{'id': '1', 'cmd': 'call.hangup', 'params': {'call_id': 2}}") =
  Some (Elem "" (PJ_JSON_VAL_OBJ
    [Elem "id" (PJ_JSON_VAL_STRING "1"); Elem "cmd" (PJ_JSON_VAL_STRING "call.hangup");
     Elem "params" (PJ_JSON_VAL_OBJ [Elem "call_id" (PJ_JSON_VAL_NUMBER (float_of_int 2))])])).
Proof. vm_compute. reflexivity. Qed.
