(* ===== verification/Wire.v ===== *)
(** * What reaches the wire (src/proto/framing.c, the send side)

    The bytes a socket has accepted are read off the history; the sender
    puts a prefix of its message there, all of it exactly on success, within
    its deadline. *)

From S2P Require Import Prelude Float32 Pjlib Env SimEnv State Framing Compact SimJson.

(** The bytes socket [s] has accepted, oldest first. *)
Definition accepted (s : Z) (a : action) : bytes :=
  match a with
  | A_sock_send s' data (PJ_SUCCESS, n) =>
      if decide (s' = s) then take (Z.to_nat n) data else []
  | _ => []
  end.
Fixpoint wire (s : Z) (h : history) : bytes :=
  match h with
  | [] => []
  | a :: h => wire s h ++ accepted s a
  end.

Lemma wire_logs s l : Forall is_log l -> wire s l = [].
Proof. induction 1 as [|a l Ha _ IH]; [done|]. destruct a; try done; simpl; by rewrite IH. Qed.

Lemma wire_app s l h : wire s (l ++ h) = wire s h ++ wire s l.
Proof.
  induction l as [|a l IH]; simpl; [by rewrite app_nil_r|].
  by rewrite IH, app_assoc.
Qed.

(** Calls that neither open a connection nor read from one. *)
Definition plain (a : action) : Prop :=
  match a with A_accept _ _ | A_sock_recv _ _ => False | _ => True end.

Lemma plain_logs l : Forall is_log l -> Forall plain l.
Proof. intros Hl. eapply Forall_impl; [exact Hl|]. by intros [] []. Qed.

(** The library calls a send may make: nothing but sends to its own socket,
    clock readings, and waits no longer than the deadline, in a well-formed
    [timeval]. *)
Definition send_action (sock timeout_msec : Z) (a : action) : Prop :=
  match a with
  | A_sock_send s _ _ => s = sock
  | A_gettickcount | A_get_os_error => True
  | A_select_write s tv_sec tv_usec =>
      s = sock /\ 0 <= tv_sec /\ 0 <= tv_usec < 1000000 /\
      tv_sec * 1000000 + tv_usec <= timeout_msec * 1000
  | _ => False
  end.

Lemma send_action_other_wire sock t l s :
  Forall (send_action sock t) l -> s <> sock -> wire s l = [].
Proof.
  induction 1 as [|a l Ha _ IH]; intros Hs; [done|]. simpl. rewrite IH by done.
  destruct a; try done. simpl in *. destruct answer as [[] n]; try done.
  by rewrite decide_False by congruence.
Qed.

(** [sends sock t data s s']: from [s] to [s'] only the history grew, by
    send actions, and [data] was added to the socket's wire. *)
Definition sends (sock timeout_msec : Z) (data : bytes) (s s' : St) : Prop :=
  exists l, s' = s <| hist := l ++ hist s |> /\
    Forall (send_action sock timeout_msec) l /\ wire sock l = data.

Lemma sends_refl sock t s : sends sock t [] s s.
Proof. exists []. by destruct s. Qed.

Lemma sends_trans sock t d1 d2 s1 s2 s3 :
  sends sock t d1 s1 s2 -> sends sock t d2 s2 s3 -> sends sock t (d1 ++ d2) s1 s3.
Proof.
  intros (l1 & -> & H1 & <-) (l2 & -> & H2 & <-). exists (l2 ++ l1).
  split_and!; [|by apply Forall_app|by rewrite wire_app].
  simpl. by rewrite app_assoc.
Qed.

Lemma sends_one sock t a (s : St) :
  send_action sock t a -> sends sock t (accepted sock a) s (s <| hist := a :: hist s |>).
Proof. intros Ha. exists [a]. split_and!; [done|by constructor|done]. Qed.

Section sending.
Context `{!Env, !EnvLaws}.

Lemma to_signed_le w z : 1 <= w -> 0 <= z -> to_signed w z <= z.
Proof.
  intros Hw Hz. unfold to_signed.
  assert (0 < 2 ^ w) by (apply Z.pow_pos_nonneg; lia).
  assert (0 < 2 ^ (w - 1)) by (apply Z.pow_pos_nonneg; lia).
  pose proof (Z.mod_le (z + 2 ^ (w - 1)) (2 ^ w)). lia.
Qed.

(** The deadline of a wait, split into seconds and microseconds. *)
Lemma select_tv_bounds r t :
  0 < r -> r <= t ->
  0 <= r / 1000 /\ 0 <= (r mod 1000) * 1000 < 1000000 /\
  r / 1000 * 1000000 + (r mod 1000) * 1000 <= t * 1000.
Proof.
  intros. pose proof (Z.mod_pos_bound r 1000). pose proof (Z.div_mod r 1000).
  pose proof (Z.div_pos r 1000). lia.
Qed.

(** Every wait in [l], the calls made from history [h] on, is preceded by a
    reading of the clock and is as long as what that reading leaves until the
    deadline [dl], in milliseconds of the tick count. *)
Fixpoint waits_until (dl : Z) (h l : history) : Prop :=
  match l with
  | [] => True
  | a :: l =>
      waits_until dl h l /\
      match a with
      | A_select_write _ tv_sec tv_usec =>
          match l with
          | A_gettickcount :: l0 =>
              1000 * time_msec (ans_gettickcount (l0 ++ h)) + (1000000 * tv_sec + tv_usec)
              = 1000 * dl
          | _ => False
          end
      | _ => True
      end
  end.

Lemma waits_until_app dl h l1 l2 :
  waits_until dl h l1 -> waits_until dl (l1 ++ h) l2 -> waits_until dl h (l2 ++ l1).
Proof.
  intros H1. induction l2 as [|a l2 IH]; [done|]. simpl. intros [H2 Ha]. split; [by apply IH|].
  destruct a; try done. destruct l2 as [|[] l2]; try done. simpl in *. by rewrite <-app_assoc.
Qed.

(** A sender has given up with status [st] after [k] bytes of [buf]: the last
    thing it did was to offer the socket all the rest, of which the socket
    took nothing; where the answer was that the send would block, it went on
    to the clock. *)
Definition gave_up (sock : Z) (buf : bytes) (k : nat) (l : history) (st : pj_status) : Prop :=
  exists l2 st' n l1, l = l2 ++ A_sock_send sock (drop k buf) (st', n) :: l1 /\
    (forall data ans, A_sock_send sock data ans ∉ l2) /\
    if ok st' then n <= 0 /\ st = PJ_EEOF
    else if is_would_block st' then exists l3, l2 = l3 ++ [A_gettickcount]
    else l2 = [] /\ st = st'.

Lemma gave_up_app sock buf k l1 l2 st :
  gave_up sock buf k l2 st -> gave_up sock buf k (l2 ++ l1) st.
Proof.
  intros (l3 & st' & n & l0 & -> & Hrest). exists l3, st', n, (l0 ++ l1). by rewrite <-app_assoc.
Qed.

(** What [send_loop] has done when it returns [st] having started with
    [sent] bytes gone: some more bytes of the message went out, up to [k], all
    of them exactly when it reports success; no wait goes beyond the deadline
    [dl]; and it gives up only when the socket takes nothing. *)
Record loop_sent (sock timeout dl : Z) (buf : bytes) (sent k : nat) (h l : history)
    (st : pj_status) : Prop := {
  ls_count : (sent <= k <= length buf)%nat;
  ls_calls : Forall (send_action sock timeout) l;
  ls_bytes : wire sock l = take (k - sent) (drop sent buf);
  ls_status : st = PJ_SUCCESS <-> k = length buf;
  ls_waits : waits_until dl h l;
  ls_gave_up : st <> PJ_SUCCESS -> gave_up sock buf k l st }.

Lemma loop_sent_app sock t dl buf sent sent' k h l1 l2 st :
  (sent <= sent')%nat -> Forall (send_action sock t) l1 ->
  wire sock l1 = take (sent' - sent) (drop sent buf) -> waits_until dl h l1 ->
  loop_sent sock t dl buf sent' k (l1 ++ h) l2 st ->
  loop_sent sock t dl buf sent k h (l2 ++ l1) st.
Proof.
  intros Hle Hl1 Hw1 Hu1 [Hk Hl2 Hw2 Hst Hu2 Hg]. split; [lia|by apply Forall_app| |done|..].
  - rewrite wire_app, Hw1, Hw2.
    replace (drop sent' buf) with (drop (sent' - sent) (drop sent buf))
      by (rewrite drop_drop; f_equal; lia).
    rewrite take_take_drop. f_equal. lia.
  - by apply waits_until_app.
  - intros Hne. by apply gave_up_app, Hg.
Qed.

(** The wait that follows a send that would block. *)
Record waited (sock timeout dl : Z) (h l : history) : Prop := {
  wt_calls : Forall (send_action sock timeout) l;
  wt_sends : forall data ans, A_sock_send sock data ans ∉ l;
  wt_waits : waits_until dl h l;
  wt_clock : exists l', l = l' ++ [A_gettickcount] }.

Lemma no_send_wire sock t l :
  Forall (send_action sock t) l -> (forall data ans, A_sock_send sock data ans ∉ l) -> wire sock l = [].
Proof.
  induction 1 as [|a l Ha _ IH]; intros Hno; [done|]. simpl. rewrite IH; cycle 1.
  { intros data ans Hin. apply (Hno data ans). by constructor. }
  destruct a; try done. simpl in Ha. subst. exfalso. apply (Hno data answer). by constructor.
Qed.

(** A history that goes back to the reading of the start time. *)
Definition since (h0 : history) (s : St) : Prop := exists l, hist s = l ++ h0.

Lemma since_app h0 l (s : St) : since h0 s -> since h0 (s <| hist := l ++ hist s |>).
Proof. intros [k Hk]. exists (l ++ k). simpl. by rewrite Hk, app_assoc. Qed.

(** The instant a send begun at history [h] has to be over. *)
Definition deadline (timeout_msec : Z) (h : history) : Z :=
  time_msec (ans_gettickcount h) + to_signed LONG_BIT timeout_msec.

Lemma wait_writable_spec sock t h0 (s : St) :
  1 <= LONG_BIT -> 0 <= t -> since h0 s ->
  wp (wait_writable sock t (ans_gettickcount h0)) (fun w s' => exists l,
    s' = s <| hist := l ++ hist s |> /\ waited sock t (deadline t h0) (hist s) l /\
    w <> Some PJ_SUCCESS) s.
Proof.
  intros HL Ht Hh. unfold wait_writable. wp_step. apply wpf_ask.
  set (r := to_signed LONG_BIT t - _).
  assert (Hr : r <= t).
  { unfold r, elapsed_msec. pose proof (to_signed_le LONG_BIT t HL Ht).
    destruct Hh as [l Hl]. pose proof (clock_monotone l h0). rewrite Hl. lia. }
  destruct (Z.leb_spec r 0).
  { apply wpf_ret. exists [A_gettickcount]. split_and!; [done| |done].
    split; [by repeat constructor|set_solver|done|by exists []]. }
  wp_step. apply wpf_ask. set (a := A_select_write _ _ _).
  assert (Hw : forall l', Forall (send_action sock t) l' ->
    (forall a, a ∈ l' -> a = A_get_os_error) ->
    waited sock t (deadline t h0) (hist s) (l' ++ [a; A_gettickcount])).
  { intros l' Hl' Hos. assert (Ha : send_action sock t a) by (split; [done|by apply select_tv_bounds]).
    assert (Hu : waits_until (deadline t h0) (hist s) [a; A_gettickcount]).
    { split_and!; [done..|]. simpl. unfold deadline, r, elapsed_msec in *.
      match goal with |- context [?x / 1000] => pose proof (Z.div_mod x 1000) end. lia. }
    split.
    - apply Forall_app. split; [done|]. constructor; [done|by constructor].
    - intros data ans Hin. apply elem_of_app in Hin as [Hin|Hin]; [by apply Hos in Hin|set_solver].
    - clear -Hu Hos. induction l' as [|x l' IH]; [done|]. split.
      + apply IH. intros y Hy. apply Hos. by constructor.
      + rewrite (Hos x); [done|constructor].
    - exists (l' ++ [a]). by rewrite <-app_assoc. }
  destruct (ans_select_write _ _ _ _).
  - wp_step. apply wpf_ask.
    assert (Hos : waited sock t (deadline t h0) (hist s) ([A_get_os_error] ++ [a; A_gettickcount])).
    { apply Hw; [by repeat constructor|]. set_solver. }
    case_bool_decide; apply wpf_ret; exists ([A_get_os_error] ++ [a; A_gettickcount]); (split_and!; [reflexivity|exact Hos|]); [done|].
    intros [= Herr]. by eapply os_error_fails.
  - apply wpf_ret. exists [a; A_gettickcount]. split_and!; [done|apply (Hw []); [constructor|set_solver]|done].
  - apply wpf_ret. exists [a; A_gettickcount]. split_and!; [done|apply (Hw []); [constructor|set_solver]|done].
Qed.

(** The sender in [loop_sent]'s terms. *)
Definition loop_ran (sock timeout dl : Z) (buf : bytes) (sent : nat) (s : St)
    (st : pj_status) (s' : St) : Prop :=
  exists k l, s' = s <| hist := l ++ hist s |> /\ loop_sent sock timeout dl buf sent k (hist s) l st.

Lemma loop_ran_app sock t dl buf sent sent' l1 (s : St) st s' :
  (sent <= sent')%nat -> Forall (send_action sock t) l1 ->
  wire sock l1 = take (sent' - sent) (drop sent buf) -> waits_until dl (hist s) l1 ->
  loop_ran sock t dl buf sent' (s <| hist := l1 ++ hist s |>) st s' ->
  loop_ran sock t dl buf sent s st s'.
Proof.
  intros Hle Hl Hw Hu (k & l2 & -> & Hs). exists k, (l2 ++ l1). split.
  - simpl. by rewrite <-app_assoc.
  - by eapply loop_sent_app.
Qed.

Lemma loop_ran_fail sock t dl buf sent l (s : St) st :
  (sent < length buf)%nat -> st <> PJ_SUCCESS -> Forall (send_action sock t) l ->
  wire sock l = [] -> waits_until dl (hist s) l -> gave_up sock buf sent l st ->
  loop_ran sock t dl buf sent s st (s <| hist := l ++ hist s |>).
Proof.
  intros Hlt Hst Hl Hw Hu Hg. exists sent, l. split; [done|]. split; [lia|done| | |done|done].
  - by rewrite Nat.sub_diag, take_0.
  - split; [done|lia].
Qed.

Lemma send_loop_spec fuel sock buf t h0 sent (s : St) :
  1 <= LONG_BIT -> 0 <= t -> since h0 s -> (sent <= length buf)%nat ->
  wlp (send_loop fuel sock buf t (ans_gettickcount h0) sent)
    (loop_ran sock t (deadline t h0) buf sent s) s.
Proof.
  intros HL Ht. revert sent s.
  induction fuel as [|fuel IH]; intros sent s Hh Hle; [done|].
  cbn [send_loop]. case_decide as Hlt; cycle 1.
  { apply wpf_ret. exists sent, []. split; [by destruct s|].
    split; [lia|done|by rewrite Nat.sub_diag, take_0|split; [lia|done]|done|done]. }
  wp_step. apply wpf_ask.
  destruct (ans_sock_send (hist s) sock (drop sent buf)) as [st n] eqn:Hsend.
  cbn beta iota. set (a := A_sock_send _ _ _).
  assert (Hh1 : since h0 (s <| hist := [a] ++ hist s |>)) by by apply since_app.
  assert (Ha : Forall (send_action sock t) [a]) by by repeat constructor.
  assert (Hgone : ok st = true -> 0 < n -> wire sock [a] = take (Z.to_nat n) (drop sent buf)).
  { intros ->%ok_true _. simpl. by rewrite decide_True. }
  assert (Hnone : ok st = false \/ n <= 0 -> wire sock [a] = []).
  { intros Hor. simpl. destruct st; try done. destruct Hor; [done|].
    by rewrite decide_True, Z2Nat.nonpos, take_0. }
  destruct (ok st) eqn:Hok.
  - apply ok_true in Hok as ->. pose proof (send_count _ _ _ _ Hsend) as Hn.
    rewrite length_drop in Hn. destruct (Z.leb_spec n 0).
    { apply wpf_ret, (loop_ran_fail _ _ _ _ _ [a]); auto; [done..|].
      exists [], PJ_SUCCESS, n, []. split_and!; [done|set_solver|done]. }
    eapply wpf_mono; [apply IH; [done|lia]|]. intros st' s'.
    apply (loop_ran_app _ _ _ _ _ _ [a]); [lia|done| |done].
    rewrite Hgone by done. f_equal. lia.
  - pose proof Hok as Hok'. apply ok_false in Hok. destruct (is_would_block st) eqn:Hwb; cbn [negb]; cycle 1.
    { apply wpf_ret, (loop_ran_fail _ _ _ _ _ [a]); auto; [done..|].
      exists [], st, n, []. rewrite Hok', Hwb. split_and!; [done|set_solver|done..]. }
    wp_step. eapply wpf_mono; [by eapply wp_wlp, wait_writable_spec|].
    intros w s' (l & -> & [Hl Hno Hu (l' & ->)] & Hw).
    change (hist (s <| hist := a :: hist s |>)) with ([a] ++ hist s) in Hu.
    pose proof (no_send_wire _ _ _ Hl Hno) as Hnw. set (l := l' ++ _) in *.
    assert (Hall : Forall (send_action sock t) (l ++ [a])) by by apply Forall_app.
    assert (Hwire : wire sock (l ++ [a]) = []) by (rewrite wire_app, Hnw, Hnone by auto; done).
    assert (Hua : waits_until (deadline t h0) (hist s) (l ++ [a])) by by apply waits_until_app.
    replace (s <| hist := a :: hist s |> <| hist := l ++ hist (s <| hist := a :: hist s |>) |>)
      with (s <| hist := (l ++ [a]) ++ hist s |>) by (simpl; by rewrite <-app_assoc).
    destruct w as [st'|].
    + apply wpf_ret, (loop_ran_fail _ _ _ _ _ (l ++ [a])); [done|congruence|done..|].
      exists l, st, n, []. rewrite Hok', Hwb. split; [done|]. split; [exact Hno|by exists l'].
    + eapply wpf_mono; [apply IH; [by apply since_app|done]|]. intros st' s''.
      apply loop_ran_app; try done. by rewrite Nat.sub_diag, take_0.
Qed.

(** The specification of the sender, [l] being its calls from history [h] on:
    it reads the clock and puts the first [k] bytes of the message on its
    socket, by sends to that socket and waits none of which goes beyond the
    deadline counted from that reading; the result is success exactly when
    that is the whole message, and otherwise the socket has just refused to
    take any of the rest. *)
Record sending (sock timeout : Z) (buf : bytes) (h l : history) (st : pj_status) (k : nat) : Prop := {
  snd_start : exists l', l = l' ++ [A_gettickcount];
  snd_calls : Forall (send_action sock timeout) l;
  snd_count : (k <= length buf)%nat;
  snd_bytes : wire sock l = take k buf;
  snd_status : st = PJ_SUCCESS <-> k = length buf;
  snd_waits : waits_until (deadline timeout h) h l;
  snd_gave_up : st <> PJ_SUCCESS -> gave_up sock buf k l st }.

Lemma send_all_spec sock buf t (s : St) :
  1 <= LONG_BIT -> 0 <= t ->
  wlp (send_all sock buf t) (fun st s' => exists l k,
    s' = s <| hist := l ++ hist s |> /\ sending sock t buf (hist s) l st k) s.
Proof.
  intros HL Ht. unfold send_all. wp_step. apply wpf_ask.
  eapply wpf_mono; [apply (send_loop_spec _ _ _ _ (hist s)); try done|].
  - by exists [A_gettickcount].
  - lia.
  - intros st s' (k & l & -> & [Hk Hl Hw Hst Hu Hg]). exists (l ++ [A_gettickcount]), k.
    split; [simpl; by rewrite <-app_assoc|]. split.
    + by exists l.
    + apply Forall_app. split; [done|by constructor].
    + lia.
    + by rewrite wire_app, Hw, Nat.sub_0_r, drop_0, app_nil_l.
    + done.
    + by apply waits_until_app.
    + intros Hne. by apply gave_up_app, Hg.
Qed.

(** *** The sender returns

    [select_waits]: a socket that [select] reports writable takes a byte, or
    refuses it for good, unless [select] had waited for at least a millisecond;
    and a signal interrupts it only after as long. *)
Definition select_waits : Prop := forall h s tv_sec tv_usec,
  let h' := A_select_write s tv_sec tv_usec :: h in
  let later := time_msec (ans_gettickcount h) < time_msec (ans_gettickcount h') in
  match ans_select_write h s tv_sec tv_usec with
  | SelectReady _ =>
      (forall data, is_would_block (ans_sock_send h' s data).1 = false) \/ later
  | SelectTimeout => True
  | SelectError => ans_get_os_error h' = PJ_STATUS_FROM_OS EINTR -> later
  end.

(** [elapsed_from start m h]: every clock reading from history [h] on is at
    least [m] milliseconds after [start]. *)
Definition elapsed_from (start : time_val) (m : Z) (h : history) : Prop :=
  forall l, m <= elapsed_msec (ans_gettickcount (l ++ h)) start.

Lemma elapsed_from_app start m l h :
  elapsed_from start m h -> elapsed_from start m (l ++ h).
Proof. intros Hm l'. rewrite app_assoc. apply Hm. Qed.

(** The next send will not be told to wait. *)
Definition willing (sock : Z) (h : history) : Prop :=
  forall data, is_would_block (ans_sock_send h sock data).1 = false.

(** After a wait the socket is willing, or time has passed. *)
Lemma wait_writable_returns sock t start m (s : St) :
  1 <= LONG_BIT -> 0 <= t -> select_waits -> elapsed_from start m (hist s) ->
  wp (wait_writable sock t start) (fun w s' => w = None ->
    (willing sock (hist s') /\ elapsed_from start m (hist s')) \/
    exists m', m < m' <= t /\ elapsed_from start m' (hist s')) s.
Proof.
  intros HL Ht Hclk Hm. unfold wait_writable. wp_step. apply wpf_ask.
  pose proof (to_signed_le LONG_BIT t HL Ht). pose proof (Hm []) as He. simpl in He.
  set (e := elapsed_msec _ start) in *.
  destruct (Z.leb_spec (to_signed LONG_BIT t - e) 0); [by apply wpf_ret|].
  wp_step. apply wpf_ask. set (a := A_select_write _ _ _).
  pose proof (clock_monotone [A_gettickcount] (hist s)) as Hmono. simpl in Hmono.
  pose proof (Hclk (A_gettickcount :: hist s) sock ((to_signed LONG_BIT t - e) / 1000)
    ((to_signed LONG_BIT t - e) mod 1000 * 1000)) as Hc. cbv zeta in Hc. fold a in Hc.
  assert (Hnext : time_msec (ans_gettickcount (A_gettickcount :: hist s)) <
    time_msec (ans_gettickcount (a :: A_gettickcount :: hist s)) ->
    forall l, elapsed_from start (e + 1) (l ++ a :: A_gettickcount :: hist s)).
  { intros Hlt l l'. rewrite app_assoc. unfold e, elapsed_msec in *.
    pose proof (clock_monotone (l' ++ l) (a :: A_gettickcount :: hist s)). lia. }
  simpl in Hc. destruct (ans_select_write _ _ _ _).
  - wp_step. apply wpf_ask. case_bool_decide as Hintr; apply wpf_ret; [|done]. intros _. right.
    exists (e + 1). split; [lia|]. by apply (Hnext (Hc Hintr) [_]).
  - by apply wpf_ret.
  - apply wpf_ret. intros _. destruct Hc as [Hwill|Hlt].
    + left. split; [exact Hwill|]. apply (elapsed_from_app _ _ [a; A_gettickcount]), Hm.
    + right. exists (e + 1). split; [lia|]. by apply (Hnext Hlt []).
Qed.

(** Each round but the last one sends a byte, finds that time has passed, or
    finds the socket willing, which the next round does not. *)
Lemma send_loop_returns fuel sock buf t start sent m (patient : bool) (s : St) :
  1 <= LONG_BIT -> 0 <= t -> select_waits -> elapsed_from start m (hist s) ->
  (patient = false -> willing sock (hist s)) -> (sent <= length buf)%nat ->
  (2 * (length buf - sent) + Z.to_nat (t - m) + Nat.b2n patient < fuel)%nat ->
  wp (send_loop fuel sock buf t start sent) (fun _ _ => True) s.
Proof.
  intros HL Ht Hclk. revert sent m patient s.
  induction fuel as [|fuel IH]; intros sent m patient s Hm Hp Hle Hfuel; [lia|].
  cbn [send_loop]. case_decide; [|by apply wpf_ret].
  wp_step. apply wpf_ask.
  destruct (ans_sock_send (hist s) sock (drop sent buf)) as [st n] eqn:Hsend.
  cbn beta iota. destruct (ok st) eqn:Hok.
  - apply ok_true in Hok as ->. pose proof (send_count _ _ _ _ Hsend) as Hn.
    rewrite length_drop in Hn. destruct (Z.leb_spec n 0); [by apply wpf_ret|].
    apply (IH _ m true); [apply (elapsed_from_app _ _ [_]), Hm|done|lia|].
    destruct patient; simpl in *; lia.
  - destruct (is_would_block st) eqn:Hwb; cbn [negb]; [|by apply wpf_ret].
    destruct patient; cycle 1.
    { specialize (Hp eq_refl (drop sent buf)). rewrite Hsend in Hp. simpl in Hp. congruence. }
    wp_step. eapply wpf_mono; [eapply (wait_writable_returns _ _ _ m); try done|].
    { apply (elapsed_from_app _ _ [_]), Hm. }
    intros [st'|] s' Hw; [by apply wpf_ret|]. destruct (Hw eq_refl) as [[Hwill Hm']|(m' & ? & Hm')].
    + apply (IH _ m false); [done..|]. simpl in *. lia.
    + apply (IH _ m' true); [done..|]. simpl in *. lia.
Qed.

Lemma send_all_returns_aux sock buf t (s : St) :
  1 <= LONG_BIT -> 0 <= t -> select_waits ->
  wp (send_all sock buf t) (fun _ _ => True) s.
Proof.
  intros HL Ht Hclk. unfold send_all. wp_step. apply wpf_ask.
  apply (send_loop_returns _ _ _ _ _ _ 0 true); try done; [|lia|unfold send_fuel; simpl; lia].
  intros l. unfold elapsed_msec. simpl.
  pose proof (clock_monotone (l ++ [A_gettickcount]) (hist s)) as Hmono.
  rewrite <-app_assoc in Hmono. simpl in Hmono. lia.
Qed.

(** What is known of a send when it returns, and - on the assumption on the
    clock - that it returns: with [F] the false proposition, the statements
    that follow are total, with [F] true they assume nothing. *)
Lemma send_all_total F sock buf t (s : St) :
  F \/ select_waits -> 1 <= LONG_BIT -> 0 <= t ->
  wpf F (send_all sock buf t) (fun st s' => exists l k,
    s' = s <| hist := l ++ hist s |> /\ sending sock t buf (hist s) l st k) s.
Proof.
  intros Hclk HL Ht. apply wlp_wpf; [by apply send_all_spec|].
  destruct Hclk; [by left|right]. by apply send_all_returns_aux.
Qed.

(** ** Lines and JSON messages *)

(** A line is sent, [data] being what the socket has taken of it: the line
    within one deadline; once all of it is gone, the newline within another. *)
Definition line_sent (f : framing) (line : bytes) (h l : history) (st : pj_status) (data : bytes) : Prop :=
  let sending := sending (f_sock f) (f_write_timeout_msec f) in
  exists l1 st1 k, sending line h l1 st1 k /\
    if ok st1
    then exists l2 k2, l = l2 ++ l1 /\ sending [LF] (l1 ++ h) l2 st k2 /\
           data = line ++ take k2 [LF]
    else l = l1 /\ st = st1 /\ data = take k line.

Lemma line_sent_sends f line h (s : St) l st data :
  line_sent f line h l st data ->
  data `prefix_of` line ++ [LF] /\
  sends (f_sock f) (f_write_timeout_msec f) data s (s <| hist := l ++ hist s |>) /\
  (st = PJ_SUCCESS <-> data = line ++ [LF]).
Proof.
  intros (l1 & st1 & k & H1 & H2). destruct H1 as [_ Hl1 Hk Hw1 Hst1 _ _]. destruct (ok st1) eqn:Hok.
  - apply ok_true, Hst1 in Hok as ->. destruct H2 as (l2 & k2 & -> & [_ Hl2 Hk2 Hw2 Hst2 _ _] & ->).
    rewrite firstn_all in Hw1. split_and!.
    + apply prefix_app. exists (drop k2 [LF]). by rewrite take_drop.
    + exists (l2 ++ l1). split_and!; [done|by apply Forall_app|by rewrite wire_app, Hw1, Hw2].
    + rewrite Hst2. split; [by intros ->|]. intros Heq. simplify_list_eq.
      destruct k2 as [|[|]]; simpl in *; done || lia.
  - destruct H2 as (-> & -> & ->). apply ok_false in Hok. split_and!.
    + trans line; [|by exists [LF]]. exists (drop k line). by rewrite take_drop.
    + by exists l1.
    + split; [done|]. intros Heq%(f_equal length).
      rewrite length_app, length_take in Heq. simpl in Heq. lia.
Qed.

Lemma write_line_spec F f line (s : St) :
  F \/ select_waits -> 1 <= LONG_BIT -> 0 <= f_write_timeout_msec f ->
  wpf F (pjsocky_framing_write_line f line) (fun st s' => exists l data,
    s' = s <| hist := l ++ hist s |> /\ line_sent f line (hist s) l st data) s.
Proof.
  intros Hclk HL Ht. unfold pjsocky_framing_write_line. wp_step.
  eapply wpf_mono; [by apply send_all_total|]. intros st s1 (l & k & -> & Hs).
  destruct (ok st) eqn:Hok; cbn [negb].
  - eapply wpf_mono; [by apply send_all_total|]. intros st' s2 (l2 & k2 & -> & Hs2).
    exists (l2 ++ l), (line ++ take k2 [LF]). split; [simpl; by rewrite <-app_assoc|].
    exists l, st, k. split; [done|]. rewrite Hok. by exists l2, k2.
  - apply wpf_ret. exists l, (take k line). split; [done|]. exists l, st, k. by rewrite Hok.
Qed.

Context `{!PjJson}.

(** The line an element is written as; a status if it does not fit. *)
Definition json_line (e : jelem) (scratch_size : nat) : pj_status + bytes :=
  match pj_json_write e (to_unsigned (Z.of_nat scratch_size)) with
  | (PJ_SUCCESS, out) => inr (compact false false out ++ [LF])
  | (st, _) => inl st
  end.

(** An element is sent: as its line, or - if it has none - not at all. *)
Definition message_sent (f : framing) (e : jelem) (n : nat) (h l : history) (st : pj_status)
    (data : bytes) : Prop :=
  match json_line e n with
  | inl st' => st = st' /\ l = [] /\ data = []
  | inr msg => exists line, msg = line ++ [LF] /\ line_sent f line h l st data
  end.

Lemma json_line_fails e n st : json_line e n = inl st -> st <> PJ_SUCCESS.
Proof. unfold json_line. by destruct (pj_json_write e _) as [[] out]; intros [= <-]. Qed.

Lemma write_json_sent F f e n (s : St) :
  F \/ select_waits -> 1 <= LONG_BIT -> 0 <= f_write_timeout_msec f ->
  wpf F (pjsocky_framing_write_json f e n) (fun st s' => exists l data,
    s' = s <| hist := l ++ hist s |> /\ message_sent f e n (hist s) l st data) s.
Proof.
  intros Hclk HL Ht. unfold pjsocky_framing_write_json, message_sent, json_line.
  destruct (pj_json_write e _) as [st out]. destruct (ok st) eqn:Hok; cbn [negb].
  - apply ok_true in Hok as ->. destruct (compact_json_eq out) as (buf & k & Hc & _ & Hk).
    wp_step. eapply wpf_check; [done|]. cbn beta iota. rewrite Hk.
    eapply wpf_mono; [by apply write_line_spec|]. intros st s' (l & data & Hs' & Hl).
    exists l, data. split; [done|]. by eexists.
  - apply ok_false in Hok. apply wpf_ret. exists [], []. split; [by destruct s|]. by destruct st.
Qed.

Lemma json_line_one_line `{!PjJsonWriteLaws} e n msg :
  json_line e n = inr msg -> exists body, msg = body ++ [LF] /\ LF ∉ body.
Proof.
  unfold json_line. destruct (pj_json_write e _) as [[] out] eqn:Hw; try done.
  intros [= <-]. eexists; split; [done|].
  destruct (write_lexes _ _ _ Hw) as (xs & -> & Hwf & Hone).
  rewrite compact_render by done. by apply render_one_line.
Qed.
End sending.

(** ** Properties *)

Lemma sim_select_waits x : @select_waits (env_of x).
Proof.
  intros h s a b. right. unfold time_msec. simpl. lia.
Qed.

(** C20: A message on the wire: [pjsocky_framing_write_json] either refuses an
    element that does not fit and makes no call at all, or sends one line -
    the compacted text, which holds no newline, and the newline that ends it:
    to its own socket and nowhere else goes a prefix of that line, all of it
    exactly when success is reported.  The text has one deadline, counted from
    a reading of the clock before its first byte, and the newline has another:
    every wait for the socket is as long as what the latest reading leaves of
    it, so that none goes beyond it.  Short of success, the last thing done
    was to offer the socket the rest, of which it took nothing.  Given that
    [select] waits, it always returns. *)
Theorem write_json_wire `{!Env, !EnvLaws, !PjJson, !PjJsonWriteLaws} f e n (s : St) :
  1 <= LONG_BIT -> 0 <= f_write_timeout_msec f -> select_waits ->
  wp (pjsocky_framing_write_json f e n) (fun st s' => exists l data,
    s' = s <| hist := l ++ hist s |> /\
    match json_line e n with
    | inl st' => st = st' /\ st <> PJ_SUCCESS /\ l = []
    | inr msg => exists line, msg = line ++ [LF] /\ LF ∉ line /\
        line_sent f line (hist s) l st data /\
        data `prefix_of` msg /\ (st = PJ_SUCCESS <-> data = msg) /\
        sends (f_sock f) (f_write_timeout_msec f) data s s'
    end) s.
Proof.
  intros HL Ht Hclk. eapply wpf_mono; [by apply write_json_sent; [right|..]|].
  intros st s' (l & data & Hs' & Hsent). exists l, data. split; [done|].
  unfold message_sent in Hsent. destruct (json_line e n) as [st'|msg] eqn:Hj.
  - destruct Hsent as (-> & -> & _). split_and!; [done|by eapply json_line_fails|done].
  - destruct Hsent as (line & -> & Hl).
    apply json_line_one_line in Hj as (body & Heq & Hlf). simplify_list_eq.
    destruct (line_sent_sends _ _ _ s _ _ _ Hl) as (? & ? & ?). by exists body.
Qed.

Definition sample_elem : jelem :=
  Elem "" (PJ_JSON_VAL_OBJ [Elem "event" (PJ_JSON_VAL_STRING "hello")]).

Lemma write_json_wire_witness :
  @wpf St _ False
    (@pjsocky_framing_write_json (env_of quiet) sim_json sample_framing sample_elem 8192)
    (fun st s' => exists l data,
       s' = @initial_state (env_of quiet) <| hist := l |> /\
       @line_sent (env_of quiet) sample_framing (json_text "{'event':'hello'}") [] l st data /\
       (st = PJ_SUCCESS <-> data = json_text "{'event':'hello'}" ++ [LF]))
    (@initial_state (env_of quiet)).
Proof.
  assert (Hj : @json_line sim_json sample_elem 8192
               = inr (json_text "{'event':'hello'}" ++ [LF])) by (vm_compute; reflexivity).
  pose proof (@write_json_wire (env_of quiet) quiet_laws sim_json sim_json_write_laws
    sample_framing sample_elem 8192 (@initial_state (env_of quiet))
    ltac:(simpl; lia) ltac:(simpl; lia) (sim_select_waits quiet)) as Hw.
  eapply wpf_mono; [exact Hw|]. intros st s'. cbv beta. rewrite Hj.
  intros (l & data & -> & line & Heq & _ & Hl & _ & Hst & _). exists l, data.
  apply app_inj_tail in Heq as [<- _]. split_and!; [by rewrite app_nil_r|exact Hl|exact Hst].
Defined.

(** C24: A blocked client cannot hold the daemon: whatever the socket answers,
    sending a message of any length returns, within [send_fuel] rounds of the
    loop - two for each byte, one for each millisecond of the deadline.  This
    rests on [select]: a socket that it reports writable takes or refuses the
    next bytes, unless [select] has waited for a millisecond, and no signal
    interrupts it earlier than that. *)
Theorem send_all_returns `{!Env, !EnvLaws} sock buf t (s : St) :
  1 <= LONG_BIT -> 0 <= t -> select_waits ->
  exists st s', send_all sock buf t s = Ok (st, s').
Proof.
  intros HL Ht Hclk. pose proof (send_all_returns_aux sock buf t s HL Ht Hclk) as Hret.
  unfold wpf in Hret. destruct (send_all sock buf t s) as [[st s']| |]; [|done..].
  by exists st, s'.
Qed.

(** A client that never reads. *)
Definition blocked_peer : script :=
  quiet <| sim_send := fun _ _ => (PJ_STATUS_FROM_OS EAGAIN, 0) |>.
Lemma blocked_peer_ok : script_ok blocked_peer.
Proof. by destruct quiet_ok. Qed.

Lemma send_all_returns_witness :
  exists st s', @send_all (env_of blocked_peer) 7 [LF] 5000
    (@initial_state (env_of blocked_peer)) = Ok (st, s').
Proof.
  apply (@send_all_returns (env_of blocked_peer) (env_of_laws _ blocked_peer_ok));
    [simpl; lia|lia|apply sim_select_waits].
Defined.
