(* ===== verification/JsonUtil.v ===== *)
(** * JSON helpers and version information
      (src/proto/jsonutil.c, src/proto/version.c)

    The accessors and builders over [pj_json_elem] the command handlers and
    the event builders are written with, and the object that answers both the
    [hello] event and [version.get]. *)

From S2P Require Import Prelude Float32 Pjlib Env.

Section jsonutil.
Context `{!PjJson}.

Fixpoint find_child (children : list jelem) (name : string) : option jelem :=
  match children with
  | [] => None
  | it :: rest =>
      if pj_strcmp2 (el_name it) name =? 0 then Some it else find_child rest name
  end.

(** A NULL [obj] is [None]. *)
Definition pjsocky_json_find (obj : option jelem) (name : string) : option jelem :=
  match obj with
  | Some (Elem _ (PJ_JSON_VAL_OBJ children)) => find_child children name
  | _ => None
  end.

Definition pjsocky_json_add_bool (obj : jelem) (name : string) (val : bool) : jelem :=
  pj_json_elem_add obj (pj_json_elem_bool name val).
Definition pjsocky_json_add_string (obj : jelem) (name val : string) : jelem :=
  pj_json_elem_add obj (pj_json_elem_string name val).
Definition pjsocky_json_add_str (obj : jelem) (name val : string) : jelem :=
  pj_json_elem_add obj (pj_json_elem_string name val).
Definition pjsocky_json_add_number (obj : jelem) (name : string) (val : float) : jelem :=
  pj_json_elem_add obj (pj_json_elem_number name val).

Definition PJSOCKY_PROTOCOL_VERSION : string := "1.1.0".

Context `{!Env}.

Definition pjsocky_version_fill (obj : jelem) : jelem :=
  let obj := pjsocky_json_add_string obj "protocol_version" PJSOCKY_PROTOCOL_VERSION in
  let obj := pjsocky_json_add_string obj "daemon_version" PJSOCKY_VERSION in
  pjsocky_json_add_string obj "pjsip_version" pj_get_version.

Context `{!PjJsonLaws}.

(** ** What the helpers promise *)
Definition obj (name : string) (children : list jelem) : jelem :=
  Elem name (PJ_JSON_VAL_OBJ children).

Lemma add_bool_obj n cs k v :
  pjsocky_json_add_bool (obj n cs) k v = obj n (cs ++ [Elem k (PJ_JSON_VAL_BOOL v)]).
Proof. unfold pjsocky_json_add_bool, obj. by autorewrite with json. Qed.
Lemma add_string_obj n cs k v :
  pjsocky_json_add_string (obj n cs) k v
  = obj n (cs ++ [Elem k (PJ_JSON_VAL_STRING v)]).
Proof. unfold pjsocky_json_add_string, obj. by autorewrite with json. Qed.
Lemma add_str_obj n cs k v :
  pjsocky_json_add_str (obj n cs) k v = obj n (cs ++ [Elem k (PJ_JSON_VAL_STRING v)]).
Proof. unfold pjsocky_json_add_str, obj. by autorewrite with json. Qed.
Lemma add_number_obj n cs k v :
  pjsocky_json_add_number (obj n cs) k v
  = obj n (cs ++ [Elem k (PJ_JSON_VAL_NUMBER v)]).
Proof. unfold pjsocky_json_add_number, obj. by autorewrite with json. Qed.
Lemma add_elem_obj n cs e : pj_json_elem_add (obj n cs) e = obj n (cs ++ [e]).
Proof. unfold obj. by autorewrite with json. Qed.
Lemma elem_obj_nil n : pj_json_elem_obj n = obj n [].
Proof. unfold obj. by autorewrite with json. Qed.

(** The first member with the name is found, and nothing else. *)
Lemma find_child_Some cs name e :
  find_child cs name = Some e <->
  exists pre post, cs = pre ++ e :: post /\ el_name e = name /\
    Forall (fun it => el_name it <> name) pre.
Proof.
  induction cs as [|it cs IH]; simpl.
  { split; [done|]. by intros ([|] & ? & ? & _). }
  destruct (Z.eqb_spec (pj_strcmp2 (el_name it) name) 0) as [Heq|Hne];
    rewrite strcmp2_spec in *.
  - split.
    + intros [= <-]. by exists [], cs.
    + intros (pre & post & Hcs & Hn & Hpre). destruct pre as [|x pre]; simplify_eq/=; [done|].
      by inversion Hpre.
  - rewrite IH. split.
    + intros (pre & post & -> & Hn & Hpre). exists (it :: pre), post.
      split_and!; [done..|by constructor].
    + intros (pre & post & Hcs & Hn & Hpre). destruct pre as [|x pre]; simplify_eq/=.
      inversion_clear Hpre. by exists pre, post.
Qed.

Lemma find_child_None cs name :
  find_child cs name = None <-> Forall (fun it => el_name it <> name) cs.
Proof.
  induction cs as [|it cs IH]; simpl; [done|]. rewrite Forall_cons.
  destruct (Z.eqb_spec (pj_strcmp2 (el_name it) name) 0) as [Heq|Hne];
    rewrite strcmp2_spec in *; [|rewrite IH]; naive_solver.
Qed.
End jsonutil.

Create Rewrite HintDb jsonbuild.
#[export] Hint Rewrite @add_bool_obj @add_string_obj @add_str_obj @add_number_obj
  @add_elem_obj @elem_obj_nil using exact _ : jsonbuild.
