(* ===== verification/Events.v ===== *)
(** * The write coordinator (src/proto/events.c)

    One object, reached through [g_instance], holds the lock every write to
    the control connection is made under and the pointer to the connection's
    framing object, NULL while no client is connected. *)

From S2P Require Import Prelude Float32 Pjlib Env SimEnv State Framing Compact SimJson Wire JsonUtil.

(** [pjsocky_events_t *]: the only non-NULL value is [g_instance]'s. *)
Inductive events_ptr : Type := THE_EVENTS.

(** Fills in the data of an event; of the daemon's statics, builders read
    account.c's only. *)
Abbreviation event_builder := (account_st -> jelem -> jelem).

Section events.
Context `{!Env, !PjJson}.

Definition pjsocky_events_create : C pj_status :=
  status ← pj_mutex_create_simple "pjsocky-events";
  if negb (ok status) then mret status else
  modify (fun s =>
    s <| g_instance := Some {| ev_lock_held := false; ev_framing := None |} |>);;
  mret PJ_SUCCESS.

Definition pjsocky_events_instance : C (option events_ptr) :=
  i ← gets g_instance; mret ((fun _ => THE_EVENTS) <$> i).

(** Reading through the pointer. *)
Definition deref_events (p : events_ptr) : C events :=
  i ← gets g_instance; match i with Some e => mret e | None => undef end.
Definition set_events (p : events_ptr) (f : events -> events) : C unit :=
  e ← deref_events p; modify (fun s => s <| g_instance := Some (f e) |>).

(** The mutex is not recursive: locking it twice from one thread does not
    return. *)
Definition pj_mutex_lock (p : events_ptr) : C unit :=
  e ← deref_events p;
  if ev_lock_held e then undef else
  set_events p (fun e => e <| ev_lock_held := true |>);; log_call A_mutex_lock.
Definition pj_mutex_unlock (p : events_ptr) : C unit :=
  set_events p (fun e => e <| ev_lock_held := false |>);; log_call A_mutex_unlock.

Definition pjsocky_events_set_conn (events : option events_ptr)
    (framing : option framing_ptr) : C unit :=
  match events with
  | None => mret tt
  | Some p =>
      pj_mutex_lock p;;
      set_events p (fun e => e <| ev_framing := framing |>);;
      pj_mutex_unlock p
  end.

Definition pjsocky_events_write_response (events : option events_ptr)
    (response : jelem) (scratch_size : nat) : C pj_status :=
  match events with
  | None => undef (* PJ_ASSERT_RETURN *)
  | Some p =>
      pj_mutex_lock p;;
      e ← deref_events p;
      match ev_framing e with
      | None => pj_mutex_unlock p;; mret PJ_SUCCESS
      | Some fp =>
          f ← deref_framing fp;
          status ← pjsocky_framing_write_json f response scratch_size;
          pj_mutex_unlock p;;
          mret status
      end
  end.

(** The object an event is sent as. *)
Definition event_object (event_name : string) (builder : option event_builder)
    (a : account_st) : jelem :=
  let event := pj_json_elem_obj "" in
  let event := pjsocky_json_add_string event "event" event_name in
  let data := pj_json_elem_obj "data" in
  let data := match builder with Some b => b a data | None => data end in
  pj_json_elem_add event data.

Definition pjsocky_events_push (events : option events_ptr) (event_name : string)
    (builder : option event_builder) : C pj_status :=
  match events with
  | None => mret PJ_EINVAL
  | Some p =>
      pj_mutex_lock p;;
      e ← deref_events p;
      match ev_framing e with
      | None => pj_mutex_unlock p;; mret PJ_SUCCESS
      | Some fp =>
          pool ← pj_pool_create "pjsocky-event";
          if negb pool then pj_mutex_unlock p;; mret PJ_ENOMEM else
          a ← gets acc;
          f ← deref_framing fp;
          status ← pjsocky_framing_write_json f
                     (event_object event_name builder a) PJSOCKY_MAX_LINE;
          pj_pool_release "pjsocky-event";;
          pj_mutex_unlock p;;
          mret status
      end
  end.

(** [pjsocky_events_push(pjsocky_events_instance(), ..)] *)
Definition push (event_name : string) (builder : event_builder) : C pj_status :=
  i ← pjsocky_events_instance; pjsocky_events_push i event_name (Some builder).
Definition write_response (response : jelem) (scratch_size : nat) : C pj_status :=
  i ← pjsocky_events_instance; pjsocky_events_write_response i response scratch_size.
End events.

(** ** What a locked write does to the process *)

(** The calls made under the lock: the lock itself, the event's pool, and
    those of a bounded send to the connection. *)
Definition event_action (sock timeout_msec : Z) (a : action) : Prop :=
  match a with
  | A_mutex_lock | A_mutex_unlock | A_pool_create _ _ | A_pool_release _ => True
  | _ => send_action sock timeout_msec a
  end.

(** From [s] to [s'] nothing changed but the history, which grew by such
    calls; the connection's wire gained [data]. *)
Definition emits (sock timeout_msec : Z) (data : bytes) (s s' : St) : Prop :=
  exists l, s' = s <| hist := l ++ hist s |> /\
    Forall (event_action sock timeout_msec) l /\ wire sock l = data.

Lemma send_event_action sock t a : send_action sock t a -> event_action sock t a.
Proof. by destruct a. Qed.

Lemma emits_other_wire sock t data s s' s0 :
  emits sock t data s s' -> s0 <> sock -> wire s0 (hist s') = wire s0 (hist s).
Proof.
  intros (l & -> & Hl & _) Hne. simpl. rewrite wire_app. rewrite <-app_nil_r. f_equal.
  induction Hl as [|a l Ha _ IH]; [done|]. simpl. rewrite IH. simpl.
  destruct a; try done. simpl in *. destruct answer as [[] n]; try done.
  by rewrite decide_False by congruence.
Qed.

Lemma emits_wire sock t data s s' :
  emits sock t data s s' -> wire sock (hist s') = wire sock (hist s) ++ data.
Proof. intros (l & -> & _ & <-). simpl. by rewrite wire_app. Qed.

Lemma emits_trans sock t d1 d2 s1 s2 s3 :
  emits sock t d1 s1 s2 -> emits sock t d2 s2 s3 -> emits sock t (d1 ++ d2) s1 s3.
Proof.
  intros (l1 & -> & H1 & <-) (l2 & -> & H2 & <-). exists (l2 ++ l1).
  split_and!; [|by apply Forall_app|by rewrite wire_app]. simpl. by rewrite app_assoc.
Qed.

Section laws.
Context `{!Env, !EnvLaws, !PjJson}.

(** The lock is free whenever no operation of this module is running. *)
Definition lock_free (s : St) : Prop :=
  forall e, g_instance s = Some e -> ev_lock_held e = false.

Definition locked (e : events) (s : St) : St :=
  s <| g_instance := Some (e <| ev_lock_held := true |>) |>
    <| hist := A_mutex_lock :: hist s |>.

Lemma wpf_lock F e (Q : unit -> St -> Prop) s :
  g_instance s = Some e -> ev_lock_held e = false -> Q tt (locked e s) ->
  wpf F (pj_mutex_lock THE_EVENTS) Q s.
Proof.
  intros He Hl HQ. unfold pj_mutex_lock, set_events, deref_events, log_call.
  wp_step. wp_step. wp_step. rewrite He. wp_step. rewrite Hl.
  do 3 wp_step. wp_step. rewrite He. wp_step. do 2 wp_step. exact HQ.
Qed.

Lemma wpf_unlock F e (Q : unit -> St -> Prop) s :
  g_instance s = Some e ->
  Q tt (s <| g_instance := Some (e <| ev_lock_held := false |>) |>
          <| hist := A_mutex_unlock :: hist s |>) ->
  wpf F (pj_mutex_unlock THE_EVENTS) Q s.
Proof.
  intros He HQ. unfold pj_mutex_unlock, set_events, deref_events, log_call.
  wp_step. wp_step. wp_step. wp_step. rewrite He. wp_step. do 2 wp_step. exact HQ.
Qed.

Lemma wpf_deref_events F e (Q : events -> St -> Prop) s :
  g_instance s = Some e -> Q e s -> wpf F (deref_events THE_EVENTS) Q s.
Proof. intros He HQ. unfold deref_events. do 2 wp_step. by rewrite He. Qed.

Lemma sends_actions sock t data s s' :
  sends sock t data s s' ->
  exists l, s' = s <| hist := l ++ hist s |> /\
    Forall (event_action sock t) l /\ wire sock l = data.
Proof.
  intros (l & ? & Hl & ?). exists l. split_and!; [done| |done].
  eapply Forall_impl; [exact Hl|]. apply send_event_action.
Qed.

(** The outcome of a locked write of [elem]: the connection's wire gained a
    prefix of its line, the whole line exactly on success. *)
Definition delivered (elem : jelem) (n : nat) (st : pj_status) (data : bytes) : Prop :=
  match json_line elem n with
  | inl _ => st <> PJ_SUCCESS /\ data = []
  | inr msg => data `prefix_of` msg /\ (st = PJ_SUCCESS <-> data = msg)
  end.

Lemma delivered_nothing elem n st :
  st <> PJ_SUCCESS -> delivered elem n st [].
Proof.
  intros Hst. unfold delivered.
  destruct (json_line elem n) as [st'|msg] eqn:Hj; [done|].
  split; [apply prefix_nil|]. split; [done|]. intros <-.
  unfold json_line in Hj. destruct (pj_json_write _ _) as [[] out]; try done.
  simplify_eq/=. by destruct (compact false false out).
Qed.

(** The calls [l] that send a message, made in state [s]. *)
Lemma message_sent_delivered f elem n h (s : St) l st data :
  message_sent f elem n h l st data ->
  sends (f_sock f) (f_write_timeout_msec f) data s (s <| hist := l ++ hist s |>) /\
  delivered elem n st data.
Proof.
  unfold message_sent, delivered. destruct (json_line elem n) as [st'|msg] eqn:Hj.
  - intros (-> & -> & ->). split; [by exists []|]. by apply json_line_fails in Hj.
  - intros (line & -> & Hl). by destruct (line_sent_sends f line h s l st data Hl) as (? & ? & ?).
Qed.

Lemma write_json_delivered F f elem n s :
  F \/ select_waits -> 1 <= LONG_BIT -> 0 <= f_write_timeout_msec f ->
  wpf F (pjsocky_framing_write_json f elem n) (fun st s' =>
    exists data, sends (f_sock f) (f_write_timeout_msec f) data s s' /\
                 delivered elem n st data) s.
Proof.
  intros Hclk HL Ht. eapply wpf_mono; [by apply write_json_sent|].
  intros st s' (l & data & -> & Hm). exists data. by eapply message_sent_delivered.
Qed.

(** The state every statement about a write is made in: the coordinator
    exists, its lock is free, and the numbers have their C ranges. *)
Record ready (s : St) (e : events) : Prop := {
  ready_instance : g_instance s = Some e;
  ready_lock : ev_lock_held e = false;
  ready_long : 1 <= LONG_BIT;
  ready_timeout : 0 <= f_write_timeout_msec (conn_framing (conn s)) }.

(** What one locked operation has done: [data] reached the active
    connection, nothing else in the process changed. *)
Definition locked_write (s : St) (data : bytes) (s' : St) : Prop :=
  emits (f_sock (conn_framing (conn s)))
        (f_write_timeout_msec (conn_framing (conn s))) data s s'.

(** The calls of a response to the connection with framing [f], [h] being
    the history it is begun with: the lock is taken, the response is sent,
    and the lock is given back. *)
Definition answered (e : events) (f : framing) (response : jelem) (n : nat) (h l : history)
    (st : pj_status) (data : bytes) : Prop :=
  exists m, l = A_mutex_unlock :: m ++ [A_mutex_lock] /\
    match ev_framing e with
    | None => m = [] /\ st = PJ_SUCCESS /\ data = []
    | Some _ => message_sent f response n (A_mutex_lock :: h) m st data
    end.

(** Those of an event: under the lock the pool is created, the event is sent
    and the pool is released; without a pool nothing is sent. *)
Definition pushed (e : events) (f : framing) (event : jelem) (h l : history)
    (st : pj_status) (data : bytes) : Prop :=
  exists m, l = A_mutex_unlock :: m ++ [A_mutex_lock] /\
    match ev_framing e with
    | None => m = [] /\ st = PJ_SUCCESS /\ data = []
    | Some _ =>
        let pool := ans_pool_create (A_mutex_lock :: h) "pjsocky-event" in
        let created := A_pool_create "pjsocky-event" pool in
        if pool
        then exists k, m = A_pool_release "pjsocky-event" :: k ++ [created] /\
          message_sent f event PJSOCKY_MAX_LINE (created :: A_mutex_lock :: h) k st data
        else m = [created] /\ st = PJ_ENOMEM /\ data = []
    end.

(** A push was made in [s] with status [st], [data] having reached the
    connection, and that is all that was done. *)
Definition push_made (e : events) (name : string) (b : event_builder) (s s' : St)
    (st : pj_status) (data : bytes) : Prop :=
  exists l, s' = s <| hist := l ++ hist s |> /\
    pushed e (conn_framing (conn s)) (event_object name (Some b) (acc s)) (hist s) l st data.

(** The calls between lock and unlock make up a locked write. *)
Lemma between_locks (s : St) m data :
  sends (f_sock (conn_framing (conn s))) (f_write_timeout_msec (conn_framing (conn s))) data s
    (s <| hist := m ++ hist s |>) ->
  locked_write s data (s <| hist := (A_mutex_unlock :: m ++ [A_mutex_lock]) ++ hist s |>).
Proof.
  intros (k & Heq & Hk & Hw). apply (f_equal hist) in Heq. apply app_inv_tail in Heq as <-.
  exists (A_mutex_unlock :: m ++ [A_mutex_lock]). split_and!; [done| |].
  - constructor; [done|]. apply Forall_app. split; [|by repeat constructor].
    eapply Forall_impl; [exact Hk|]. apply send_event_action.
  - simpl. by rewrite wire_app, app_nil_r.
Qed.

(** The same when a pool is created first and released last. *)
Lemma between_locks_pool (s : St) k ans data :
  sends (f_sock (conn_framing (conn s))) (f_write_timeout_msec (conn_framing (conn s))) data s
    (s <| hist := k ++ hist s |>) ->
  locked_write s data (s <| hist := (A_mutex_unlock :: (A_pool_release "pjsocky-event" :: k ++
    [A_pool_create "pjsocky-event" ans]) ++ [A_mutex_lock]) ++ hist s |>).
Proof.
  intros (k' & Heq & Hk & Hw). apply (f_equal hist) in Heq. apply app_inv_tail in Heq as <-.
  eexists. split; [reflexivity|]. split.
  - rewrite <-!app_comm_cons, <-app_assoc. do 2 (constructor; [done|]). apply Forall_app.
    split; [|by repeat constructor]. eapply Forall_impl; [exact Hk|]. apply send_event_action.
  - cbn [wire accepted app]. rewrite wire_app. cbn [wire accepted app].
    rewrite wire_app. cbn [wire accepted app]. by rewrite !app_nil_r.
Qed.

Lemma answered_writes e s response n l st data :
  answered e (conn_framing (conn s)) response n (hist s) l st data ->
  locked_write s data (s <| hist := l ++ hist s |>) /\
  match ev_framing e with
  | None => st = PJ_SUCCESS /\ data = []
  | Some _ => delivered response n st data
  end.
Proof.
  intros (m & -> & Hm). destruct (ev_framing e).
  - apply (message_sent_delivered _ _ _ _ s) in Hm as [Hs Hd]. split; [by apply between_locks|done].
  - destruct Hm as (-> & -> & ->). split; [|done]. apply between_locks. by exists [].
Qed.

Lemma push_made_writes e s name b s' st data :
  push_made e name b s s' st data ->
  locked_write s data s' /\
  match ev_framing e with
  | None => st = PJ_SUCCESS /\ data = []
  | Some _ => delivered (event_object name (Some b) (acc s)) PJSOCKY_MAX_LINE st data
  end.
Proof.
  intros (l & -> & m & -> & Hm). destruct (ev_framing e).
  - destruct (ans_pool_create _ _).
    + destruct Hm as (k & -> & Hm). apply (message_sent_delivered _ _ _ _ s) in Hm as [Hs Hd].
      split; [by apply between_locks_pool|done].
    + destruct Hm as (-> & -> & ->). split; [|by apply delivered_nothing].
      eexists. split_and!; [done|by repeat constructor|done].
  - destruct Hm as (-> & -> & ->). split; [|done]. apply between_locks. by exists [].
Qed.

(** A program run between lock and unlock that only adds calls. *)
Lemma unlock_restores e (s : St) (l : history) :
  g_instance s = Some e -> ev_lock_held e = false ->
  locked e s <| hist := l ++ A_mutex_lock :: hist s |>
    <| g_instance := Some (e <| ev_lock_held := true |> <| ev_lock_held := false |>) |>
    <| hist := A_mutex_unlock :: l ++ A_mutex_lock :: hist s |>
  = s <| hist := (A_mutex_unlock :: l ++ [A_mutex_lock]) ++ hist s |>.
Proof.
  intros He Hl. destruct s, e. simpl in *. subst. by rewrite <-app_assoc.
Qed.

Lemma write_response_made F e s response n :
  F \/ select_waits -> ready s e ->
  wpf F (pjsocky_events_write_response (Some THE_EVENTS) response n) (fun st s' => exists l data,
    s' = s <| hist := l ++ hist s |> /\
    answered e (conn_framing (conn s)) response n (hist s) l st data) s.
Proof.
  intros Hclk Hr. pose proof Hr as []. unfold pjsocky_events_write_response, answered.
  wp_step. eapply wpf_lock; [done..|]. wp_step. eapply wpf_deref_events; [done|]. simpl.
  destruct (ev_framing e) as [[]|] eqn:Hf.
  - wp_step. apply wpf_deref_framing. wp_step.
    eapply wpf_mono; [by apply write_json_sent|]. intros st s' (l & data & -> & Hm). wp_step.
    eapply wpf_unlock; [done|]. apply wpf_ret.
    exists (A_mutex_unlock :: l ++ [A_mutex_lock]), data. split; [by apply (unlock_restores e s l)|].
    by exists l.
  - wp_step. eapply wpf_unlock; [done|]. apply wpf_ret. exists [A_mutex_unlock; A_mutex_lock], [].
    split; [by apply (unlock_restores e s [])|]. by exists [].
Qed.

Lemma write_response_spec F e s response n :
  F \/ select_waits -> ready s e ->
  wpf F (pjsocky_events_write_response (Some THE_EVENTS) response n) (fun st s' =>
    exists data, locked_write s data s' /\
      match ev_framing e with
      | None => st = PJ_SUCCESS /\ data = []
      | Some _ => delivered response n st data
      end) s.
Proof.
  intros Hclk Hr. eapply wpf_mono; [by apply (write_response_made F e)|].
  intros st s' (l & data & -> & Ha). exists data. by apply answered_writes.
Qed.

Lemma push_runs F e s name b :
  F \/ select_waits -> ready s e ->
  wpf F (push name b) (fun st s' => exists data, push_made e name b s s' st data) s.
Proof.
  intros Hclk Hr. pose proof Hr as []. unfold push, pjsocky_events_instance, push_made, pushed.
  do 3 wp_step. rewrite ready_instance0. wp_step. simpl. unfold pjsocky_events_push.
  wp_step. eapply wpf_lock; [done..|]. wp_step. eapply wpf_deref_events; [done|]. simpl.
  destruct (ev_framing e) as [[]|] eqn:Hf.
  - wp_step. apply wpf_ask. simpl. destruct (ans_pool_create _ _) eqn:Hpool; cbn [negb].
    + do 5 wp_step.
      eapply wpf_mono; [by apply write_json_sent|]. intros st s' (l & data & -> & Hm).
      wp_step. apply wpf_log_call. wp_step. eapply wpf_unlock; [done|]. apply wpf_ret.
      set (k := A_pool_release "pjsocky-event" :: l ++ [A_pool_create "pjsocky-event" true]).
      exists data, (A_mutex_unlock :: k ++ [A_mutex_lock]). split.
      * eapply eq_trans; [|by apply (unlock_restores e s k)]. unfold k. simpl. by rewrite <-app_assoc.
      * exists k. split; [done|]. by exists l.
    + wp_step. eapply wpf_unlock; [done|]. apply wpf_ret. set (k := [A_pool_create "pjsocky-event" false]).
      exists [], (A_mutex_unlock :: k ++ [A_mutex_lock]).
      split; [by apply (unlock_restores e s k)|by exists k].
  - wp_step. eapply wpf_unlock; [done|]. apply wpf_ret. exists [], [A_mutex_unlock; A_mutex_lock].
    split; [by apply (unlock_restores e s [])|by exists []].
Qed.

Lemma push_spec F e s name b :
  F \/ select_waits -> ready s e ->
  wpf F (push name b) (fun st s' =>
    exists data, locked_write s data s' /\
      match ev_framing e with
      | None => st = PJ_SUCCESS /\ data = []
      | Some _ =>
          delivered (event_object name (Some b) (acc s)) PJSOCKY_MAX_LINE st data
      end) s.
Proof.
  intros Hclk Hr. eapply wpf_mono; [by apply (push_runs F e)|].
  intros st s' (data & Hp). exists data. by eapply push_made_writes.
Qed.

(** A push from a state that differs from [s] in neither the account nor the
    connection; the caller ignores its status. *)
Lemma push_after e s s1 name b :
  select_waits -> ready s e -> conn s1 = conn s -> g_instance s1 = g_instance s ->
  wp (push name b;; mret tt) (fun _ s' => exists st data, push_made e name b s1 s' st data) s1.
Proof.
  intros Hclk [? ? ? Ht] Hcn Hi. wp_step.
  eapply wpf_mono; [apply (push_runs False e); [by right|split; rewrite ?Hi, ?Hcn; done]|].
  intros st s2 (data & Hp). apply wpf_ret. by exists st, data.
Qed.
End laws.

(** ** The control connection as the rest of the daemon leaves it

    Nothing outside server.c and this module touches the coordinator, the
    connection, the server object or the server's sockets.  [fixed x]: they
    are those of [x]. *)
Record ctx := {
  x_events : events; x_conn : conn_state; x_srv : server; x_live : Z -> Z }.
Definition fixed (x : ctx) (s : St) : Prop :=
  g_instance s = Some (x_events x) /\ conn s = x_conn x /\ srv s = x_srv x /\
  forall n, live n (hist s) = x_live x n.
#[global] Instance fixed_stable x : Stable (fixed x).
Proof.
  intros s a Ha (? & ? & ? & Hl). split_and!; try done. intros n. rewrite <-Hl.
  by apply live_other.
Qed.

(** What a client's operations need of them, and of the clock when they are
    to return. *)
Record serviceable `{!Env} (F : Prop) (x : ctx) : Prop := {
  srv_clock : F \/ select_waits;
  srv_long : 1 <= LONG_BIT;
  srv_lock : ev_lock_held (x_events x) = false;
  srv_timeout : 0 <= f_write_timeout_msec (conn_framing (x_conn x)) }.

Lemma event_action_no_timer sock t a : event_action sock t a -> owned_action a = false.
Proof. by destruct a. Qed.

Section keeps.
Context `{!Env, !EnvLaws, !PjJson} (F : Prop) (x : ctx).
Context (Hs : serviceable F x) (I : St -> Prop) `{!Stable I}.
Abbreviation J := (fun s => fixed x s /\ I s).

Lemma locked_write_keeps s data s' : locked_write s data s' -> J s -> J s'.
Proof.
  intros (l & -> & Hl & _) HJ. apply (stable_app J); [|done].
  eapply Forall_impl; [exact Hl|]. intros a. apply event_action_no_timer.
Qed.

Lemma fixed_ready s : J s -> ready s (x_events x).
Proof. intros [(He & Hc & _) _]. destruct Hs. split; [done|done|done|by rewrite Hc]. Qed.

Lemma keeps_push name b : keeps F J (push name b).
Proof.
  intros s HJ. eapply wpf_mono; [apply push_spec; [apply Hs|by apply fixed_ready]|].
  intros st s' (data & Hw & _). by eapply locked_write_keeps.
Qed.

Lemma keeps_write_response response n :
  keeps F J (write_response response n).
Proof.
  intros s HJ. unfold write_response, pjsocky_events_instance. do 3 wp_step.
  rewrite (ready_instance _ _ (fixed_ready s HJ)). wp_step. simpl.
  eapply wpf_mono; [apply write_response_spec; [apply Hs|by apply fixed_ready]|].
  intros st s' (data & Hw & _). by eapply locked_write_keeps.
Qed.
End keeps.
#[export] Hint Resolve keeps_push keeps_write_response : keeps_db.
#[export] Hint Extern 5 (Stable _) => exact _ : keeps_db.

(** ** Properties *)

(** C25: An event is one uninterrupted line: with no client connected a push
    takes the lock, gives it back, succeeds and does nothing else.  With one,
    the lock is taken, the event's pool is created, the event object is sent
    to the connection, the pool is released and the lock is given back, in
    this order and with no other call in between; a prefix of the event's line
    reaches the connection, the whole line exactly when success is reported;
    without a pool nothing is sent and PJ_ENOMEM is reported.  Either way the
    push returns, given that [select] waits, the lock is free again, and
    nothing else in the daemon has changed. *)
Theorem push_delivers `{!Env, !EnvLaws, !PjJson} e s name b :
  select_waits -> ready s e ->
  wp (push name b) (fun st s' => exists data,
    push_made e name b s s' st data /\
    emits (f_sock (conn_framing (conn s)))
          (f_write_timeout_msec (conn_framing (conn s))) data s s' /\
    match ev_framing e with
    | None => st = PJ_SUCCESS /\ data = []
    | Some _ =>
        delivered (event_object name (Some b) (acc s)) PJSOCKY_MAX_LINE st data
    end) s.
Proof.
  intros Hclk Hr. eapply wpf_mono; [apply push_runs; [by right|done]|].
  intros st s' (data & Hp). exists data. split; [done|]. by apply push_made_writes.
Qed.

(** A response is one uninterrupted line, written under the same lock
    and on the same terms as an event. *)
Theorem write_response_delivers `{!Env, !EnvLaws, !PjJson} e s response n :
  select_waits -> ready s e ->
  wp (pjsocky_events_write_response (Some THE_EVENTS) response n) (fun st s' => exists l data,
    s' = s <| hist := l ++ hist s |> /\
    answered e (conn_framing (conn s)) response n (hist s) l st data) s.
Proof. intros Hclk Hr. apply write_response_made; [by right|done]. Qed.

(** A connected client, and one that stops reading after two bytes. *)
Definition connected `{!Env} : St :=
  initial_state <| g_instance := Some {| ev_lock_held := false; ev_framing := Some CONN_FRAMING |} |>
    <| conn := {| active := true; conn_sock := 7;
                  conn_framing := zero_framing <| f_sock := 7 |> <| f_write_timeout_msec := 5000 |> |} |>.
Definition connected_events : events :=
  {| ev_lock_held := false; ev_framing := Some CONN_FRAMING |}.
Definition stalling_peer : script :=
  quiet <| sim_send := fun h data => if decide (length h < 4)%nat then (PJ_SUCCESS, Z.min 2 (Z.of_nat (length data)))
                                  else (PJ_STATUS_FROM_OS EAGAIN, 0) |>.
Lemma stalling_peer_ok : script_ok stalling_peer.
Proof.
  destruct quiet_ok. split; simpl; try done.
  intros h data n. case_decide; intros [= <-]. lia.
Qed.

Section witnesses.
#[local] Instance stalling_env : Env := env_of stalling_peer.
#[local] Instance stalling_laws : EnvLaws := env_of_laws _ stalling_peer_ok.
#[local] Existing Instance sim_json.

Lemma connected_ready : ready connected connected_events.
Proof. by split; simpl; try lia. Qed.

Definition no_data : event_builder := fun _ data => data.

Lemma push_delivers_witness :
  wp (push "hello" no_data) (fun st s' => exists data,
    push_made connected_events "hello" no_data connected s' st data /\
    emits 7 5000 data connected s' /\
    delivered (event_object "hello" (Some no_data) initial_account) PJSOCKY_MAX_LINE st data)
    connected.
Proof.
  exact (push_delivers connected_events connected "hello" no_data
           (sim_select_waits _) connected_ready).
Defined.

Lemma write_response_delivers_witness :
  wp (pjsocky_events_write_response (Some THE_EVENTS) sample_elem 8192) (fun st s' =>
    exists l data, s' = connected <| hist := l ++ hist connected |> /\
      answered connected_events (conn_framing (conn connected)) sample_elem 8192 [] l st data)
    connected.
Proof.
  exact (write_response_delivers connected_events connected sample_elem 8192
           (sim_select_waits _) connected_ready).
Defined.

(** With this client the event does fail, with two bytes of it sent. *)
Example stalled_push :
  exists s', push "hello" no_data connected = Ok (PJ_ETIMEDOUT, s') /\
    wire 7 (hist s') = json_text "{'".
Proof. eexists. split; vm_compute; reflexivity. Qed.
End witnesses.
