(* ===== verification/Invariant.v ===== *)
(** * The invariant of the daemon's own state

    What holds of account.c's and call.c's variables whenever no operation
    is running, whatever the clients, the callbacks and the timers do:
    registered implies configured, and each timer's [.._scheduled] flag says
    whether the timer is armed. *)

From S2P Require Import Prelude Float32 Pjlib Env State Framing Compact Wire JsonUtil Events.

Definition scheduled (t : timer) (c : call_st) : bool :=
  match t with
  | RING_TIMER => g_ring_timer_scheduled c
  | VIDEO_WATCHDOG => g_video_watchdog_scheduled c
  | MEDIA_REPORT => g_media_report_scheduled c
  end.
Definition set_scheduled (t : timer) (b : bool) (c : call_st) : call_st :=
  match t with
  | RING_TIMER => c <| g_ring_timer_scheduled := b |>
  | VIDEO_WATCHDOG => c <| g_video_watchdog_scheduled := b |>
  | MEDIA_REPORT => c <| g_media_report_scheduled := b |>
  end.

Lemma scheduled_set t t' b c :
  scheduled t (set_scheduled t' b c) = if decide (t' = t) then b else scheduled t c.
Proof. by destruct t, t'. Qed.

(** No timer is ever scheduled while it is armed - pjlib's timer heap does
    not accept an entry twice. *)
Fixpoint well_armed (h : history) : Prop :=
  match h with
  | [] => True
  | A_schedule_timer t _ _ :: h => armed t h = false /\ well_armed h
  | _ :: h => well_armed h
  end.

Lemma well_armed_other a h :
  owned_action a = false -> well_armed h -> well_armed (a :: h).
Proof. by destruct a. Qed.

(** account.c: registered implies configured. *)
Definition account_ok (a : account_st) : Prop :=
  g_registered a = true -> g_acc_id a <> PJSUA_INVALID_ID.

Record daemon_ok (x : ctx) (s : St) : Prop := {
  ok_fixed : fixed x s;
  ok_account : account_ok (acc s);
  ok_timers t : scheduled t (call s) = armed t (hist s);
  ok_arms : well_armed (hist s) }.

#[global] Instance daemon_ok_stable x : Stable (daemon_ok x).
Proof.
  intros s a Ha []. split; simpl; [by apply (stable s)|done| |by apply well_armed_other].
  intros t. rewrite ok_timers0. symmetry. by apply armed_other.
Qed.

Section invariant.
Context `{!Env, !EnvLaws, !PjJson} (F : Prop) (x : ctx).
Abbreviation J := (daemon_ok x).

Lemma keeps_push_ok name b :
  serviceable F x -> keeps F J (push name b).
Proof.
  intros Hs s Hok. eapply wpf_mono.
  - apply (keeps_push F x Hs J name b s). by destruct Hok.
  - by intros st s' [_ ?].
Qed.

Lemma keeps_write_response_ok response n :
  serviceable F x -> keeps F J (write_response response n).
Proof.
  intros Hs s Hok. eapply wpf_mono.
  - apply (keeps_write_response F x Hs J response n s). by destruct Hok.
  - by intros st s' [_ ?].
Qed.

(** Updates of call.c's variables other than the flags. *)
Lemma keeps_set_call (f : call_st -> call_st) :
  (forall c t, scheduled t (f c) = scheduled t c) -> keeps F J (set_call f).
Proof.
  intros Hf. apply keeps_modify. intros s []. split; simpl; try done.
  intros t. by rewrite Hf.
Qed.

Lemma keeps_set_dev f : keeps F J (set_dev f).
Proof. apply keeps_modify. intros s []. by split. Qed.

Lemma keeps_set_acc f :
  (forall a, account_ok a -> account_ok (f a)) -> keeps F J (set_acc f).
Proof. intros Hf. apply keeps_modify. intros s []. split; simpl; auto. Qed.

(** The invariant where timer [t] is known to be disarmed. *)
Definition disarmed (t : timer) (s : St) : Prop := J s /\ scheduled t (call s) = false.
#[global] Instance disarmed_stable t : Stable (disarmed t).
Proof. intros s a Ha [? ?]. split; [by apply stable|done]. Qed.

Lemma keeps_set_call_disarmed t (f : call_st -> call_st) :
  (forall c t, scheduled t (f c) = scheduled t c) -> keeps F (disarmed t) (set_call f).
Proof.
  intros Hf. apply keeps_modify. intros s [[] ?]. split; simpl; [|by rewrite Hf].
  split; simpl; try done. intros t'. by rewrite Hf.
Qed.

(** *** Timer operations *)

(** A timer fires: pjlib has disarmed it, and the callback starts by
    taking the flag down. *)
Lemma ok_fired t s :
  J s -> disarmed t (s <| hist := A_timer_fired t :: hist s |>
                       <| call := set_scheduled t false (call s) |>).
Proof.
  intros []. split; [split; simpl; try done|].
  - intros t'. rewrite scheduled_set. by case_decide.
  - simpl. rewrite scheduled_set. by case_decide.
Qed.

Lemma ok_cancelled t s :
  J s -> J (s <| hist := A_cancel_timer t :: hist s |>
              <| call := set_scheduled t false (call s) |>).
Proof.
  intros []. split; simpl; try done. intros t'. rewrite scheduled_set.
  by case_decide.
Qed.

Lemma ok_scheduled t d st s :
  J s -> scheduled t (call s) = false ->
  J (s <| hist := A_schedule_timer t d st :: hist s |>
       <| call := if ok st then set_scheduled t true (call s) else call s |>).
Proof.
  intros [? ? Ht ?] Hf. split; simpl; try done; [|by rewrite <-Ht].
  intros t'. specialize (Ht t').
  destruct (ok st); rewrite ?scheduled_set; by case_decide; subst.
Qed.

Lemma wpf_fired t (id_of : St -> Z) (k : Z -> C unit) Q s :
  J s -> (forall id s', disarmed t s' -> wpf F (k id) Q s') ->
  wpf F (log_call (A_timer_fired t);;
         id ← gets id_of; set_call (set_scheduled t false);; k id) Q s.
Proof.
  intros HJ Hk. wp_step. apply wpf_log_call. do 3 wp_step. apply wpf_modify.
  apply Hk. exact (ok_fired t s HJ).
Qed.

Lemma keeps_fired t (id_of : St -> Z) (k : Z -> C unit) :
  (forall id, keeps F J (k id)) ->
  keeps F J (log_call (A_timer_fired t);;
             id ← gets id_of; set_call (set_scheduled t false);; k id).
Proof. intros Hk s HJ. apply wpf_fired; [done|]. intros id s' [? _]. by apply Hk. Qed.

(** [if (!flag) return; pjsua_cancel_timer(..); flag = PJ_FALSE;] *)
Lemma wpf_cancel t (Q : unit -> St -> Prop) s :
  J s ->
  (forall s', J s' -> scheduled t (call s') = false ->
     set_scheduled t false (call s) = call s' -> dev s' = dev s -> acc s' = acc s ->
     Q tt s') ->
  wpf F (b ← gets (fun s => scheduled t (call s));
         if negb b then mret tt
         else pjsua_cancel_timer t;; set_call (set_scheduled t false)) Q s.
Proof.
  intros HJ HQ. wp_step. wp_step. destruct (scheduled t (call s)) eqn:Hf; simpl.
  - wp_step. apply wpf_log_call. apply wpf_modify. apply HQ; simpl; try done.
    + by apply ok_cancelled.
    + rewrite scheduled_set. by case_decide.
  - apply wpf_ret. apply HQ; try done. by destruct t, s as [? ? []]; simpl in *; subst.
Qed.

(** [if (pjsua_schedule_timer(..) == PJ_SUCCESS) flag = PJ_TRUE;] *)
Lemma wpf_schedule t d (Q : unit -> St -> Prop) s :
  J s -> scheduled t (call s) = false ->
  (forall s' st, J s' -> call s' = (if ok st then set_scheduled t true (call s) else call s) ->
     acc s' = acc s ->
     hist s' = A_schedule_timer t d st :: hist s -> Q tt s') ->
  wpf F (st ← pjsua_schedule_timer t d;
         when (ok st) (set_call (set_scheduled t true))) Q s.
Proof.
  intros HJ Hf HQ. wp_step. apply wpf_ask. set (st := ans_schedule_timer _ _ _).
  pose proof (ok_scheduled t d st s HJ Hf) as HJ'.
  apply wpf_when; intros Hok; rewrite Hok in HJ'; [apply wpf_modify|].
  - apply (HQ _ st); simpl; [done|by rewrite Hok|done|done].
  - apply (HQ _ st); simpl; [|by rewrite Hok|done|done]. by destruct s.
Qed.
End invariant.
#[export] Hint Resolve keeps_push_ok keeps_write_response_ok keeps_set_dev : keeps_db.
#[export] Hint Extern 2 (keeps _ (daemon_ok _) (set_call _)) =>
  apply keeps_set_call; by intros ? []; repeat case_match : keeps_db.
#[export] Hint Extern 2 (keeps _ (disarmed _ _) (set_call _)) =>
  apply keeps_set_call_disarmed; by intros ? [] : keeps_db.

(** Forgets what the current state is but for the invariant [H] states. *)
Ltac forget_state H :=
  lazymatch type of H with
  | _ ?s1 =>
      lazymatch goal with
      | |- wpf ?F ?m ?Q _ => change (wpf F m Q s1); revert H; generalize s1; intros ? H
      end
  end.
