(* ===== verification/Device.v ===== *)
(** * Device enumeration and selection (src/device.c) *)

From S2P Require Import Prelude Float32 Pjlib Env State Framing Compact Wire JsonUtil Events Invariant.

Definition PJSOCKY_MAX_DEVICES : nat := 32.

Definition cannot_capture_message : string :=
  "set_video_capture: device %d (" ++ quoted "%s" ++ ", driver " ++ quoted "%s"
  ++ ") cannot capture - refusing to select it".

Section device.
Context `{!Env}.

(** The count an enumeration reports is the length of its list. *)
Definition pjsocky_device_list_audio (count : nat) : C (pj_status * list aud_dev_info) :=
  pjsua_enum_aud_devs count.
Definition pjsocky_device_list_video (count : nat) : C (pj_status * list vid_dev_info) :=
  pjsua_vid_enum_devs count.

Definition pjsocky_device_set_audio (capture_id playback_id : Z) : C pj_status :=
  is_active ← pjsua_snd_is_active;
  idle ← (if (is_active : bool) then n ← pjsua_call_get_count; mret (n =? 0)
          else mret false);
  when idle (
    PJ_LOG 4 "set_audio: closing idle sound device before selecting capture=%d playback=%d"
      [LogNum capture_id; LogNum playback_id];;
    pjsua_set_no_snd_dev);;
  let param := snd_dev_param_default <| capture_dev := capture_id |>
                 <| playback_dev := playback_id |>
                 <| snd_mode := PJSUA_SND_DEV_NO_IMMEDIATE_OPEN |> in
  pjsua_set_snd_dev2 param.

(** The live update of the configured account's capture device. *)
Definition update_account_capture (acc_id capture_id : Z) : C unit :=
  pool ← pj_pool_create "pjsocky_set_video_capture";
  if negb pool then mret tt else
  '(get_status, acc_cfg) ← pjsua_acc_get_config acc_id;
  (if ok get_status then
     PJ_LOG 3 "set_video_capture: acc %d vid_cap_dev before=%d"
       [LogNum acc_id; LogNum (vid_cap_dev acc_cfg)];;
     mod_status ← pjsua_acc_modify acc_id (acc_cfg <| vid_cap_dev := capture_id |>);
     if negb (ok mod_status) then
       PJ_PERROR 1 mod_status "set_video_capture: pjsua_acc_modify failed" []
     else
       '(verify_status, verify_cfg) ← pjsua_acc_get_config acc_id;
       when (ok verify_status)
         (PJ_LOG 3 "set_video_capture: acc %d vid_cap_dev after=%d"
            [LogNum acc_id; LogNum (vid_cap_dev verify_cfg)])
   else PJ_PERROR 1 get_status "set_video_capture: pjsua_acc_get_config failed" []);;
  pj_pool_release "pjsocky_set_video_capture".

Definition pjsocky_device_set_video_capture (capture_id : Z) : C pj_status :=
  '(status, info) ← pjmedia_vid_dev_get_info capture_id;
  if negb (ok status) then
    PJ_PERROR 1 status "set_video_capture: no video device with id %d" [LogNum capture_id];;
    mret PJ_EINVAL
  else if negb (dir_has (vid_dir info) PJMEDIA_DIR_CAPTURE) then
    PJ_LOG 1 cannot_capture_message
      [LogNum capture_id; LogStr (vid_name info); LogStr (vid_driver info)];;
    mret PJ_EINVAL
  else
  set_dev (fun d => d <| g_video_capture_id := capture_id |>);;
  acc_id ← pjsocky_account_get_id;
  PJ_LOG 3 "set_video_capture: capture_id=%d acc_id=%d" [LogNum capture_id; LogNum acc_id];;
  when (negb (acc_id =? PJSUA_INVALID_ID)) (update_account_capture acc_id capture_id);;
  mret PJ_SUCCESS.
End device.

(** ** The invariant is kept *)
Section keeps.
Context `{!Env, !EnvLaws, !PjJson} (F : Prop) (x : ctx).
Context (Hs : serviceable F x).
Abbreviation J := (daemon_ok x).

Lemma keeps_list_audio n : keeps F J (pjsocky_device_list_audio n).
Proof. unfold pjsocky_device_list_audio. keeps_go. Qed.
Lemma keeps_list_video n : keeps F J (pjsocky_device_list_video n).
Proof. unfold pjsocky_device_list_video. keeps_go. Qed.
Lemma keeps_set_audio cap play : keeps F J (pjsocky_device_set_audio cap play).
Proof. unfold pjsocky_device_set_audio. keeps_go. Qed.
Lemma keeps_set_video_capture cap : keeps F J (pjsocky_device_set_video_capture cap).
Proof.
  unfold pjsocky_device_set_video_capture, pjsocky_account_get_id, update_account_capture.
  keeps_go.
Qed.
End keeps.
#[export] Hint Resolve keeps_list_audio keeps_list_video keeps_set_audio
  keeps_set_video_capture : keeps_db.
