(* ===== verification/Account.v ===== *)
(** * The SIP account (src/account.c)

    At most one account; [g_registered] is the outcome of the last completed
    registration action, not a flag of pjsua's. *)

From S2P Require Import Prelude Float32 Pjlib Env SimEnv State Framing Compact SimJson Wire JsonUtil Events Invariant Device.

Section account.
Context `{!Env, !PjJson}.

(** The guard of call.dial, im.send and im.typing:
    [acc_id == PJSUA_INVALID_ID || !pjsocky_account_is_registered()] refuses. *)
Definition registered_account : C (option Z) :=
  acc_id ← pjsocky_account_get_id;
  registered ← pjsocky_account_is_registered;
  mret (if (acc_id =? PJSUA_INVALID_ID) || negb registered then None else Some acc_id).

Definition colorbar_message : string :=
  "No camera found - falling back to " ++ quoted "%s" ++ ", a synthetic test source; "
  ++ "video calls will send a test pattern, not a picture".

(** The loop over the enumerated devices: the first that can capture. *)
Fixpoint first_capture_device (devices : list vid_dev_info) : C Z :=
  match devices with
  | [] =>
      PJ_LOG 2 "No video capture device present - calls will be audio-only" [];;
      mret PJMEDIA_VID_INVALID_DEV
  | d :: rest =>
      if negb (dir_has (vid_dir d) PJMEDIA_DIR_CAPTURE) then first_capture_device rest
      else
        when (pj_stricmp2 (vid_driver d) "Colorbar" =? 0)
          (PJ_LOG 2 colorbar_message [LogStr (vid_name d)]);;
        mret (vid_id d)
  end.

Definition resolve_default_vid_cap_dev : C Z :=
  cap_dev ← pjsocky_device_get_video_capture;
  if negb (cap_dev =? PJMEDIA_VID_INVALID_DEV) then mret cap_dev else
  '(status, devices) ← pjsocky_device_list_video PJSOCKY_MAX_DEVICES;
  if negb (ok status) then mret PJMEDIA_VID_INVALID_DEV
  else first_capture_device devices.

Definition configured_account (sip_uri registrar_uri username password realm : string)
    (cap_dev : Z) : acc_config :=
  acc_config_default <| acc_id_uri := sip_uri |> <| acc_reg_uri := registrar_uri |>
    <| register_on_acc_add := false |>
    <| vid_in_auto_show := true |> <| vid_out_auto_transmit := true |>
    <| vid_cap_dev := cap_dev |>
    <| cred_count := 1 |>
    <| cred_info0 := {| cred_realm := realm; cred_scheme := "digest";
                        cred_username := username;
                        cred_data_type_ := PJSIP_CRED_DATA_PLAIN_PASSWD;
                        cred_data := password |} |>.

(** The second component is [*p_acc_id]. *)
Definition pjsocky_account_configure
    (sip_uri registrar_uri username password realm : string)
  : C (pj_status * option Z) :=
  id ← pjsocky_account_get_id;
  if negb (id =? PJSUA_INVALID_ID) then mret (PJ_EEXISTS, None) else
  set_acc (fun a => a <| g_registered := false |>);;
  cap_dev ← resolve_default_vid_cap_dev;
  '(status, new_id) ← pjsua_acc_add
     (configured_account sip_uri registrar_uri username password realm cap_dev) true;
  match new_id with
  | Some n => set_acc (fun a => a <| g_acc_id := n |>)
  | None => mret tt
  end;;
  if negb (ok status) then mret (status, None) else
  id ← pjsocky_account_get_id;
  mret (PJ_SUCCESS, Some id).

Definition pjsocky_account_register : C pj_status :=
  id ← pjsocky_account_get_id;
  if id =? PJSUA_INVALID_ID then mret PJ_EINVALIDOP
  else pjsua_acc_set_registration id true.

Definition pjsocky_account_unregister : C pj_status :=
  id ← pjsocky_account_get_id;
  if id =? PJSUA_INVALID_ID then mret PJ_EINVALIDOP
  else pjsua_acc_set_registration id false.

Definition pjsocky_account_remove : C pj_status :=
  id ← pjsocky_account_get_id;
  if id =? PJSUA_INVALID_ID then mret PJ_EINVALIDOP else
  registered ← pjsocky_account_is_registered;
  if (registered : bool) then mret PJ_EINVALIDOP else
  status ← pjsua_acc_del id;
  if negb (ok status) then mret status else
  set_acc (fun a => a <| g_acc_id := PJSUA_INVALID_ID |> <| g_registered := false |>);;
  mret PJ_SUCCESS.

Definition build_reg_state_data (info : acc_info) : event_builder := fun a data =>
  let data := pjsocky_json_add_number data "acc_id" (float_of_int (acc_info_id info)) in
  let data := pjsocky_json_add_number data "status" (float_of_int (acc_info_status info)) in
  let data := pjsocky_json_add_str data "status_text" (acc_info_status_text info) in
  pjsocky_json_add_bool data "registered" (g_registered a).

(** Integer division in C truncates towards zero. *)
Definition pjsocky_account_on_reg_state2 (acc_id : Z) (info : reg_info) : C unit :=
  '(status, acc_info) ← pjsua_acc_get_info acc_id;
  if negb (ok status) then PJ_PERROR 1 status "pjsua_acc_get_info() failed" [] else
  set_acc (fun a => a <| g_registered :=
    renew info && (Z.quot (acc_info_status acc_info) 100 =? 2) |>);;
  push "reg_state" (build_reg_state_data acc_info);;
  mret tt.
End account.

(** ** The invariant is kept *)

Lemma keeps_first_capture `{!Env, !PjJson} F I `{!Stable I} devices :
  keeps F I (first_capture_device devices).
Proof. induction devices as [|d devices IH]; simpl; keeps_go. Qed.
#[export] Hint Resolve keeps_first_capture : keeps_db.

Section keeps.
Context `{!Env, !EnvLaws, !PjJson} (F : Prop) (x : ctx).
Context (Hs : serviceable F x).
Abbreviation J := (daemon_ok x).

Lemma keeps_registered_account : keeps F J registered_account.
Proof.
  unfold registered_account, pjsocky_account_get_id, pjsocky_account_is_registered.
  keeps_go.
Qed.

Lemma keeps_resolve : keeps F J resolve_default_vid_cap_dev.
Proof.
  unfold resolve_default_vid_cap_dev, pjsocky_device_get_video_capture. keeps_go.
Qed.
#[local] Hint Resolve keeps_resolve : keeps_db.

(** Resolving the capture device leaves the account alone. *)
Lemma keeps_resolve_acc a :
  keeps F (fun s => J s /\ acc s = a) resolve_default_vid_cap_dev.
Proof.
  assert (Stable (fun s => acc s = a)) by (by intros s y _ Hx).
  unfold resolve_default_vid_cap_dev, pjsocky_device_get_video_capture,
    pjsocky_device_list_video. keeps_go.
Qed.

(** The account is added while the flag is down. *)
Lemma keeps_configure sip_uri registrar_uri username password realm :
  keeps F J (pjsocky_account_configure sip_uri registrar_uri username password realm).
Proof.
  unfold pjsocky_account_configure, pjsocky_account_get_id.
  apply keeps_bind; [keeps_go|]. intros id. destruct (negb _); [keeps_go|].
  intros s HJ. wp_step. apply wpf_modify. wp_step. eapply wpf_mono.
  { apply (keeps_resolve_acc (acc s <| g_registered := false |>)).
    split; [|done]. destruct HJ. by split. }
  intros cap_dev s1 [HJ1 Ha]. wp_step. apply wpf_ask.
  destruct (ans_acc_add _ _ _) as [st new_id]. cbn beta iota.
  assert (keeps F J (if negb (ok st) then mret (st, None)
                     else id ← gets (fun s => g_acc_id (acc s)); mret (PJ_SUCCESS, Some id)))
    as Hk by keeps_go.
  apply (stable _ (A_acc_add (configured_account sip_uri registrar_uri username password
    realm cap_dev) true)) in HJ1; [|done].
  destruct new_id; wp_step; [apply wpf_modify|apply wpf_ret]; apply Hk; [|done].
  destruct HJ1. split; try done. unfold account_ok. simpl in *. by rewrite Ha.
Qed.

Lemma keeps_register : keeps F J pjsocky_account_register.
Proof. unfold pjsocky_account_register, pjsocky_account_get_id. keeps_go. Qed.
Lemma keeps_unregister : keeps F J pjsocky_account_unregister.
Proof. unfold pjsocky_account_unregister, pjsocky_account_get_id. keeps_go. Qed.

Lemma keeps_remove : keeps F J pjsocky_account_remove.
Proof.
  unfold pjsocky_account_remove, pjsocky_account_get_id, pjsocky_account_is_registered.
  keeps_go. by apply keeps_set_acc.
Qed.

(** The callback runs for the configured account only: pjsua knows no
    other. *)
Lemma keeps_on_reg_state2 acc_id info s :
  J s -> g_acc_id (acc s) <> PJSUA_INVALID_ID ->
  wpf F (pjsocky_account_on_reg_state2 acc_id info) (fun _ s' => J s') s.
Proof.
  intros HJ Hid. unfold pjsocky_account_on_reg_state2. wp_step. apply wpf_ask.
  destruct (ans_acc_get_info _ _) as [st i]. cbn beta iota.
  apply (stable _ (A_acc_get_info acc_id)) in HJ; [|done].
  destruct (negb (ok st)); [by apply keeps_log_call; [exact _|..]|].
  wp_step. apply wpf_modify.
  assert (keeps F J (push "reg_state" (build_reg_state_data i);; mret tt)) as Hk by keeps_go.
  apply Hk. destruct HJ. split; try done. by intros _.
Qed.
End keeps.
#[export] Hint Resolve keeps_registered_account keeps_resolve keeps_configure
  keeps_register keeps_unregister keeps_remove : keeps_db.

(** ** The capture device a new account gets *)
Section capture.
Context `{!Env, !PjJson}.

Definition can_capture (d : vid_dev_info) : bool := dir_has (vid_dir d) PJMEDIA_DIR_CAPTURE.

(** The selected camera, or else the first of the listed devices that can
    capture, or else none. *)
Definition default_capture (h : history) (selected : Z) : Z :=
  if decide (selected = PJMEDIA_VID_INVALID_DEV) then
    let '(st, devices) := ans_vid_enum_devs h PJSOCKY_MAX_DEVICES in
    if ok st then from_option vid_id PJMEDIA_VID_INVALID_DEV (List.find can_capture devices)
    else PJMEDIA_VID_INVALID_DEV
  else selected.

Lemma first_capture_spec F devices s :
  wpf F (first_capture_device devices) (fun id s' =>
    id = from_option vid_id PJMEDIA_VID_INVALID_DEV (List.find can_capture devices) /\
    adds is_log s s') s.
Proof.
  induction devices as [|d devices IH]; simpl.
  - wp_step. apply wpf_log_call, wpf_ret. split; [done|]. by apply adds_cons, adds_refl.
  - fold (can_capture d). destruct (can_capture d); [|exact IH]. simpl.
    wp_step. apply wpf_when; intros _.
    + apply wpf_log_call, wpf_ret. split; [done|]. by apply adds_cons, adds_refl.
    + apply wpf_ret. split; [done|apply adds_refl].
Qed.

Lemma resolve_spec F s :
  wpf F resolve_default_vid_cap_dev (fun cap_dev s' =>
    cap_dev = default_capture (hist s) (g_video_capture_id (dev s)) /\
    adds (fun a => a = A_vid_enum_devs \/ is_log a) s s') s.
Proof.
  unfold resolve_default_vid_cap_dev, default_capture, pjsocky_device_get_video_capture.
  do 2 wp_step. destruct (Z.eqb_spec (g_video_capture_id (dev s)) PJMEDIA_VID_INVALID_DEV);
    cbn [negb]; [|rewrite decide_False by done; apply wpf_ret; split; [done|apply adds_refl]].
  rewrite decide_True by done. wp_step. apply wpf_ask.
  destruct (ans_vid_enum_devs _ _) as [st devices]. cbn beta iota.
  set (s1 := set_with hist _ s).
  assert (adds (fun a => a = A_vid_enum_devs \/ is_log a) s s1)
    by (apply adds_cons; [by left|apply adds_refl]).
  destruct (ok st); cbn [negb]; [|by apply wpf_ret].
  eapply wpf_mono; [apply first_capture_spec|]. intros id s' [-> (l & -> & Hl)].
  split; [done|]. eapply adds_trans; [done|]. exists l. split; [done|].
  eapply Forall_impl; [exact Hl|]. by right.
Qed.
End capture.

(** ** Properties *)

(** C32: One account at a time: with an account configured,
    [account.configure] is refused without any library call and changes
    nothing; without one, the registered flag goes down, pjsua is asked to
    add the account described by the parameters - register on request only,
    digest credentials - with the selected camera or else the first listed
    device that can capture, and the account exists afterwards exactly if pjsua says so. *)
Theorem account_configure_outcome `{!Env, !EnvLaws, !PjJson}
    sip_uri registrar_uri username password realm (s : St) :
  wp (pjsocky_account_configure sip_uri registrar_uri username password realm) (fun r s' =>
    if g_acc_id (acc s) =? PJSUA_INVALID_ID then
      exists l, Forall (fun a => a = A_vid_enum_devs \/ is_log a) l /\
        let h := l ++ hist s in
        let cap_dev := default_capture (hist s) (g_video_capture_id (dev s)) in
        let cfg := configured_account sip_uri registrar_uri username password realm cap_dev in
        let '(st, id) := ans_acc_add h cfg true in
        r = (st, id) /\ hist s' = A_acc_add cfg true :: h /\
        acc s' = {| g_acc_id := default PJSUA_INVALID_ID id; g_registered := false |} /\
        (st = PJ_SUCCESS <-> g_acc_id (acc s') <> PJSUA_INVALID_ID)
    else r = (PJ_EEXISTS, None) /\ s' = s) s.
Proof.
  unfold pjsocky_account_configure, pjsocky_account_get_id. do 2 wp_step.
  destruct (Z.eqb_spec (g_acc_id (acc s)) PJSUA_INVALID_ID) as [Hid|Hid]; cbn [negb];
    [|by apply wpf_ret].
  wp_step. apply wpf_modify.
  wp_step. eapply wpf_mono; [apply resolve_spec|]. intros cap_dev s2 [-> (l & -> & Hl)].
  wp_step. apply wpf_ask. set (cfg := configured_account _ _ _ _ _ _).
  simpl in cfg.
  destruct (ans_acc_add _ cfg true) as [st id] eqn:Hadd; simpl in Hadd. cbn beta iota.
  pose proof (acc_add_writes _ _ _ _ _ Hadd) as Hw.
  destruct id as [id|]; (wp_step; first [apply wpf_modify|apply wpf_ret]).
  - assert (st = PJ_SUCCESS) as -> by (apply Hw; by eexists).
    change (ok PJ_SUCCESS) with true. cbn [negb]. do 2 wp_step. apply wpf_ret.
    exists l. split; [done|]. cbv zeta. fold cfg. rewrite Hadd. simpl.
    pose proof (acc_add_id _ _ _ _ _ Hadd). by split_and!.
  - assert (st <> PJ_SUCCESS) as Hst by (intros Hst; apply Hw in Hst as [? ?]; done).
    rewrite (proj2 (ok_false st)) by done. cbn [negb]. apply wpf_ret.
    exists l. split; [done|]. cbv zeta. fold cfg. rewrite Hadd. simpl. rewrite Hid. by split_and!.
Qed.

(** An account goes away only when the client has unregistered it: while
    none is configured, or the last REGISTER succeeded, [account.remove] is
    refused with no library call and no change; otherwise pjsua is asked to
    delete exactly this account, and it is forgotten if and only if pjsua
    agreed. *)
Theorem account_remove_outcome `{!Env} (s : St) :
  wp pjsocky_account_remove (fun st s' =>
    if (g_acc_id (acc s) =? PJSUA_INVALID_ID) || g_registered (acc s)
    then st = PJ_EINVALIDOP /\ s' = s
    else st = ans_acc_del (hist s) (g_acc_id (acc s)) /\
         hist s' = A_acc_del (g_acc_id (acc s)) :: hist s /\
         acc s' = if ok st then initial_account else acc s) s.
Proof.
  unfold pjsocky_account_remove, pjsocky_account_get_id, pjsocky_account_is_registered.
  do 2 wp_step. destruct (g_acc_id (acc s) =? PJSUA_INVALID_ID); [by apply wpf_ret|].
  do 2 wp_step. destruct (g_registered (acc s)); [by apply wpf_ret|]. simpl orb.
  wp_step. apply wpf_ask. destruct (ok (ans_acc_del _ _)) eqn:Hst; cbn [negb].
  - wp_step. apply wpf_modify. apply wpf_ret. apply ok_true in Hst. by rewrite Hst.
  - apply wpf_ret. by rewrite Hst.
Qed.

(** "Registered" means a successful REGISTER: after a registration report
    whose account pjsua can describe, the flag is up exactly when the report
    is about a REGISTER (not an un-REGISTER) and the SIP status is in the
    200 class, the account id is unchanged, and a connected client is told
    the same value. *)
Theorem reg_state_sets_registered `{!Env, !EnvLaws, !PjJson} e acc_id info (s : St) :
  select_waits -> ready s e ->
  wp (pjsocky_account_on_reg_state2 acc_id info) (fun _ s' =>
    let '(st, i) := ans_acc_get_info (hist s) acc_id in
    let h := A_acc_get_info acc_id :: hist s in
    if ok st then
      (g_registered (acc s') = true <-> renew info = true /\ 200 <= acc_info_status i < 300) /\
      g_acc_id (acc s') = g_acc_id (acc s) /\
      exists data st' k, hist s' = k ++ h /\
        wire (f_sock (conn_framing (conn s))) k = data /\
        (is_Some (ev_framing e) ->
         delivered (event_object "reg_state" (Some (build_reg_state_data i)) (acc s'))
           PJSOCKY_MAX_LINE st' data)
    else s' = s <| hist := A_perror 1 st "pjsua_acc_get_info() failed" [] :: h |>) s.
Proof.
  intros Hclk Hr. unfold pjsocky_account_on_reg_state2. wp_step. apply wpf_ask.
  destruct (ans_acc_get_info (hist s) acc_id) as [st i]. cbn beta iota.
  destruct (ok st); cbn [negb]; [|by apply wpf_log_call].
  wp_step. apply wpf_modify. wp_step.
  eapply wpf_mono; [apply (push_spec _ e); [by right|by destruct Hr]|].
  intros st' s1 (data & (l & -> & _ & Hw) & Hd). apply wpf_ret. simpl. split_and!; [|done|].
  - rewrite andb_true_iff, Z.eqb_eq. apply and_iff_compat_l.
    split; intros Hq.
    + pose proof (Z.quot_rem' (acc_info_status i) 100).
      pose proof (Z.rem_bound_abs (acc_info_status i) 100).
      destruct (Z.le_gt_cases 0 (acc_info_status i)).
      * pose proof (Z.rem_nonneg (acc_info_status i) 100). lia.
      * pose proof (Z.quot_pos (- acc_info_status i) 100).
        rewrite Z.quot_opp_l in * by lia. lia.
    + symmetry. apply (Z.quot_unique _ _ 2 (acc_info_status i - 200)); lia.
  - exists data, st', l. split_and!; [done|done|]. intros [fp Hf]. simpl in Hd. by rewrite Hf in Hd.
Qed.

Section witnesses.
#[local] Instance quiet_env : Env := env_of quiet.
#[local] Instance quiet_env_laws : EnvLaws := quiet_laws.
#[local] Existing Instance sim_json.

Lemma account_configure_outcome_witness :
  wp (pjsocky_account_configure "sip:a@b" "sip:b" "a" "pw" "*") (fun r s' =>
    exists l, Forall (fun a => a = A_vid_enum_devs \/ is_log a) l /\
      r = (PJ_SUCCESS, Some 0) /\
      hist s' = A_acc_add (configured_account "sip:a@b" "sip:b" "a" "pw" "*"
                  (default_capture [] PJMEDIA_VID_INVALID_DEV)) true :: l ++ [] /\
      acc s' = {| g_acc_id := 0; g_registered := false |} /\
      (PJ_SUCCESS = PJ_SUCCESS <-> g_acc_id (acc s') <> PJSUA_INVALID_ID)) initial_state.
Proof.
  exact (account_configure_outcome "sip:a@b" "sip:b" "a" "pw" "*" initial_state).
Defined.

Lemma reg_state_sets_registered_witness :
  wp (pjsocky_account_on_reg_state2 0 {| renew := true |}) (fun _ s' =>
    (g_registered (acc s') = true <-> true = true /\ 200 <= 200 < 300) /\
    g_acc_id (acc s') = PJSUA_INVALID_ID /\
    exists data st' k, hist s' = k ++ [A_acc_get_info 0] /\ wire 7 k = data /\
      (is_Some (Some CONN_FRAMING) ->
       delivered (event_object "reg_state" (Some (build_reg_state_data
           {| acc_info_id := 0; acc_info_status := 200; acc_info_status_text := "OK" |}))
         (acc s')) PJSOCKY_MAX_LINE st' data)) connected.
Proof.
  refine (reg_state_sets_registered connected_events 0 {| renew := true |} connected
           (sim_select_waits _) _).
  split; simpl; done || lia.
Defined.
End witnesses.
