(* ===== verification/Im.v ===== *)
(** * Instant messages (src/im.c) *)

From S2P Require Import Prelude Float32 Pjlib Env State Framing Compact Wire JsonUtil Events Invariant Device Account.

Section im.
Context `{!Env, !PjJson}.

Definition pjsocky_im_send (to content mime_type : string) : C pj_status :=
  a ← registered_account;
  match a with
  | None => mret PJ_EINVALIDOP
  | Some acc_id => pjsua_im_send acc_id to mime_type content
  end.

Definition pjsocky_im_typing (to : string) (is_typing : bool) : C pj_status :=
  a ← registered_account;
  match a with
  | None => mret PJ_EINVALIDOP
  | Some acc_id => pjsua_im_typing acc_id to is_typing
  end.

Definition build_incoming_message_data (from to mime_type body : string)
  : event_builder := fun _ data =>
  let data := pjsocky_json_add_str data "from" from in
  let data := pjsocky_json_add_str data "to" to in
  let data := pjsocky_json_add_str data "mime_type" mime_type in
  pjsocky_json_add_str data "body" body.

Definition pjsocky_im_on_pager2 (call_id : Z)
    (from to contact mime_type body : string) (acc_id : Z) : C unit :=
  push "incoming_message" (build_incoming_message_data from to mime_type body);;
  mret tt.

Definition build_message_status_data (to body : string) (status : Z)
    (reason : string) : event_builder := fun _ data =>
  let data := pjsocky_json_add_str data "to" to in
  let data := pjsocky_json_add_str data "body" body in
  let data := pjsocky_json_add_number data "status" (float_of_int status) in
  pjsocky_json_add_str data "reason" reason.

Definition pjsocky_im_on_pager_status2 (call_id : Z) (to body : string)
    (status : Z) (reason : string) (acc_id : Z) : C unit :=
  push "message_status" (build_message_status_data to body status reason);;
  mret tt.

Definition build_typing_data (from to : string) (is_typing : bool)
  : event_builder := fun _ data =>
  let data := pjsocky_json_add_str data "from" from in
  let data := pjsocky_json_add_str data "to" to in
  pjsocky_json_add_bool data "is_typing" is_typing.

Definition pjsocky_im_on_typing2 (call_id : Z) (from to contact : string)
    (is_typing : bool) (acc_id : Z) : C unit :=
  push "typing" (build_typing_data from to is_typing);; mret tt.
End im.

(** ** The invariant is kept *)
Section keeps.
Context `{!Env, !EnvLaws, !PjJson} (F : Prop) (x : ctx).
Context (Hs : serviceable F x).
Abbreviation J := (daemon_ok x).

Lemma keeps_im_send to content mime : keeps F J (pjsocky_im_send to content mime).
Proof. unfold pjsocky_im_send. keeps_go. Qed.
Lemma keeps_im_typing to b : keeps F J (pjsocky_im_typing to b).
Proof. unfold pjsocky_im_typing. keeps_go. Qed.
Lemma keeps_on_pager2 id from to contact mime body acc_id :
  keeps F J (pjsocky_im_on_pager2 id from to contact mime body acc_id).
Proof. unfold pjsocky_im_on_pager2. keeps_go. Qed.
Lemma keeps_on_pager_status2 id to body st reason acc_id :
  keeps F J (pjsocky_im_on_pager_status2 id to body st reason acc_id).
Proof. unfold pjsocky_im_on_pager_status2. keeps_go. Qed.
Lemma keeps_on_typing2 id from to contact b acc_id :
  keeps F J (pjsocky_im_on_typing2 id from to contact b acc_id).
Proof. unfold pjsocky_im_on_typing2. keeps_go. Qed.
End keeps.
#[export] Hint Resolve keeps_im_send keeps_im_typing keeps_on_pager2 keeps_on_pager_status2
  keeps_on_typing2 : keeps_db.
