(* ===== verification/Call.v ===== *)
(** * Calls (src/call.c)

    One current call; a ring timer that rejects an unanswered incoming call; a
    watchdog that gives up on a video stream that sends nothing; a periodic
    media report; and the callbacks pjsua-lib runs on call events. *)

From S2P Require Import Prelude Float32 Pjlib Env SimEnv State Framing Compact SimJson Wire JsonUtil Events Invariant Device Account.
#[local] Open Scope string_scope.
#[local] Open Scope Z_scope.

Definition media_status_str (st : media_status) : string :=
  match st with
  | PJSUA_CALL_MEDIA_NONE => "none"
  | PJSUA_CALL_MEDIA_ACTIVE => "active"
  | PJSUA_CALL_MEDIA_LOCAL_HOLD => "local-hold"
  | PJSUA_CALL_MEDIA_REMOTE_HOLD => "remote-hold"
  | PJSUA_CALL_MEDIA_ERROR => "error"
  | PJSUA_CALL_MEDIA_OTHER _ => "?"
  end.

Definition dir_str (dir : Z) : string :=
  if dir =? PJMEDIA_DIR_NONE then "inactive"
  else if dir =? PJMEDIA_DIR_ENCODING then "sendonly"
  else if dir =? PJMEDIA_DIR_DECODING then "recvonly"
  else if dir =? PJMEDIA_DIR_ENCODING_DECODING then "sendrecv"
  else "?".

Definition pjsocky_call_state_str (state : inv_state) : string :=
  match state with
  | PJSIP_INV_STATE_NULL => "NULL"
  | PJSIP_INV_STATE_CALLING => "CALLING"
  | PJSIP_INV_STATE_INCOMING => "INCOMING"
  | PJSIP_INV_STATE_EARLY => "EARLY"
  | PJSIP_INV_STATE_CONNECTING => "CONNECTING"
  | PJSIP_INV_STATE_CONFIRMED => "CONFIRMED"
  | PJSIP_INV_STATE_DISCONNECTED => "DISCONNECTED"
  | PJSIP_INV_STATE_OTHER _ => "UNKNOWN"
  end.

(** [state == INCOMING || state == EARLY] *)
Definition is_ringing (state : inv_state) : bool :=
  bool_decide (state = PJSIP_INV_STATE_INCOMING)
  || bool_decide (state = PJSIP_INV_STATE_EARLY).

(** An active stream of the given type. *)
Definition is_active_media (type : media_type) (m : call_media_info) : bool :=
  bool_decide (media_type_ m = type)
  && bool_decide (media_status_ m = PJSUA_CALL_MEDIA_ACTIVE).

Definition PJSOCKY_VIDEO_WATCHDOG_MSEC : Z := 3000.
Definition PJSOCKY_MEDIA_REPORT_MSEC : Z := 5000.
Definition delay_of_msec (ms : Z) : time_val := {| sec := ms / 1000; msec := ms mod 1000 |}.

(** The loop shared by [build_call_media_state_data] and [cmd_call_get_info]. *)
Definition active_media_flags (media : list call_media_info) : bool * bool :=
  foldl (fun '(has_audio, has_video) m =>
    if negb (bool_decide (media_status_ m = PJSUA_CALL_MEDIA_ACTIVE))
    then (has_audio, has_video)
    else match media_type_ m with
         | PJMEDIA_TYPE_AUDIO => (true, has_video)
         | PJMEDIA_TYPE_VIDEO => (has_audio, true)
         | PJMEDIA_TYPE_OTHER _ => (has_audio, has_video)
         end) (false, false) media.

Section call.
Context `{!Env, !PjJson}.

(** *** Queries and settings *)

Definition pjsocky_call_get_id : C Z := gets (fun s => g_call_id (call s)).

Definition pjsocky_call_set_ring_timeout (seconds : Z) : C unit :=
  set_call (fun c => c <| g_ring_timeout_sec := seconds |>).
Definition pjsocky_call_get_ring_timeout : C Z :=
  gets (fun s => g_ring_timeout_sec (call s)).

Definition is_valid_call_id (call_id : Z) : C bool :=
  if 0 <=? call_id then n ← pjsua_call_get_max_count; mret (call_id <? n)
  else mret false.

Definition pjsocky_call_get_info (call_id : Z) : C (pj_status * option call_info) :=
  valid ← is_valid_call_id call_id;
  if negb valid then mret (PJ_EINVAL, None) else
  '(status, info) ← pjsua_call_get_info call_id;
  mret (status, Some info).

Definition pjsocky_call_remote_offered_video (call_id : Z)
  : C (pj_status * option bool) :=
  '(status, info) ← pjsocky_call_get_info call_id;
  match info with
  | Some info =>
      if negb (ok status) then mret (status, None)
      else mret (PJ_SUCCESS, Some (0 <? rem_vid_cnt info))
  | None => mret (status, None)
  end.

(** The first active stream of the type, its counters, or [PJ_ENOTFOUND]. *)
Fixpoint rtp_counters_loop (call_id : Z) (type : media_type) (i : nat)
    (media : list call_media_info) : C (pj_status * option (Z * Z)) :=
  match media with
  | [] => mret (PJ_ENOTFOUND, None)
  | m :: rest =>
      if negb (is_active_media type m) then rtp_counters_loop call_id type (S i) rest
      else
        '(status, stat) ← pjsua_call_get_stream_stat call_id i;
        if negb (ok status) then mret (status, None)
        else mret (PJ_SUCCESS, Some (rtcp_tx_pkt stat, rtcp_rx_pkt stat))
  end.

Definition pjsocky_call_get_rtp_counters (call_id : Z) (type : media_type)
  : C (pj_status * option (Z * Z)) :=
  '(status, info) ← pjsocky_call_get_info call_id;
  match info with
  | Some info =>
      if negb (ok status) then mret (status, None)
      else rtp_counters_loop call_id type 0 (call_media info)
  | None => mret (status, None)
  end.

(** *** Commands *)

(** The second component is [*p_call_id]. *)
Definition pjsocky_call_dial (uri : string) (video : bool)
  : C (pj_status * option Z) :=
  a ← registered_account;
  match a with
  | None => mret (PJ_EINVALIDOP, None)
  | Some acc_id =>
      let setting := call_setting_default <| txt_cnt := 0 |> in
      let setting := if video then setting else setting <| vid_cnt := 0 |> in
      '(status, new_id) ← pjsua_call_make_call acc_id uri setting;
      match new_id with
      | Some n => set_call (fun c => c <| g_call_id := n |>)
      | None => mret tt
      end;;
      if negb (ok status) then
        set_call (fun c => c <| g_call_id := PJSUA_INVALID_ID |>);;
        mret (status, None)
      else
        id ← pjsocky_call_get_id;
        mret (PJ_SUCCESS, Some id)
  end.

Definition pjsocky_call_hangup (call_id code : Z) : C pj_status :=
  valid ← is_valid_call_id call_id;
  if negb valid then mret PJ_EINVAL else pjsua_call_hangup call_id code.

Definition pjsocky_call_hangup_all : C pj_status :=
  id ← pjsocky_call_get_id;
  if id =? PJSUA_INVALID_ID then mret PJ_SUCCESS else pjsua_call_hangup id 0.

Definition pjsocky_call_answer (call_id code : Z) (video : bool) : C pj_status :=
  valid ← is_valid_call_id call_id;
  if negb valid then mret PJ_EINVAL else
  let setting := call_setting_default <| txt_cnt := 0 |> in
  let setting := if video then setting else setting <| vid_cnt := 0 |> in
  pjsua_call_answer2 call_id setting code.

(** *** Timers *)

Definition cancel_ring_timer : C unit :=
  scheduled ← gets (fun s => g_ring_timer_scheduled (call s));
  if negb scheduled then mret tt else
  pjsua_cancel_timer RING_TIMER;;
  set_call (fun c => c <| g_ring_timer_scheduled := false |>).

Definition cancel_video_watchdog : C unit :=
  scheduled ← gets (fun s => g_video_watchdog_scheduled (call s));
  if negb scheduled then mret tt else
  pjsua_cancel_timer VIDEO_WATCHDOG;;
  set_call (fun c => c <| g_video_watchdog_scheduled := false |>).

Definition cancel_media_report : C unit :=
  scheduled ← gets (fun s => g_media_report_scheduled (call s));
  if negb scheduled then mret tt else
  pjsua_cancel_timer MEDIA_REPORT;;
  set_call (fun c => c <| g_media_report_scheduled := false |>).

Definition ring_timer_cb : C unit :=
  call_id ← gets (fun s => g_ring_timer (call s));
  set_call (fun c => c <| g_ring_timer_scheduled := false |>);;
  '(status, info) ← pjsua_call_get_info call_id;
  if negb (ok status) then mret tt else
  if negb (is_ringing (call_state info)) then mret tt else
  PJ_LOG 3 "call %d: ring timeout - auto-rejecting" [LogNum call_id];;
  pjsua_call_hangup call_id PJSIP_SC_TEMPORARILY_UNAVAILABLE;;
  mret tt.

(** The index of the first active video stream with the sending direction. *)
Fixpoint find_sending_video_loop (i : nat) (media : list call_media_info)
  : option nat :=
  match media with
  | [] => None
  | m :: rest =>
      if is_active_media PJMEDIA_TYPE_VIDEO m && dir_has (media_dir m) PJMEDIA_DIR_ENCODING
      then Some i else find_sending_video_loop (S i) rest
  end.
Definition find_sending_video (info : call_info) : option nat :=
  find_sending_video_loop 0 (call_media info).

Definition give_up_on_video (call_id : Z) (med_idx : Z) (reason_status : pj_status)
    (reason : string) : C unit :=
  failed ← gets (fun s => g_video_failed_call_id (call s));
  if call_id =? failed then mret tt else
  set_call (fun c => c <| g_video_failed_call_id := call_id |>);;
  cancel_video_watchdog;;
  (if negb (ok reason_status) then
     PJ_PERROR 2 reason_status "call %d: %s - continuing without video"
       [LogNum call_id; LogStr reason]
   else
     PJ_LOG 2 "call %d: %s - continuing without video" [LogNum call_id; LogStr reason]);;
  let param := vid_strm_op_param_default <| op_med_idx := to_signed 32 med_idx |> in
  status ← pjsua_call_set_vid_strm call_id PJSUA_CALL_VID_STRM_REMOVE param;
  when (negb (ok status))
    (PJ_PERROR 2 status "call %d: could not remove the failed video stream"
       [LogNum call_id]).

Definition video_watchdog_cb : C unit :=
  call_id ← gets (fun s => g_video_watchdog (call s));
  set_call (fun c => c <| g_video_watchdog_scheduled := false |>);;
  '(status, info) ← pjsua_call_get_info call_id;
  if negb (ok status) then mret tt else
  if negb (bool_decide (call_state info = PJSIP_INV_STATE_CONFIRMED)) then mret tt else
  match find_sending_video info with
  | None => mret tt
  | Some med_idx =>
      '(status, counters) ← pjsocky_call_get_rtp_counters call_id PJMEDIA_TYPE_VIDEO;
      let tx := match counters with Some (tx, _) => tx | None => 0 end in
      seen ← gets (fun s => g_video_tx_packets_seen (call s));
      giving_up ← (if ok status && (seen <? tx) then
                   set_call (fun c => c <| g_video_tx_packets_seen := tx |>
                                        <| g_video_stall_ticks := 0 |>);;
                   mret false
                 else
                   set_call (fun c => c <| g_video_stall_ticks :=
                               to_unsigned (g_video_stall_ticks c + 1) |>);;
                   ticks ← gets (fun s => g_video_stall_ticks (call s));
                   mret ((if seen =? 0 then 2 else 1) <=? ticks));
      if (giving_up : bool) then
        give_up_on_video call_id (Z.of_nat med_idx) PJ_SUCCESS
          "the video capture device stopped producing frames"
      else
        st ← pjsua_schedule_timer VIDEO_WATCHDOG (delay_of_msec PJSOCKY_VIDEO_WATCHDOG_MSEC);
        when (ok st) (set_call (fun c => c <| g_video_watchdog_scheduled := true |>))
  end.

Definition media_report_cb : C unit :=
  call_id ← gets (fun s => g_media_report (call s));
  set_call (fun c => c <| g_media_report_scheduled := false |>);;
  '(status, info) ← pjsua_call_get_info call_id;
  if negb (ok status) then mret tt else
  if negb (bool_decide (call_state info = PJSIP_INV_STATE_CONFIRMED)) then mret tt else
  '(ast, a) ← pjsocky_call_get_rtp_counters call_id PJMEDIA_TYPE_AUDIO;
  '(vst, v) ← pjsocky_call_get_rtp_counters call_id PJMEDIA_TYPE_VIDEO;
  (match (if ok ast then a else None), (if ok vst then v else None) with
   | Some (atx, arx), Some (vtx, vrx) =>
       PJ_LOG 3 "call %d media: audio tx=%u rx=%u  video tx=%u rx=%u"
         [LogNum call_id; LogNum atx; LogNum arx; LogNum vtx; LogNum vrx]
   | Some (atx, arx), None =>
       PJ_LOG 3 "call %d media: audio tx=%u rx=%u  video -"
         [LogNum call_id; LogNum atx; LogNum arx]
   | None, Some (vtx, vrx) =>
       PJ_LOG 3 "call %d media: audio -  video tx=%u rx=%u"
         [LogNum call_id; LogNum vtx; LogNum vrx]
   | None, None =>
       PJ_LOG 3 "call %d media: no active stream of either type" [LogNum call_id]
   end);;
  st ← pjsua_schedule_timer MEDIA_REPORT (delay_of_msec PJSOCKY_MEDIA_REPORT_MSEC);
  when (ok st) (set_call (fun c => c <| g_media_report_scheduled := true |>)).

Definition arm_media_report (call_id : Z) : C unit :=
  cancel_media_report;;
  set_call (fun c => c <| g_media_report := call_id |>);;
  st ← pjsua_schedule_timer MEDIA_REPORT (delay_of_msec PJSOCKY_MEDIA_REPORT_MSEC);
  when (ok st) (set_call (fun c => c <| g_media_report_scheduled := true |>)).

Definition arm_video_watchdog (call_id : Z) (info : call_info) : C unit :=
  cancel_video_watchdog;;
  failed ← gets (fun s => g_video_failed_call_id (call s));
  match find_sending_video info with
  | None => mret tt
  | Some _ =>
      if call_id =? failed then mret tt else
      set_call (fun c => c <| g_video_tx_packets_seen := 0 |> <| g_video_stall_ticks := 0 |>
                           <| g_video_watchdog := call_id |>);;
      st ← pjsua_schedule_timer VIDEO_WATCHDOG (delay_of_msec PJSOCKY_VIDEO_WATCHDOG_MSEC);
      when (ok st) (set_call (fun c => c <| g_video_watchdog_scheduled := true |>))
  end.

(** *** Callbacks of pjsua-lib *)

Definition build_call_state_data (info : call_info) : event_builder := fun _ data =>
  let data := pjsocky_json_add_number data "call_id" (float_of_int (call_info_id info)) in
  let data := pjsocky_json_add_string data "state" (pjsocky_call_state_str (call_state info)) in
  let data := pjsocky_json_add_number data "last_status" (float_of_int (last_status info)) in
  pjsocky_json_add_str data "last_status_text" (last_status_text info).

Definition pjsocky_call_on_call_state (call_id : Z) : C unit :=
  '(status, info) ← pjsua_call_get_info call_id;
  if negb (ok status) then PJ_PERROR 1 status "pjsua_call_get_info() failed" [] else
  c ← gets call;
  when (g_ring_timer_scheduled c && (call_id =? g_ring_timer c)
        && negb (is_ringing (call_state info)))
    cancel_ring_timer;;
  when (bool_decide (call_state info = PJSIP_INV_STATE_DISCONNECTED)) (
    set_call (fun c => if call_id =? g_call_id c
                       then c <| g_call_id := PJSUA_INVALID_ID |> else c);;
    set_call (fun c => if call_id =? g_video_failed_call_id c
                       then c <| g_video_failed_call_id := PJSUA_INVALID_ID |> else c);;
    cancel_video_watchdog;;
    cancel_media_report);;
  push "call_state" (build_call_state_data info);;
  mret tt.

Definition build_call_media_state_data (info : call_info) : event_builder := fun _ data =>
  let '(has_audio, has_video) := active_media_flags (call_media info) in
  let data := pjsocky_json_add_number data "call_id" (float_of_int (call_info_id info)) in
  let data := pjsocky_json_add_bool data "has_audio" has_audio in
  pjsocky_json_add_bool data "has_video" has_video.

Definition apply_video_capture_device (call_id : Z) (info : call_info) : C unit :=
  cap_dev ← pjsocky_device_get_video_capture;
  if cap_dev =? PJMEDIA_VID_INVALID_DEV then mret tt else
  if negb (existsb (is_active_media PJMEDIA_TYPE_VIDEO) (call_media info)) then mret tt else
  let param := vid_strm_op_param_default <| op_cap_dev := cap_dev |> in
  status ← pjsua_call_set_vid_strm call_id PJSUA_CALL_VID_STRM_CHANGE_CAP_DEV param;
  when (negb (ok status))
    (PJ_PERROR 1 status "pjsua_call_set_vid_strm(CHANGE_CAP_DEV) failed" []).

Fixpoint connect_call_audio_to_sound_dev (media : list call_media_info) : C unit :=
  match media with
  | [] => mret tt
  | m :: rest =>
      when (is_active_media PJMEDIA_TYPE_AUDIO m) (
        status ← pjsua_conf_connect (media_conf_slot m) 0;
        when (negb (ok status))
          (PJ_PERROR 1 status "pjsua_conf_connect(call->sound_dev) failed" []);;
        status ← pjsua_conf_connect 0 (media_conf_slot m);
        when (negb (ok status))
          (PJ_PERROR 1 status "pjsua_conf_connect(sound_dev->call) failed" []));;
      connect_call_audio_to_sound_dev rest
  end.

Fixpoint log_media_lines (call_id : Z) (i : nat) (media : list call_media_info)
  : C unit :=
  match media with
  | [] => mret tt
  | m :: rest =>
      let type := match media_type_ m with
                  | PJMEDIA_TYPE_AUDIO => "audio" | PJMEDIA_TYPE_VIDEO => "video"
                  | PJMEDIA_TYPE_OTHER _ => "other" end in
      si ← (if negb (bool_decide (media_status_ m = PJSUA_CALL_MEDIA_ACTIVE))
            then mret None
            else '(st, si) ← pjsua_call_get_stream_info call_id i;
                 mret (if ok st then Some si else None));
      match si with
      | None =>
          PJ_LOG 3 "call %d media[%u]: %s %s dir=%s"
            [LogNum call_id; LogNum (Z.of_nat i); LogStr type;
             LogStr (media_status_str (media_status_ m)); LogStr (dir_str (media_dir m))]
      | Some si =>
          PJ_LOG 3
            (if bool_decide (stream_type si = PJMEDIA_TYPE_VIDEO)
             then "call %d media[%u]: video active dir=%s codec=%.*s tx_pt=%u rx_pt=%u"
             else "call %d media[%u]: audio active dir=%s codec=%.*s tx_pt=%u rx_pt=%u")
            [LogNum call_id; LogNum (Z.of_nat i); LogStr (dir_str (media_dir m));
             LogStr (stream_codec si); LogNum (stream_tx_pt si); LogNum (stream_rx_pt si)]
      end;;
      log_media_lines call_id (S i) rest
  end.

Definition log_negotiated_media (call_id : Z) (info : call_info) : C unit :=
  log_media_lines call_id 0 (call_media info);;
  PJ_LOG 3 "call %d negotiated: %u m-line(s), remote offered %u audio / %u video"
    [LogNum call_id; LogNum (Z.of_nat (length (call_media info)));
     LogNum (rem_aud_cnt info); LogNum (rem_vid_cnt info)].

Definition pjsocky_call_on_call_media_state (call_id : Z) : C unit :=
  '(status, info) ← pjsua_call_get_info call_id;
  if negb (ok status) then PJ_PERROR 1 status "pjsua_call_get_info() failed" [] else
  apply_video_capture_device call_id info;;
  connect_call_audio_to_sound_dev (call_media info);;
  arm_video_watchdog call_id info;;
  arm_media_report call_id;;
  log_negotiated_media call_id info;;
  push "call_media_state" (build_call_media_state_data info);;
  mret tt.

Definition offered_video (offer : list sdp_media) : nat :=
  length (filter (fun m => pj_stricmp2 (sdp_media_name m) "video" = 0 /\ sdp_port m <> 0)
                 offer).

(** The result is [*opt]; a NULL [offer] or [opt] is [None]. *)
Definition pjsocky_call_on_call_rx_offer (call_id : Z) (offer : option (list sdp_media))
    (opt : option call_setting) : C (option call_setting) :=
  match offer, opt with
  | Some offer, Some opt =>
      let opt := opt <| txt_cnt := 0 |> in
      if decide (0 < offered_video offer)%nat then
        if vid_cnt opt =? 0 then
          PJ_LOG 3 "call %d: far end added video mid-call, accepting it" [LogNum call_id];;
          mret (Some (opt <| vid_cnt := 1 |>))
        else mret (Some opt)
      else mret (Some opt)
  | _, _ => mret opt
  end.

(** [event] is NULL, another event, or a video device error with its status. *)
Definition pjsocky_call_on_call_media_event (call_id : Z) (med_idx : Z)
    (vid_dev_err : option pj_status) : C unit :=
  match vid_dev_err with
  | None => mret tt
  | Some status => give_up_on_video call_id med_idx status "video device failed"
  end.

Definition build_incoming_call_data (info : call_info) : event_builder := fun _ data =>
  let data := pjsocky_json_add_number data "call_id" (float_of_int (call_info_id info)) in
  let data := pjsocky_json_add_number data "acc_id" (float_of_int (call_info_acc_id info)) in
  let data := pjsocky_json_add_str data "from" (remote_info info) in
  pjsocky_json_add_bool data "has_video" (0 <? rem_vid_cnt info).

Definition pjsocky_call_on_incoming_call (acc_id call_id : Z) : C unit :=
  set_call (fun c => c <| g_call_id := call_id |>);;
  '(status, info) ← pjsua_call_get_info call_id;
  if negb (ok status) then PJ_PERROR 1 status "pjsua_call_get_info() failed" [] else
  timeout ← pjsocky_call_get_ring_timeout;
  when (0 <? timeout) (
    cancel_ring_timer;;
    set_call (fun c => c <| g_ring_timer := call_id |>);;
    st ← pjsua_schedule_timer RING_TIMER {| sec := to_signed LONG_BIT timeout; msec := 0 |};
    if ok st then set_call (fun c => c <| g_ring_timer_scheduled := true |>)
    else PJ_LOG 1 "failed to schedule ring timeout timer" []);;
  push "incoming_call" (build_incoming_call_data info);;
  mret tt.
End call.

(** ** The invariant is kept *)

(** Operations that only query and command pjsua-lib. *)
Section library_only.
Context `{!Env, !PjJson} (F : Prop) (I : St -> Prop) `{!Stable I}.

Lemma keeps_valid id : keeps F I (is_valid_call_id id).
Proof. unfold is_valid_call_id. keeps_go. Qed.
#[local] Hint Resolve keeps_valid : keeps_db.
Lemma keeps_get_info id : keeps F I (pjsocky_call_get_info id).
Proof. unfold pjsocky_call_get_info. keeps_go. Qed.
#[local] Hint Resolve keeps_get_info : keeps_db.
Lemma keeps_remote_offered id : keeps F I (pjsocky_call_remote_offered_video id).
Proof. unfold pjsocky_call_remote_offered_video. keeps_go. Qed.
Lemma keeps_rtp_loop id type i media : keeps F I (rtp_counters_loop id type i media).
Proof. revert i. induction media as [|m media IH]; intros i; simpl; keeps_go. Qed.
#[local] Hint Resolve keeps_rtp_loop : keeps_db.
Lemma keeps_rtp_counters id type : keeps F I (pjsocky_call_get_rtp_counters id type).
Proof. unfold pjsocky_call_get_rtp_counters. keeps_go. Qed.
Lemma keeps_hangup id code : keeps F I (pjsocky_call_hangup id code).
Proof. unfold pjsocky_call_hangup. keeps_go. Qed.
Lemma keeps_hangup_all : keeps F I pjsocky_call_hangup_all.
Proof. unfold pjsocky_call_hangup_all, pjsocky_call_get_id. keeps_go. Qed.
Lemma keeps_answer id code video : keeps F I (pjsocky_call_answer id code video).
Proof. unfold pjsocky_call_answer. keeps_go. Qed.
Lemma keeps_apply_capture id info : keeps F I (apply_video_capture_device id info).
Proof. unfold apply_video_capture_device, pjsocky_device_get_video_capture. keeps_go. Qed.
Lemma keeps_connect_audio media : keeps F I (connect_call_audio_to_sound_dev media).
Proof. induction media as [|m media IH]; simpl; keeps_go. Qed.
Lemma keeps_log_media_lines id i media : keeps F I (log_media_lines id i media).
Proof. revert i. induction media as [|m media IH]; intros i; simpl; keeps_go. Qed.
#[local] Hint Resolve keeps_log_media_lines : keeps_db.
Lemma keeps_log_negotiated id info : keeps F I (log_negotiated_media id info).
Proof. unfold log_negotiated_media. keeps_go. Qed.
Lemma keeps_rx_offer id offer opt : keeps F I (pjsocky_call_on_call_rx_offer id offer opt).
Proof. unfold pjsocky_call_on_call_rx_offer. keeps_go. Qed.
End library_only.
#[export] Hint Resolve keeps_valid keeps_get_info keeps_remote_offered keeps_rtp_counters
  keeps_hangup keeps_hangup_all keeps_answer keeps_apply_capture keeps_connect_audio
  keeps_log_negotiated keeps_rx_offer : keeps_db.

Section keeps.
Context `{!Env, !EnvLaws, !PjJson} (F : Prop) (x : ctx).
Context (Hs : serviceable F x).
Abbreviation J := (daemon_ok x).

Lemma keeps_dial uri video : keeps F J (pjsocky_call_dial uri video).
Proof. unfold pjsocky_call_dial, pjsocky_call_get_id. keeps_go. Qed.

Lemma keeps_set_ring_timeout n : keeps F J (pjsocky_call_set_ring_timeout n).
Proof. unfold pjsocky_call_set_ring_timeout. keeps_go. Qed.

(** *** Timers *)

Lemma wpf_cancel_ring (Q : unit -> St -> Prop) s :
  J s -> (forall s', disarmed x RING_TIMER s' -> Q tt s') -> wpf F cancel_ring_timer Q s.
Proof. intros HJ HQ. apply (wpf_cancel F x RING_TIMER); [done|]. intros. by apply HQ. Qed.
Lemma wpf_cancel_watchdog (Q : unit -> St -> Prop) s :
  J s -> (forall s', disarmed x VIDEO_WATCHDOG s' -> Q tt s') ->
  wpf F cancel_video_watchdog Q s.
Proof. intros HJ HQ. apply (wpf_cancel F x VIDEO_WATCHDOG); [done|]. intros. by apply HQ. Qed.
Lemma wpf_cancel_report (Q : unit -> St -> Prop) s :
  J s -> (forall s', disarmed x MEDIA_REPORT s' -> Q tt s') ->
  wpf F cancel_media_report Q s.
Proof. intros HJ HQ. apply (wpf_cancel F x MEDIA_REPORT); [done|]. intros. by apply HQ. Qed.

Lemma keeps_cancel_ring : keeps F J cancel_ring_timer.
Proof. intros s HJ. apply wpf_cancel_ring; [done|]. by intros s' []. Qed.
Lemma keeps_cancel_watchdog : keeps F J cancel_video_watchdog.
Proof. intros s HJ. apply wpf_cancel_watchdog; [done|]. by intros s' []. Qed.
Lemma keeps_cancel_report : keeps F J cancel_media_report.
Proof. intros s HJ. apply wpf_cancel_report; [done|]. by intros s' []. Qed.
#[local] Hint Resolve keeps_cancel_ring keeps_cancel_watchdog keeps_cancel_report : keeps_db.

(** A schedule of a disarmed timer. *)
Lemma wpf_rearm t d s :
  disarmed x t s ->
  wpf F (st ← pjsua_schedule_timer t d; when (ok st) (set_call (set_scheduled t true)))
    (fun _ => J) s.
Proof. intros [HJ Hf]. by apply (wpf_schedule F x t). Qed.

Lemma keeps_arm_report id : keeps F J (arm_media_report id).
Proof.
  intros s HJ. unfold arm_media_report. wp_step. apply wpf_cancel_report; [done|].
  intros s' Hd. keeps_over Hd. by apply (wpf_rearm MEDIA_REPORT).
Qed.

Lemma keeps_arm_watchdog id info : keeps F J (arm_video_watchdog id info).
Proof.
  intros s HJ. unfold arm_video_watchdog. wp_step. apply wpf_cancel_watchdog; [done|].
  intros s' Hd. keeps_over Hd. destruct (find_sending_video info); [|apply wpf_ret, Hd].
  destruct (id =? a); [apply wpf_ret, Hd|]. keeps_over Hd.
  by apply (wpf_rearm VIDEO_WATCHDOG).
Qed.
#[local] Hint Resolve keeps_arm_report keeps_arm_watchdog : keeps_db.

Lemma keeps_give_up id idx st reason : keeps F J (give_up_on_video id idx st reason).
Proof. unfold give_up_on_video. keeps_go. Qed.
#[local] Hint Resolve keeps_give_up : keeps_db.

(** The library's part of a timer's expiry, then its callback. *)
Lemma keeps_ring_fires : keeps F J (log_call (A_timer_fired RING_TIMER);; ring_timer_cb).
Proof. apply (keeps_fired F x RING_TIMER). keeps_go. Qed.

Lemma keeps_watchdog_fires :
  keeps F J (log_call (A_timer_fired VIDEO_WATCHDOG);; video_watchdog_cb).
Proof.
  intros s HJ. apply (wpf_fired F x VIDEO_WATCHDOG); [done|].
  clear s HJ. intros id s Hd. keeps_over Hd. destruct a as [st info].
  destruct (negb (ok st)); [apply wpf_ret, Hd|].
  destruct (negb _); [apply wpf_ret, Hd|].
  destruct (find_sending_video info); [|apply wpf_ret, Hd].
  keeps_over Hd. destruct a as [st' counters]. do 2 keeps_over Hd.
  destruct a0; [|by apply (wpf_rearm VIDEO_WATCHDOG)].
  by apply keeps_give_up, Hd.
Qed.

Lemma keeps_report_fires :
  keeps F J (log_call (A_timer_fired MEDIA_REPORT);; media_report_cb).
Proof.
  intros s HJ. apply (wpf_fired F x MEDIA_REPORT); [done|].
  clear s HJ. intros id s Hd. keeps_over Hd. destruct a as [st info].
  destruct (negb (ok st)); [apply wpf_ret, Hd|].
  destruct (negb _); [apply wpf_ret, Hd|].
  keeps_over Hd. destruct a as [ast a]. keeps_over Hd. destruct a0 as [vst w].
  keeps_over Hd. by apply (wpf_rearm MEDIA_REPORT).
Qed.

(** *** Callbacks *)
Lemma keeps_on_call_state id : keeps F J (pjsocky_call_on_call_state id).
Proof.
  unfold pjsocky_call_on_call_state. keeps_go.
Qed.

Lemma keeps_on_call_media_state id : keeps F J (pjsocky_call_on_call_media_state id).
Proof. unfold pjsocky_call_on_call_media_state. keeps_go. Qed.

Lemma keeps_on_call_media_event id idx err :
  keeps F J (pjsocky_call_on_call_media_event id idx err).
Proof. unfold pjsocky_call_on_call_media_event. keeps_go. Qed.

Lemma keeps_on_incoming_call acc_id id : keeps F J (pjsocky_call_on_incoming_call acc_id id).
Proof.
  unfold pjsocky_call_on_incoming_call, pjsocky_call_get_ring_timeout.
  assert (forall t, keeps F J (
    cancel_ring_timer;;
    set_call (fun c => c <| g_ring_timer := id |>);;
    st ← pjsua_schedule_timer RING_TIMER t;
    if ok st then set_call (fun c => c <| g_ring_timer_scheduled := true |>)
    else PJ_LOG 1 "failed to schedule ring timeout timer" [])) as Hk.
  { intros t s HJ. wp_step. apply wpf_cancel_ring; [done|]. intros s' Hd.
    keeps_over Hd. pose proof (wpf_rearm RING_TIMER t _ Hd) as Hr.
    apply wpf_bind_inv in Hr. wp_step. eapply wpf_mono; [exact Hr|].
    intros st s1 Hw. cbv beta in Hw. destruct (ok st); [exact Hw|].
    apply keeps_log_call; [exact _|done|exact Hw]. }
  apply keeps_bind; [keeps_go|intros _]. apply keeps_bind; [keeps_go|intros [st info]].
  destruct (negb _); [keeps_go|]. apply keeps_bind; [keeps_go|intros timeout].
  apply keeps_bind; [apply keeps_when, Hk|keeps_go].
Qed.
End keeps.
#[export] Hint Resolve keeps_dial keeps_set_ring_timeout keeps_ring_fires keeps_watchdog_fires
  keeps_report_fires keeps_on_call_state keeps_on_call_media_state
  keeps_on_call_media_event keeps_on_incoming_call : keeps_db.

(** ** Properties *)

(** The media setting of a call: no text stream, video only where wanted. *)
Definition media_setting `{!Env} (video : bool) : call_setting :=
  if video then call_setting_default <| txt_cnt := 0 |>
  else call_setting_default <| txt_cnt := 0 |> <| vid_cnt := 0 |>.

(** C33: Dialling: without a registered account [call.dial] is refused with no
    library call and no change; with one, exactly one INVITE is asked for,
    from that account, without a text stream and with video only if asked
    for; afterwards the current call is the new one - or, when pjsua could
    not make the call, no call at all, whatever it was before. *)
Theorem dial_outcome `{!Env} uri video (s : St) :
  (forall h a u o st, ans_call_make_call h a u o = (st, None) -> st <> PJ_SUCCESS) ->
  wp (pjsocky_call_dial uri video) (fun r s' =>
    if (g_acc_id (acc s) =? PJSUA_INVALID_ID) || negb (g_registered (acc s))
    then r = (PJ_EINVALIDOP, None) /\ s' = s
    else
      let '(st, id) := ans_call_make_call (hist s) (g_acc_id (acc s)) uri (media_setting video) in
      hist s' = A_call_make_call (g_acc_id (acc s)) uri (media_setting video) :: hist s /\
      g_call_id (call s') = (if ok st then default PJSUA_INVALID_ID id else PJSUA_INVALID_ID) /\
      r = (st, if ok st then id else None)) s.
Proof.
  intros Hout. unfold pjsocky_call_dial, registered_account, pjsocky_account_get_id,
    pjsocky_account_is_registered.
  wp_step. do 4 wp_step. apply wpf_ret.
  destruct ((_ =? _) || _); [by apply wpf_ret|].
  fold (media_setting video). wp_step. apply wpf_ask.
  replace (if video then call_setting_default <| txt_cnt := 0 |> else _) with (media_setting video)
    by (by destruct video).
  destruct (ans_call_make_call _ _ _ _) as [st id] eqn:Hm. cbn beta iota.
  destruct id as [id|]; (wp_step; first [apply wpf_modify|apply wpf_ret]).
  - destruct (ok st) eqn:Hst; cbn [negb].
    + apply ok_true in Hst as ->. wp_step. apply wpf_gets. by apply wpf_ret.
    + wp_step. apply wpf_modify. by apply wpf_ret.
  - rewrite (proj2 (ok_false st)) by (by eapply Hout). cbn [negb].
    wp_step. apply wpf_modify. by apply wpf_ret.
Qed.

(** The flags of a media event are right: the loop over the call's media
    lines finds audio (video) exactly when some line is active audio
    (video). *)
Theorem active_media_flags_correct media :
  active_media_flags media =
    (existsb (is_active_media PJMEDIA_TYPE_AUDIO) media,
     existsb (is_active_media PJMEDIA_TYPE_VIDEO) media).
Proof.
  unfold active_media_flags.
  match goal with |- foldl ?f _ _ = _ =>
    assert (Hgen : forall a v, foldl f (a, v) media =
      (a || existsb (is_active_media PJMEDIA_TYPE_AUDIO) media,
       v || existsb (is_active_media PJMEDIA_TYPE_VIDEO) media)); [|apply (Hgen false false)]
  end.
  induction media as [|m media IH]; intros a v; simpl; [by rewrite !orb_false_r|].
  unfold is_active_media at 1 3. destruct (bool_decide (media_status_ m = _)); simpl.
  - rewrite !andb_true_r. destruct (media_type_ m) eqn:Ht; rewrite IH; simpl;
      rewrite ?orb_true_r; try done.
  - by rewrite IH, !andb_false_r.
Qed.

(** A ringing call is only rejected while it rings: when the ring timer
    fires, the call it was set for is hung up with 480 if it is still
    INCOMING or EARLY, and otherwise nothing is asked of pjsua beyond the
    state of that call; the flag goes down and nothing else changes. *)
Theorem ring_timer_cb_outcome `{!Env} (s : St) :
  wp ring_timer_cb (fun _ s' =>
    let id := g_ring_timer (call s) in
    let '(st, info) := ans_call_get_info (hist s) id in
    s' = s <| call := call s <| g_ring_timer_scheduled := false |> |>
           <| hist := ((if ok st && is_ringing (call_state info)
                        then [A_call_hangup id 480;
                              A_log 3 "call %d: ring timeout - auto-rejecting" [LogNum id]]
                        else []) ++ A_call_get_info id :: hist s)%list |>) s.
Proof.
  unfold ring_timer_cb. do 2 wp_step. wp_step. apply wpf_modify. wp_step. apply wpf_ask.
  simpl hist. simpl g_ring_timer. destruct (ans_call_get_info _ _) as [st info]. cbn beta iota.
  destruct (ok st); cbn [negb andb]; [|by apply wpf_ret].
  destruct (is_ringing _); cbn [negb]; [|by apply wpf_ret].
  wp_step. apply wpf_log_call. wp_step. apply wpf_ask. by apply wpf_ret.
Qed.

(** Video the far end adds is accepted, one stream of it: an offer is
    answered without text; if it has a live video line and the call had no
    video the answer has exactly one video stream, in every other case the
    number of video streams stays what it was - in particular for the offer
    that withdraws video with port 0. *)
Theorem rx_offer_answer `{!Env, !PjJson} call_id offer opt (s : St) :
  wp (pjsocky_call_on_call_rx_offer call_id (Some offer) (Some opt)) (fun r _ =>
    exists opt', r = Some opt' /\ txt_cnt opt' = 0 /\
      setting_other opt' = setting_other opt /\
      vid_cnt opt' =
        if (vid_cnt opt =? 0)
           && existsb (fun m => (pj_stricmp2 (sdp_media_name m) "video" =? 0)
                                && negb (sdp_port m =? 0)) offer
        then 1 else vid_cnt opt) s.
Proof.
  unfold pjsocky_call_on_call_rx_offer.
  set (live_video := fun m => _ && _).
  assert (Hoff : (0 < offered_video offer)%nat <-> existsb live_video offer = true).
  { unfold offered_video, live_video. clear. induction offer as [|m offer IH]; simpl; [lia|].
    rewrite filter_cons. case_decide as Hm.
    - destruct Hm as [-> Hp]. apply Z.eqb_neq in Hp. rewrite Hp. simpl. split; [done|lia].
    - rewrite IH. destruct (Z.eqb_spec (pj_stricmp2 (sdp_media_name m) "video") 0),
        (Z.eqb_spec (sdp_port m) 0); simpl; try done. tauto. }
  simpl vid_cnt. case_decide as Hd.
  - apply Hoff in Hd. rewrite Hd, andb_true_r. destruct (Z.eqb_spec (vid_cnt opt) 0).
    + wp_step. apply wpf_log_call. apply wpf_ret. by eexists.
    + apply wpf_ret. by eexists.
  - assert (existsb live_video offer = false) as ->.
    { destruct (existsb live_video offer); [|done]. by destruct Hd; apply Hoff. }
    rewrite andb_false_r. apply wpf_ret. by eexists.
Qed.

(** *** Call state reports *)

(** What a callback does whose call pjsua cannot describe. *)
Definition info_failed (id : Z) (st : pj_status) (h : history) : history :=
  A_perror 1 st "pjsua_call_get_info() failed" [] :: A_call_get_info id :: h.

(** What a cancellation does: the timer is cancelled if it is scheduled, the
    flag goes down, nothing is written to any socket. *)
Definition cancelled (t : timer) (s : St) : history :=
  ((if scheduled t (call s) then [A_cancel_timer t] else []) ++ hist s)%list.

Lemma wire_cancelled t s n : wire n (cancelled t s) = wire n (hist s).
Proof. unfold cancelled. destruct (scheduled t (call s)); [apply app_nil_r|done]. Qed.

Lemma wpf_cancelled F (t : timer) (m : C unit) (Q : unit -> St -> Prop) s :
  m = (b ← gets (fun s => scheduled t (call s));
       if negb b then mret tt else pjsua_cancel_timer t;; set_call (set_scheduled t false)) ->
  Q tt (s <| call := set_scheduled t false (call s) |> <| hist := cancelled t s |>) ->
  wpf F m Q s.
Proof.
  intros -> HQ. do 2 wp_step. revert HQ. unfold cancelled.
  destruct (scheduled t (call s)) eqn:Hf; intros HQ; cbn [negb].
  - wp_step. apply wpf_log_call. by apply wpf_modify.
  - apply wpf_ret. by destruct s as [? ? [] ? ? ? ?], t; simpl in *; subst.
Qed.

Section call_state.
Context `{!Env, !EnvLaws, !PjJson}.

(** The forgetting of a disconnected call. *)
Definition forget_call (id : Z) (c : call_st) : call_st :=
  let c := if id =? g_call_id c then c <| g_call_id := PJSUA_INVALID_ID |> else c in
  let c := if id =? g_video_failed_call_id c
           then c <| g_video_failed_call_id := PJSUA_INVALID_ID |> else c in
  c <| g_video_watchdog_scheduled := false |> <| g_media_report_scheduled := false |>.

Definition after_call_state (id : Z) (st : inv_state) (c : call_st) : call_st :=
  let c := if (id =? g_ring_timer c) && negb (is_ringing st)
           then c <| g_ring_timer_scheduled := false |> else c in
  if bool_decide (st = PJSIP_INV_STATE_DISCONNECTED) then forget_call id c else c.

(** The timers a report cancels, latest first: the ring timer of a call that
    no longer rings, and with a call that is over the watchdog and the media
    report; each of them only if it is scheduled. *)
Definition timers_cancelled (id : Z) (st : inv_state) (c : call_st) : history :=
  let off (t : timer) (b : bool) := if scheduled t c && b then [A_cancel_timer t] else [] in
  let over := bool_decide (st = PJSIP_INV_STATE_DISCONNECTED) in
  (off MEDIA_REPORT over ++ off VIDEO_WATCHDOG over ++
   off RING_TIMER ((id =? g_ring_timer c) && negb (is_ringing st)))%list.

(** Before anything is told: the state the report of a call leaves. *)
Definition call_reported (id : Z) (info : call_info) (s : St) : St :=
  s <| call := after_call_state id (call_state info) (call s) |>
    <| hist := (timers_cancelled id (call_state info) (call s)
                ++ A_call_get_info id :: hist s)%list |>.

(** The first thing a report does: the ring timer of a call that no longer
    rings is cancelled. *)
Lemma stop_ringing_spec id st s :
  wp (when (g_ring_timer_scheduled (call s) && (id =? g_ring_timer (call s))
            && negb (is_ringing st)) cancel_ring_timer)
    (fun _ s' =>
       s' = s <| call := if (id =? g_ring_timer (call s)) && negb (is_ringing st)
                         then call s <| g_ring_timer_scheduled := false |> else call s |>
              <| hist := ((if scheduled RING_TIMER (call s)
                              && ((id =? g_ring_timer (call s)) && negb (is_ringing st))
                           then [A_cancel_timer RING_TIMER] else []) ++ hist s)%list |>) s.
Proof.
  rewrite <-andb_assoc. set (ring := (id =? _) && _). apply wpf_when; intros Hb.
  - pose proof Hb as [Hs ->]%andb_true_iff. eapply (wpf_cancelled _ RING_TIMER); [done|].
    unfold cancelled. simpl scheduled. by rewrite Hb, Hs.
  - simpl scheduled. rewrite Hb. destruct ring; [|by destruct s].
    rewrite andb_true_r in Hb. by destruct s as [? ? [] ? ? ? ?]; simpl in *; subst.
Qed.

(** C29: A call state report: if pjsua can describe the call, its ring timer
    is cancelled, if it is scheduled, unless the call still rings; a
    DISCONNECTED call is forgotten as the current one and as the one whose
    video failed, and the watchdog and the media report - those of any call -
    are cancelled where they are scheduled; the flags say so, and no other
    variable and nothing else of the daemon changes.  Then the state is pushed,
    once and exactly as an event is ([push_made]): to a connected client goes
    the line of [call_state] with what pjsua said of the call, or a prefix of
    it with a failing status. *)
Theorem on_call_state_outcome e id (s : St) :
  select_waits -> ready s e ->
  wp (pjsocky_call_on_call_state id) (fun _ s' =>
    let '(st, info) := ans_call_get_info (hist s) id in
    if ok st then exists st' data,
      push_made e "call_state" (build_call_state_data info) (call_reported id info s) s' st' data /\
      (is_Some (ev_framing e) ->
       delivered (event_object "call_state" (Some (build_call_state_data info)) (acc s))
         PJSOCKY_MAX_LINE st' data)
    else s' = s <| hist := info_failed id st (hist s) |>) s.
Proof.
  intros Hclk Hr. unfold pjsocky_call_on_call_state. wp_step. apply wpf_ask.
  destruct (ans_call_get_info (hist s) id) as [st info]. cbn beta iota.
  destruct (ok st); cbn [negb]; [|by apply wpf_log_call].
  do 2 wp_step. wp_step. eapply wpf_mono; [apply stop_ringing_spec|]. intros [] s2 ->.
  assert (Hpush : forall s1, s1 = call_reported id info s ->
    wp (push "call_state" (build_call_state_data info);; mret tt) (fun _ s' => exists st' data,
      push_made e "call_state" (build_call_state_data info) (call_reported id info s) s' st' data /\
      (is_Some (ev_framing e) ->
       delivered (event_object "call_state" (Some (build_call_state_data info)) (acc s))
         PJSOCKY_MAX_LINE st' data)) s1).
  { intros s1 ->. eapply wpf_mono; [by apply (push_after e s)|].
    intros [] s' (st' & data & Hp). exists st', data. split; [done|]. intros [fp Hf].
    apply push_made_writes in Hp as [_ Hd]. by rewrite Hf in Hd. }
  wp_step. unfold when. destruct (bool_decide _) eqn:Hdis; cycle 1.
  { apply wpf_ret, Hpush. unfold call_reported, timers_cancelled, after_call_state.
    by rewrite Hdis, !andb_false_r. }
  wp_step. apply wpf_modify. wp_step. apply wpf_modify.
  wp_step. eapply (wpf_cancelled _ VIDEO_WATCHDOG); [done|].
  eapply (wpf_cancelled _ MEDIA_REPORT); [done|]. apply Hpush.
  unfold cancelled, call_reported, timers_cancelled, after_call_state, forget_call.
  rewrite Hdis, !andb_true_r. destruct s as [? ? [] ? ? ? ?]. simpl.
  repeat (case_match; simpl in *; simplify_eq); try done.
Qed.
End call_state.

(** ** The theorems at work *)
Section witnesses.
Definition ringing_call : call_info :=
  {| call_info_id := 2; call_info_acc_id := 0; call_state := PJSIP_INV_STATE_EARLY;
     last_status := 180; last_status_text := "Ringing"; remote_info := "sip:bob@example.org";
     call_media := []; rem_aud_cnt := 1; rem_vid_cnt := 1; connect_duration_sec := 0 |}.
Definition ringing : script := quiet <| sim_call_info := fun _ => (PJ_SUCCESS, ringing_call) |>.
Lemma ringing_ok : script_ok ringing.
Proof. by destruct quiet_ok; split. Qed.
#[local] Instance ringing_env : Env := env_of ringing.
#[local] Instance ringing_laws : EnvLaws := env_of_laws _ ringing_ok.
#[local] Existing Instance sim_json.

Definition registered : St :=
  connected <| acc := {| g_acc_id := 0; g_registered := true |} |>.

Lemma registered_ready : ready registered connected_events.
Proof. by split; simpl; try lia. Qed.

Lemma dial_outcome_witness :
  wp (pjsocky_call_dial "sip:bob@example.org" false) (fun r s' =>
    hist s' = [A_call_make_call 0 "sip:bob@example.org" (media_setting false)] /\
    g_call_id (call s') = 0 /\ r = (PJ_SUCCESS, Some 0)) registered.
Proof.
  refine (dial_outcome "sip:bob@example.org" false registered _).
  intros h a u o st. simpl. discriminate.
Defined.

(** The ring timer and the watchdog are running when the call is hung up. *)
Definition hung_up_call : call_info :=
  {| call_info_id := 2; call_info_acc_id := 0; call_state := PJSIP_INV_STATE_DISCONNECTED;
     last_status := 487; last_status_text := "Request Terminated";
     remote_info := "sip:bob@example.org"; call_media := []; rem_aud_cnt := 1;
     rem_vid_cnt := 1; connect_duration_sec := 0 |}.
Definition hanging_up : script := quiet <| sim_call_info := fun _ => (PJ_SUCCESS, hung_up_call) |>.
Lemma hanging_up_ok : script_ok hanging_up.
Proof. by destruct quiet_ok; split. Qed.
Definition timed : St :=
  registered <| call := initial_call <| g_call_id := 2 |> <| g_ring_timer := 2 |>
    <| g_ring_timer_scheduled := true |> <| g_video_watchdog_scheduled := true |> |>.

Lemma on_call_state_outcome_witness :
  @wpf St _ False (@pjsocky_call_on_call_state (env_of hanging_up) sim_json 2) (fun _ s' => exists st' data,
    @push_made (env_of hanging_up) sim_json connected_events "call_state" (build_call_state_data hung_up_call)
      (timed <| call := call timed <| g_call_id := PJSUA_INVALID_ID |>
                  <| g_ring_timer_scheduled := false |> <| g_video_watchdog_scheduled := false |> |>
             <| hist := [A_cancel_timer VIDEO_WATCHDOG; A_cancel_timer RING_TIMER; A_call_get_info 2] |>)
      s' st' data /\
    (is_Some (ev_framing connected_events) ->
     delivered (event_object "call_state" (Some (build_call_state_data hung_up_call))
       (acc timed)) PJSOCKY_MAX_LINE st' data)) timed.
Proof.
  refine (@on_call_state_outcome (env_of hanging_up) (env_of_laws _ hanging_up_ok) sim_json
    connected_events 2 timed (sim_select_waits _) _).
  split; simpl; done || lia.
Defined.
End witnesses.
