(* ===== verification/Watchdog.v ===== *)
(** * Incoming calls and giving up on video (src/call.c)

    The daemon drops a call's video when the capture device reports an error
    or when a sending stream puts no packet on the wire.  Both paths go
    through [give_up_on_video]; this file states when they do, against a
    specification in terms of the packet counts read so far.  It also states
    what the arrival of a call does to the current call and the ring timer. *)

From S2P Require Import Prelude Float32 Pjlib Env SimEnv State Framing Compact SimJson Wire JsonUtil Events Invariant Device Account Call.
#[local] Open Scope string_scope.
#[local] Open Scope list_scope.
#[local] Open Scope Z_scope.

(** ** The specification *)

(** The streams the daemon asked pjsua to remove, with their calls, latest
    first; those of call [id]. *)
Fixpoint removed_streams (h : history) : list (Z * Z) :=
  match h with
  | [] => []
  | A_call_set_vid_strm id PJSUA_CALL_VID_STRM_REMOVE p :: h =>
      (id, op_med_idx p) :: removed_streams h
  | _ :: h => removed_streams h
  end.
Definition removals (id : Z) (h : history) : list Z :=
  (filter (fun r => r.1 = id) (removed_streams h)).*2.

Lemma removals_more id idx h' h :
  removed_streams h' = (id, idx) :: removed_streams h ->
  removals id h' = idx :: removals id h.
Proof. unfold removals. intros ->. by rewrite filter_cons_True. Qed.

Lemma removed_streams_cancelled t s :
  removed_streams (cancelled t s) = removed_streams (hist s).
Proof. unfold cancelled. by destruct (scheduled t (call s)). Qed.

(** A stream that has been watched is written off when a reading does not
    exceed the one before; the very first reading only sets the mark. *)
Definition stalled (past : list Z) (reading : Z) : bool :=
  match last past with
  | None => false
  | Some before => reading <=? before
  end.

(** The two counters of call.c are a summary of the readings since the
    watchdog was armed. *)
Record tracks (past : list Z) (c : call_st) : Prop := {
  tracks_seen : g_video_tx_packets_seen c = default 0 (last past);
  tracks_ticks : g_video_stall_ticks c = if decide (past = [0]) then 1 else 0;
  tracks_first : last past = Some 0 -> past = [0];
  tracks_pos : 0 <= default 0 (last past) }.

(** Counting the stalls gives the verdict of the specification. *)
Lemma stall_verdict past c reading :
  tracks past c -> 0 <= reading -> reading <= default 0 (last past) ->
  ((if default 0 (last past) =? 0 then 2 else 1) <=? to_unsigned (g_video_stall_ticks c + 1))
  = stalled past reading.
Proof.
  intros [_ -> Hfirst _] Hr Hle. unfold stalled.
  destruct (last past) as [b|] eqn:Hlast; simpl in *; cycle 1.
  { rewrite decide_False; [done|]. by intros ->. }
  rewrite (proj2 (Z.leb_le reading b)) by done. destruct (Z.eqb_spec b 0) as [->|Hb].
  - by rewrite decide_True by auto.
  - rewrite decide_False; [done|]. intros ->. by injection Hlast as <-.
Qed.

(** Progress, or a first reading, is summarised. *)
Lemma tracks_progress past c reading :
  0 <= default 0 (last past) -> default 0 (last past) < reading ->
  g_video_tx_packets_seen c = reading -> g_video_stall_ticks c = 0 ->
  tracks (past ++ [reading]) c.
Proof.
  intros ? ? Hs Ht. split; rewrite ?last_snoc; simpl; try done; try lia.
  - rewrite decide_False; [done|]. intros Heq. apply (f_equal last) in Heq.
    rewrite last_snoc in Heq. injection Heq as ->. lia.
  - intros [= ->]. lia.
Qed.
Lemma tracks_first_reading past c c' reading :
  tracks past c -> 0 <= reading -> reading <= default 0 (last past) ->
  stalled past reading = false ->
  g_video_tx_packets_seen c' = g_video_tx_packets_seen c ->
  g_video_stall_ticks c' = to_unsigned (g_video_stall_ticks c + 1) ->
  tracks (past ++ [reading]) c'.
Proof.
  intros [Hs Ht _ _] Hr Hle Hst Hs' Ht'. unfold stalled in Hst.
  destruct (last past) as [b|] eqn:Hlast; simpl in *.
  { apply Z.leb_gt in Hst. lia. }
  apply last_None in Hlast as ->. assert (reading = 0) as -> by lia.
  split; simpl; try done; [congruence|]. rewrite Ht', Ht. done.
Qed.

(** The packet counters of the library are unsigned. *)
Definition counters_unsigned `{!Env} : Prop :=
  forall h id i st stat, ans_call_get_stream_stat h id i = (st, stat) -> 0 <= rtcp_tx_pkt stat.

Section spec.
Context `{!Env, !PjJson}.

(** What the watchdog reads from a state on: the transmit count of the
    call's active video stream, 0 where there is none to be had. *)
Definition reading_at (id : Z) (s : St) : Z :=
  match pjsocky_call_get_rtp_counters id PJMEDIA_TYPE_VIDEO s with
  | Ok ((st, Some (tx, _)), _) => if ok st then tx else 0
  | _ => 0
  end.

(** The part of a counter that is a query: it only extends the history,
    by nothing that matters here. *)
Definition is_query (a : action) : bool :=
  match a with
  | A_call_get_info _ | A_call_get_stream_stat _ _ | A_call_get_max_count => true
  | _ => false
  end.
Definition queries : St -> St -> Prop := adds (fun a => is_query a = true).

Lemma queries_more a s s' :
  is_query a = true -> queries (s <| hist := a :: hist s |>) s' -> queries s s'.
Proof.
  intros Ha (l & -> & Hl). exists (l ++ [a]). split; simpl; [by rewrite <-app_assoc|].
  by apply Forall_app; split; [|repeat constructor].
Qed.

Lemma queries_removed s s' :
  queries s s' -> removed_streams (hist s') = removed_streams (hist s).
Proof.
  intros (l & -> & Hl). simpl. induction Hl as [|a l Ha _ IH]; [done|]. by destruct a.
Qed.
Lemma queries_armed s s' t : queries s s' -> armed t (hist s') = armed t (hist s).
Proof.
  intros (l & -> & Hl). simpl. induction Hl as [|a l Ha _ IH]; [done|].
  rewrite <-IH. simpl. by destruct a.
Qed.

(** ** Reading the counters *)

Lemma counters_loop_reads id type i media s :
  counters_unsigned ->
  wp (rtp_counters_loop id type i media) (fun r s' =>
    queries s s' /\ (forall tx rx, r.2 = Some (tx, rx) -> r.1 = PJ_SUCCESS /\ 0 <= tx)) s.
Proof.
  intros Hu. revert i. induction media as [|m media IH]; intros i; simpl.
  { apply wpf_ret. split; [apply adds_refl|done]. }
  destruct (negb _); [apply IH|]. wp_step. apply wpf_ask.
  destruct (ans_call_get_stream_stat _ _ _) as [st stat] eqn:Hs. cbn beta iota.
  destruct (ok st); apply wpf_ret; (split; [by eapply queries_more, adds_refl|]).
  - intros tx rx [= <- <-]. split; [done|]. by eapply Hu.
  - done.
Qed.

Lemma counters_read id s :
  counters_unsigned ->
  wp (pjsocky_call_get_rtp_counters id PJMEDIA_TYPE_VIDEO) (fun r s' =>
    queries s s' /\ 0 <= reading_at id s /\
    forall seen, 0 <= seen ->
      ok r.1 && (seen <? match r.2 with Some (tx, _) => tx | None => 0 end)
      = (seen <? reading_at id s) /\
      (seen < reading_at id s ->
       match r.2 with Some (tx, _) => tx | None => 0 end = reading_at id s)) s.
Proof.
  intros Hu.
  assert (Hrun : wp (pjsocky_call_get_rtp_counters id PJMEDIA_TYPE_VIDEO) (fun r s' =>
    queries s s' /\ forall tx rx, r.2 = Some (tx, rx) -> r.1 = PJ_SUCCESS /\ 0 <= tx) s).
  { unfold pjsocky_call_get_rtp_counters, pjsocky_call_get_info, is_valid_call_id.
    assert (Hret : forall st, wp (mret (st, None : option (Z * Z)))
      (fun r s' => queries s s' /\ forall tx rx, r.2 = Some (tx, rx) ->
                   r.1 = PJ_SUCCESS /\ 0 <= tx) s).
    { intros st. apply wpf_ret. split; [apply adds_refl|done]. }
    do 2 wp_step. destruct (0 <=? id); [|do 2 apply wpf_ret; apply Hret].
    wp_step. apply wpf_ask. apply wpf_ret.
    destruct (negb _).
    { apply wpf_ret, wpf_ret. split; [by eapply queries_more, adds_refl|done]. }
    wp_step. apply wpf_ask. destruct (ans_call_get_info _ _) as [st info]. cbn beta iota.
    apply wpf_ret. destruct (negb _).
    { apply wpf_ret. split; [|done]. apply (queries_more A_call_get_max_count); [done|].
      apply (queries_more (A_call_get_info id)); [done|]. apply adds_refl. }
    eapply wpf_mono; [by apply counters_loop_reads|]. intros r s' [Hq Hr]. split; [|done].
    apply (queries_more A_call_get_max_count); [done|].
    by apply (queries_more (A_call_get_info id)). }
  eapply wpf_mono; [apply wpf_run, Hrun|].
  intros [st o] s' ((Hq & Hr) & Hm). cbn [fst snd] in *. unfold reading_at. rewrite Hm.
  split; [done|]. destruct o as [[tx rx]|].
  - destruct (Hr _ _ eq_refl) as [-> ?]. change (ok PJ_SUCCESS) with true. split; [done|].
    by intros seen.
  - split; [done|]. intros seen ?. destruct (Z.ltb_spec seen 0); [lia|].
    by rewrite andb_false_r.
Qed.
End spec.

Section giving_up.
Context `{!Env, !PjJson}.

(** The number of the stream, as pjsua takes it. *)
Definition stream_number (med_idx : Z) : Z := to_signed 32 med_idx.

(** The end of a call's video: the call is remembered, the watchdog disarmed
    and the removal of one stream asked for. *)
Definition video_ended (id idx : Z) (s s' : St) : Prop :=
  exists ticks h,
    s' = s <| call := call s <| g_video_stall_ticks := ticks |>
                             <| g_video_failed_call_id := id |>
                             <| g_video_watchdog_scheduled := false |> |>
           <| hist := h |> /\
    removed_streams h = (id, idx) :: removed_streams (hist s).

(** The reason is logged, the stream removed; [st] is what pjsua makes of the
    removal. *)
Definition given_up (id idx : Z) (reason_status : pj_status) (reason : string)
    (st : pj_status) (h : history) : history :=
  let line := "call %d: %s - continuing without video" in
  let args := [LogNum id; LogStr reason] in
  (if ok st then []
   else [A_perror 2 st "call %d: could not remove the failed video stream" [LogNum id]]) ++
  [A_call_set_vid_strm id PJSUA_CALL_VID_STRM_REMOVE
     (vid_strm_op_param_default <| op_med_idx := stream_number idx |>);
   if ok reason_status then A_log 2 line args else A_perror 2 reason_status line args] ++ h.

Definition give_up_state (id idx : Z) (reason_status : pj_status) (reason : string)
    (st : pj_status) (s : St) : St :=
  s <| call := call s <| g_video_failed_call_id := id |>
                      <| g_video_watchdog_scheduled := false |> |>
    <| hist := given_up id idx reason_status reason st (cancelled VIDEO_WATCHDOG s) |>.

(** Giving up happens once for a call: the second time nothing happens at
    all. *)
Lemma give_up_spec id idx reason_status reason s :
  wp (give_up_on_video id idx reason_status reason) (fun _ s' => exists st,
    s' = if id =? g_video_failed_call_id (call s) then s
         else give_up_state id idx reason_status reason st s) s.
Proof.
  unfold give_up_on_video. do 2 wp_step.
  destruct (id =? _); [apply wpf_ret; by exists PJ_SUCCESS|].
  wp_step. apply wpf_modify.
  wp_step. eapply (wpf_cancelled _ VIDEO_WATCHDOG); [done|]. wp_step.
  unfold give_up_state, given_up. destruct (ok reason_status); apply wpf_log_call.
  all: wp_step; apply wpf_ask; set (st := ans_call_set_vid_strm _ _ _ _).
  all: apply wpf_when; intros Hst; [apply wpf_log_call|]; exists st.
  all: destruct (ok st); try discriminate Hst; reflexivity.
Qed.

Lemma give_up_ends id idx reason_status reason st s :
  video_ended id (stream_number idx) s (give_up_state id idx reason_status reason st s).
Proof.
  exists (g_video_stall_ticks (call s)); eexists; split; [by destruct s as [? ? []]|].
  simpl. rewrite <-(removed_streams_cancelled VIDEO_WATCHDOG s). unfold given_up.
  by destruct (ok st), (ok reason_status).
Qed.

(** Arming the watchdog again, from a state where it is disarmed. *)
Lemma wpf_rearm_watchdog F (Q : unit -> St -> Prop) s :
  g_video_watchdog_scheduled (call s) = false ->
  (forall st, Q tt (s <| call := call s <| g_video_watchdog_scheduled := ok st |> |>
                      <| hist := A_schedule_timer VIDEO_WATCHDOG {| sec := 3; msec := 0 |} st
                                 :: hist s |>)) ->
  wpf F (st ← pjsua_schedule_timer VIDEO_WATCHDOG (delay_of_msec PJSOCKY_VIDEO_WATCHDOG_MSEC);
         when (ok st) (set_call (fun c => c <| g_video_watchdog_scheduled := true |>))) Q s.
Proof.
  intros Hf HQ. wp_step. apply wpf_ask. set (st := ans_schedule_timer _ _ _).
  specialize (HQ st). apply wpf_when; intros Hst; rewrite Hst in HQ; [by apply wpf_modify|].
  rewrite <-Hf in HQ. by destruct s as [? ? [] ? ? ? ?].
Qed.

(** The watchdog goes on: the counters summarise the readings [past], and the
    timer has been scheduled, if pjlib could. *)
Definition watch_goes_on (past : list Z) (s s' : St) : Prop :=
  exists seen ticks st h,
    s' = s <| call := call s <| g_video_tx_packets_seen := seen |>
                             <| g_video_stall_ticks := ticks |>
                             <| g_video_watchdog_scheduled := ok st |> |>
           <| hist := A_schedule_timer VIDEO_WATCHDOG {| sec := 3; msec := 0 |} st :: h |> /\
    tracks past (call s') /\ removed_streams h = removed_streams (hist s).

Lemma watchdog_cb_spec past s :
  counters_unsigned -> tracks past (call s) ->
  g_video_watchdog (call s) <> g_video_failed_call_id (call s) ->
  wp video_watchdog_cb (fun _ s' =>
    let id := g_video_watchdog (call s) in
    let '(st, info) := ans_call_get_info (hist s) id in
    let s0 := s <| call := call s <| g_video_watchdog_scheduled := false |> |>
                <| hist := A_call_get_info id :: hist s |> in
    match (if ok st && bool_decide (call_state info = PJSIP_INV_STATE_CONFIRMED)
           then find_sending_video info else None) with
    | None => s' = s0
    | Some idx =>
        let reading := reading_at id s0 in 0 <= reading /\
        if stalled past reading then video_ended id (stream_number (Z.of_nat idx)) s s'
        else watch_goes_on (past ++ [reading]) s s'
    end) s.
Proof.
  intros Hu Ht Hid. pose proof Ht as [Hseen _ _ Hpos].
  unfold video_watchdog_cb. do 2 wp_step. wp_step. apply wpf_modify. wp_step. apply wpf_ask.
  simpl hist. simpl g_video_watchdog. set (id := g_video_watchdog (call s)) in *.
  destruct (ans_call_get_info _ _) as [st info]. cbn beta iota zeta.
  destruct (ok st); cbn [negb andb]; [|by apply wpf_ret].
  destruct (bool_decide _); cbn [negb]; [|by apply wpf_ret].
  destruct (find_sending_video info) as [idx|]; [|by apply wpf_ret].
  match goal with |- wpf _ _ _ ?s1 => set (s0 := s1) end.
  wp_step. eapply wpf_mono; [by apply counters_read|].
  intros [st' counters] s1 (Hq & Hr & Hc). cbn [fst snd] in Hc.
  do 2 wp_step. pose proof (queries_removed _ _ Hq) as Hrem.
  destruct Hq as (l & -> & Hl). simpl in Hrem. simpl g_video_tx_packets_seen.
  destruct (Hc (default 0 (last past)) Hpos) as [Hb Htx]. rewrite Hseen, Hb.
  set (reading := reading_at id s0) in *.
  destruct (Z.ltb_spec (default 0 (last past)) reading) as [Hlt|Hle].
  - specialize (Htx Hlt). do 2 wp_step. apply wpf_modify. apply wpf_ret.
    assert (stalled past reading = false) as ->.
    { unfold stalled. destruct (last past); [|done]. by apply Z.leb_gt. }
    apply wpf_rearm_watchdog; [done|]. intros st2. split; [done|].
    do 4 eexists. split_and!; [reflexivity| |exact Hrem]. by apply tracks_progress.
  - do 2 wp_step. apply wpf_modify. wp_step. apply wpf_gets. apply wpf_ret.
    simpl g_video_stall_ticks. rewrite (stall_verdict past (call s) reading) by done.
    destruct (stalled past reading) eqn:Hst.
    + eapply wpf_mono; [apply give_up_spec|]. intros [] s2 [st2 Hs2].
      simpl g_video_failed_call_id in Hs2. rewrite (proj2 (Z.eqb_neq _ _)) in Hs2 by done.
      subst s2. match goal with |- context [give_up_state _ _ _ _ _ ?s2] =>
        destruct (give_up_ends id (Z.of_nat idx) PJ_SUCCESS
          "the video capture device stopped producing frames" st2 s2)
          as (ticks & h & -> & Hh) end. split; [done|].
      exists ticks, h. split; [done|]. etrans; [exact Hh|]. f_equal. exact Hrem.
    + apply wpf_rearm_watchdog; [done|]. intros st2. split; [done|].
      exists (g_video_tx_packets_seen (call s)). do 3 eexists.
      split_and!; [by destruct s as [? ? []]| |exact Hrem]. by eapply tracks_first_reading.
Qed.
End giving_up.

(** *** Arming *)

(** The call is watched if it sends video that has not been given up, given
    whether the timer could be scheduled. *)
Definition watch_call (id : Z) (info : call_info) (watch : pj_status) (c : call_st) : call_st :=
  let c := c <| g_video_watchdog_scheduled := false |> in
  if bool_decide (is_Some (find_sending_video info)) && negb (id =? g_video_failed_call_id c)
  then c <| g_video_tx_packets_seen := 0 |> <| g_video_stall_ticks := 0 |>
         <| g_video_watchdog := id |> <| g_video_watchdog_scheduled := ok watch |>
  else c.

Definition timer_action (a : action) : Prop :=
  match a with A_schedule_timer _ _ _ | A_cancel_timer _ => True | _ => False end.
#[global] Instance timer_action_dec a : Decision (timer_action a).
Proof. destruct a; simpl; apply _. Defined.

(** What arming the watchdog and the report does with the timers, latest
    first: one that is scheduled is cancelled; the watchdog of a call that is
    watched, and the report, are scheduled. *)
Definition watch_timers (id : Z) (info : call_info) (watch : pj_status) (c : call_st) : history :=
  (if bool_decide (is_Some (find_sending_video info)) && negb (id =? g_video_failed_call_id c)
   then [A_schedule_timer VIDEO_WATCHDOG {| sec := 3; msec := 0 |} watch] else []) ++
  (if g_video_watchdog_scheduled c then [A_cancel_timer VIDEO_WATCHDOG] else []).
Definition report_timers (report : pj_status) (c : call_st) : history :=
  A_schedule_timer MEDIA_REPORT {| sec := 5; msec := 0 |} report ::
  (if g_media_report_scheduled c then [A_cancel_timer MEDIA_REPORT] else []).

Lemma watch_timers_only id info watch c : Forall timer_action (watch_timers id info watch c).
Proof.
  unfold watch_timers. apply Forall_app. split; case_match; by repeat constructor.
Qed.
Lemma report_timers_only report c : Forall timer_action (report_timers report c).
Proof. unfold report_timers. case_match; by repeat constructor. Qed.

Lemma report_timers_watch id info watch report c :
  report_timers report (watch_call id info watch c) = report_timers report c.
Proof. unfold report_timers, watch_call. by destruct (bool_decide _ && _). Qed.

Section arming.
Context `{!Env}.

Lemma arm_watchdog_spec id info s :
  wp (arm_video_watchdog id info) (fun _ s' => exists watch,
    s' = s <| call := watch_call id info watch (call s) |>
           <| hist := watch_timers id info watch (call s) ++ hist s |>) s.
Proof.
  unfold watch_call, watch_timers, arm_video_watchdog. wp_step.
  eapply (wpf_cancelled _ VIDEO_WATCHDOG); [done|]. unfold cancelled. simpl scheduled. do 2 wp_step.
  destruct (find_sending_video info) as [idx|]; [|apply wpf_ret; by exists PJ_SUCCESS].
  rewrite bool_decide_true by done. simpl g_video_failed_call_id.
  destruct (id =? _); [apply wpf_ret; by exists PJ_SUCCESS|].
  wp_step. apply wpf_modify. apply wpf_rearm_watchdog; [done|]. intros st. by exists st.
Qed.

Lemma arm_report_spec id s :
  wp (arm_media_report id) (fun _ s' => exists report,
    s' = s <| call := call s <| g_media_report := id |>
                             <| g_media_report_scheduled := ok report |> |>
           <| hist := report_timers report (call s) ++ hist s |>) s.
Proof.
  unfold arm_media_report. wp_step. eapply (wpf_cancelled _ MEDIA_REPORT); [done|].
  unfold cancelled, report_timers. simpl scheduled. wp_step. apply wpf_modify. wp_step. apply wpf_ask. cbv beta.
  set (st := ans_schedule_timer _ _ _).
  apply wpf_when; intros Hst; [apply wpf_modify|]; exists st; by rewrite Hst.
Qed.
End arming.

(** ** Properties *)

(** A camera that keeps failing is switched off once: however many device
    errors pjsua reports for a call, the first one has its reason logged,
    disarms the watchdog, asks for exactly one stream removal - of the stream
    of that report - and marks the call; the others leave no trace at all, and
    neither does the first if the call's video had been given up before. *)
Theorem give_up_once `{!Env, !PjJson} id idx st0 (errors : list (Z * pj_status)) (s : St) :
  wp (mapM (fun e : Z * pj_status => pjsocky_call_on_call_media_event id e.1 (Some e.2))
        ((idx, st0) :: errors)) (fun _ s' =>
    (exists st, s' = if id =? g_video_failed_call_id (call s) then s
                     else give_up_state id idx st0 "video device failed" st s) /\
    removals id (hist s') =
      (if id =? g_video_failed_call_id (call s) then [] else [stream_number idx])
      ++ removals id (hist s)) s.
Proof.
  assert (Hrest : forall errors s, g_video_failed_call_id (call s) = id ->
    wp (mapM (fun e : Z * pj_status => pjsocky_call_on_call_media_event id e.1 (Some e.2)) errors)
      (fun _ s' => s' = s) s).
  { clear. induction errors as [|e errors IH]; intros s Hid; simpl; [by apply wpf_ret|].
    wp_step. eapply wpf_mono; [apply give_up_spec|]. intros [] s1.
    rewrite Hid, Z.eqb_refl. intros [_ ->]. wp_step.
    eapply wpf_mono; [by apply IH|]. intros l s2 ->. by apply wpf_ret. }
  simpl. wp_step. eapply wpf_mono; [apply give_up_spec|]. intros [] s1 [st Hs1].
  wp_step. eapply wpf_mono; [apply Hrest|].
  { subst s1. by destruct (Z.eqb_spec id (g_video_failed_call_id (call s))). }
  intros l s2 ->. apply wpf_ret. split; [by exists st|]. subst s1.
  destruct (Z.eqb_spec id (g_video_failed_call_id (call s))); [done|].
  destruct (give_up_ends id idx st0 "video device failed" st s) as (ticks & h & -> & Hh).
  by apply removals_more.
Qed.

(** C28: The watchdog implements its specification: on a confirmed call that
    sends video it gives up - one removal, of the sending stream, and no
    further timer - exactly when the packet count does not exceed the reading
    before, the first reading after arming excepted; otherwise the counters
    go on summarising the readings and the timer is armed again, if pjlib
    can.  On any other call it stops without a trace. *)
Theorem video_watchdog_refines `{!Env, !PjJson} past (s : St) :
  counters_unsigned -> tracks past (call s) ->
  g_video_watchdog (call s) <> g_video_failed_call_id (call s) ->
  wp video_watchdog_cb (fun _ s' =>
    let id := g_video_watchdog (call s) in
    let '(st, info) := ans_call_get_info (hist s) id in
    let s0 := s <| call := call s <| g_video_watchdog_scheduled := false |> |>
                <| hist := A_call_get_info id :: hist s |> in
    match (if ok st && bool_decide (call_state info = PJSIP_INV_STATE_CONFIRMED)
           then find_sending_video info else None) with
    | None => s' = s0
    | Some idx =>
        let reading := reading_at id s0 in
        if stalled past reading then
          g_video_failed_call_id (call s') = id /\
          g_video_watchdog_scheduled (call s') = false /\
          removals id (hist s') = stream_number (Z.of_nat idx) :: removals id (hist s)
        else
          tracks (past ++ [reading]) (call s') /\
          g_video_failed_call_id (call s') = g_video_failed_call_id (call s) /\
          g_video_watchdog (call s') = id /\
          removals id (hist s') = removals id (hist s) /\
          exists h st', hist s' = A_schedule_timer VIDEO_WATCHDOG
                                    {| sec := 3; msec := 0 |} st' :: h /\
            g_video_watchdog_scheduled (call s') = ok st'
    end) s.
Proof.
  intros Hu Ht Hid. eapply wpf_mono; [by apply (watchdog_cb_spec past)|].
  intros [] s'. cbv beta zeta. destruct (ans_call_get_info _ _) as [st info].
  destruct (if ok st && _ then find_sending_video info else None) as [idx|]; [|done]. intros [_ Hcase].
  destruct (stalled _ _).
  - destruct Hcase as (ticks & h & -> & Hh). split_and!; [done..|]. by apply removals_more.
  - destruct Hcase as (seen & ticks & st' & h & -> & Htr & Hh). split_and!; try done.
    + unfold removals. simpl. by rewrite Hh.
    + by do 2 eexists.
Qed.

(** Before anything is told: the state an incoming call leaves.  With a ring
    timeout set, an earlier call's ring timer is cancelled and the timer is
    scheduled for this call. *)
Definition ring_armed `{!Env} (id : Z) (s : St) : St :=
  let c := call s <| g_call_id := id |> in
  let h := A_call_get_info id :: hist s in
  if 0 <? g_ring_timeout_sec (call s) then
    let delay := {| sec := to_signed LONG_BIT (g_ring_timeout_sec (call s)); msec := 0 |} in
    let h := cancelled RING_TIMER (s <| hist := h |>) in
    let st := ans_schedule_timer h RING_TIMER delay in
    s <| call := c <| g_ring_timer := id |> <| g_ring_timer_scheduled := ok st |> |>
      <| hist := (if ok st then [] else [A_log 1 "failed to schedule ring timeout timer" []])
                 ++ A_schedule_timer RING_TIMER delay st :: h |>
  else s <| call := c |> <| hist := h |>.

(** C31: An incoming call becomes the current call whatever else is going on;
    if pjsua can describe it and a ring timeout is set, the ring timer - any
    earlier call's is cancelled - is scheduled once, for this call and that
    many seconds, and the flag says whether it could be; nothing else changes.
    Then the call is pushed, once and exactly as an event is ([push_made]): to
    a connected client goes the line of [incoming_call] with what pjsua said
    of the call, or a prefix of it with a failing status. *)
Theorem on_incoming_call_outcome `{!Env, !EnvLaws, !PjJson} e acc_id id (s : St) :
  select_waits -> ready s e ->
  wp (pjsocky_call_on_incoming_call acc_id id) (fun _ s' =>
    let '(st, info) := ans_call_get_info (hist s) id in
    if ok st then exists st' data,
      push_made e "incoming_call" (build_incoming_call_data info) (ring_armed id s) s' st' data /\
      (is_Some (ev_framing e) ->
       delivered (event_object "incoming_call" (Some (build_incoming_call_data info)) (acc s))
         PJSOCKY_MAX_LINE st' data)
    else s' = s <| call := call s <| g_call_id := id |> |> <| hist := info_failed id st (hist s) |>) s.
Proof.
  intros Hclk Hr. unfold pjsocky_call_on_incoming_call, pjsocky_call_get_ring_timeout.
  wp_step. apply wpf_modify. wp_step. apply wpf_ask. simpl hist.
  destruct (ans_call_get_info (hist s) id) as [st info]. cbn beta iota zeta.
  destruct (ok st); cbn [negb]; [|by apply wpf_log_call]. do 2 wp_step.
  assert (Hpush : forall s1, s1 = ring_armed id s ->
    wp (push "incoming_call" (build_incoming_call_data info);; mret tt) (fun _ s' => exists st' data,
      push_made e "incoming_call" (build_incoming_call_data info) (ring_armed id s) s' st' data /\
      (is_Some (ev_framing e) ->
       delivered (event_object "incoming_call" (Some (build_incoming_call_data info)) (acc s))
         PJSOCKY_MAX_LINE st' data)) s1).
  { intros s1 ->. assert (acc (ring_armed id s) = acc s /\ conn (ring_armed id s) = conn s /\
      g_instance (ring_armed id s) = g_instance s) as (Ha & Hc & Hi)
      by (unfold ring_armed; by case_match).
    eapply wpf_mono; [by apply (push_after e s)|].
    intros [] s' (st' & data & Hp). exists st', data. split; [done|]. intros [fp Hf].
    apply push_made_writes in Hp as [_ Hd]. by rewrite Hf, Ha in Hd. }
  wp_step. simpl g_ring_timeout_sec.
  apply wpf_when; intros Hpos; [|apply Hpush; unfold ring_armed; by rewrite Hpos].
  wp_step. eapply (wpf_cancelled _ RING_TIMER); [done|]. wp_step. apply wpf_modify.
  wp_step. apply wpf_ask. cbv beta. set (st1 := ans_schedule_timer _ _ _).
  destruct (ok st1) eqn:Hst; [apply wpf_modify|apply wpf_log_call]; apply Hpush;
    unfold ring_armed; rewrite Hpos; cbv zeta; (change (ans_schedule_timer _ _ _) with st1; rewrite Hst; reflexivity).
Qed.

(** ** The theorems at work: a confirmed video call whose camera has died *)
Section witnesses.
Definition video_line : call_media_info :=
  {| media_type_ := PJMEDIA_TYPE_VIDEO; media_status_ := PJSUA_CALL_MEDIA_ACTIVE;
     media_dir := PJMEDIA_DIR_ENCODING_DECODING; media_conf_slot := -1 |}.
Definition video_call : call_info :=
  {| call_info_id := 2; call_info_acc_id := 0; call_state := PJSIP_INV_STATE_CONFIRMED;
     last_status := 200; last_status_text := "OK"; remote_info := "sip:bob@example.org";
     call_media := [video_line]; rem_aud_cnt := 0; rem_vid_cnt := 1;
     connect_duration_sec := 9 |}.
Definition dead_camera : script :=
  quiet <| sim_call_info := fun _ => (PJ_SUCCESS, video_call) |>
        <| sim_stream_stat := fun _ _ => (PJ_SUCCESS, {| rtcp_tx_pkt := 5; rtcp_rx_pkt := 90 |}) |>.
Lemma dead_camera_ok : script_ok dead_camera.
Proof. by destruct quiet_ok; split. Qed.
#[local] Instance dead_camera_env : Env := env_of dead_camera.
#[local] Instance dead_camera_laws : EnvLaws := env_of_laws _ dead_camera_ok.
#[local] Existing Instance sim_json.

(** Five packets were seen at the last reading. *)
Definition watching : St :=
  connected <| call := initial_call <| g_video_watchdog := 2 |>
    <| g_video_watchdog_scheduled := true |> <| g_video_tx_packets_seen := 5 |>
    <| g_ring_timeout_sec := 30 |> |>.

Lemma watching_tracks : tracks [5] (call watching).
Proof. split; try reflexivity; done. Qed.
Lemma dead_camera_counters : counters_unsigned.
Proof. intros h id i st stat [= <- <-]. done. Qed.
Lemma watching_ready : ready watching connected_events.
Proof. by split; simpl; try lia. Qed.

Lemma video_watchdog_refines_witness :
  wp video_watchdog_cb (fun _ s' =>
    g_video_failed_call_id (call s') = 2 /\ g_video_watchdog_scheduled (call s') = false /\
    removals 2 (hist s') = [stream_number 0]) watching.
Proof.
  refine (video_watchdog_refines [5] watching dead_camera_counters watching_tracks _).
  vm_compute. discriminate.
Defined.

(** The first reading of a stream that has not started only sets the mark. *)
Example first_reading :
  exists s', video_watchdog_cb (watching <| call := call watching
               <| g_video_tx_packets_seen := 0 |> |>) = Ok (tt, s') /\
    removals 2 (hist s') = [] /\ tracks [5] (call s').
Proof. eexists. split; [vm_compute; reflexivity|]. split; [done|]. by split. Qed.

Lemma on_incoming_call_outcome_witness :
  wp (pjsocky_call_on_incoming_call 0 2) (fun _ s' => exists st' data,
    push_made connected_events "incoming_call" (build_incoming_call_data video_call)
      (watching <| call := call watching <| g_call_id := 2 |> <| g_ring_timer := 2 |>
                             <| g_ring_timer_scheduled := true |> |>
                <| hist := [A_schedule_timer RING_TIMER {| sec := 30; msec := 0 |} PJ_SUCCESS;
                            A_call_get_info 2] |>) s' st' data /\
    (is_Some (ev_framing connected_events) ->
     delivered (event_object "incoming_call" (Some (build_incoming_call_data video_call))
       (acc watching)) PJSOCKY_MAX_LINE st' data)) watching.
Proof.
  exact (on_incoming_call_outcome connected_events 0 2 watching
           (sim_select_waits _) watching_ready).
Defined.
End witnesses.
