(* ===== verification/Dispatch.v ===== *)
(** * Request dispatch (src/proto/dispatch.c)

    One request line in, one response object out: the command table, the
    parameter checks and the handlers. *)

From S2P Require Import Prelude Float32 Pjlib Env State Framing Compact Wire JsonUtil Events Invariant Device Account Im Call.
#[local] Open Scope string_scope.
#[local] Open Scope Z_scope.

Section dispatch.
Context `{!Env, !PjJson}.

(** *** Parameters.  [None] is [PJ_EINVAL]. *)

Definition get_string_member (params : option jelem) (name : string) : option string :=
  match pjsocky_json_find params name with
  | Some (Elem _ (PJ_JSON_VAL_STRING str)) => Some str
  | _ => None
  end.

Definition get_bool_member (params : option jelem) (name : string) : option bool :=
  match pjsocky_json_find params name with
  | Some (Elem _ (PJ_JSON_VAL_BOOL b)) => Some b
  | _ => None
  end.

(** The conversion of the [float] to [int] is undefined out of range. *)
Definition get_int_member (params : option jelem) (name : string) : C (option Z) :=
  match pjsocky_json_find params name with
  | Some (Elem _ (PJ_JSON_VAL_NUMBER num)) => z ← check (int_of_float num); mret (Some z)
  | _ => mret None
  end.

(** *** Handlers: [pool] is implicit, the result carries [*result]. *)
Abbreviation cmd_fn := (option jelem -> jelem -> C (pj_status * jelem)).

Definition cmd_ping : cmd_fn := fun params result => mret (PJ_SUCCESS, result).

Definition cmd_status_get : cmd_fn := fun params result =>
  acc_id ← pjsocky_account_get_id;
  call_id ← pjsocky_call_get_id;
  '(status, result) ← (
    if acc_id =? PJSUA_INVALID_ID then
      let result := pjsocky_json_add_string result "state" "idle" in
      let result := pjsocky_json_add_number result "acc_id" (float_of_int (-1)) in
      mret (PJ_SUCCESS, pjsocky_json_add_number result "reg_status" (float_of_int 0))
    else
      '(status, info) ← pjsua_acc_get_info acc_id;
      if negb (ok status) then mret (status, result) else
      registered ← pjsocky_account_is_registered;
      let result := pjsocky_json_add_string result "state"
        (if negb (call_id =? PJSUA_INVALID_ID) then "in_call"
         else if (registered : bool) then "registered" else "registering") in
      let result := pjsocky_json_add_number result "acc_id" (float_of_int acc_id) in
      mret (PJ_SUCCESS, pjsocky_json_add_number result "reg_status"
                          (float_of_int (acc_info_status info))));
  if negb (ok status) then mret (status, result) else
  mret (PJ_SUCCESS, pjsocky_json_add_number result "call_id" (float_of_int call_id)).

Definition cmd_account_configure : cmd_fn := fun params result =>
  match get_string_member params "sip_uri", get_string_member params "registrar_uri",
        get_string_member params "username", get_string_member params "password" with
  | Some sip_uri, Some registrar_uri, Some username, Some password =>
      let realm := default "*" (get_string_member params "realm") in
      '(status, acc_id) ←
        pjsocky_account_configure sip_uri registrar_uri username password realm;
      match acc_id with
      | Some acc_id =>
          if negb (ok status) then mret (status, result) else
          mret (PJ_SUCCESS,
                pjsocky_json_add_number result "acc_id" (float_of_int acc_id))
      | None => mret (status, result)
      end
  | _, _, _, _ => mret (PJ_EINVAL, result)
  end.

(** Handlers that only return a status. *)
Definition status_only (m : C pj_status) (result : jelem) : C (pj_status * jelem) :=
  status ← m; mret (status, result).

Definition cmd_account_register : cmd_fn := fun params =>
  status_only pjsocky_account_register.
Definition cmd_account_unregister : cmd_fn := fun params =>
  status_only pjsocky_account_unregister.
Definition cmd_account_remove : cmd_fn := fun params =>
  status_only pjsocky_account_remove.

Definition vid_dir_str (dir : Z) : string :=
  if dir =? PJMEDIA_DIR_CAPTURE then "capture"
  else if dir =? PJMEDIA_DIR_RENDER then "render"
  else if dir =? PJMEDIA_DIR_CAPTURE_PLAYBACK then "capture_render"
  else "none".

(** The loop both listings share: one object per device, in order. *)
Definition add_devices {D} (describe : jelem -> D -> jelem) (devices : list D)
    (result : jelem) : jelem :=
  let devices_el := foldl (fun arr d => pj_json_elem_add arr (describe (pj_json_elem_obj "") d))
                          (pj_json_elem_array "devices") devices in
  pj_json_elem_add result devices_el.

Definition describe_audio (dev : jelem) (d : aud_dev_info) : jelem :=
  let dev := pjsocky_json_add_number dev "id" (float_of_int (aud_id d)) in
  let dev := pjsocky_json_add_string dev "name" (aud_name d) in
  let dev := pjsocky_json_add_number dev "input_channels" (float_of_int (input_count d)) in
  pjsocky_json_add_number dev "output_channels" (float_of_int (output_count d)).

Definition describe_video (dev : jelem) (d : vid_dev_info) : jelem :=
  let dev := pjsocky_json_add_number dev "id" (float_of_int (vid_id d)) in
  let dev := pjsocky_json_add_string dev "name" (vid_name d) in
  let dev := pjsocky_json_add_string dev "driver" (vid_driver d) in
  pjsocky_json_add_string dev "dir" (vid_dir_str (vid_dir d)).

Definition cmd_device_list_audio : cmd_fn := fun params result =>
  '(status, devices) ← pjsocky_device_list_audio PJSOCKY_MAX_DEVICES;
  if negb (ok status) then mret (status, result)
  else mret (PJ_SUCCESS, add_devices describe_audio devices result).

Definition cmd_device_list_video : cmd_fn := fun params result =>
  '(status, devices) ← pjsocky_device_list_video PJSOCKY_MAX_DEVICES;
  if negb (ok status) then mret (status, result)
  else mret (PJ_SUCCESS, add_devices describe_video devices result).

Definition cmd_device_set_audio : cmd_fn := fun params result =>
  c ← get_int_member params "capture_id";
  match c with
  | None => mret (PJ_EINVAL, result)
  | Some capture_id =>
      p ← get_int_member params "playback_id";
      match p with
      | None => mret (PJ_EINVAL, result)
      | Some playback_id =>
          status_only (pjsocky_device_set_audio capture_id playback_id) result
      end
  end.

Definition cmd_device_set_video : cmd_fn := fun params result =>
  c ← get_int_member params "capture_id";
  match c with
  | None => mret (PJ_EINVAL, result)
  | Some capture_id => status_only (pjsocky_device_set_video_capture capture_id) result
  end.

Definition cmd_call_dial : cmd_fn := fun params result =>
  match get_string_member params "uri" with
  | None => mret (PJ_EINVAL, result)
  | Some uri =>
      let video := default false (get_bool_member params "video") in
      '(status, call_id) ← pjsocky_call_dial uri video;
      match call_id with
      | Some call_id =>
          if negb (ok status) then mret (status, result) else
          mret (PJ_SUCCESS,
                pjsocky_json_add_number result "call_id" (float_of_int call_id))
      | None => mret (status, result)
      end
  end.

Definition cmd_call_hangup : cmd_fn := fun params result =>
  c ← get_int_member params "call_id";
  match c with
  | None => mret (PJ_EINVAL, result)
  | Some call_id =>
      code ← get_int_member params "code";
      status_only (pjsocky_call_hangup call_id (to_unsigned (default 486 code))) result
  end.

Definition cmd_call_hangup_all : cmd_fn := fun params =>
  status_only pjsocky_call_hangup_all.

Definition add_rtp_counters (call_id : Z) (type : media_type) (tx_key rx_key : string)
    (result : jelem) : C jelem :=
  '(status, counters) ← pjsocky_call_get_rtp_counters call_id type;
  match counters with
  | Some (tx, rx) =>
      if negb (ok status) then mret result else
      let result := pjsocky_json_add_number result tx_key (float_of_int tx) in
      mret (pjsocky_json_add_number result rx_key (float_of_int rx))
  | None => mret result
  end.

Definition cmd_call_get_info : cmd_fn := fun params result =>
  c ← get_int_member params "call_id";
  match c with
  | None => mret (PJ_EINVAL, result)
  | Some call_id =>
      '(status, info) ← pjsocky_call_get_info call_id;
      match info with
      | None => mret (status, result)
      | Some info =>
          if negb (ok status) then mret (status, result) else
          let '(has_audio, has_video) := active_media_flags (call_media info) in
          let result := pjsocky_json_add_number result "call_id"
                          (float_of_int (call_info_id info)) in
          let result := pjsocky_json_add_string result "state"
                          (pjsocky_call_state_str (call_state info)) in
          let result := pjsocky_json_add_number result "last_status"
                          (float_of_int (last_status info)) in
          let result := pjsocky_json_add_str result "last_status_text"
                          (last_status_text info) in
          let result := pjsocky_json_add_str result "remote_info" (remote_info info) in
          let result := pjsocky_json_add_bool result "has_audio" has_audio in
          let result := pjsocky_json_add_bool result "has_video" has_video in
          let result := pjsocky_json_add_number result "connect_duration_sec"
                          (float_of_int (connect_duration_sec info)) in
          result ← add_rtp_counters call_id PJMEDIA_TYPE_AUDIO
                     "audio_tx_packets" "audio_rx_packets" result;
          result ← add_rtp_counters call_id PJMEDIA_TYPE_VIDEO
                     "video_tx_packets" "video_rx_packets" result;
          mret (PJ_SUCCESS, result)
      end
  end.

Definition cmd_call_answer : cmd_fn := fun params result =>
  c ← get_int_member params "call_id";
  match c with
  | None => mret (PJ_EINVAL, result)
  | Some call_id =>
      code ← get_int_member params "code";
      let code := to_unsigned (default 200 code) in
      match get_bool_member params "video" with
      | Some video => status_only (pjsocky_call_answer call_id code video) result
      | None =>
          '(status, offered) ← pjsocky_call_remote_offered_video call_id;
          match offered with
          | Some video =>
              if negb (ok status) then mret (status, result)
              else status_only (pjsocky_call_answer call_id code video) result
          | None => mret (status, result)
          end
      end
  end.

Definition cmd_config_set_ring_timeout : cmd_fn := fun params result =>
  c ← get_int_member params "seconds";
  match c with
  | None => mret (PJ_EINVAL, result)
  | Some seconds =>
      if seconds <? 0 then mret (PJ_EINVAL, result) else
      pjsocky_call_set_ring_timeout (to_unsigned seconds);;
      mret (PJ_SUCCESS, result)
  end.

Definition cmd_config_get_ring_timeout : cmd_fn := fun params result =>
  seconds ← pjsocky_call_get_ring_timeout;
  mret (PJ_SUCCESS, pjsocky_json_add_number result "seconds" (float_of_int seconds)).

Definition cmd_im_send : cmd_fn := fun params result =>
  match get_string_member params "to", get_string_member params "content" with
  | Some to, Some content =>
      let mime_type := default "text/plain" (get_string_member params "mime_type") in
      status_only (pjsocky_im_send to content mime_type) result
  | _, _ => mret (PJ_EINVAL, result)
  end.

Definition cmd_im_typing : cmd_fn := fun params result =>
  match get_string_member params "to", get_bool_member params "is_typing" with
  | Some to, Some is_typing => status_only (pjsocky_im_typing to is_typing) result
  | _, _ => mret (PJ_EINVAL, result)
  end.

Definition cmd_version_get : cmd_fn := fun params result =>
  mret (PJ_SUCCESS, pjsocky_version_fill result).

(** *** The command table *)
Definition CMD_TABLE : list (string * cmd_fn) :=
  [ ("ping", cmd_ping);
    ("version.get", cmd_version_get);
    ("status.get", cmd_status_get);
    ("account.configure", cmd_account_configure);
    ("account.register", cmd_account_register);
    ("account.unregister", cmd_account_unregister);
    ("account.remove", cmd_account_remove);
    ("device.list_audio", cmd_device_list_audio);
    ("device.list_video", cmd_device_list_video);
    ("device.set_audio", cmd_device_set_audio);
    ("device.set_video", cmd_device_set_video);
    ("call.dial", cmd_call_dial);
    ("call.hangup", cmd_call_hangup);
    ("call.hangup_all", cmd_call_hangup_all);
    ("call.get_info", cmd_call_get_info);
    ("call.answer", cmd_call_answer);
    ("config.set_ring_timeout", cmd_config_set_ring_timeout);
    ("config.get_ring_timeout", cmd_config_get_ring_timeout);
    ("im.send", cmd_im_send);
    ("im.typing", cmd_im_typing) ].

Fixpoint find_in_table (table : list (string * cmd_fn)) (name : string) : option cmd_fn :=
  match table with
  | [] => None
  | (entry, fn) :: rest =>
      if pj_strcmp2 name entry =? 0 then Some fn else find_in_table rest name
  end.
Definition find_cmd (name : string) : option cmd_fn := find_in_table CMD_TABLE name.

(** *** Responses *)

Definition fail (id_val code message : string) : jelem :=
  let response := pj_json_elem_obj "" in
  let response := pj_json_elem_add response (pj_json_elem_string "id" id_val) in
  let response := pjsocky_json_add_bool response "ok" false in
  let error := pj_json_elem_obj "error" in
  let error := pjsocky_json_add_string error "code" code in
  let error := pjsocky_json_add_string error "message" message in
  pj_json_elem_add response error.

Definition error_code_for (status : pj_status) : string :=
  match status with
  | PJ_EEXISTS | PJ_EINVALIDOP => "invalid_state"
  | PJ_EINVAL => "invalid_params"
  | _ => "pjsua_error"
  end.

Definition respond_ok (id_val : string) (result : jelem) : jelem :=
  let response := pj_json_elem_obj "" in
  let response := pj_json_elem_add response (pj_json_elem_string "id" id_val) in
  let response := pjsocky_json_add_bool response "ok" true in
  pj_json_elem_add response result.

Definition missing_cmd_message : string :=
  "missing or invalid " ++ String QUOTE ("cmd" ++ String QUOTE "").

(** The second component is [*response]. *)
Definition pjsocky_dispatch_line (line : bytes) : C (pj_status * option jelem) :=
  let request := pj_json_parse line in
  match request with
  | Some (Elem _ (PJ_JSON_VAL_OBJ _)) =>
      match pjsocky_json_find request "id" with
      | Some (Elem _ (PJ_JSON_VAL_STRING id)) =>
          match pjsocky_json_find request "cmd" with
          | Some (Elem _ (PJ_JSON_VAL_STRING cmd)) =>
              match find_cmd cmd with
              | None => mret (PJ_SUCCESS, Some (fail id "unknown_command" "no such command"))
              | Some fn =>
                  let params_el := pjsocky_json_find request "params" in
                  '(fn_status, result) ← fn params_el (pj_json_elem_obj "result");
                  if negb (ok fn_status)
                  then mret (PJ_SUCCESS,
                             Some (fail id (error_code_for fn_status) (pj_strerror fn_status)))
                  else mret (PJ_SUCCESS, Some (respond_ok id result))
              end
          | _ => mret (PJ_SUCCESS, Some (fail id "bad_request" missing_cmd_message))
          end
      | _ => mret (PJ_EINVAL, None)
      end
  | _ => mret (PJ_EINVAL, None)
  end.
End dispatch.

(** ** The invariant is kept *)

(** The numbers among the parameters fit an [int] - with [F] false; with [F]
    true, nothing is asked. *)
Definition params_ok `{!PjJson} (F : Prop) (params : option jelem) : Prop :=
  F \/ forall name n f,
    pjsocky_json_find params name = Some (Elem n (PJ_JSON_VAL_NUMBER f)) ->
    is_Some (int_of_float f).
Definition line_ok `{!PjJson} (F : Prop) (line : bytes) : Prop :=
  params_ok F (pjsocky_json_find (pj_json_parse line) "params").

Section keeps.
Context `{!Env, !EnvLaws, !PjJson} (F : Prop) (x : ctx).
Context (Hs : serviceable F x).
Abbreviation J := (daemon_ok x).

Lemma keeps_get_int params name :
  params_ok F params -> keeps F J (get_int_member params name).
Proof.
  intros Hp. unfold get_int_member.
  destruct (pjsocky_json_find params name) as [[n [| |f| | |]]|] eqn:Hf;
    try apply keeps_ret.
  apply keeps_bind; [|keeps_go]. destruct (int_of_float f) eqn:Hi; [apply keeps_ret|].
  intros s _. destruct Hp as [HF|Hp]; [exact HF|].
  destruct (Hp _ _ _ Hf) as [z Hz]. congruence.
Qed.
#[local] Hint Resolve keeps_get_int : keeps_db.

Lemma keeps_status_only m result : keeps F J m -> keeps F J (status_only m result).
Proof. intros Hm. unfold status_only. keeps_go. Qed.
#[local] Hint Resolve keeps_status_only : keeps_db.

Lemma keeps_add_rtp id type tx rx result :
  keeps F J (add_rtp_counters id type tx rx result).
Proof. unfold add_rtp_counters. keeps_go. Qed.
#[local] Hint Resolve keeps_add_rtp : keeps_db.

Definition handler_ok (fn : option jelem -> jelem -> C (pj_status * jelem)) : Prop :=
  forall params result, params_ok F params -> keeps F J (fn params result).

Lemma keeps_cmd_status_get : handler_ok cmd_status_get.
Proof.
  intros params result _. unfold cmd_status_get, pjsocky_account_get_id,
    pjsocky_account_is_registered, pjsocky_call_get_id. keeps_go.
Qed.
Lemma keeps_cmd_account_configure : handler_ok cmd_account_configure.
Proof. intros params result _. unfold cmd_account_configure. keeps_go. Qed.
Lemma keeps_cmd_call_get_info : handler_ok cmd_call_get_info.
Proof. intros params result Hp. unfold cmd_call_get_info. keeps_go. Qed.
Lemma keeps_cmd_call_answer : handler_ok cmd_call_answer.
Proof. intros params result Hp. unfold cmd_call_answer. keeps_go. Qed.

Lemma keeps_table : Forall (fun entry => handler_ok entry.2) CMD_TABLE.
Proof.
  unfold CMD_TABLE. repeat apply Forall_cons_2; [..|by apply Forall_nil_2]; cbn [snd].
  all: first [apply keeps_cmd_status_get | apply keeps_cmd_account_configure
    | apply keeps_cmd_call_get_info | apply keeps_cmd_call_answer | idtac].
  all: intros params result Hp.
  all: unfold cmd_ping, cmd_version_get, cmd_account_register, cmd_account_unregister,
    cmd_account_remove, cmd_device_list_audio, cmd_device_list_video,
    cmd_device_set_audio, cmd_device_set_video, cmd_call_dial, cmd_call_hangup,
    cmd_call_hangup_all, cmd_config_set_ring_timeout, cmd_config_get_ring_timeout,
    cmd_im_send, cmd_im_typing, pjsocky_call_get_ring_timeout; keeps_go.
Qed.

Lemma find_in_table_In table name fn :
  find_in_table table name = Some fn -> exists entry, (entry, fn) ∈ table.
Proof.
  induction table as [|[entry g] table IH]; simpl; [done|]. destruct (_ =? 0).
  - intros [= ->]. exists entry. left.
  - intros (entry' & Hin)%IH. exists entry'. by right.
Qed.

Lemma find_cmd_handler_ok name fn : find_cmd name = Some fn -> handler_ok fn.
Proof.
  intros (entry & Hin)%find_in_table_In.
  exact (proj1 (Forall_forall _ _) keeps_table (entry, fn) Hin).
Qed.

Lemma keeps_dispatch line : line_ok F line -> keeps F J (pjsocky_dispatch_line line).
Proof.
  intros Hl. unfold pjsocky_dispatch_line. cbv zeta.
  destruct (pj_json_parse line) as [[n [| | | | |cs]]|] eqn:Hp; try apply keeps_ret.
  destruct (pjsocky_json_find _ "id") as [[? [| | |id| |]]|]; try apply keeps_ret.
  destruct (pjsocky_json_find _ "cmd") as [[? [| | |cmd| |]]|]; try apply keeps_ret.
  destruct (find_cmd cmd) as [fn|] eqn:Hfn; [|apply keeps_ret].
  apply keeps_bind; [|intros [st result]; keeps_go].
  apply (find_cmd_handler_ok cmd); [done|]. unfold line_ok in Hl. by rewrite Hp in Hl.
Qed.
End keeps.
#[export] Hint Resolve keeps_dispatch : keeps_db.
