(* ===== verification/Requests.v ===== *)
(** * What requests do (src/proto/dispatch.c)

    The contract of [pjsocky_dispatch_line], stated without reference to its
    code: which lines are answered, with what response, by which handler; and
    what the handlers of the call and configuration commands do. *)

From S2P Require Import Prelude Float32 Pjlib Env SimEnv State Framing Compact SimJson Wire JsonUtil Events Invariant Device Account Im Call Dispatch.
#[local] Open Scope string_scope.
#[local] Open Scope list_scope.
#[local] Open Scope Z_scope.

(** ** The specification *)

(** The value of the first member of a JSON object with the given name. *)
Definition member (e : option jelem) (name : string) : option jvalue :=
  match e with
  | Some (Elem _ (PJ_JSON_VAL_OBJ cs)) =>
      '(_, it) ← list_find (fun it => el_name it = name) cs; Some (el_value it)
  | _ => None
  end.
Definition string_member (e : option jelem) (name : string) : option string :=
  match member e name with
  | Some (PJ_JSON_VAL_STRING v) => Some v
  | _ => None
  end.

(** The two forms of a response. *)
Definition ok_response (id : string) (result : list jelem) : jelem :=
  Elem "" (PJ_JSON_VAL_OBJ
    [Elem "id" (PJ_JSON_VAL_STRING id); Elem "ok" (PJ_JSON_VAL_BOOL true);
     Elem "result" (PJ_JSON_VAL_OBJ result)]).
Definition error_response (id code message : string) : jelem :=
  Elem "" (PJ_JSON_VAL_OBJ
    [Elem "id" (PJ_JSON_VAL_STRING id); Elem "ok" (PJ_JSON_VAL_BOOL false);
     Elem "error" (PJ_JSON_VAL_OBJ
       [Elem "code" (PJ_JSON_VAL_STRING code); Elem "message" (PJ_JSON_VAL_STRING message)])]).

Definition error_codes : list string :=
  ["bad_request"; "unknown_command"; "invalid_state"; "invalid_params"; "pjsua_error"].

Definition well_formed_response (id : string) (response : jelem) : Prop :=
  (exists result, response = ok_response id result) \/
  (exists code message, code ∈ error_codes /\ response = error_response id code message).

(** ** The command table as a map *)
Section table.
Context `{!Env, !PjJson, !PjJsonLaws}.

Lemma find_in_table_spec table name fn :
  NoDup (fst <$> table) -> find_in_table table name = Some fn <-> (name, fn) ∈ table.
Proof.
  induction table as [|[entry g] table IH]; simpl; intros Hnd.
  { split; [done|]. by intros ?%not_elem_of_nil. }
  apply NoDup_cons in Hnd as [Hni Hnd]. rewrite elem_of_cons.
  destruct (Z.eqb_spec (pj_strcmp2 name entry) 0) as [Heq|Hne]; rewrite strcmp2_spec in *.
  - subst. split; [by intros [= <-]; left|]. intros [[= <-]|Hin]; [done|].
    destruct Hni. by apply (list_elem_of_fmap_2 fst table (entry, fn)).
  - rewrite IH by done. split; [by right|]. intros [[= <- _]|?]; done.
Qed.

Lemma find_in_table_None table name :
  find_in_table table name = None <-> name ∉ (fst <$> table).
Proof.
  induction table as [|[entry g] table IH]; simpl.
  { split; [intros _; apply not_elem_of_nil|done]. }
  rewrite not_elem_of_cons.
  destruct (Z.eqb_spec (pj_strcmp2 name entry) 0) as [Heq|Hne]; rewrite strcmp2_spec in *;
    [|rewrite IH]; naive_solver.
Qed.

Lemma table_names_distinct : NoDup (fst <$> CMD_TABLE).
Proof. apply (bool_decide_unpack _). vm_compute. exact I. Qed.

(** The loop over members finds the first one of the name. *)
Lemma json_find_member e name :
  match pjsocky_json_find e name with Some it => Some (el_value it) | None => None end
  = member e name.
Proof.
  destruct e as [[n [| | | | |cs]]|]; try done. simpl.
  induction cs as [|it cs IH]; [done|]. simpl.
  destruct (Z.eqb_spec (pj_strcmp2 (el_name it) name) 0) as [Heq|Hne];
    rewrite strcmp2_spec in *; case_decide; try done.
  rewrite IH. by destruct (list_find _ cs) as [[] |].
Qed.

Lemma get_string_member_spec e name : get_string_member e name = string_member e name.
Proof.
  unfold get_string_member, string_member. rewrite <-json_find_member.
  by destruct (pjsocky_json_find e name) as [[n []]|].
Qed.
End table.

(** ** The shape of results *)
Section results.
Context `{!Env, !PjJson, !PjJsonLaws}.

(** Whatever a program returns satisfies [Q]. *)
Definition results {A} (Q : A -> Prop) (m : C A) : Prop := forall s, wlp m (fun a _ => Q a) s.

Lemma results_ret {A} (Q : A -> Prop) a : Q a -> results Q (mret a).
Proof. intros HQ s. by apply wpf_ret. Qed.
Lemma results_bind {A B} (Q : B -> Prop) (Q' : A -> Prop) (m : C A) (k : A -> C B) :
  results Q' m -> (forall a, Q' a -> results Q (k a)) -> results Q (m ≫= k).
Proof.
  intros Hm Hk s. apply wpf_bind. eapply wpf_mono; [apply Hm|]. intros a s' Ha.
  by apply Hk.
Qed.
Lemma results_any {A} (m : C A) : results (fun _ => True) m.
Proof. intros s. unfold wpf. by destruct (m s) as [[]| |]. Qed.
Lemma results_then {A B} (Q : B -> Prop) (m : C A) (k : A -> C B) :
  (forall a, results Q (k a)) -> results Q (m ≫= k).
Proof. intros Hk. eapply results_bind; [apply results_any|]. auto. Qed.

(** A handler only ever appends members to the result it is given. *)
Definition extends (n : string) (cs : list jelem) (e : jelem) : Prop :=
  exists more, e = obj n (cs ++ more).

Lemma extends_refl n cs : extends n cs (obj n cs).
Proof. exists []. by rewrite app_nil_r. Qed.
Lemma extends_number n cs e k v :
  extends n cs e -> extends n cs (pjsocky_json_add_number e k v).
Proof. intros [more ->]. rewrite add_number_obj, <-app_assoc. by eexists. Qed.
Lemma extends_string n cs e k v :
  extends n cs e -> extends n cs (pjsocky_json_add_string e k v).
Proof. intros [more ->]. rewrite add_string_obj, <-app_assoc. by eexists. Qed.
Lemma extends_str n cs e k v :
  extends n cs e -> extends n cs (pjsocky_json_add_str e k v).
Proof. intros [more ->]. rewrite add_str_obj, <-app_assoc. by eexists. Qed.
Lemma extends_bool n cs e k v :
  extends n cs e -> extends n cs (pjsocky_json_add_bool e k v).
Proof. intros [more ->]. rewrite add_bool_obj, <-app_assoc. by eexists. Qed.
Lemma extends_elem n cs e e' :
  extends n cs e -> extends n cs (pj_json_elem_add e e').
Proof. intros [more ->]. rewrite add_elem_obj, <-app_assoc. by eexists. Qed.
End results.

Create HintDb extends_db.
#[export] Hint Resolve extends_refl extends_number extends_string extends_str extends_bool
  extends_elem : extends_db.

(** Steps over whatever a handler does to the state, to the results it
    returns. *)
Ltac results_step :=
  lazymatch goal with
  | |- results _ (mret _) => apply results_ret; simpl; auto 15 with extends_db
  | |- results _ (let '(_, _) := ?p in _) => destruct p
  | |- results _ (if ?b then _ else _) => destruct b
  | |- results _ (match ?x with _ => _ end) => destruct x
  | |- results _ (_ ≫= _) => apply results_then; intros ?
  | |- forall _, _ => intros ?
  end.
Ltac results_go := repeat (results_step; cbn beta iota zeta).

Section handlers.
Context `{!Env, !PjJson, !PjJsonLaws}.

Definition appends (fn : option jelem -> jelem -> C (pj_status * jelem)) : Prop :=
  forall params n cs e, extends n cs e ->
    results (fun r => extends n cs r.2) (fn params e).

Lemma appends_status_only (m : C pj_status) : appends (fun _ => status_only m).
Proof. intros params n cs e He. unfold status_only. results_go. Qed.

Lemma appends_add_rtp id type tx rx n cs e :
  extends n cs e -> results (extends n cs) (add_rtp_counters id type tx rx e).
Proof. intros He. unfold add_rtp_counters. results_go. Qed.

Lemma appends_status_get : appends cmd_status_get.
Proof.
  intros params n cs e He. unfold cmd_status_get. do 2 (apply results_then; intros ?).
  apply (results_bind _ (fun r => extends n cs r.2)); [results_go|].
  intros [st e'] He'. cbn [snd] in He'. results_go.
Qed.

Lemma appends_call_get_info : appends cmd_call_get_info.
Proof.
  intros params n cs e He. unfold cmd_call_get_info. apply results_then; intros [id|]; [|results_go].
  apply results_then; intros [st [info|]]; [|results_go]. destruct (negb (ok st)); [results_go|].
  destruct (active_media_flags _) as [ha hv]. cbv zeta.
  do 2 (apply (results_bind _ (extends n cs)); [apply appends_add_rtp; auto 15 with extends_db|intros ? ?]).
  results_go.
Qed.

Lemma appends_table : Forall (fun entry => appends entry.2) CMD_TABLE.
Proof.
  unfold CMD_TABLE. repeat apply Forall_cons_2; [..|by apply Forall_nil_2]; cbn [snd].
  all: first [apply appends_status_get | apply appends_call_get_info | idtac].
  all: intros params n cs e He.
  all: unfold cmd_ping, cmd_version_get, cmd_account_configure, cmd_account_register,
    cmd_account_unregister, cmd_account_remove, cmd_device_list_audio, cmd_device_list_video,
    cmd_device_set_audio, cmd_device_set_video, cmd_call_dial, cmd_call_hangup,
    cmd_call_hangup_all, cmd_call_answer, cmd_config_set_ring_timeout,
    cmd_config_get_ring_timeout, cmd_im_send, cmd_im_typing, status_only, add_devices,
    pjsocky_version_fill; results_go.
Qed.

Lemma find_cmd_appends name fn : find_cmd name = Some fn -> appends fn.
Proof.
  intros (entry & Hin)%find_in_table_In.
  exact (proj1 (Forall_forall _ _) appends_table (entry, fn) Hin).
Qed.

Lemma fail_spec id code message : fail id code message = error_response id code message.
Proof.
  unfold fail, error_response. rewrite elem_string_spec, !elem_obj_nil.
  autorewrite with jsonbuild. done.
Qed.
Lemma respond_ok_spec id result :
  respond_ok id (obj "result" result) = ok_response id result.
Proof.
  unfold respond_ok, ok_response. rewrite elem_string_spec, !elem_obj_nil.
  by autorewrite with jsonbuild.
Qed.

(** What the dispatcher does once it has a command to run. *)
Definition run_command (id : string) (fn : option jelem -> jelem -> C (pj_status * jelem))
    (params : option jelem) : C (pj_status * option jelem) :=
  '(fn_status, result) ← fn params (pj_json_elem_obj "result");
  if negb (ok fn_status)
  then mret (PJ_SUCCESS, Some (fail id (error_code_for fn_status) (pj_strerror fn_status)))
  else mret (PJ_SUCCESS, Some (respond_ok id result)).

Lemma dispatch_unfold line :
  pjsocky_dispatch_line line =
  match string_member (pj_json_parse line) "id" with
  | None => mret (PJ_EINVAL, None)
  | Some id =>
      match string_member (pj_json_parse line) "cmd" with
      | None => mret (PJ_SUCCESS, Some (fail id "bad_request" missing_cmd_message))
      | Some cmd =>
          match find_cmd cmd with
          | None => mret (PJ_SUCCESS, Some (fail id "unknown_command" "no such command"))
          | Some fn => run_command id fn (pjsocky_json_find (pj_json_parse line) "params")
          end
      end
  end.
Proof.
  unfold pjsocky_dispatch_line, string_member. cbv zeta.
  destruct (pj_json_parse line) as [[n [| | | | |cs]]|]; try done.
  rewrite <-!json_find_member.
  destruct (pjsocky_json_find _ "id") as [[? [| | |id| |]]|]; try done. simpl el_value. cbn iota.
  by destruct (pjsocky_json_find _ "cmd") as [[? [| | |cmd| |]]|].
Qed.

Lemma error_code_known st : error_code_for st ∈ error_codes.
Proof. unfold error_codes. destruct st; simpl; set_solver. Qed.
End handlers.

(** ** Call ids of clients *)

(** The calls of pjsua that take a call id: it is one pjsua can have handed
    out, or the daemon's own current call [g]. *)
Definition id_checked (max g : Z) (a : action) : Prop :=
  match a with
  | A_call_hangup id _ | A_call_answer2 id _ _ | A_call_get_info id
  | A_call_get_stream_stat id _ | A_call_get_stream_info id _
  | A_call_set_vid_strm id _ _ => 0 <= id < max \/ id = g
  | _ => True
  end.

Section call_ids.
Context `{!Env, !PjJson} (max g : Z) (s0 : St).
Context (Hmax : forall h, ans_call_get_max_count h = max).
Abbreviation I := (logs (id_checked max g) s0).

Lemma wpf_checked F id {A} (k : bool -> C A) Q s :
  I s -> (forall b s', I s' -> (b = true -> 0 <= id < max) -> wpf F (k b) Q s') ->
  wpf F (is_valid_call_id id ≫= k) Q s.
Proof.
  intros Hs Hk. unfold is_valid_call_id. wp_step. destruct (Z.leb_spec 0 id).
  - wp_step. apply wpf_ask. apply wpf_ret. apply Hk; [by apply logs_cons|].
    rewrite Hmax. intros ?%Z.ltb_lt. lia.
  - apply wpf_ret. by apply Hk.
Qed.

Lemma checked_hangup F id code : keeps F I (pjsocky_call_hangup id code).
Proof.
  intros s Hs. unfold pjsocky_call_hangup. apply wpf_checked; [done|]. intros b s' Hs' Hb.
  destruct b; [|by apply wpf_ret]. apply wpf_ask. apply logs_cons; [left; auto|done].
Qed.
Lemma checked_answer F id code video : keeps F I (pjsocky_call_answer id code video).
Proof.
  intros s Hs. unfold pjsocky_call_answer. apply wpf_checked; [done|]. intros b s' Hs' Hb.
  destruct b; [|by apply wpf_ret]. apply wpf_ask. apply logs_cons; [left; auto|done].
Qed.

(** [pjsocky_call_get_info] gives information only about ids in range. *)
Lemma checked_get_info F id s :
  I s -> wpf F (pjsocky_call_get_info id) (fun r s' =>
    I s' /\ (is_Some r.2 -> 0 <= id < max)) s.
Proof.
  intros Hs. unfold pjsocky_call_get_info. apply wpf_checked; [done|]. intros b s' Hs' Hb.
  destruct b; cbn [negb]; [|by apply wpf_ret; split; [|intros []]].
  wp_step. apply wpf_ask.
  destruct (ans_call_get_info _ _). apply wpf_ret. split; [|auto].
  apply logs_cons; [left; auto|done].
Qed.
Lemma checked_info F id : keeps F I (pjsocky_call_get_info id).
Proof. intros s Hs. eapply wpf_mono; [by apply checked_get_info|]. by intros ? ? []. Qed.

Lemma checked_rtp_loop F id type i media :
  0 <= id < max -> keeps F I (rtp_counters_loop id type i media).
Proof.
  intros Hid. revert i. induction media as [|m media IH]; intros i; simpl; [apply keeps_ret|].
  destruct (negb _); [apply IH|]. apply keeps_bind; [|keeps_go].
  apply keeps_ask_logs. intros a. by left.
Qed.
Lemma checked_rtp_counters F id type : keeps F I (pjsocky_call_get_rtp_counters id type).
Proof.
  intros s Hs. unfold pjsocky_call_get_rtp_counters. wp_step.
  eapply wpf_mono; [by apply checked_get_info|]. intros [st [info|]] s' [Hs' Hid].
  - destruct (negb _); [by apply wpf_ret|]. by apply checked_rtp_loop; [apply Hid|].
  - by apply wpf_ret.
Qed.
Lemma checked_remote_offered F id : keeps F I (pjsocky_call_remote_offered_video id).
Proof.
  unfold pjsocky_call_remote_offered_video. apply keeps_bind; [apply checked_info|keeps_go].
Qed.
Lemma checked_get_int params name : keeps True I (get_int_member params name).
Proof. unfold get_int_member, check. keeps_go. Qed.
Lemma checked_add_rtp F id type tx rx result :
  keeps F I (add_rtp_counters id type tx rx result).
Proof. unfold add_rtp_counters. apply keeps_bind; [apply checked_rtp_counters|keeps_go]. Qed.

Lemma checked_first_capture F devices : keeps F I (first_capture_device devices).
Proof. induction devices as [|d devices IH]; simpl; keeps_go. Qed.

#[local] Hint Resolve checked_first_capture checked_hangup checked_answer checked_info checked_rtp_counters
  checked_remote_offered checked_get_int checked_add_rtp : keeps_db.

Lemma checked_hangup_all :
  g_call_id (call s0) = g -> wlp pjsocky_call_hangup_all (fun _ s' => I s') s0.
Proof.
  intros Hg. unfold pjsocky_call_hangup_all, pjsocky_call_get_id. do 2 wp_step.
  destruct (_ =? _); [apply wpf_ret, logs_refl|]. apply wpf_ask.
  apply logs_cons; [by right|apply logs_refl].
Qed.

#[local] Hint Unfold cmd_ping cmd_version_get cmd_status_get cmd_account_configure
  cmd_account_register cmd_account_unregister cmd_account_remove cmd_device_list_audio
  cmd_device_list_video cmd_device_set_audio cmd_device_set_video cmd_call_dial
  cmd_call_hangup cmd_call_get_info cmd_call_answer cmd_config_set_ring_timeout
  cmd_config_get_ring_timeout cmd_im_send cmd_im_typing status_only
  pjsocky_call_get_ring_timeout pjsocky_call_set_ring_timeout pjsocky_call_get_id
  pjsocky_account_configure pjsocky_account_register pjsocky_account_unregister
  pjsocky_account_remove pjsocky_device_list_audio pjsocky_device_list_video
  pjsocky_device_set_audio pjsocky_device_set_video_capture pjsocky_call_dial
  pjsocky_im_send pjsocky_im_typing registered_account resolve_default_vid_cap_dev
  update_account_capture : ops.

Lemma checked_handlers params result :
  g_call_id (call s0) = g ->
  Forall (fun entry : string * _ => wlp (entry.2 params result) (fun _ s' => I s') s0) CMD_TABLE.
Proof.
  intros Hg. unfold CMD_TABLE. repeat apply Forall_cons_2; [..|by apply Forall_nil_2]; cbn [snd].
  14: { unfold cmd_call_hangup_all, status_only. wp_step.
        eapply wpf_mono; [by apply checked_hangup_all|]. intros st s' Hs'. by apply wpf_ret. }
  all: match goal with |- wpf _ ?m _ _ => assert (keeps True I m) as Hk;
         [|apply (Hk s0), logs_refl] end.
  all: keeps_go.
Qed.
End call_ids.

(** The responses of the dispatcher. *)
Lemma dispatch_wf `{!Env, !EnvLaws, !PjJson, !PjJsonLaws} line (s : St) :
  wlp (pjsocky_dispatch_line line) (fun r s' =>
    match string_member (pj_json_parse line) "id" with
    | None => r = (PJ_EINVAL, None) /\ s' = s
    | Some id => exists response, r = (PJ_SUCCESS, Some response) /\ well_formed_response id response
    end) s.
Proof.
  rewrite dispatch_unfold. destruct (string_member _ "id") as [id|]; [|by apply wpf_ret].
  assert (Hfail : forall c m, c ∈ error_codes -> well_formed_response id (fail id c m)).
  { intros c m Hc. right. exists c, m. by rewrite fail_spec. }
  destruct (string_member _ "cmd") as [cmd|]; cycle 1.
  { apply wpf_ret. eexists. split; [done|]. apply Hfail. left. }
  destruct (find_cmd cmd) as [fn|] eqn:Hfn; cycle 1.
  { apply wpf_ret. eexists. split; [done|]. apply Hfail. right. left. }
  unfold run_command. wp_step. rewrite elem_obj_nil.
  eapply wpf_mono; [apply (find_cmd_appends cmd fn Hfn _ "result" []), extends_refl|].
  intros [st result] s1 [more Hmore]. simpl in Hmore. subst result.
  destruct (ok st); apply wpf_ret; eexists; (split; [done|]).
  - left. exists more. apply respond_ok_spec.
  - apply Hfail, error_code_known.
Qed.

(** The dispatcher's contract. *)
Lemma dispatch_response_spec `{!Env, !EnvLaws, !PjJson, !PjJsonLaws} x line (s : St) :
  serviceable False x -> daemon_ok x s -> line_ok False line ->
  wp (pjsocky_dispatch_line line) (fun r s' => daemon_ok x s' /\
    match string_member (pj_json_parse line) "id" with
    | None => r = (PJ_EINVAL, None) /\ s' = s
    | Some id => exists response, r = (PJ_SUCCESS, Some response) /\ well_formed_response id response
    end) s.
Proof.
  intros Hx Hs Hl. apply wpf_conj; [by apply keeps_dispatch|].
  apply wlp_wpf; [|right; eapply wpf_mono; [by eapply keeps_dispatch|done]].
  apply dispatch_wf.
Qed.

(** ** Properties *)

(** C15: Every request is answered: a line that is not a JSON object with a
    string id gets no response and changes nothing; for any other line the
    dispatcher returns exactly one response, which echoes the id and carries
    either a result or an error of one of the five documented codes, and the
    invariant of the daemon's state is kept. *)
Theorem dispatch_response `{!Env, !EnvLaws, !PjJson, !PjJsonLaws} x line (s : St) :
  serviceable False x -> daemon_ok x s -> line_ok False line ->
  wp (pjsocky_dispatch_line line) (fun r s' => daemon_ok x s' /\
    match string_member (pj_json_parse line) "id" with
    | None => r = (PJ_EINVAL, None) /\ s' = s
    | Some id => exists response, r = (PJ_SUCCESS, Some response) /\ well_formed_response id response
    end) s.
Proof. apply dispatch_response_spec. Qed.

(** C16: A request runs the handler the command table lists under its name,
    exactly that one and exactly once, on the request's params and an empty
    result: success is answered with what the handler put there, failure with
    the code its status stands for.  A name the table does not list, and a
    request without a string cmd, run nothing. *)
Theorem dispatch_runs_command `{!Env, !PjJson, !PjJsonLaws} line id (s : St) :
  string_member (pj_json_parse line) "id" = Some id ->
  match string_member (pj_json_parse line) "cmd" with
  | None => pjsocky_dispatch_line line s =
      Ok (PJ_SUCCESS, Some (error_response id "bad_request" missing_cmd_message), s)
  | Some cmd =>
      (cmd ∉ (fst <$> CMD_TABLE) ->
       pjsocky_dispatch_line line s =
         Ok (PJ_SUCCESS, Some (error_response id "unknown_command" "no such command"), s)) /\
      forall fn, (cmd, fn) ∈ CMD_TABLE ->
        pjsocky_dispatch_line line s =
        match fn (pjsocky_json_find (pj_json_parse line) "params") (obj "result" []) s with
        | Ok (PJ_SUCCESS, result, s') => Ok (PJ_SUCCESS, Some (respond_ok id result), s')
        | Ok (st, result, s') =>
            Ok (PJ_SUCCESS, Some (error_response id
              (if bool_decide (st ∈ [PJ_EEXISTS; PJ_EINVALIDOP]) then "invalid_state"
               else if bool_decide (st = PJ_EINVAL) then "invalid_params"
               else "pjsua_error") (pj_strerror st)), s')
        | Undef => Undef
        | NoFuel => NoFuel
        end
  end.
Proof.
  intros Hid. rewrite dispatch_unfold, Hid.
  destruct (string_member _ "cmd") as [cmd|]; [|by rewrite fail_spec].
  split.
  - intros Hn. unfold find_cmd. rewrite (proj2 (find_in_table_None _ _) Hn). by rewrite fail_spec.
  - intros fn Hin. unfold find_cmd.
    rewrite (proj2 (find_in_table_spec _ _ _ table_names_distinct) Hin).
    unfold run_command, mbind, M_bind. rewrite elem_obj_nil.
    destruct (fn _ _ s) as [[[st result] s']| |]; [|done..].
    destruct st; simpl; rewrite ?fail_spec; done.
Qed.

(** C27: A client cannot make the daemon touch a call that does not exist:
    whatever the line, every call id it passes to pjsua is in the range pjsua
    hands out ids from, or is the daemon's own current call. *)
Theorem client_call_ids_checked `{!Env, !PjJson} max line (s : St) :
  (forall h, ans_call_get_max_count h = max) ->
  wlp (pjsocky_dispatch_line line)
    (fun _ s' => logs (id_checked max (g_call_id (call s))) s s') s.
Proof.
  intros Hmax. unfold pjsocky_dispatch_line. cbv zeta.
  destruct (pj_json_parse line) as [[n [| | | | |cs]]|]; try apply wpf_ret, logs_refl.
  destruct (pjsocky_json_find _ "id") as [[? [| | |id| |]]|]; try apply wpf_ret, logs_refl.
  destruct (pjsocky_json_find _ "cmd") as [[? [| | |cmd| |]]|]; try apply wpf_ret, logs_refl.
  destruct (find_cmd cmd) as [fn|] eqn:Hfn; [|apply wpf_ret, logs_refl].
  apply find_in_table_In in Hfn as [entry Hin]. wp_step.
  eapply wpf_mono; [exact (proj1 (Forall_forall _ _)
    (checked_handlers max (g_call_id (call s)) s Hmax _ _ eq_refl) (entry, fn) Hin)|].
  intros [st result] s' Hs'. by destruct (negb (ok st)); apply wpf_ret.
Qed.

Lemma get_int_last `{!Env, !PjJson, !PjJsonLaws} n cs name f (s : St) :
  Forall (fun it => el_name it <> name) cs ->
  get_int_member (Some (obj n (cs ++ [Elem name (PJ_JSON_VAL_NUMBER f)]))) name s =
  match int_of_float f with Some z => Ok (Some z, s) | None => Undef end.
Proof.
  intros Hcs. unfold get_int_member, pjsocky_json_find, obj.
  rewrite (proj2 (find_child_Some _ name (Elem name (PJ_JSON_VAL_NUMBER f)))) by
    (by exists cs, []).
  unfold check, mbind, M_bind. by destruct (int_of_float f).
Qed.

(** C35: Integers survive the protocol: a number member the daemon writes for
    an integer of at most 24 bits - every call id, account id and status code
    - is read back by [get_int_member] as that integer. *)
Theorem number_roundtrip `{!Env, !PjJson, !PjJsonLaws} n cs name z (s : St) :
  - 2 ^ 24 <= z <= 2 ^ 24 -> Forall (fun it => el_name it <> name) cs ->
  get_int_member (Some (pjsocky_json_add_number (obj n cs) name (float_of_int z))) name s
  = Ok (Some z, s).
Proof.
  intros Hz Hcs. rewrite add_number_obj, get_int_last, int_of_float_of_int; done.
Qed.

(** The ring timeout a client sets is the one it reads: a negative value
    is refused and changes nothing; a value of at most 24 bits is stored, and
    the next [config.get_ring_timeout] answers with it. *)
Theorem ring_timeout_roundtrip `{!Env, !PjJson, !PjJsonLaws} params result n cs z (s : St) :
  - 2 ^ 24 <= z <= 2 ^ 24 -> Forall (fun it => el_name it <> "seconds") cs ->
  get_int_member params "seconds" s = Ok (Some z, s) ->
  if z <? 0 then cmd_config_set_ring_timeout params result s = Ok (PJ_EINVAL, result, s)
  else exists s', cmd_config_set_ring_timeout params result s = Ok (PJ_SUCCESS, result, s') /\
    s' = s <| call := call s <| g_ring_timeout_sec := z |> |> /\
    exists answer, cmd_config_get_ring_timeout None (obj n cs) s' = Ok (PJ_SUCCESS, answer, s') /\
      get_int_member (Some answer) "seconds" s' = Ok (Some z, s').
Proof.
  intros Hz Hcs Hget. unfold cmd_config_set_ring_timeout, mbind, M_bind. rewrite Hget.
  destruct (Z.ltb_spec z 0); [done|]. eexists. split; [reflexivity|].
  rewrite to_unsigned_small by lia. split; [done|]. eexists. split; [reflexivity|].
  simpl g_ring_timeout_sec. rewrite add_number_obj, get_int_last, int_of_float_of_int; done.
Qed.

Section answering.
Context `{!Env, !PjJson} (max : Z) (Hmax : forall h, ans_call_get_max_count h = max).
Definition in_range (id : Z) : bool := (0 <=? id) && (id <? max).

Lemma valid_run id s :
  is_valid_call_id id s =
  Ok (in_range id,
      if 0 <=? id then s <| hist := A_call_get_max_count :: hist s |> else s).
Proof.
  unfold is_valid_call_id, in_range. destruct (0 <=? id); [|done].
  unfold pjsua_call_get_max_count, ask, mbind, M_bind. by rewrite Hmax.
Qed.

Lemma in_range_pos id : in_range id = true -> (0 <=? id) = true.
Proof. by intros [? _]%andb_true_iff. Qed.

Lemma answer_run id code video result s :
  status_only (pjsocky_call_answer id code video) result s =
  let h := A_call_get_max_count :: hist s in
  if in_range id then
    Ok (ans_call_answer2 h id (media_setting video) code, result,
        s <| hist := A_call_answer2 id (media_setting video) code :: h |>)
  else Ok (PJ_EINVAL, result, if 0 <=? id then s <| hist := h |> else s).
Proof.
  unfold status_only, pjsocky_call_answer. unfold mbind, M_bind at 1 2. rewrite valid_run.
  destruct (in_range id) eqn:Hr; [|by destruct (0 <=? id)].
  rewrite (in_range_pos id Hr). cbn [negb]. by destruct video.
Qed.

Lemma remote_offered_run id s :
  pjsocky_call_remote_offered_video id s =
  let h := A_call_get_max_count :: hist s in
  if in_range id then
    let '(st, info) := ans_call_get_info h id in
    Ok (if ok st then (PJ_SUCCESS, Some (0 <? rem_vid_cnt info)) else (st, None),
        s <| hist := A_call_get_info id :: h |>)
  else Ok ((PJ_EINVAL, None), if 0 <=? id then s <| hist := h |> else s).
Proof.
  unfold pjsocky_call_remote_offered_video, pjsocky_call_get_info. unfold mbind, M_bind at 1 2.
  rewrite valid_run. destruct (in_range id) eqn:Hr; [|by destruct (0 <=? id)].
  rewrite (in_range_pos id Hr). cbn [negb]. unfold pjsua_call_get_info, ask, mbind, M_bind.
  simpl. destruct (ans_call_get_info _ id) as [st info]. simpl. by destruct (ok st).
Qed.
End answering.

(** Answering: an id out of range is refused; otherwise the call is
    answered once, with the client's code or 200, without text and with video
    as the client says or, if it does not say, exactly if the caller offers
    it - which is the one thing asked first. *)
Theorem call_answer_outcome `{!Env, !PjJson} params result id code max (s : St) :
  (forall h, ans_call_get_max_count h = max) ->
  (forall s, get_int_member params "call_id" s = Ok (Some id, s)) ->
  (forall s, get_int_member params "code" s = Ok (code, s)) ->
  wp (cmd_call_answer params result) (fun r s' =>
    let sip_code := to_unsigned (default 200 code) in
    let h := A_call_get_max_count :: hist s in
    if in_range max id then
      match get_bool_member params "video" with
      | Some video =>
          s' = s <| hist := A_call_answer2 id (media_setting video) sip_code :: h |> /\
          r = (ans_call_answer2 h id (media_setting video) sip_code, result)
      | None =>
          let '(st, info) := ans_call_get_info h id in
          let video := 0 <? rem_vid_cnt info in
          let h2 := A_call_get_max_count :: A_call_get_info id :: h in
          if ok st then
            s' = s <| hist := A_call_answer2 id (media_setting video) sip_code :: h2 |> /\
            r = (ans_call_answer2 h2 id (media_setting video) sip_code, result)
          else s' = s <| hist := A_call_get_info id :: h |> /\ r = (st, result)
      end
    else r = (PJ_EINVAL, result) /\ call s' = call s /\
         hist s' = (if 0 <=? id then [A_call_get_max_count] else []) ++ hist s) s.
Proof.
  intros Hmax Hid Hcode. unfold cmd_call_answer. wp_step. unfold wpf at 1. rewrite Hid.
  wp_step. unfold wpf at 1. rewrite Hcode. cbv zeta.
  destruct (get_bool_member params "video") as [video|].
  - unfold wpf. rewrite (answer_run max Hmax). cbv zeta.
    destruct (in_range max id); [done|]. by destruct (0 <=? id).
  - wp_step. unfold wpf at 1. rewrite (remote_offered_run max Hmax). cbv zeta.
    destruct (in_range max id) eqn:Hr; [|by apply wpf_ret; destruct (0 <=? id)].
    destruct (ans_call_get_info _ id) as [st info]. destruct (ok st) eqn:Hst; cbn iota.
    + change (ok PJ_SUCCESS) with true. cbn [negb]. unfold wpf.
      by rewrite (answer_run max Hmax), Hr.
    + by apply wpf_ret.
Qed.

(** [status.get] reports the daemon's state: idle without an account;
    otherwise in_call exactly when there is a current call, and failing that
    registered or registering; with the account id, the account's own SIP
    status, and the current call's id.  It changes nothing. *)
Theorem status_get_outcome `{!Env, !PjJson, !PjJsonLaws} params n cs (s : St) :
  wp (cmd_status_get params (obj n cs)) (fun r s' =>
    let report state reg_status := obj n (cs ++
      [Elem "state" (PJ_JSON_VAL_STRING state);
       Elem "acc_id" (PJ_JSON_VAL_NUMBER (float_of_int (g_acc_id (acc s))));
       Elem "reg_status" (PJ_JSON_VAL_NUMBER (float_of_int reg_status));
       Elem "call_id" (PJ_JSON_VAL_NUMBER (float_of_int (g_call_id (call s))))]) in
    if g_acc_id (acc s) =? PJSUA_INVALID_ID then r = (PJ_SUCCESS, report "idle" 0) /\ s' = s
    else
      let '(st, info) := ans_acc_get_info (hist s) (g_acc_id (acc s)) in
      s' = s <| hist := A_acc_get_info (g_acc_id (acc s)) :: hist s |> /\
      r = (st, if ok st
               then report (if g_call_id (call s) =? PJSUA_INVALID_ID
                            then if g_registered (acc s) then "registered" else "registering"
                            else "in_call") (acc_info_status info)
               else obj n cs)) s.
Proof.
  unfold cmd_status_get, pjsocky_account_get_id, pjsocky_call_get_id,
    pjsocky_account_is_registered.
  do 5 wp_step. destruct (Z.eqb_spec (g_acc_id (acc s)) PJSUA_INVALID_ID) as [->|Hne].
  - do 2 apply wpf_ret. split; [|done]. autorewrite with jsonbuild. by rewrite <-!app_assoc.
  - wp_step. apply wpf_ask. destruct (ans_acc_get_info _ _) as [st info]. cbn beta iota.
    destruct (ok st) eqn:Hst; cbn [negb]; [|apply wpf_ret; rewrite Hst; by apply wpf_ret].
    apply ok_true in Hst as ->. wp_step. do 2 wp_step. apply wpf_ret. split; [done|].
    autorewrite with jsonbuild. rewrite <-!app_assoc. by destruct (_ =? _).
Qed.

(** ** The theorems at work *)
Section witnesses.
#[local] Instance ringing_env : Env := env_of ringing.
#[local] Instance ringing_laws : EnvLaws := env_of_laws _ ringing_ok.
#[local] Existing Instance sim_json.
#[local] Existing Instance sim_json_laws.

Definition at_rest : ctx :=
  {| x_events := connected_events; x_conn := conn registered; x_srv := srv registered;
     x_live := fun _ => 0 |}.
Lemma at_rest_serviceable : serviceable False at_rest.
Proof. split; [right; apply sim_select_waits|vm_compute; discriminate|done|simpl; lia]. Qed.
Lemma at_rest_ok : daemon_ok at_rest registered.
Proof. split; [by split_and!|done|by intros []|done]. Qed.

Definition status_line : bytes := json_text "{'id':'7','cmd':'status.get'}".
Lemma status_line_ok : line_ok False status_line.
Proof. right. intros name n f Hf. vm_compute in Hf. discriminate. Qed.

Lemma dispatch_response_witness :
  wp (pjsocky_dispatch_line status_line) (fun r s' => daemon_ok at_rest s' /\
    exists response, r = (PJ_SUCCESS, Some response) /\ well_formed_response "7" response)
    registered.
Proof.
  exact (dispatch_response at_rest status_line registered at_rest_serviceable at_rest_ok
           status_line_ok).
Defined.

Lemma dispatch_runs_command_witness :
  pjsocky_dispatch_line status_line registered =
  match cmd_status_get None (obj "result" []) registered with
  | Ok (PJ_SUCCESS, result, s') => Ok (PJ_SUCCESS, Some (respond_ok "7" result), s')
  | Ok (st, result, s') =>
      Ok (PJ_SUCCESS, Some (error_response "7"
        (if bool_decide (st ∈ [PJ_EEXISTS; PJ_EINVALIDOP]) then "invalid_state"
         else if bool_decide (st = PJ_EINVAL) then "invalid_params"
         else "pjsua_error") (pj_strerror st)), s')
  | Undef => Undef
  | NoFuel => NoFuel
  end.
Proof.
  assert (Hid : string_member (pj_json_parse status_line) "id" = Some "7")
    by (vm_compute; reflexivity).
  destruct (dispatch_runs_command status_line "7" registered Hid) as [_ Hrun].
  apply (Hrun cmd_status_get). do 2 right. left.
Defined.

(** A hangup of a call id that pjsua has not handed out. *)
Definition stray_line : bytes :=
  json_text "{'id':'8','cmd':'call.hangup','params':{'call_id':9}}".
Lemma client_call_ids_checked_witness :
  wlp (pjsocky_dispatch_line stray_line)
    (fun _ s' => logs (id_checked 4 (-1)) registered s') registered.
Proof. exact (client_call_ids_checked 4 stray_line registered (fun _ => eq_refl)). Defined.

Lemma number_roundtrip_witness :
  get_int_member (Some (pjsocky_json_add_number (obj "result" []) "call_id" (float_of_int 3)))
    "call_id" registered = Ok (Some 3, registered).
Proof. apply (number_roundtrip "result" [] "call_id" 3 registered); [lia|constructor]. Defined.

(** Above 24 bits a count is rounded. *)
Example number_rounded :
  get_int_member (Some (pjsocky_json_add_number (obj "result" []) "audio_tx_packets"
    (float_of_int 16777217))) "audio_tx_packets" registered = Ok (Some 16777216, registered).
Proof. vm_compute. reflexivity. Qed.

Definition thirty_seconds : option jelem :=
  Some (pjsocky_json_add_number (obj "params" []) "seconds" (float_of_int 30)).
Lemma ring_timeout_roundtrip_witness :
  exists s', cmd_config_set_ring_timeout thirty_seconds (obj "result" []) registered
             = Ok (PJ_SUCCESS, obj "result" [], s') /\
    s' = registered <| call := call registered <| g_ring_timeout_sec := 30 |> |> /\
    exists answer,
      cmd_config_get_ring_timeout None (obj "result" []) s' = Ok (PJ_SUCCESS, answer, s') /\
      get_int_member (Some answer) "seconds" s' = Ok (Some 30, s').
Proof.
  apply (ring_timeout_roundtrip thirty_seconds (obj "result" []) "result" [] 30 registered);
    [lia|constructor|vm_compute; reflexivity].
Defined.

Definition answer_params : option jelem :=
  Some (pjsocky_json_add_number (obj "params" []) "call_id" (float_of_int 2)).
Lemma call_answer_outcome_witness :
  wp (cmd_call_answer answer_params (obj "result" [])) (fun r s' =>
    hist s' = [A_call_answer2 2 (media_setting true) 200; A_call_get_max_count;
               A_call_get_info 2; A_call_get_max_count] /\
    r = (PJ_SUCCESS, obj "result" [])) registered.
Proof.
  eapply wpf_mono; [apply (call_answer_outcome answer_params (obj "result" []) 2 None 4
    registered); [done|intros s; vm_compute; reflexivity..]|].
  intros r s' Hr. change (s' = registered <| hist :=
    [A_call_answer2 2 (media_setting true) 200; A_call_get_max_count; A_call_get_info 2;
     A_call_get_max_count] |> /\ r = (PJ_SUCCESS, obj "result" [])) in Hr.
  destruct Hr as [-> ->]. done.
Defined.

Lemma status_get_outcome_witness :
  wp (cmd_status_get None (obj "result" [])) (fun r s' =>
    s' = registered <| hist := [A_acc_get_info 0] |> /\
    r = (PJ_SUCCESS, obj "result"
      [Elem "state" (PJ_JSON_VAL_STRING "registered");
       Elem "acc_id" (PJ_JSON_VAL_NUMBER (float_of_int 0));
       Elem "reg_status" (PJ_JSON_VAL_NUMBER (float_of_int 200));
       Elem "call_id" (PJ_JSON_VAL_NUMBER (float_of_int (-1)))])) registered.
Proof. exact (status_get_outcome None "result" [] registered). Defined.
End witnesses.
