(* ===== verification/Server.v ===== *)
(** * The control server (src/proto/server.c)

    One listening socket, at most one active connection, one loop around
    [select]: create, the handling of a connection's input, refusing a second
    client, and the loop with its exits. *)

From S2P Require Import Prelude Float32 Pjlib Env State Framing Compact Wire JsonUtil Events Invariant Device Account Im Call Dispatch.
#[local] Open Scope string_scope.
#[local] Open Scope Z_scope.

Definition PJSOCKY_ACCEPT_POLL_MSEC : Z := 500.

Section server.
Context `{!Env, !PjJson}.

(** *** Creation *)

(** [*p_srv] is the process's server object; it is set on success only. *)
Definition pjsocky_server_create (path : string) (write_timeout_msec : Z)
  : C pj_status :=
  if decide (sizeof_sun_path <= String.length path)%nat then mret PJ_ENAMETOOLONG else
  '(status, sock) ← pj_sock_socket;
  if negb (ok status) then mret status else
  unlink path;;
  status ← pj_sock_bind sock path;
  if negb (ok status) then pj_sock_close sock;; mret status else
  r ← chmod path 384; (* S_IRUSR | S_IWUSR = 0600 *)
  if negb (r =? 0) then
    errno ← pj_get_os_error;
    PJ_LOG 1 "Could not set %s to 0600: %s" [LogStr path; LogErrno errno];;
    pj_sock_close sock;; unlink path;; pj_get_os_error
  else
  status ← pj_sock_listen sock 4;
  if negb (ok status) then pj_sock_close sock;; unlink path;; mret status else
  PJ_LOG 3 "Listening on %s" [LogStr path];;
  set_srv (fun _ => {| listen_sock := sock; sun_path := path;
                       srv_write_timeout_msec := write_timeout_msec;
                       stop_requested := false |});;
  mret PJ_SUCCESS.

Definition set_nonblocking (sock : Z) : C pj_status :=
  flags ← fcntl_getfl sock;
  if flags <? 0 then pj_get_os_error else
  r ← fcntl_setfl sock (Z.lor flags O_NONBLOCK);
  if r <? 0 then pj_get_os_error else mret PJ_SUCCESS.

(** *** Events of the server itself *)

Definition build_hello_data : event_builder := fun _ data => pjsocky_version_fill data.

Definition build_error_event_data (code message : string) : event_builder := fun _ data =>
  let data := pjsocky_json_add_string data "code" code in
  pjsocky_json_add_string data "message" message.

Definition push_error_event (code message : string) : C unit :=
  push "error" (build_error_event_data code message);; mret tt.

Definition bad_line_message : string :=
  "not a JSON object with a string " ++ String QUOTE ("id" ++ String QUOTE "").

(** *** Connections *)

(** The event a refused client is sent, as [refuse_conn] builds it. *)
Definition refusal (a : account_st) : jelem :=
  let event := pj_json_elem_obj "" in
  let event := pjsocky_json_add_string event "event" "error" in
  let data := pj_json_elem_obj "data" in
  let data := build_error_event_data "connection_refused"
                "another control connection is active" a data in
  pj_json_elem_add event data.

Definition refuse_conn (sock : Z) : C unit :=
  PJ_LOG 3 "Refusing concurrent control connection (one already active)" [];;
  pool ← pj_pool_create "pjsocky-refuse";
  when pool (
    set_nonblocking sock;;
    timeout ← gets (fun s => srv_write_timeout_msec (srv s));
    a ← gets acc;
    pjsocky_framing_write_json (pjsocky_framing_init sock timeout zero_framing)
      (refusal a) 512;;
    pj_pool_release "pjsocky-refuse");;
  pj_sock_close sock.

(** [open_conn] up to the point where the coordinator has the connection:
    whether it got there. *)
Definition attach_conn (sock : Z) : C bool :=
  status ← set_nonblocking sock;
  if negb (ok status) then
    PJ_PERROR 1 status "Failed to make connection socket non-blocking" [];;
    pj_sock_close sock;; mret false
  else
  pool ← pj_pool_create "pjsocky-conn";
  if negb pool then
    PJ_LOG 1 "Failed to allocate connection pool" [];;
    pj_sock_close sock;; mret false
  else
  timeout ← gets (fun s => srv_write_timeout_msec (srv s));
  set_conn (fun c => c <| conn_sock := sock |>
                       <| conn_framing := pjsocky_framing_init sock timeout (conn_framing c) |>);;
  i ← pjsocky_events_instance;
  pjsocky_events_set_conn i (Some CONN_FRAMING);;
  mret true.

(** The rest of it. *)
Definition greet_client : C unit :=
  push "hello" build_hello_data;;
  set_conn (fun c => c <| active := true |>);;
  PJ_LOG 4 "Client connected" [].

Definition open_conn (sock : Z) : C unit :=
  attached ← attach_conn sock;
  when attached greet_client.

Definition close_conn : C unit :=
  i ← pjsocky_events_instance;
  pjsocky_events_set_conn i None;;
  pj_pool_release "pjsocky-conn";;
  sock ← gets (fun s => conn_sock (conn s));
  pj_sock_close sock;;
  set_conn (fun c => c <| active := false |>).

(** The branch of a line that is no request. *)
Definition report_bad_line : C pj_status :=
  PJ_LOG 2 "Unparseable request line - reporting via error event" [];;
  push_error_event "bad_request" bad_line_message;;
  pj_pool_reset "pjsocky-conn";;
  mret PJ_SUCCESS.

(** The branch of a request. *)
Definition send_response (response : jelem) : C pj_status :=
  status ← write_response response PJSOCKY_MAX_LINE;
  pj_pool_reset "pjsocky-conn";;
  when (negb (ok status)) (PJ_PERROR 4 status "Socket write error" []);;
  mret status.

Definition handle_line (line : bytes) : C pj_status :=
  '(status, response) ← pjsocky_dispatch_line line;
  match response with
  | Some response => if ok status then send_response response else report_bad_line
  | None => report_bad_line
  end.

Definition get_conn_framing : C framing := gets (fun s => conn_framing (conn s)).
Definition put_conn_framing (f : framing) : C unit :=
  set_conn (fun c => c <| conn_framing := f |>).

(** The branch of a line that fills the buffer. *)
Definition report_long_line : C unit :=
  PJ_LOG 2 "Request line too long, closing connection" [];;
  push_error_event "bad_request" "line exceeds maximum length".

(** The [for (;;)] of [handle_conn_input]. *)
Fixpoint input_loop (fuel : nat) : C pj_status :=
  match fuel with
  | O => nofuel
  | S fuel =>
      f ← get_conn_framing;
      '(status, line, f) ← check (pjsocky_framing_extract_line f);
      put_conn_framing f;;
      if decide (status = PJ_EPENDING) then mret PJ_SUCCESS
      else if decide (status = PJ_ETOOBIG) then
        report_long_line;; mret status
      else
        text ← check (line_text line (f_buf f));
        status ← handle_line text;
        if negb (ok status) then mret status else input_loop fuel
  end.

Definition handle_conn_input : C pj_status :=
  f ← get_conn_framing;
  '(status, f) ← pjsocky_framing_fill f;
  put_conn_framing f;;
  if decide (status = PJ_EPENDING) then mret PJ_SUCCESS
  else if decide (status = PJ_EEOF) then PJ_LOG 4 "Client disconnected" [];; mret status
  else if negb (ok status) then PJ_PERROR 2 status "Socket read error" [];; mret status
  else input_loop (S (f_len f)).

(** *** The loop *)

(** The part of an iteration that serves the listening socket. *)
Definition accept_conn (listen : Z) : C (option pj_status) :=
  '(status, new_sock) ← pj_sock_accept listen;
  c ← gets conn;
  if negb (ok status) then
    PJ_PERROR 1 status "accept() failed" [];;
    when (active c) close_conn;;
    mret (Some status)
  else
    (if active c then refuse_conn new_sock else open_conn new_sock);;
    mret None.

(** One iteration of the [while] body: [Some st] where it returns [st]. *)
Definition server_iteration : C (option pj_status) :=
  listen ← gets (fun s => listen_sock (srv s));
  c ← gets conn;
  let rfds := listen :: (if active c then [conn_sock c] else []) in
  n ← select_read rfds 0 (PJSOCKY_ACCEPT_POLL_MSEC * 1000);
  match n with
  | SelectError =>
      status ← pj_get_os_error;
      if decide (status = PJ_STATUS_FROM_OS EINTR) then mret None else
      PJ_PERROR 1 status "select() failed" [];;
      when (active c) close_conn;;
      mret (Some status)
  | SelectTimeout => mret None
  | SelectReady fds =>
      when (active c && bool_decide (conn_sock c ∈ fds)) (
        status ← handle_conn_input;
        when (negb (ok status)) close_conn);;
      if decide (listen ∈ fds) then accept_conn listen else mret None
  end.

Definition pjsocky_server_stop : C unit :=
  set_srv (fun x => x <| stop_requested := true |>).

Definition pjsocky_server_destroy : C unit :=
  sock ← gets (fun s => listen_sock (srv s));
  when (negb (sock =? PJ_INVALID_SOCKET)) (pj_sock_close sock);;
  path ← gets (fun s => sun_path (srv s));
  unlink path.

(** [schedule]: for each test of the loop condition, what the rest of the
    process - the signal handler, which calls [pjsocky_server_stop], and
    pjsua-lib's threads, which run the callbacks - does before it.  The run
    is over when the loop returns; where the schedule ends first it is
    still running. *)
Fixpoint server_loop (schedule : list (C unit)) : C pj_status :=
  match schedule with
  | [] => nofuel
  | others :: schedule =>
      others;;
      stop ← gets (fun s => stop_requested (srv s));
      if (stop : bool) then
        a ← gets (fun s => active (conn s));
        when a close_conn;;
        mret PJ_SUCCESS
      else
        r ← server_iteration;
        match r with
        | Some status => mret status
        | None => server_loop schedule
        end
  end.

Definition pjsocky_server_run (schedule : list (C unit)) : C pj_status :=
  set_conn (fun _ => zero_conn);;
  server_loop schedule.
End server.
