(* ===== verification/Media.v ===== *)
(** * The media of a call (src/call.c, src/proto/dispatch.c)

    What happens when pjsua-lib has started, changed or stopped the media of
    a call - the capture device, the bridge to the sound device, the watchdog,
    the periodic report and the event - and what [call.get_info] tells a
    client about a call and its streams. *)

From S2P Require Import Prelude Float32 Pjlib Env SimEnv State Framing Compact SimJson Wire JsonUtil Events Invariant Device Account Call Watchdog Dispatch Requests.
#[local] Open Scope string_scope.
#[local] Open Scope list_scope.
#[local] Open Scope Z_scope.

(** ** Media operations of a history *)

(** The connections asked of the conference bridge, and the changes of the
    capture device of a call's video, each in the order they were asked. *)
Fixpoint connections (h : history) : list (Z * Z) :=
  match h with
  | [] => []
  | A_conf_connect source sink :: h => connections h ++ [(source, sink)]
  | _ :: h => connections h
  end.
Fixpoint captures (h : history) : list (Z * Z) :=
  match h with
  | [] => []
  | A_call_set_vid_strm id PJSUA_CALL_VID_STRM_CHANGE_CAP_DEV p :: h =>
      captures h ++ [(id, op_cap_dev p)]
  | _ :: h => captures h
  end.

(** What was done with the timers, latest first. *)
Definition timer_ops (h : history) : history := filter timer_action h.

(** From [h] to [h'] these were asked, this was done with the timers, and
    nothing was written to a socket. *)
Definition effects (h : history) (bridges capture : list (Z * Z)) (timers : history)
    (h' : history) : Prop :=
  connections h' = connections h ++ bridges /\ captures h' = captures h ++ capture /\
  timer_ops h' = timers ++ timer_ops h /\ forall n, wire n h' = wire n h.

Definition media_quiet (a : action) : Prop :=
  match a with
  | A_conf_connect _ _ | A_sock_send _ _ _ | A_schedule_timer _ _ _ | A_cancel_timer _
  | A_call_set_vid_strm _ PJSUA_CALL_VID_STRM_CHANGE_CAP_DEV _ => False
  | _ => True
  end.

Lemma effects_quiet l h : Forall media_quiet l -> effects h [] [] [] (l ++ h).
Proof.
  unfold effects. rewrite !app_nil_r.
  induction 1 as [|a l Ha _ (IHb & IHc & IHt & IHw)]; [done|]. rewrite <-app_comm_cons.
  split_and!; [rewrite <-IHb|rewrite <-IHc|etrans; [|exact IHt]|intros n; rewrite <-IHw]; destruct a; try done;
    try (by destruct op); simpl; by rewrite app_nil_r.
Qed.
Lemma effects_none h : effects h [] [] [] h.
Proof. by apply (effects_quiet []). Qed.
Lemma effects_trans h B C T h' B' C' T' h'' :
  effects h B C T h' -> effects h' B' C' T' h'' -> effects h (B ++ B') (C ++ C') (T' ++ T) h''.
Proof.
  intros (Hb & Hc & Ht & Hw) (Hb' & Hc' & Ht' & Hw'). split_and!.
  - by rewrite Hb', Hb, app_assoc.
  - by rewrite Hc', Hc, app_assoc.
  - by rewrite Ht', Ht, app_assoc.
  - intros n. by rewrite Hw'.
Qed.
Lemma effects_timers l h : Forall timer_action l -> effects h [] [] l (l ++ h).
Proof.
  unfold effects. rewrite !app_nil_r.
  induction 1 as [|a l Ha _ (IHb & IHc & IHt & IHw)]; [done|]. rewrite <-app_comm_cons.
  split_and!.
  - rewrite <-IHb. by destruct a.
  - rewrite <-IHc. by destruct a.
  - unfold timer_ops in *. by rewrite filter_cons_True, IHt.
  - intros n. rewrite <-IHw. destruct a; try done; simpl; by rewrite app_nil_r.
Qed.
Lemma effects_logs l h : Forall is_log l -> effects h [] [] [] (l ++ h).
Proof. intros Hl. eapply effects_quiet, Forall_impl; [exact Hl|]. by intros [] []. Qed.
Lemma effects_bridge a b l h :
  Forall is_log l -> effects h [(a, b)] [] [] (l ++ A_conf_connect a b :: h).
Proof.
  intros Hl. eapply (effects_trans _ [(a, b)] [] [] (A_conf_connect a b :: h) [] [] []);
    [|by apply effects_logs].
  split_and!; simpl; [done|by rewrite app_nil_r|done|]. intros n. by rewrite app_nil_r.
Qed.
Lemma effects_more a h B C T h' : media_quiet a -> effects h B C T h' -> effects h B C T (a :: h').
Proof.
  intros Ha He. rewrite <-(app_nil_r B), <-(app_nil_r C), <-(app_nil_l T).
  eapply effects_trans; [exact He|]. apply (effects_quiet [a]). by constructor.
Qed.

(** ** Changes of the media *)

(** The connections of active audio: both directions between each stream and
    the sound device, slot 0. *)
Definition audio_bridges (media : list call_media_info) : list (Z * Z) :=
  concat ((fun m => if is_active_media PJMEDIA_TYPE_AUDIO m
                    then [(media_conf_slot m, 0); (0, media_conf_slot m)] else []) <$> media).

(** The capture device of a call with active video: the selected one, if one
    has been selected. *)
Definition chosen_capture `{!Env} (id cap_dev : Z) (media : list call_media_info) : list (Z * Z) :=
  if negb (cap_dev =? PJMEDIA_VID_INVALID_DEV)
     && existsb (is_active_media PJMEDIA_TYPE_VIDEO) media
  then [(id, cap_dev)] else [].

(** call.c's variables afterwards, given whether the timers could be
    scheduled. *)
Definition after_media_state (id : Z) (info : call_info) (watch report : pj_status)
    (c : call_st) : call_st :=
  watch_call id info watch c
    <| g_media_report := id |> <| g_media_report_scheduled := ok report |>.

Section media_state.
Context `{!Env, !EnvLaws, !PjJson}.

Lemma apply_capture_spec id info s :
  wp (apply_video_capture_device id info) (fun _ s' => exists h, s' = s <| hist := h |> /\
    effects (hist s) [] (chosen_capture id (g_video_capture_id (dev s)) (call_media info)) [] h) s.
Proof.
  unfold apply_video_capture_device, pjsocky_device_get_video_capture, chosen_capture.
  assert (Hno : exists h, s = s <| hist := h |> /\ effects (hist s) [] [] [] h).
  { exists (hist s). split; [by destruct s|apply effects_none]. }
  do 2 wp_step. destruct (_ =? _); cbn [negb andb]; [by apply wpf_ret|].
  destruct (existsb _ _); cbn [negb]; [|by apply wpf_ret].
  wp_step. apply wpf_ask. apply wpf_report. intros l Hl. eexists. split; [reflexivity|].
  eapply (effects_trans _ [] [_] [] _ [] [] []); [|by apply effects_logs].
  split_and!; simpl; try done; intros; by rewrite app_nil_r.
Qed.

Lemma connect_audio_spec media s :
  wp (connect_call_audio_to_sound_dev media) (fun _ s' => exists h, s' = s <| hist := h |> /\
    effects (hist s) (audio_bridges media) [] [] h) s.
Proof.
  revert s. induction media as [|m media IH]; intros s; simpl.
  { apply wpf_ret. exists (hist s). split; [by destruct s|apply effects_none]. }
  unfold audio_bridges. rewrite fmap_cons. simpl concat. fold (audio_bridges media).
  wp_step. apply wpf_when; intros ->; [|apply IH].
  wp_step. apply wpf_ask. wp_step. apply wpf_report. intros l Hl. wp_step. apply wpf_ask.
  apply wpf_report. intros l' Hl'.
  eapply wpf_mono; [apply IH|]. intros [] s' (h & -> & He). exists h. split; [done|].
  refine (effects_trans _ [_; _] [] [] _ _ _ [] _ _ He).
  eapply (effects_trans _ [_] [] [] _ [_] [] []); apply effects_bridge; done.
Qed.

Lemma log_media_quiet id info s0 : keeps False (adds media_quiet s0) (log_negotiated_media id info).
Proof.
  assert (forall i media, keeps False (adds media_quiet s0) (log_media_lines id i media)) as Hl.
  { intros i media. revert i. induction media as [|m media IH]; intros i; simpl; keeps_go. }
  unfold log_negotiated_media. apply keeps_bind; [apply Hl|keeps_go].
Qed.
End media_state.

(** ** What a client is told *)

Definition active_stream (type : media_type) (media : list call_media_info) : option nat :=
  fst <$> list_find (fun m => is_active_media type m = true) media.

Section info.
Context `{!Env, !PjJson} (max : Z) (Hmax : forall h, ans_call_get_max_count h = max).

(** The counters of the first active stream of a type, as pjsua gives them
    after history [h]; none without such a stream or if pjsua fails. *)
Definition counters_at (h : history) (id : Z) (type : media_type) : option (Z * Z) :=
  let h := A_call_get_max_count :: h in
  let '(st, info) := ans_call_get_info h id in
  if negb (ok st) then None else
  match active_stream type (call_media info) with
  | None => None
  | Some i =>
      let '(st, stat) := ans_call_get_stream_stat (A_call_get_info id :: h) id i in
      if ok st then Some (rtcp_tx_pkt stat, rtcp_rx_pkt stat) else None
  end.

Definition counter_members (tx_key rx_key : string) (counters : option (Z * Z)) : list jelem :=
  match counters with
  | Some (tx, rx) => [Elem tx_key (PJ_JSON_VAL_NUMBER (float_of_int tx));
                      Elem rx_key (PJ_JSON_VAL_NUMBER (float_of_int rx))]
  | None => []
  end.

Lemma rtp_loop_spec id type i media s :
  wp (rtp_counters_loop id type i media) (fun r s' => queries s s' /\
    (if ok r.1 then r.2 else None) =
    match active_stream type media with
    | None => None
    | Some j => let '(st, stat) := ans_call_get_stream_stat (hist s) id (i + j) in
                if ok st then Some (rtcp_tx_pkt stat, rtcp_rx_pkt stat) else None
    end) s.
Proof.
  revert i. unfold active_stream. induction media as [|m media IH]; intros i; simpl.
  { apply wpf_ret. split; [apply adds_refl|done]. }
  destruct (is_active_media type m) eqn:Hm; cbn [negb].
  - rewrite decide_True by done. simpl. rewrite Nat.add_0_r. wp_step. apply wpf_ask.
    destruct (ans_call_get_stream_stat _ _ _) as [st stat]. cbn beta iota.
    destruct (ok st) eqn:Hst; cbn [negb]; apply wpf_ret; cbn [fst snd]; rewrite ?Hst;
      (split; [by eapply queries_more, adds_refl|done]).
  - rewrite decide_False by done. eapply wpf_mono; [apply IH|]. intros r s' [Hq Hr].
    split; [done|]. rewrite Hr. clear. destruct (list_find _ media) as [[j x]|]; simpl; [|done].
    by rewrite Nat.add_succ_r.
Qed.

Lemma counters_spec id type s :
  in_range max id = true ->
  wp (pjsocky_call_get_rtp_counters id type) (fun r s' => queries s s' /\
    (if ok r.1 then r.2 else None) = counters_at (hist s) id type) s.
Proof.
  intros Hr. unfold pjsocky_call_get_rtp_counters, pjsocky_call_get_info, counters_at. wp_step.
  wp_step. unfold wpf at 1. rewrite (valid_run max Hmax), Hr, (in_range_pos max id Hr). cbn [negb].
  wp_step. apply wpf_ask. simpl hist. destruct (ans_call_get_info _ _) as [st info].
  cbn beta iota. apply wpf_ret. cbn iota.
  assert (Hq : queries s (s <| hist := A_call_get_info id :: A_call_get_max_count :: hist s |>)).
  { exists [A_call_get_info id; A_call_get_max_count]. by split; [|repeat constructor]. }
  destruct (ok st) eqn:Hst; cbn [negb]; [|apply wpf_ret; split; [exact Hq|by destruct (ok _)]].
  eapply wpf_mono; [apply rtp_loop_spec|]. intros r s' [Hq' Hv]. split; [|exact Hv].
  by eapply adds_trans.
Qed.

Lemma add_counters_spec `{!PjJsonLaws} id type tx_key rx_key n cs s :
  in_range max id = true ->
  wp (add_rtp_counters id type tx_key rx_key (obj n cs)) (fun r s' => queries s s' /\
    r = obj n (cs ++ counter_members tx_key rx_key (counters_at (hist s) id type))) s.
Proof.
  intros Hr. unfold add_rtp_counters. wp_step. eapply wpf_mono; [by apply counters_spec|].
  intros [st counters] s' [Hq <-]. cbn [fst snd].
  destruct counters as [[tx rx]|]; [destruct (ok st); cbn [negb]|];
    apply wpf_ret; (split; [done|]); simpl; autorewrite with jsonbuild.
  - by rewrite <-!app_assoc.
  - by rewrite app_nil_r.
  - destruct (ok st); simpl; by rewrite app_nil_r.
Qed.
End info.

(** ** Properties *)

(** Before anything is told: the state [s1] that a change of a call's media
    leaves. *)
Definition media_followed `{!Env} (id : Z) (info : call_info) (s s1 : St) : Prop :=
  exists watch report h,
    s1 = s <| call := after_media_state id info watch report (call s) |> <| hist := h |> /\
    connections h = connections (hist s) ++ audio_bridges (call_media info) /\
    captures h = captures (hist s)
      ++ chosen_capture id (g_video_capture_id (dev s)) (call_media info) /\
    timer_ops h = report_timers report (call s) ++ watch_timers id info watch (call s)
      ++ timer_ops (hist s) /\
    forall n, wire n h = wire n (hist s).

(** C30: A change of a call's media is followed through: if pjsua can describe
    the call, exactly these connections are asked of the conference bridge -
    each active audio stream to the sound device and back, in the order of
    the streams -, the capture device is changed once, to the selected one,
    exactly if one is selected and some video is active, the watchdog is
    cancelled if it was scheduled and scheduled anew, for this call and three
    seconds, exactly if the call sends video that has not been given up, and
    the report likewise, for every call and five seconds; the flags say
    whether they could be scheduled.  Then the media state is pushed, once and
    exactly as an event is ([push_made]): to a connected client goes the line
    of [call_media_state] with the kinds of active media, or a prefix of it
    with a failing status. *)
Theorem on_call_media_state_outcome `{!Env, !EnvLaws, !PjJson} e id (s : St) :
  select_waits -> ready s e ->
  wp (pjsocky_call_on_call_media_state id) (fun _ s' =>
    let '(st, info) := ans_call_get_info (hist s) id in
    if ok st then exists s1 st' data,
      media_followed id info s s1 /\
      push_made e "call_media_state" (build_call_media_state_data info) s1 s' st' data /\
      (is_Some (ev_framing e) ->
       delivered (event_object "call_media_state" (Some (build_call_media_state_data info))
         (acc s)) PJSOCKY_MAX_LINE st' data)
    else s' = s <| hist := info_failed id st (hist s) |>) s.
Proof.
  intros Hclk Hr. unfold pjsocky_call_on_call_media_state. wp_step. apply wpf_ask.
  destruct (ans_call_get_info (hist s) id) as [st info]. cbn beta iota.
  destruct (ok st); cbn [negb]; [|by apply wpf_log_call].
  pose proof (effects_more (A_call_get_info id) _ _ _ _ _ Logic.I (effects_none (hist s))) as He.
  wp_step. eapply wpf_mono; [apply apply_capture_spec|]. intros [] s1 (h1 & -> & He1).
  apply (effects_trans _ _ _ _ _ _ _ _ _ He) in He1. clear He. simpl dev in He1.
  wp_step. eapply wpf_mono; [apply connect_audio_spec|]. intros [] s2 (h2 & -> & He2).
  apply (effects_trans _ _ _ _ _ _ _ _ _ He1) in He2. clear He1.
  wp_step. eapply wpf_mono; [apply arm_watchdog_spec|]. intros [] s3 (watch & ->).
  pose proof (effects_trans _ _ _ _ _ _ _ _ _ He2 (effects_timers _ h2 (watch_timers_only id info watch (call s)))) as He3.
  wp_step. eapply wpf_mono; [apply arm_report_spec|]. intros [] s4 (report & Hs4).
  assert (s4 = s <| call := after_media_state id info watch report (call s) |>
    <| hist := report_timers report (call s) ++ watch_timers id info watch (call s) ++ h2 |>) as ->.
  { rewrite Hs4. cbn [call hist set_with]. by rewrite report_timers_watch. }
  clear Hs4. pose proof (effects_trans _ _ _ _ _ _ _ _ _ He3 (effects_timers _ _ (report_timers_only report (call s)))) as He4.
  wp_step. eapply wpf_mono; [apply log_media_quiet, adds_refl|]. intros [] s5 (l & -> & Hl).
  eapply effects_quiet, (effects_trans _ _ _ _ _ _ _ _ _ He4) in Hl.
  rewrite ?app_nil_r in Hl. destruct Hl as (Hb & Hc & Ht & Hw).
  eapply wpf_mono; [by apply (push_after e s)|]. intros [] s6 (st' & data & Hp).
  eexists _, st', data. split; [|split; [exact Hp|]].
  - exists watch, report,
      (l ++ report_timers report (call s) ++ watch_timers id info watch (call s) ++ h2).
    split; [reflexivity|]. split_and!; [exact Hb|exact Hc| |exact Hw].
    by rewrite Ht, app_nil_l, <-app_assoc.
  - intros [fp Hf]. apply push_made_writes in Hp as [_ Hd]. by rewrite Hf in Hd.
Qed.

(** C34: [call.get_info] tells what pjsua knows of the call at the time: an id
    out of range is refused; otherwise the result has exactly the members of
    the call's state, in this order, the flags of its active media, and for
    audio and for video the packet counts of the first active stream of the
    kind, left out where there is none or pjsua cannot tell; nothing is asked
    of pjsua but that, and nothing is changed. *)
Theorem call_get_info_outcome `{!Env, !PjJson, !PjJsonLaws} params n cs id max (s : St) :
  (forall h, ans_call_get_max_count h = max) ->
  get_int_member params "call_id" s = Ok (Some id, s) ->
  wp (cmd_call_get_info params (obj n cs)) (fun r s' => queries s s' /\
    if in_range max id then
      let h := A_call_get_max_count :: hist s in
      let '(st, info) := ans_call_get_info h id in
      if ok st then exists h',
        let number k z := Elem k (PJ_JSON_VAL_NUMBER (float_of_int z)) in
        let str k v := Elem k (PJ_JSON_VAL_STRING v) in
        let flag k type :=
          Elem k (PJ_JSON_VAL_BOOL (existsb (is_active_media type) (call_media info))) in
        r = (PJ_SUCCESS, obj n (cs ++
          [number "call_id" (call_info_id info);
           str "state" (pjsocky_call_state_str (call_state info));
           number "last_status" (last_status info);
           str "last_status_text" (last_status_text info);
           str "remote_info" (remote_info info);
           flag "has_audio" PJMEDIA_TYPE_AUDIO; flag "has_video" PJMEDIA_TYPE_VIDEO;
           number "connect_duration_sec" (connect_duration_sec info)] ++
          counter_members "audio_tx_packets" "audio_rx_packets"
            (counters_at (A_call_get_info id :: h) id PJMEDIA_TYPE_AUDIO) ++
          counter_members "video_tx_packets" "video_rx_packets"
            (counters_at h' id PJMEDIA_TYPE_VIDEO)))
      else r = (st, obj n cs)
    else r = (PJ_EINVAL, obj n cs)) s.
Proof.
  intros Hmax Hid. unfold cmd_call_get_info, pjsocky_call_get_info. wp_step.
  unfold wpf at 1. rewrite Hid. wp_step. wp_step. unfold wpf at 1. rewrite (valid_run max Hmax).
  destruct (in_range max id) eqn:Hr; cycle 1.
  { cbn [negb]. do 2 apply wpf_ret. split; [|done]. destruct (0 <=? id); [|apply adds_refl].
    by eapply queries_more, adds_refl. }
  rewrite (in_range_pos max id Hr). cbn [negb]. wp_step. apply wpf_ask. simpl hist.
  destruct (ans_call_get_info _ _) as [st info]. apply wpf_ret. cbn iota.
  set (s1 := s <| hist := _ |> <| hist := _ |>).
  assert (Hq : queries s s1).
  { exists [A_call_get_info id; A_call_get_max_count]. by split; [|repeat constructor]. }
  destruct (ok st) eqn:Hst; cbn [negb]; [|by apply wpf_ret].
  rewrite active_media_flags_correct. cbn iota. autorewrite with jsonbuild.
  wp_step. eapply wpf_mono; [by apply (add_counters_spec max)|]. intros _ s2 [Hq2 ->].
  wp_step. eapply wpf_mono; [by apply (add_counters_spec max)|]. intros _ s3 [Hq3 ->].
  apply wpf_ret. split; [by do 2 (eapply adds_trans; [eassumption|])|].
  exists (hist s2). do 2 f_equal. by rewrite <-!app_assoc.
Qed.

(** ** The theorems at work: a call with sound and a picture *)
Section witnesses.
Definition audio_line : call_media_info :=
  {| media_type_ := PJMEDIA_TYPE_AUDIO; media_status_ := PJSUA_CALL_MEDIA_ACTIVE;
     media_dir := PJMEDIA_DIR_ENCODING_DECODING; media_conf_slot := 3 |}.
Definition full_call : call_info :=
  {| call_info_id := 2; call_info_acc_id := 0; call_state := PJSIP_INV_STATE_CONFIRMED;
     last_status := 200; last_status_text := "OK"; remote_info := "sip:bob@example.org";
     call_media := [audio_line; video_line]; rem_aud_cnt := 1; rem_vid_cnt := 1;
     connect_duration_sec := 9 |}.
Definition full_media : script :=
  quiet <| sim_call_info := fun _ => (PJ_SUCCESS, full_call) |>
        <| sim_stream_stat := fun _ i =>
             (PJ_SUCCESS, {| rtcp_tx_pkt := 40 + Z.of_nat i; rtcp_rx_pkt := 90 |}) |>.
Lemma full_media_ok : script_ok full_media.
Proof. by destruct quiet_ok; split. Qed.
#[local] Instance media_env : Env := env_of full_media.
#[local] Instance media_laws : EnvLaws := env_of_laws _ full_media_ok.
#[local] Existing Instance sim_json.
#[local] Existing Instance sim_json_laws.

(** Capture device 1 is selected. *)
Definition with_camera : St := connected <| dev := {| g_video_capture_id := 1 |} |>.
Lemma with_camera_ready : ready with_camera connected_events.
Proof. by split; simpl; try lia. Qed.

Lemma on_call_media_state_outcome_witness :
  wp (pjsocky_call_on_call_media_state 2) (fun _ s' => exists s1 st' data,
    (connections (hist s1) = [(3, 0); (0, 3)] /\ captures (hist s1) = [(2, 1)] /\
     exists watch report,
       call s1 = after_media_state 2 full_call watch report (call with_camera) /\
       timer_ops (hist s1) = [A_schedule_timer MEDIA_REPORT {| sec := 5; msec := 0 |} report;
                              A_schedule_timer VIDEO_WATCHDOG {| sec := 3; msec := 0 |} watch]) /\
    push_made connected_events "call_media_state" (build_call_media_state_data full_call) s1 s' st' data)
    with_camera.
Proof.
  eapply wpf_mono; [exact (on_call_media_state_outcome connected_events 2 with_camera
    (sim_select_waits _) with_camera_ready)|].
  intros [] s' (s1 & st' & data & (watch & report & h & -> & Hb & Hc & Ht & _) & Hp & _).
  exists (with_camera <| call := after_media_state 2 full_call watch report (call with_camera) |>
            <| hist := h |>), st', data.
  split; [|exact Hp]. split; [exact Hb|]. split; [exact Hc|]. exists watch, report. by split.
Defined.

Definition info_params : option jelem :=
  Some (pjsocky_json_add_number (obj "params" []) "call_id" (float_of_int 2)).
Lemma call_get_info_outcome_witness :
  wp (cmd_call_get_info info_params (obj "result" [])) (fun r _ =>
    let number k z := Elem k (PJ_JSON_VAL_NUMBER (float_of_int z)) in
    r = (PJ_SUCCESS, obj "result"
      [number "call_id" 2; Elem "state" (PJ_JSON_VAL_STRING "CONFIRMED");
       number "last_status" 200; Elem "last_status_text" (PJ_JSON_VAL_STRING "OK");
       Elem "remote_info" (PJ_JSON_VAL_STRING "sip:bob@example.org");
       Elem "has_audio" (PJ_JSON_VAL_BOOL true); Elem "has_video" (PJ_JSON_VAL_BOOL true);
       number "connect_duration_sec" 9;
       number "audio_tx_packets" 40; number "audio_rx_packets" 90;
       number "video_tx_packets" 41; number "video_rx_packets" 90])) with_camera.
Proof.
  eapply wpf_mono; [apply (call_get_info_outcome info_params "result" [] 2 4 with_camera);
    vm_compute; reflexivity|].
  intros r s' [_ [h' Hr]]. exact Hr.
Defined.
End witnesses.
