(* ===== verification/Schema.v ===== *)
(** * The types of the protocol (docs/PROTOCOL.md, src/proto/dispatch.c)

    A type of JSON values, the type docs/PROTOCOL.md gives the result of
    every command, the data of every event and the parameters every command
    requires, and the theorems that the daemon's messages have these types
    and that requests without these parameters are rejected. *)

From S2P Require Import Prelude Float32 Pjlib Env SimEnv State Framing Compact SimJson Wire JsonUtil Events Invariant Device Account Im Call Dispatch Requests Server.
#[local] Open Scope string_scope.
#[local] Open Scope list_scope.
#[local] Open Scope Z_scope.

(** ** Types *)

(** Objects have their required members in the order of the type and then,
    for each group of optional members, all of the group or none. *)
Inductive ty : Type :=
| TString
| TOneOf (values : list string)
| TInt
| TBool
| TArray (element : ty)
| TObject (required : list (string * ty)) (optional : list (list (string * ty))).

Inductive has_type : ty -> jvalue -> Prop :=
| has_string s : has_type TString (PJ_JSON_VAL_STRING s)
| has_one_of vs s : s ∈ vs -> has_type (TOneOf vs) (PJ_JSON_VAL_STRING s)
| has_int z : has_type TInt (PJ_JSON_VAL_NUMBER (float_of_int z))
| has_bool b : has_type TBool (PJ_JSON_VAL_BOOL b)
| has_array t es :
    Forall (fun e => has_type t (el_value e)) es ->
    has_type (TArray t) (PJ_JSON_VAL_ARRAY es)
| has_object required optional cs extra :
    Forall2 (fun f e => el_name e = f.1 /\ has_type f.2 (el_value e)) required cs ->
    Forall2 (fun g es => es = [] \/
      Forall2 (fun f e => el_name e = f.1 /\ has_type f.2 (el_value e)) g es) optional extra ->
    has_type (TObject required optional) (PJ_JSON_VAL_OBJ (cs ++ concat extra)).

Definition record (fields : list (string * ty)) : ty := TObject fields [].

Lemma has_record fields cs :
  Forall2 (fun f e => el_name e = f.1 /\ has_type f.2 (el_value e)) fields cs ->
  has_type (record fields) (PJ_JSON_VAL_OBJ cs).
Proof.
  intros Hf. rewrite <-(app_nil_r cs). change (@nil jelem) with (concat (@nil (list jelem))).
  by constructor.
Qed.

(** ** The protocol *)

(** The states of a call and the directions of a video device that
    docs/PROTOCOL.md lists.  The daemon has one more of each: it sends
    "UNKNOWN" for a state that is not pjsip's, and "none" for a device that
    neither captures nor renders. *)
Definition documented_states : list string :=
  ["NULL"; "CALLING"; "INCOMING"; "EARLY"; "CONNECTING"; "CONFIRMED"; "DISCONNECTED"].
Definition call_states : list string := documented_states ++ ["UNKNOWN"].
Definition documented_dirs : list string := ["capture"; "render"; "capture_render"].
Definition device_dirs : list string := documented_dirs ++ ["none"].
Definition version_type : ty :=
  record [("protocol_version", TString); ("daemon_version", TString); ("pjsip_version", TString)].
Definition audio_device : ty :=
  record [("id", TInt); ("name", TString); ("input_channels", TInt); ("output_channels", TInt)].
Definition video_device (dirs : list string) : ty :=
  record [("id", TInt); ("name", TString); ("driver", TString); ("dir", TOneOf dirs)].
Definition call_info_type (states : list string) : ty :=
  TObject [("call_id", TInt); ("state", TOneOf states); ("last_status", TInt);
           ("last_status_text", TString); ("remote_info", TString); ("has_audio", TBool);
           ("has_video", TBool); ("connect_duration_sec", TInt)]
          [[("audio_tx_packets", TInt); ("audio_rx_packets", TInt)];
           [("video_tx_packets", TInt); ("video_rx_packets", TInt)]].

(** The results, [states] and [dirs] being the words for a call's state and a
    device's direction: with the documented ones, the types of
    docs/PROTOCOL.md. *)
Definition RESULT_TYPES (states dirs : list string) : list (string * ty) :=
  [ ("ping", record []);
    ("version.get", version_type);
    ("status.get", record
       [("state", TOneOf ["idle"; "registering"; "registered"; "in_call"]); ("acc_id", TInt);
        ("reg_status", TInt); ("call_id", TInt)]);
    ("account.configure", record [("acc_id", TInt)]);
    ("account.register", record []);
    ("account.unregister", record []);
    ("account.remove", record []);
    ("device.list_audio", record [("devices", TArray audio_device)]);
    ("device.list_video", record [("devices", TArray (video_device dirs))]);
    ("device.set_audio", record []);
    ("device.set_video", record []);
    ("call.dial", record [("call_id", TInt)]);
    ("call.hangup", record []);
    ("call.hangup_all", record []);
    ("call.get_info", call_info_type states);
    ("call.answer", record []);
    ("config.set_ring_timeout", record []);
    ("config.get_ring_timeout", record [("seconds", TInt)]);
    ("im.send", record []);
    ("im.typing", record []) ].

Definition EVENT_TYPES : list (string * ty) :=
  [ ("hello", version_type);
    ("error", record [("code", TOneOf ["bad_request"; "connection_refused"]);
                      ("message", TString)]);
    ("reg_state", record [("acc_id", TInt); ("status", TInt); ("status_text", TString);
                          ("registered", TBool)]);
    ("incoming_call", record [("call_id", TInt); ("acc_id", TInt); ("from", TString);
                              ("has_video", TBool)]);
    ("call_state", record [("call_id", TInt); ("state", TOneOf call_states);
                           ("last_status", TInt); ("last_status_text", TString)]);
    ("call_media_state", record [("call_id", TInt); ("has_audio", TBool); ("has_video", TBool)]);
    ("incoming_message", record [("from", TString); ("to", TString); ("mime_type", TString);
                                 ("body", TString)]);
    ("message_status", record [("to", TString); ("body", TString); ("status", TInt);
                               ("reason", TString)]);
    ("typing", record [("from", TString); ("to", TString); ("is_typing", TBool)]) ].

(** The parameters a command cannot do without. *)
Definition REQUIRED_PARAMS : list (string * list (string * ty)) :=
  [ ("account.configure", [("sip_uri", TString); ("registrar_uri", TString);
                           ("username", TString); ("password", TString)]);
    ("device.set_audio", [("capture_id", TInt); ("playback_id", TInt)]);
    ("device.set_video", [("capture_id", TInt)]);
    ("call.dial", [("uri", TString)]);
    ("call.hangup", [("call_id", TInt)]);
    ("call.get_info", [("call_id", TInt)]);
    ("call.answer", [("call_id", TInt)]);
    ("config.set_ring_timeout", [("seconds", TInt)]);
    ("im.send", [("to", TString); ("content", TString)]);
    ("im.typing", [("to", TString); ("is_typing", TBool)]) ].

(** The first entry under a name. *)
Definition type_of (types : list (string * ty)) (name : string) : option ty :=
  '(_, entry) ← list_find (fun entry => entry.1 = name) types; Some entry.2.

(** A parameter is given with a value of the kind its type asks for; a number
    need not be integral. *)
Definition kind_ok (t : ty) (v : jvalue) : bool :=
  match t, v with
  | TString, PJ_JSON_VAL_STRING _ | TInt, PJ_JSON_VAL_NUMBER _ | TBool, PJ_JSON_VAL_BOOL _ => true
  | _, _ => false
  end.
Definition given (params : option jelem) (f : string * ty) : bool :=
  match member params f.1 with Some v => kind_ok f.2 v | None => false end.

Lemma call_state_named st : pjsocky_call_state_str st ∈ call_states.
Proof. destruct st; unfold call_states, documented_states; simpl; set_solver. Qed.
Lemma vid_dir_named dir : vid_dir_str dir ∈ device_dirs.
Proof. unfold vid_dir_str, device_dirs, documented_dirs. repeat case_match; set_solver. Qed.

(** What pjsua tells of calls and devices is among these words. *)
Definition states_within `{!Env} (states : list string) : Prop := forall h id st info,
  ans_call_get_info h id = (st, info) -> ok st = true ->
  pjsocky_call_state_str (call_state info) ∈ states.
Definition dirs_within `{!Env} (dirs : list string) : Prop := forall h cap st devices,
  ans_vid_enum_devs h cap = (st, devices) -> ok st = true ->
  Forall (fun d => vid_dir_str (vid_dir d) ∈ dirs) devices.

(** The daemon's own words are always enough; the documented ones are enough
    for states that are pjsip's and devices with a direction. *)
Lemma states_within_all `{!Env} : states_within call_states.
Proof. intros h id st info _ _. apply call_state_named. Qed.
Lemma dirs_within_all `{!Env} : dirs_within device_dirs.
Proof. intros h cap st devices _ _. apply Forall_true. intros d. apply vid_dir_named. Qed.
Lemma states_within_documented `{!Env} :
  (forall h id st info n, ans_call_get_info h id = (st, info) ->
     call_state info <> PJSIP_INV_STATE_OTHER n) -> states_within documented_states.
Proof.
  intros Hn h id st info Hi _. specialize (fun n => Hn h id st info n Hi).
  destruct (call_state info) eqn:Hst; unfold documented_states; simpl; set_solver.
Qed.

(** ** Results *)
Section results.
Context `{!Env, !EnvLaws, !PjJson, !PjJsonLaws}.

(** A success carries an object of the type. *)
Definition typed (t : ty) (r : pj_status * jelem) : Prop :=
  ok r.1 = true -> exists cs, r.2 = obj "result" cs /\ has_type t (PJ_JSON_VAL_OBJ cs).
Definition typed_handler (t : ty) (fn : option jelem -> jelem -> C (pj_status * jelem)) : Prop :=
  forall params, results (typed t) (fn params (obj "result" [])).

Lemma typed_failed t st e : negb (ok st) = true -> typed t (st, e).
Proof. intros Hst Hok. simpl in Hok. by rewrite Hok in Hst. Qed.

Lemma typed_record fields st cs :
  Forall2 (fun f e => el_name e = f.1 /\ has_type f.2 (el_value e)) fields cs ->
  typed (record fields) (st, obj "result" cs).
Proof. intros Hf _. exists cs. split; [done|]. by apply has_record. Qed.

Lemma typed_empty st : typed (record []) (st, obj "result" []).
Proof. by apply typed_record. Qed.

Lemma typed_status_only m :
  results (typed (record [])) (status_only m (obj "result" [])).
Proof. unfold status_only. apply results_then. intros st. apply results_ret, typed_empty. Qed.

End results.

(** Members added one after the other have their types. *)
Ltac fields_go :=
  autorewrite with jsonbuild; rewrite <-?app_assoc; simpl app;
  first [apply typed_record | apply has_record];
  repeat (apply Forall2_cons; split; [split; [done|]|]); try apply Forall2_nil_2;
  simpl; first [constructor; set_solver | constructor | idtac].

(** Like [results_go], keeping what the program has tested. *)
Ltac typed_step :=
  lazymatch goal with
  | |- results _ (status_only _ _) => apply typed_status_only
  | |- results _ (mret _) => apply results_ret
  | |- results _ (let '(_, _) := ?p in _) => destruct p
  | |- results _ (if negb (ok ?st) then _ else _) =>
      let H := fresh in destruct (negb (ok st)) eqn:H;
      [try (apply results_ret; by apply typed_failed)|]
  | |- results _ (if ?b then _ else _) => destruct b
  | |- results _ (match ?x with _ => _ end) => destruct x
  | |- results _ (_ ≫= _) => apply results_then; intros ?
  end.
Ltac typed_go := repeat (typed_step; cbn beta iota zeta).

Section handlers.
Context `{!Env, !EnvLaws, !PjJson, !PjJsonLaws}.
Context (states dirs : list string) (Hstates : states_within states) (Hdirs : dirs_within dirs).

Lemma typed_ping : typed_handler (record []) cmd_ping.
Proof. intros params. apply results_ret, typed_empty. Qed.

Lemma typed_version_get : typed_handler version_type cmd_version_get.
Proof. intros params. apply results_ret. unfold pjsocky_version_fill. fields_go. Qed.

Lemma typed_ring_timeout : typed_handler (record [("seconds", TInt)]) cmd_config_get_ring_timeout.
Proof. intros params. apply results_then. intros n. apply results_ret. fields_go. Qed.

Lemma typed_set_ring_timeout : typed_handler (record []) cmd_config_set_ring_timeout.
Proof. intros params. unfold cmd_config_set_ring_timeout. typed_go; apply typed_empty. Qed.

(** An operation with an out-parameter sets it on success. *)
Definition sets {A} (r : pj_status * option A) : Prop := ok r.1 = true -> is_Some r.2.

Lemma sets_failed {A} st (o : option A) : negb (ok st) = true -> sets (st, o).
Proof. intros Hst Hok. simpl in Hok. by rewrite Hok in Hst. Qed.
Lemma sets_some {A} st (a : A) : sets (st, Some a).
Proof. by eexists. Qed.

Lemma configure_sets uri registrar user password realm :
  results sets (pjsocky_account_configure uri registrar user password realm).
Proof.
  unfold pjsocky_account_configure. typed_go; first [by apply sets_some | by apply sets_failed].
Qed.

Lemma dial_sets uri video : results sets (pjsocky_call_dial uri video).
Proof.
  unfold pjsocky_call_dial. typed_go; first [by apply sets_some | by apply sets_failed].
Qed.

Lemma typed_configure : typed_handler (record [("acc_id", TInt)]) cmd_account_configure.
Proof.
  intros params. unfold cmd_account_configure. repeat case_match; try by apply results_ret, typed_failed.
  eapply results_bind; [apply configure_sets|]. intros [st [id|]] Hs; typed_go.
  - fields_go.
  - intros Hok. by destruct (Hs Hok).
Qed.

Lemma typed_dial : typed_handler (record [("call_id", TInt)]) cmd_call_dial.
Proof.
  intros params. unfold cmd_call_dial. case_match; [|by apply results_ret, typed_failed].
  eapply results_bind; [apply dial_sets|]. intros [st [id|]] Hs; typed_go.
  - fields_go.
  - intros Hok. by destruct (Hs Hok).
Qed.

Lemma typed_status_get :
  typed_handler (record
    [("state", TOneOf ["idle"; "registering"; "registered"; "in_call"]); ("acc_id", TInt);
     ("reg_status", TInt); ("call_id", TInt)]) cmd_status_get.
Proof.
  intros params. unfold cmd_status_get. do 2 (apply results_then; intros ?).
  apply (results_bind _ (fun r => ok r.1 = true -> exists state a r', 
    state ∈ ["idle"; "registering"; "registered"; "in_call"] /\
    r.2 = obj "result" [Elem "state" (PJ_JSON_VAL_STRING state);
      Elem "acc_id" (PJ_JSON_VAL_NUMBER (float_of_int a));
      Elem "reg_status" (PJ_JSON_VAL_NUMBER (float_of_int r'))])).
  - typed_go.
    + intros _. eexists _, _, _. cbn [snd].
      split; [|autorewrite with jsonbuild; reflexivity]. set_solver.
    + intros Hok. match goal with H : negb _ = true |- _ => simpl in Hok; by rewrite Hok in H end.
    + intros _. eexists _, _, _. cbn [snd].
      split; [|autorewrite with jsonbuild; reflexivity].
      repeat case_match; set_solver.
  - intros [st e] Hr. typed_go. simpl in Hr. destruct (ok st); [|done].
    destruct (Hr eq_refl) as (state & z & r' & Hin & ->). fields_go.
Qed.

Lemma add_devices_obj {D} (describe : jelem -> D -> jelem) ds n cs :
  add_devices describe ds (obj n cs)
  = obj n (cs ++ [Elem "devices" (PJ_JSON_VAL_ARRAY (describe (obj "" []) <$> ds))]).
Proof.
  unfold add_devices. rewrite elem_array_spec, elem_obj_nil.
  enough (forall es, foldl (fun arr d => pj_json_elem_add arr (describe (obj "" []) d))
    (Elem "devices" (PJ_JSON_VAL_ARRAY es)) ds
    = Elem "devices" (PJ_JSON_VAL_ARRAY (es ++ (describe (obj "" []) <$> ds)))) as ->.
  { by autorewrite with jsonbuild. }
  induction ds as [|d ds IH]; intros es; simpl; [by rewrite app_nil_r|].
  by rewrite elem_add_array, IH, <-app_assoc.
Qed.

Lemma typed_devices {D} (describe : jelem -> D -> jelem) t st ds :
  Forall (fun d => has_type t (el_value (describe (obj "" []) d))) ds ->
  typed (record [("devices", TArray t)]) (st, add_devices describe ds (obj "result" [])).
Proof.
  intros Hd. rewrite add_devices_obj. apply typed_record. repeat constructor. simpl.
  by apply Forall_fmap.
Qed.

Lemma typed_list_audio :
  typed_handler (record [("devices", TArray audio_device)]) cmd_device_list_audio.
Proof.
  intros params. unfold cmd_device_list_audio. typed_go. apply typed_devices, Forall_true. intros d.
  unfold describe_audio. autorewrite with jsonbuild. simpl. fields_go.
Qed.

Lemma typed_list_video :
  typed_handler (record [("devices", TArray (video_device dirs))]) cmd_device_list_video.
Proof using Type*.
  intros params. unfold cmd_device_list_video, pjsocky_device_list_video.
  intros s. wp_step. apply wpf_ask. destruct (ans_vid_enum_devs _ _) as [st devices] eqn:Hd.
  cbn beta iota. destruct (negb (ok st)) eqn:Hst; apply wpf_ret; [by apply typed_failed|].
  apply negb_false_iff in Hst. apply typed_devices.
  eapply Forall_impl; [by eapply Hdirs|]. intros d Hin. cbv beta in Hin.
  unfold describe_video. autorewrite with jsonbuild. simpl. fields_go.
Qed.
(** The members of an object have the types of [fields]. *)
Definition members (fields : list (string * ty)) (cs : list jelem) : Prop :=
  Forall2 (fun f e => el_name e = f.1 /\ has_type f.2 (el_value e)) fields cs.

Lemma counters_group id type tx rx cs :
  results (fun e => exists es, e = obj "result" (cs ++ es) /\
    (es = [] \/ members [(tx, TInt); (rx, TInt)] es))
    (add_rtp_counters id type tx rx (obj "result" cs)).
Proof.
  unfold add_rtp_counters. typed_go.
  1, 3: exists []; rewrite app_nil_r; auto.
  autorewrite with jsonbuild. rewrite <-app_assoc. eexists. split; [done|]. right.
  repeat constructor.
Qed.

Lemma call_info_members info :
  pjsocky_call_state_str (call_state info) ∈ states ->
  let '(has_audio, has_video) := active_media_flags (call_media info) in
  members [("call_id", TInt); ("state", TOneOf states); ("last_status", TInt);
           ("last_status_text", TString); ("remote_info", TString); ("has_audio", TBool);
           ("has_video", TBool); ("connect_duration_sec", TInt)]
    [Elem "call_id" (PJ_JSON_VAL_NUMBER (float_of_int (call_info_id info)));
     Elem "state" (PJ_JSON_VAL_STRING (pjsocky_call_state_str (call_state info)));
     Elem "last_status" (PJ_JSON_VAL_NUMBER (float_of_int (last_status info)));
     Elem "last_status_text" (PJ_JSON_VAL_STRING (last_status_text info));
     Elem "remote_info" (PJ_JSON_VAL_STRING (remote_info info));
     Elem "has_audio" (PJ_JSON_VAL_BOOL has_audio); Elem "has_video" (PJ_JSON_VAL_BOOL has_video);
     Elem "connect_duration_sec" (PJ_JSON_VAL_NUMBER (float_of_int (connect_duration_sec info)))].
Proof using Type.
  intros Hin. destruct (active_media_flags _). unfold members.
  repeat (apply Forall2_cons; split; [split; [done|]|]); try apply Forall2_nil_2;
    constructor. exact Hin.
Qed.

(** A call that is described has one of the states. *)
Definition described (r : pj_status * option call_info) : Prop :=
  ok r.1 = true -> exists info, r.2 = Some info /\ pjsocky_call_state_str (call_state info) ∈ states.

Lemma get_info_described id : results described (pjsocky_call_get_info id).
Proof using Hstates.
  unfold pjsocky_call_get_info. apply results_then. intros [|]; cbn [negb]; [|by apply results_ret].
  intros s. wp_step. apply wpf_ask. destruct (ans_call_get_info _ _) as [st info] eqn:Hi.
  apply wpf_ret. intros Hok. exists info. split; [done|]. by eapply Hstates.
Qed.
Lemma offered_video_sets id : results sets (pjsocky_call_remote_offered_video id).
Proof using Hstates.
  unfold pjsocky_call_remote_offered_video.
  eapply results_bind; [apply get_info_described|]. intros [st [info|]] Hs; typed_go;
    first [by apply sets_some | by apply sets_failed | intros Hok; by destruct (Hs Hok) as (? & ? & _)].
Qed.

Lemma typed_get_info : typed_handler (call_info_type states) cmd_call_get_info.
Proof using Type*.
  intros params. unfold cmd_call_get_info. apply results_then; intros [id|]; cycle 1.
  { by apply results_ret, typed_failed. }
  eapply results_bind; [apply get_info_described|]. intros [st [info|]] Hs; cycle 1.
  { apply results_ret. intros Hok. by destruct (Hs Hok) as (? & ? & _). }
  typed_step. assert (pjsocky_call_state_str (call_state info) ∈ states) as Hin.
  { destruct Hs as (i & [= ->] & Hin); [by apply negb_false_iff|exact Hin]. }
  pose proof (call_info_members info Hin) as Hm.
  destruct (active_media_flags _) as [ha hv]. cbv zeta. autorewrite with jsonbuild. simpl app.
  eapply results_bind; [apply counters_group|]. intros e (audio & -> & Ha).
  eapply results_bind; [apply counters_group|]. intros e' (video & -> & Hv).
  apply results_ret. intros _. eexists. split; [reflexivity|]. rewrite <-app_assoc.
  rewrite <-(app_nil_r video). apply (has_object _ _ _ [audio; video]); [exact Hm|].
  apply Forall2_cons; split; [exact Ha|]. apply Forall2_cons; split; [exact Hv|constructor].
Qed.

Lemma typed_answer : typed_handler (record []) cmd_call_answer.
Proof.
  intros params. unfold cmd_call_answer. apply results_then; intros [id|]; cycle 1.
  { by apply results_ret, typed_failed. }
  apply results_then; intros code. cbv zeta. destruct (get_bool_member _ _); [typed_go|].
  eapply results_bind; [apply offered_video_sets|]. intros [st [v|]] Hs; typed_go.
  intros Hok. by destruct (Hs Hok).
Qed.

Lemma typed_table :
  Forall (fun entry => exists t, type_of (RESULT_TYPES states dirs) entry.1 = Some t /\ typed_handler t entry.2)
    CMD_TABLE.
Proof.
  unfold CMD_TABLE. repeat apply Forall_cons_2; [..|by apply Forall_nil_2]; cbn [fst snd].
  all: eexists; split; [reflexivity|].
  all: first [apply typed_version_get | apply typed_ring_timeout | apply typed_configure
    | apply typed_dial | apply typed_status_get | apply typed_list_audio | apply typed_list_video
    | apply typed_get_info | apply typed_answer | apply typed_set_ring_timeout
    | apply typed_ping | idtac].
  all: intros params.
  all: unfold cmd_account_register, cmd_account_unregister, cmd_account_remove,
    cmd_device_set_audio, cmd_device_set_video, cmd_call_hangup, cmd_call_hangup_all, cmd_im_send,
    cmd_im_typing; typed_go; by apply typed_failed.
Qed.

Lemma type_of_command name fn :
  find_cmd name = Some fn -> exists t, type_of (RESULT_TYPES states dirs) name = Some t /\ typed_handler t fn.
Proof.
  intros Hf%find_in_table_spec; [|apply table_names_distinct].
  exact (proj1 (Forall_forall _ _) typed_table (name, fn) Hf).
Qed.
End handlers.

(** ** Parameters *)
Section parameters.
Context `{!Env, !PjJson, !PjJsonLaws} (F : Prop).

(** A request without its parameters is refused and changes nothing. *)
Definition refuses (fields : list (string * ty))
    (fn : option jelem -> jelem -> C (pj_status * jelem)) : Prop :=
  forall params result s, params_ok F params -> existsb (fun f => negb (given params f)) fields = true ->
    wpf F (fn params result) (fun r s' => r = (PJ_EINVAL, result) /\ s' = s) s.

Lemma get_string_given params name :
  get_string_member params name = None <-> given params (name, TString) = false.
Proof.
  rewrite get_string_member_spec. unfold given, string_member. simpl.
  destruct (member params name) as [[]|]; done.
Qed.
Lemma get_bool_given params name :
  get_bool_member params name = None <-> given params (name, TBool) = false.
Proof.
  unfold get_bool_member, given. simpl. rewrite <-json_find_member.
  by destruct (pjsocky_json_find params name) as [[? []]|].
Qed.
Lemma get_int_given params name s :
  params_ok F params ->
  wpf F (get_int_member params name) (fun o s' =>
    s' = s /\ (o = None <-> given params (name, TInt) = false)) s.
Proof.
  intros Hp. unfold get_int_member, given. simpl. rewrite <-json_find_member.
  destruct (pjsocky_json_find params name) as [[n [| |f| | |]]|] eqn:Hf; try by apply wpf_ret.
  wp_step. destruct (int_of_float f) as [z|] eqn:Hz; [by do 2 apply wpf_ret|].
  destruct Hp as [HF|Hp]; [exact HF|]. destruct (Hp _ _ _ Hf). congruence.
Qed.

Lemma refused_string params name t (o : option string) :
  o = get_string_member params name -> t = given params (name, TString) ->
  is_Some o /\ t = true \/ o = None /\ t = false.
Proof.
  intros -> ->. pose proof (get_string_given params name) as Hg.
  destruct (get_string_member _ _); [left|by right; rewrite (proj1 Hg)].
  split; [by eexists|]. destruct (given _ _); [done|]. discriminate (proj2 Hg eq_refl).
Qed.

End parameters.

(** Case distinction on whether a parameter is given. *)
Ltac string_case params name :=
  destruct (refused_string params name _ _ eq_refl eq_refl) as [[[? ->] ->]|[-> ->]].

Section refusals.
Context `{!Env, !PjJson, !PjJsonLaws} (F : Prop).
Abbreviation refuses := (refuses F).

Lemma refuses_configure :
  refuses [("sip_uri", TString); ("registrar_uri", TString); ("username", TString);
           ("password", TString)] cmd_account_configure.
Proof.
  intros params result s _. unfold cmd_account_configure. cbn [existsb].
  string_case params "sip_uri"; [|by intros _; apply wpf_ret].
  string_case params "registrar_uri"; [|by intros _; apply wpf_ret].
  string_case params "username"; [|by intros _; apply wpf_ret].
  string_case params "password"; [done|by intros _; apply wpf_ret].
Qed.

Lemma refuses_dial : refuses [("uri", TString)] cmd_call_dial.
Proof.
  intros params result s _. unfold cmd_call_dial. cbn [existsb].
  string_case params "uri"; [done|by intros _; apply wpf_ret].
Qed.

Lemma refuses_im_send : refuses [("to", TString); ("content", TString)] cmd_im_send.
Proof.
  intros params result s _. unfold cmd_im_send. cbn [existsb].
  string_case params "to"; [|by intros _; apply wpf_ret].
  string_case params "content"; [done|by intros _; apply wpf_ret].
Qed.

Lemma refuses_im_typing : refuses [("to", TString); ("is_typing", TBool)] cmd_im_typing.
Proof.
  intros params result s _. unfold cmd_im_typing. cbn [existsb].
  string_case params "to"; [|by intros _; apply wpf_ret].
  pose proof (get_bool_given params "is_typing") as Hg.
  destruct (get_bool_member _ _); [|by intros _; apply wpf_ret].
  destruct (given _ _); [done|]. discriminate (proj2 Hg eq_refl).
Qed.

(** The commands whose first parameter is a number. *)
Lemma refuses_int name fields params result s (k : Z -> C (pj_status * jelem)) :
  params_ok F params ->
  existsb (fun f => negb (given params f)) ((name, TInt) :: fields) = true ->
  (forall z, existsb (fun f => negb (given params f)) fields = true ->
     wpf F (k z) (fun r s' => r = (PJ_EINVAL, result) /\ s' = s) s) ->
  wpf F (o ← get_int_member params name;
         match o with None => mret (PJ_EINVAL, result) | Some z => k z end)
    (fun r s' => r = (PJ_EINVAL, result) /\ s' = s) s.
Proof.
  intros Hp He Hk. wp_step. eapply wpf_mono; [by apply get_int_given|].
  intros [z|] s' [-> Hg]; [|by apply wpf_ret]. apply Hk. cbn [existsb] in He.
  destruct (given _ _); [done|]. discriminate (proj2 Hg eq_refl).
Qed.

Lemma refuses_ints :
  refuses [("capture_id", TInt); ("playback_id", TInt)] cmd_device_set_audio /\
  refuses [("capture_id", TInt)] cmd_device_set_video /\
  refuses [("call_id", TInt)] cmd_call_hangup /\ refuses [("call_id", TInt)] cmd_call_get_info /\
  refuses [("call_id", TInt)] cmd_call_answer /\
  refuses [("seconds", TInt)] cmd_config_set_ring_timeout.
Proof.
  split_and!; intros params result s Hp He; (eapply refuses_int; [exact Hp|exact He|]);
    try by intros z. intros z He'. by eapply refuses_int.
Qed.

Lemma refuses_table :
  Forall (fun entry => exists fn, find_cmd entry.1 = Some fn /\ refuses entry.2 fn)
    REQUIRED_PARAMS.
Proof.
  destruct refuses_ints as (? & ? & ? & ? & ? & ?).
  unfold REQUIRED_PARAMS. repeat apply Forall_cons_2; [..|by apply Forall_nil_2]; cbn [fst snd].
  all: eexists; split; [apply find_in_table_spec; [apply table_names_distinct|]|].
  all: try (unfold CMD_TABLE; by repeat first [left|right]).
  all: first [assumption | apply refuses_configure | apply refuses_dial | apply refuses_im_send
    | apply refuses_im_typing].
Qed.
End refusals.

Lemma failure_not_ok `{!Env, !PjJson, !PjJsonLaws} st id code message id' result :
  (st, Some (fail id code message)) <> (PJ_SUCCESS, Some (ok_response id' result)).
Proof. by rewrite fail_spec. Qed.

(** ** Properties *)

(** C17: Every successful response has the type of the result of its command:
    a line answered with [ok] names a command of the table, and the result's
    members are exactly those of that command's type, in its order, each of
    its type - texts, integers, truth values, one of the listed words -, with
    the packet counters of [call.get_info] in pairs.  The words for a call's
    state and a camera's direction are the documented ones as long as pjsua
    reports states of pjsip's and devices that capture or render
    ([states_within_documented]); in general the daemon has two more,
    "UNKNOWN" and "none" ([states_within_all], [dirs_within_all]). *)
Theorem responses_typed `{!Env, !EnvLaws, !PjJson, !PjJsonLaws} states dirs line s :
  states_within states -> dirs_within dirs ->
  wlp (pjsocky_dispatch_line line) (fun r _ => forall id result,
    r = (PJ_SUCCESS, Some (ok_response id result)) ->
    exists cmd t, string_member (pj_json_parse line) "cmd" = Some cmd /\
      type_of (RESULT_TYPES states dirs) cmd = Some t /\ has_type t (PJ_JSON_VAL_OBJ result)) s.
Proof.
  intros Hst Hdirs. rewrite dispatch_unfold.
  destruct (string_member _ "id") as [id|]; [|by apply wpf_ret].
  destruct (string_member _ "cmd") as [cmd|]; cycle 1.
  { apply wpf_ret. intros id' result Hr. by apply failure_not_ok in Hr. }
  destruct (find_cmd cmd) as [fn|] eqn:Hf; cycle 1.
  { apply wpf_ret. intros id' result Hr. by apply failure_not_ok in Hr. }
  destruct (type_of_command states dirs Hst Hdirs cmd fn Hf) as (t & Ht & Hfn). unfold run_command.
  rewrite elem_obj_nil. wp_step. eapply wpf_mono; [apply Hfn|]. intros [st e] s' He.
  unfold typed in He. cbn [fst snd] in He. destruct (ok st); cbn [negb]; apply wpf_ret; intros id' result Hr.
  - destruct (He eq_refl) as (cs & -> & Hcs). rewrite respond_ok_spec in Hr.
    injection Hr as <- <-. by exists cmd, t.
  - by apply failure_not_ok in Hr.
Qed.

(** C18: A request whose parameters are not those of its command - one that the
    protocol requires is missing, or has another JSON type - is answered
    [invalid_params], and nothing else happens: no library function is
    called and no state changes. *)
Theorem ill_typed_params_refused `{!Env, !PjJson, !PjJsonLaws} line id cmd fields s :
  line_ok False line ->
  string_member (pj_json_parse line) "id" = Some id ->
  string_member (pj_json_parse line) "cmd" = Some cmd ->
  (cmd, fields) ∈ REQUIRED_PARAMS ->
  existsb (fun f => negb (given (pjsocky_json_find (pj_json_parse line) "params") f)) fields = true ->
  pjsocky_dispatch_line line s =
    Ok (PJ_SUCCESS, Some (error_response id "invalid_params" (pj_strerror PJ_EINVAL)), s).
Proof.
  intros Hl Hid Hcmd Hin He. rewrite dispatch_unfold, Hid, Hcmd.
  destruct (proj1 (Forall_forall _ _) (refuses_table False) _ Hin) as (fn & Hf & Hfn).
  cbn [fst snd] in Hf, Hfn. rewrite Hf.
  apply wp_eq. unfold run_command. wp_step. eapply wpf_mono; [by apply Hfn|].
  intros [st e] s' [[= -> ->] ->]. apply wpf_ret. by rewrite fail_spec.
Qed.

(** An event as the protocol describes it. *)
Definition typed_event (e : jelem) : Prop :=
  exists name t data, type_of EVENT_TYPES name = Some t /\ has_type t data /\
    e = Elem "" (PJ_JSON_VAL_OBJ [Elem "event" (PJ_JSON_VAL_STRING name); Elem "data" data]).

Lemma event_typed `{!Env, !PjJson, !PjJsonLaws} name b a t cs :
  type_of EVENT_TYPES name = Some t -> b a (obj "data" []) = obj "data" cs ->
  has_type t (PJ_JSON_VAL_OBJ cs) -> typed_event (event_object name (Some b) a).
Proof.
  intros Ht Hb Hcs. exists name, t, (PJ_JSON_VAL_OBJ cs). split_and!; [done..|].
  unfold event_object. rewrite !elem_obj_nil, Hb. by autorewrite with jsonbuild.
Qed.

Ltac event_go :=
  eapply event_typed; [reflexivity|autorewrite with jsonbuild; simpl app; reflexivity|];
  apply has_record;
  repeat (apply Forall2_cons; split; [split; [done|]|]); try apply Forall2_nil_2;
  simpl; first [constructor; set_solver | constructor].

Lemma event_types_spec `{!Env, !PjJson, !PjJsonLaws} (a : account_st) :
  let event name b := typed_event (event_object name (Some b) a) in
  event "hello" build_hello_data /\
  (forall message, event "error" (build_error_event_data "bad_request" message)) /\
  typed_event (refusal a) /\
  (forall info, event "reg_state" (build_reg_state_data info)) /\
  (forall info, event "incoming_call" (build_incoming_call_data info)) /\
  (forall info, event "call_state" (build_call_state_data info)) /\
  (forall info, event "call_media_state" (build_call_media_state_data info)) /\
  (forall from to mime body,
     event "incoming_message" (build_incoming_message_data from to mime body)) /\
  (forall to body st reason,
     event "message_status" (build_message_status_data to body st reason)) /\
  (forall from to typing, event "typing" (build_typing_data from to typing)).
Proof.
  cbv zeta. split_and!; intros; try (unfold build_hello_data, pjsocky_version_fill,
    build_error_event_data, build_reg_state_data, build_incoming_call_data,
    build_incoming_message_data, build_message_status_data, build_typing_data; event_go; fail).
  - change (refusal a) with (event_object "error" (Some (build_error_event_data
      "connection_refused" "another control connection is active")) a).
    unfold build_error_event_data. event_go.
  - unfold build_call_state_data. eapply event_typed; [reflexivity|autorewrite with jsonbuild;
      simpl app; reflexivity|]. apply has_record.
    repeat (apply Forall2_cons; split; [split; [done|]|]); try apply Forall2_nil_2;
      constructor. apply call_state_named.
  - destruct (active_media_flags (call_media info)) as [ha hv] eqn:Hf.
    eapply event_typed; [reflexivity|unfold build_call_media_state_data; rewrite Hf;
      autorewrite with jsonbuild; simpl app; reflexivity|]. apply has_record. by repeat constructor.
Qed.

(** C19: Every event the daemon sends has the type the protocol gives it: the
    hello and error events of the server, that of a refused client, and
    those of the nine callbacks - whatever the SIP stack reports; the state of
    a call is a documented word or "UNKNOWN". *)
Theorem events_typed `{!Env, !PjJson, !PjJsonLaws} (a : account_st) :
  let event name b := typed_event (event_object name (Some b) a) in
  event "hello" build_hello_data /\
  (forall message, event "error" (build_error_event_data "bad_request" message)) /\
  typed_event (refusal a) /\
  (forall info, event "reg_state" (build_reg_state_data info)) /\
  (forall info, event "incoming_call" (build_incoming_call_data info)) /\
  (forall info, event "call_state" (build_call_state_data info)) /\
  (forall info, event "call_media_state" (build_call_media_state_data info)) /\
  (forall from to mime body,
     event "incoming_message" (build_incoming_message_data from to mime body)) /\
  (forall to body st reason,
     event "message_status" (build_message_status_data to body st reason)) /\
  (forall from to typing, event "typing" (build_typing_data from to typing)).
Proof. apply event_types_spec. Qed.

(** ** The theorems at work *)
Section witnesses.
#[local] Instance typed_env : Env := env_of ringing.
#[local] Instance typed_laws : EnvLaws := env_of_laws _ ringing_ok.
#[local] Existing Instance sim_json.
#[local] Existing Instance sim_json_laws.

(** With these answers of pjsua the words are the documented ones. *)
Lemma typed_documented : states_within documented_states /\ dirs_within documented_dirs.
Proof.
  split.
  - apply states_within_documented. by intros h id st info n [= _ <-].
  - intros h cap st devices [= _ <-] _. apply Forall_take. constructor; [|done].
    unfold documented_dirs. vm_compute. left.
Qed.

Lemma responses_typed_witness :
  exists response, pjsocky_dispatch_line status_line registered =
    Ok (PJ_SUCCESS, Some (ok_response "7" response),
        registered <| hist := [A_acc_get_info 0] |>) /\
  exists cmd t, string_member (pj_json_parse status_line) "cmd" = Some cmd /\
    type_of (RESULT_TYPES documented_states documented_dirs) cmd = Some t /\
    has_type t (PJ_JSON_VAL_OBJ response).
Proof.
  eexists. split; [vm_compute; reflexivity|].
  pose proof (responses_typed _ _ status_line registered (proj1 typed_documented) (proj2 typed_documented))
    as Hw. unfold wpf in Hw.
  vm_compute pjsocky_dispatch_line in Hw. exact (Hw _ _ eq_refl).
Defined.

(** A hangup that names its call by a string. *)
Definition ill_typed_line : bytes :=
  json_text "{'id':'9','cmd':'call.hangup','params':{'call_id':'2'}}".
Lemma ill_typed_params_refused_witness :
  pjsocky_dispatch_line ill_typed_line registered =
    Ok (PJ_SUCCESS, Some (error_response "9" "invalid_params" (pj_strerror PJ_EINVAL)), registered).
Proof.
  apply (ill_typed_params_refused ill_typed_line "9" "call.hangup" [("call_id", TInt)] registered).
  - right. intros name n f Hf.
    change (pjsocky_json_find (pj_json_parse ill_typed_line) "params") with
      (Some (Elem "params" (PJ_JSON_VAL_OBJ [Elem "call_id" (PJ_JSON_VAL_STRING "2")]))) in Hf.
    simpl in Hf. by case_match.
  - vm_compute. reflexivity.
  - vm_compute. reflexivity.
  - unfold REQUIRED_PARAMS. do 4 right. left.
  - vm_compute. reflexivity.
Defined.

Lemma events_typed_witness :
  typed_event (event_object "call_state" (Some (build_call_state_data ringing_call))
    initial_account).
Proof. apply (events_typed initial_account). Defined.
End witnesses.
