(* ===== verification/ServerInput.v ===== *)
(** * The input of a control connection (src/proto/server.c, handle_conn_input)

    What the receive loop does is stated on the byte stream: the requests it
    serves are the newline-terminated lines of what was pending and what was
    received, each once, in order, and what follows the last newline stays
    pending. *)

From S2P Require Import Prelude Float32 Pjlib Env State Framing Compact Wire JsonUtil Events Invariant Device Account Im Call Dispatch Server.

(** Only the bookkeeping of the receive buffer changed. *)
Definition reframed (s s' : St) : Prop :=
  exists f, s' = s <| conn := conn s <| conn_framing := f |> |> /\
    f_sock f = f_sock (conn_framing (conn s)) /\
    f_write_timeout_msec f = f_write_timeout_msec (conn_framing (conn s)).

(** [served ls s st s']: from [s] to [s'] the lines [ls] were handled one
    after the other, up to the first that [handle_line] asks to drop the
    connection for; between two lines only the receive buffer changed. *)
Inductive served `{!Env, !PjJson} : list bytes -> St -> pj_status -> St -> Prop :=
| served_done s : served [] s PJ_SUCCESS s
| served_line l ls s0 s s1 st s2 :
    reframed s0 s -> handle_line l s = Ok (PJ_SUCCESS, s1) ->
    served ls s1 st s2 -> served (l :: ls) s0 st s2
| served_drop l ls s0 s st s1 :
    reframed s0 s -> handle_line l s = Ok (st, s1) -> st <> PJ_SUCCESS ->
    served (l :: ls) s0 st s1.

(** What the loop has done when it returns [st], [p] having been pending. *)
Definition input_outcome `{!Env, !PjJson} (p : bytes) (s : St) (st : pj_status) (s' : St)
  : Prop :=
  let '(ls, r) := split_lines p in
  exists st1 s1, served ls s st1 s1 /\
    if ok st1 then
      if decide (PJSOCKY_MAX_LINE <= length r)%nat then
        st = PJ_ETOOBIG /\ exists s2, reframed s1 s2 /\
          pending (conn_framing (conn s2)) = [] /\
          report_long_line s2 = Ok (tt, s')
      else st = PJ_SUCCESS /\ reframed s1 s' /\ pending (conn_framing (conn s')) = r
    else st = st1 /\ s' = s1.

Definition with_framing (x : ctx) (f : framing) : ctx :=
  {| x_events := x_events x; x_conn := (x_conn x) <| conn_framing := f |>;
     x_srv := x_srv x; x_live := x_live x |}.

Lemma reframed_trans s1 s2 s3 : reframed s1 s2 -> reframed s2 s3 -> reframed s1 s3.
Proof.
  intros (f & -> & Hs & Ht) (g & -> & Hs' & Ht'). exists g. simpl in *.
  split_and!; [done|congruence|congruence].
Qed.

Lemma served_reframed `{!Env, !PjJson} ls s0 s st s' :
  ls <> [] -> reframed s0 s -> served ls s st s' -> served ls s0 st s'.
Proof.
  intros Hls Hr Hs. destruct Hs as [|l ls s s1 s2 st s3 Hr1|l ls s s1 st s2 Hr1]; [done| |].
  - eapply served_line; [by eapply reframed_trans|done..].
  - eapply served_drop; [by eapply reframed_trans|done..].
Qed.

Section input.
Context `{!Env, !EnvLaws, !PjJson} (F : Prop).

Lemma keeps_push_error x code message :
  serviceable F x -> keeps F (daemon_ok x) (push_error_event code message).
Proof. intros Hs. unfold push_error_event. keeps_go. Qed.

Lemma keeps_report_bad_line x :
  serviceable F x -> keeps F (daemon_ok x) report_bad_line.
Proof.
  intros Hs. pose proof (keeps_push_error x) as Hp. unfold report_bad_line. keeps_go.
Qed.

Lemma keeps_send_response x response :
  serviceable F x -> keeps F (daemon_ok x) (send_response response).
Proof. intros Hs. unfold send_response. keeps_go. Qed.

Lemma keeps_handle_line x line :
  serviceable F x -> line_ok F line -> keeps F (daemon_ok x) (handle_line line).
Proof.
  intros Hs Hl. pose proof (keeps_report_bad_line x) as Hb. pose proof (keeps_send_response x) as Hr.
  unfold handle_line. keeps_go.
Qed.

Lemma keeps_report_long_line x : serviceable F x -> keeps F (daemon_ok x) report_long_line.
Proof.
  intros Hs. pose proof (keeps_push_error x) as Hp. unfold report_long_line. keeps_go.
Qed.

Lemma put_framing_ok x f s :
  daemon_ok x s ->
  daemon_ok (with_framing x f) (s <| conn := conn s <| conn_framing := f |> |>).
Proof.
  intros [(He & Hc & Hv & Hl) ? ? ?]. split; try done.
  split_and!; simpl; [done|by rewrite Hc|done|done].
Qed.

Lemma with_framing_serviceable x f :
  serviceable F x ->
  f_write_timeout_msec f = f_write_timeout_msec (conn_framing (x_conn x)) ->
  serviceable F (with_framing x f).
Proof. intros [] Ht. split; simpl; rewrite ?Ht; done. Qed.

Lemma outcome_line p n s0 s s1 st s' :
  memchr LF p = Some n -> reframed s0 s -> handle_line (take n p) s = Ok (PJ_SUCCESS, s1) ->
  input_outcome (drop (S n) p) s1 st s' -> input_outcome p s0 st s'.
Proof.
  intros Hn Hr Hh Hout. unfold input_outcome in *. rewrite (split_lines_memchr _ _ Hn).
  destruct (split_lines (drop (S n) p)) as [ls r]. simpl.
  destruct Hout as (st1 & s2 & Hs & Hst). exists st1, s2. split; [|exact Hst].
  by eapply served_line.
Qed.

Lemma outcome_drop p n s0 s st s1 :
  memchr LF p = Some n -> reframed s0 s -> handle_line (take n p) s = Ok (st, s1) ->
  st <> PJ_SUCCESS -> input_outcome p s0 st s1.
Proof.
  intros Hn Hr Hh Hst. unfold input_outcome. rewrite (split_lines_memchr _ _ Hn).
  exists st, s1. split; [by eapply served_drop|].
  rewrite (proj2 (ok_false st)) by done. done.
Qed.

Lemma memchr_None_split p : memchr LF p = None -> split_lines p = ([], p).
Proof. intros Hn%memchr_None. by apply split_lines_no_newline. Qed.

(** The framing object after the loop. *)
Definition input_kept (x : ctx) (s' : St) : Prop :=
  exists f', wf_framing f' /\ f_sock f' = f_sock (conn_framing (x_conn x)) /\
    f_write_timeout_msec f' = f_write_timeout_msec (conn_framing (x_conn x)) /\
    daemon_ok (with_framing x f') s'.

Lemma input_loop_spec fuel x s :
  serviceable F x -> daemon_ok x s -> wf_framing (conn_framing (x_conn x)) ->
  Forall (line_ok F) (split_lines (pending (conn_framing (x_conn x)))).1 ->
  (length (pending (conn_framing (x_conn x))) < fuel)%nat ->
  wpf F (input_loop fuel) (fun st s' =>
    input_kept x s' /\ input_outcome (pending (conn_framing (x_conn x))) s st s') s.
Proof.
  revert x s. induction fuel as [|fuel IH]; intros x s Hs Hok Hwf Hls Hfuel; [lia|].
  cbn [input_loop]. unfold get_conn_framing, put_conn_framing.
  assert (Hc : conn s = x_conn x) by apply Hok.
  do 2 wp_step. rewrite Hc. set (f := conn_framing (x_conn x)) in *.
  destruct (memchr LF (pending f)) as [n|] eqn:Hn.
  - rewrite (split_lines_memchr _ _ Hn) in Hls. apply Forall_cons in Hls as [Hl Hls].
    destruct (extract_line_SUCCESS f n Hwf Hn)
      as (f' & Hx & Hwf' & Hp & Hw & Hlt & Hst & Hsock & Htime).
    destruct (extract_refines_aux f Hwf) as (st0 & line0 & f0 & Hx' & _ & Hspec).
    rewrite Hx in Hx'. injection Hx' as <- <- <-. unfold spec_extract in Hspec. rewrite Hn in Hspec.
    wp_step. eapply wpf_check; [exact Hx|]. cbn beta iota. wp_step. apply wpf_modify.
    set (s1 := set_with conn _ s).
    assert (Hr : reframed s s1) by (exists f'; split_and!; [done|by rewrite Hc..]).
    assert (Hok1 : daemon_ok (with_framing x f') s1) by (by apply put_framing_ok).
    assert (Hs1 : serviceable F (with_framing x f')) by (by apply with_framing_serviceable).
    rewrite decide_False, decide_False by done.
    wp_step. eapply (wpf_check _ _ (take n (pending f))); [congruence|].
    wp_step. eapply wpf_mono; [by apply wpf_run, (keeps_handle_line _ _ Hs1 Hl)|].
    intros st s2 [Hok2 Hrun]. cbv beta in *. destruct (ok st) eqn:Hst2; cbn [negb].
    + apply ok_true in Hst2 as ->. eapply wpf_mono.
      { apply (IH (with_framing x f') s2 Hs1 Hok2); [done|by simpl; rewrite Hp|]. simpl. rewrite Hp, length_drop.
        pose proof (length_pending f Hwf). lia. }
      intros st' s3 [(f3 & Hwf3 & Hs3 & Ht3 & Hok3) Hout]. simpl in *. split.
      * exists f3. split_and!; [done|by rewrite Hs3|by rewrite Ht3|exact Hok3].
      * rewrite Hp in Hout. by eapply outcome_line.
    + apply ok_false in Hst2. apply wpf_ret. split; [|by eapply outcome_drop].
      exists f'. by split_and!.
  - pose proof (extract_line_other f Hwf Hn) as Hx.
    wp_step. eapply wpf_check; [exact Hx|].
    unfold input_outcome. rewrite (memchr_None_split _ Hn), (length_pending f Hwf).
    case_decide as Hbig; cbn beta iota; wp_step; apply wpf_modify;
      set (s1 := set_with conn _ s).
    + rewrite decide_False by done. rewrite decide_True by done.
      set (f' := f <| f_len := 0%nat |> <| f_start := 0%nat |>) in *.
      assert (Hok1 : daemon_ok (with_framing x f') s1) by (by apply put_framing_ok).
      assert (Hs1 : serviceable F (with_framing x f')) by (by apply with_framing_serviceable).
      wp_step. eapply wpf_mono; [by apply wpf_run, (keeps_report_long_line _ Hs1)|].
      intros [] s2 [Hok2 Hrun]. apply wpf_ret. split.
      * exists f'. split_and!; try done. destruct Hwf. split; simpl; lia.
      * exists PJ_SUCCESS, s. split; [constructor|]. simpl. split; [done|].
        exists s1. split_and!; [exists f'; split_and!; [done|by rewrite Hc..]|done|done].
    + rewrite decide_True by done. apply wpf_ret. split.
      * exists f. split_and!; [done..|]. by apply put_framing_ok.
      * exists PJ_SUCCESS, s. split; [constructor|]. simpl. split_and!; [done| |done].
        exists f. split_and!; [done|by rewrite Hc..].
Qed.

(** What a fill does to the process: one [recv], if there is room. *)
Definition after_recv (f : framing) (s : St) : St :=
  if decide (PJSOCKY_MAX_LINE <= f_len f)%nat then s
  else s <| hist := A_sock_recv (f_sock f) (PJSOCKY_MAX_LINE - f_len f) :: hist s |>.

Lemma fill_state f s : wlp (pjsocky_framing_fill f) (fun _ s' => s' = after_recv f s) s.
Proof.
  unfold pjsocky_framing_fill. wp_step.
  destruct (framing_reclaim f) as [f0|] eqn:Hf; [|done]. eapply wpf_check; [done|].
  assert (f_sock f0 = f_sock f /\ f_len f0 = f_len f) as [Hk Hl].
  { unfold framing_reclaim in Hf. case_decide; [|by simplify_eq].
    case_decide; simpl in Hf; [|by simplify_eq/=].
    destruct (read_range _ _ _); [|done]. simpl in Hf.
    destruct (write_range _ _ _); [|done]. by simplify_eq/=. }
  unfold after_recv. rewrite <-Hl. destruct (Z.leb_spec (Z.of_nat PJSOCKY_MAX_LINE - Z.of_nat (f_len f0)) 0);
    [apply wpf_ret; by rewrite decide_True by lia|]. rewrite decide_False by lia.
  wp_step. apply wpf_ask.
  replace (Z.to_nat _) with (PJSOCKY_MAX_LINE - f_len f0)%nat by lia. rewrite Hk.
  destruct (ans_sock_recv _ _ _) as [st data]. cbn beta iota.
  destruct (negb (ok st)); [by apply wpf_ret|].
  case_decide; [by apply wpf_ret|]. wp_step.
  destruct (write_range _ _ _); [|done]. eapply wpf_check; [done|]. by apply wpf_ret.
Qed.

(** What [recv] delivers to [fill], and what is pending after it. *)
Definition filled (s : St) : pj_status * bytes :=
  let f := conn_framing (conn s) in
  spec_fill (ans_sock_recv (hist s) (f_sock f) (PJSOCKY_MAX_LINE - f_len f)) (pending f).

(** Between two states only that [recv] and the receive buffer differ. *)
Definition received (s s' : St) : Prop := reframed (after_recv (conn_framing (conn s)) s) s'.

(** The line logged when [fill] says the connection is at its end. *)
Definition input_ended (st : pj_status) : action :=
  if decide (st = PJ_EEOF) then A_log 4 "Client disconnected" []
  else A_perror 2 st "Socket read error" [].

Definition conn_input_outcome (s : St) (st : pj_status) (s' : St) : Prop :=
  let '(st0, p) := filled s in
  if decide (st0 = PJ_EPENDING) then
    st = PJ_SUCCESS /\ received s s' /\ pending (conn_framing (conn s')) = p
  else if ok st0 then exists s1, received s s1 /\ input_outcome p s1 st s'
  else st = st0 /\ exists s1, received s s1 /\ s' = s1 <| hist := input_ended st0 :: hist s1 |>.

Lemma fill_total f s :
  wf_framing f ->
  wpf F (pjsocky_framing_fill f) (fun r s' =>
    s' = after_recv f s /\ wf_framing r.2 /\
    (r.1, pending r.2) =
      spec_fill (ans_sock_recv (hist s) (f_sock f) (PJSOCKY_MAX_LINE - f_len f)) (pending f) /\
    f_sock r.2 = f_sock f /\ f_write_timeout_msec r.2 = f_write_timeout_msec f) s.
Proof.
  intros Hwf. pose proof (fill_refines_aux f s Hwf) as Hr. pose proof (fill_state f s) as Hst.
  unfold wpf in *. destruct (pjsocky_framing_fill f s) as [[[st f'] s']| |]; [|done..].
  by split.
Qed.

Lemma received_intro s s1 f' :
  s1 = after_recv (conn_framing (conn s)) s ->
  f_sock f' = f_sock (conn_framing (conn s)) ->
  f_write_timeout_msec f' = f_write_timeout_msec (conn_framing (conn s)) ->
  received s (s1 <| conn := conn s1 <| conn_framing := f' |> |>).
Proof. intros -> Hs Ht. exists f'. unfold after_recv. case_decide; by split_and!. Qed.

Lemma after_recv_stable I `{!Stable I} f s : I s -> I (after_recv f s).
Proof. intros Hs. unfold after_recv. case_decide; [done|]. by apply stable. Qed.

Lemma handle_conn_input_spec x s :
  serviceable F x -> daemon_ok x s -> wf_framing (conn_framing (x_conn x)) ->
  Forall (line_ok F) (split_lines (filled s).2).1 ->
  wpf F handle_conn_input (fun st s' =>
    input_kept x s' /\ conn_input_outcome s st s') s.
Proof.
  intros Hs Hok Hwf Hls. unfold handle_conn_input, get_conn_framing, put_conn_framing.
  assert (Hc : conn s = x_conn x) by apply Hok. rewrite <-Hc in Hwf.
  unfold conn_input_outcome. do 3 wp_step.
  eapply wpf_mono; [by apply fill_total|].
  intros [st0 f'] s1 (Hst & Hwf' & Hfill & Hsock & Htime). cbn [fst snd] in *.
  assert (filled s = (st0, pending f')) as Hf by (by rewrite Hfill). rewrite Hf in *. clear Hfill Hf.
  assert (Hok1 : daemon_ok x s1) by (subst s1; by apply (after_recv_stable (daemon_ok x))).
  pose proof (received_intro s s1 f' Hst Hsock Htime) as Hrec. clear Hst.
  rewrite Hc in Hsock, Htime.
  pose proof (put_framing_ok x f' s1 Hok1) as Hok2.
  pose proof (with_framing_serviceable x f' Hs Htime) as Hs2.
  wp_step. apply wpf_modify. revert Hok2 Hrec.
  change (set_with conn _ s1) with (s1 <| conn := conn s1 <| conn_framing := f' |> |>).
  generalize (s1 <| conn := conn s1 <| conn_framing := f' |> |>). clear s1 Hok1.
  intros s2 Hok2 Hrec.
  assert (Hk : input_kept x s2) by (exists f'; by split_and!).
  assert (Hp : pending (conn_framing (conn s2)) = pending f') by (by rewrite (proj1 (proj2 (ok_fixed _ _ Hok2)))).
  destruct (decide (st0 = PJ_EPENDING)); [by apply wpf_ret|].
  assert (Hend : forall a, input_ended st0 = a -> wpf F (log_call a;; mret st0) (fun st s' =>
    input_kept x s' /\ st = st0 /\ exists s1, received s s1 /\
      s' = s1 <| hist := input_ended st0 :: hist s1 |>) s2).
  { intros a <-. wp_step. apply wpf_log_call, wpf_ret. split; [|by split; [|exists s2]].
    exists f'. split_and!; [done..|]. apply stable; [|done]. by unfold input_ended; case_decide. }
  destruct (decide (st0 = PJ_EEOF)) as [->|]; [by apply Hend|].
  destruct (ok st0) eqn:Hst0; cbn [negb];
    [|apply Hend; unfold input_ended; by rewrite decide_False]. clear Hend.
  eapply wpf_mono.
  { apply (input_loop_spec _ (with_framing x f') s2 Hs2 Hok2); [done|done|]. simpl.
    rewrite (length_pending _ Hwf'). lia. }
  intros st s3 [(f3 & Hwf3 & Hs3 & Ht3 & Hok3) Hout]. simpl in *. split.
  - exists f3. split_and!; [done|by rewrite Hs3|by rewrite Ht3|exact Hok3].
  - by exists s2.
Qed.
End input.
