(* ===== verification/ServerLoop.v ===== *)
(** * The server loop (src/proto/server.c)

    The invariant between two iterations - which ties the connection object,
    the coordinator's pointer and the open sockets together - and that every
    operation of the server keeps it, whatever the rest of the process does
    in between. *)

From S2P Require Import Prelude Float32 Pjlib Env State Framing Compact Wire JsonUtil Events Invariant Device Account Im Call Dispatch Server ServerInput.

Definition b2z (b : bool) : Z := if b then 1 else 0.

(** The coordinator's state, and the sockets open, for a connection object. *)
Definition events_for (c : conn_state) : events :=
  {| ev_lock_held := false;
     ev_framing := if active c then Some CONN_FRAMING else None |}.
Definition sockets_for (c : conn_state) (v : server) (n : Z) : Z :=
  b2z (bool_decide (listen_sock v = n)) + b2z (active c && bool_decide (conn_sock c = n)).

Definition server_ctx (c : conn_state) (v : server) : ctx :=
  {| x_events := events_for c; x_conn := c; x_srv := v; x_live := sockets_for c v |}.

Record server_ok (c : conn_state) (v : server) (s : St) : Prop := {
  so_daemon : daemon_ok (server_ctx c v) s;
  so_framing : wf_framing (conn_framing c);
  so_timeout : 0 <= f_write_timeout_msec (conn_framing c);
  so_srv_timeout : 0 <= srv_write_timeout_msec v;
  so_sock : active c = true -> f_sock (conn_framing c) = conn_sock c }.

(** ** Updates of the context *)
Definition with_conn (x : ctx) (c : conn_state) : ctx :=
  {| x_events := x_events x; x_conn := c; x_srv := x_srv x; x_live := x_live x |}.
Definition with_events (x : ctx) (e : events) : ctx :=
  {| x_events := e; x_conn := x_conn x; x_srv := x_srv x; x_live := x_live x |}.
Definition with_live (x : ctx) (l : Z -> Z) : ctx :=
  {| x_events := x_events x; x_conn := x_conn x; x_srv := x_srv x; x_live := l |}.

Lemma ok_with_conn x f s :
  daemon_ok x s -> daemon_ok (with_conn x (f (x_conn x))) (s <| conn := f (conn s) |>).
Proof. intros [(? & Hc & ? & ?) ? ? ?]. split; try done. by rewrite <-Hc. Qed.
Lemma ok_with_events x e s :
  daemon_ok x s -> daemon_ok (with_events x e) (s <| g_instance := Some e |>).
Proof. intros [(? & ? & ? & ?) ? ? ?]. by split. Qed.
Lemma ok_live_ext x l s :
  (forall n, x_live x n = l n) -> daemon_ok x s -> daemon_ok (with_live x l) s.
Proof.
  intros Hl [(? & ? & ? & Hlive) ? ? ?]. split; try done. split_and!; try done.
  intros n. simpl. by rewrite <-Hl.
Qed.

(** A socket number closed, and one opened. *)
Definition closed (n : Z) (x : ctx) : ctx :=
  with_live x (fun m => x_live x m - b2z (bool_decide (n = m))).
Definition opened (n : Z) (x : ctx) : ctx :=
  with_live x (fun m => x_live x m + b2z (bool_decide (n = m))).

Lemma ok_closed n x s :
  daemon_ok x s -> daemon_ok (closed n x) (s <| hist := A_close n :: hist s |>).
Proof.
  intros [(? & ? & ? & Hl) ? ? ?]. split; try done. split_and!; try done.
  intros m. simpl. rewrite Hl. unfold b2z.
  by case_decide; case_bool_decide.
Qed.
Lemma ok_opened n l x s :
  daemon_ok x s ->
  daemon_ok (opened n x) (s <| hist := A_accept l (PJ_SUCCESS, n) :: hist s |>).
Proof.
  intros [(? & ? & ? & Hl) ? ? ?]. split; try done. split_and!; try done.
  intros m. simpl. rewrite Hl. unfold b2z.
  by case_decide; case_bool_decide.
Qed.
Lemma ok_accept_failed l st n x s :
  st <> PJ_SUCCESS -> daemon_ok x s ->
  daemon_ok x (s <| hist := A_accept l (st, n) :: hist s |>).
Proof.
  intros Hst [(? & ? & ? & Hl) ? ? ?]. split; try done. split_and!; try done.
  intros m. simpl. rewrite <-Hl. by destruct st.
Qed.

Section loop.
Context `{!Env, !EnvLaws, !PjJson} (F : Prop).
Context (Hclk : F \/ select_waits) (Hlong : 1 <= LONG_BIT).
Context (Hlines : forall line, line_ok F line).

Lemma server_serviceable c v s : server_ok c v s -> serviceable F (server_ctx c v).
Proof. intros []. by split. Qed.

(** ** Events and connections *)

Lemma events_set_conn_spec x fp (Q : unit -> St -> Prop) s :
  ev_lock_held (x_events x) = false -> daemon_ok x s ->
  (forall s', daemon_ok (with_events x {| ev_lock_held := false; ev_framing := fp |}) s' ->
     Q tt s') ->
  wpf F (i ← pjsocky_events_instance; pjsocky_events_set_conn i fp) Q s.
Proof.
  intros Hl Hok HQ. unfold pjsocky_events_instance.
  assert (Hi : g_instance s = Some (x_events x)) by apply Hok.
  do 3 wp_step. rewrite Hi. wp_step. simpl. unfold pjsocky_events_set_conn.
  wp_step. eapply wpf_lock; [done|done|].
  apply (ok_with_events x (x_events x <| ev_lock_held := true |>)) in Hok.
  apply (stable _ A_mutex_lock) in Hok; [|done].
  change (daemon_ok (with_events x (x_events x <| ev_lock_held := true |>))
    (locked (x_events x) s)) in Hok.
  forget_state Hok. clear s Hi.
  wp_step. unfold set_events. wp_step.
  eapply wpf_deref_events; [apply Hok|]. apply wpf_modify.
  apply (ok_with_events _ (x_events x <| ev_lock_held := true |> <| ev_framing := fp |>)) in Hok.
  eapply wpf_unlock; [done|]. apply HQ.
  apply (ok_with_events _ {| ev_lock_held := false; ev_framing := fp |}) in Hok.
  by apply (stable _ A_mutex_unlock) in Hok.
Qed.

Lemma events_set_conn_then {A} x fp (k : C A) Q s :
  ev_lock_held (x_events x) = false -> daemon_ok x s ->
  (forall s', daemon_ok (with_events x {| ev_lock_held := false; ev_framing := fp |}) s' ->
     wpf F k Q s') ->
  wpf F (i ← pjsocky_events_instance; pjsocky_events_set_conn i fp;; k) Q s.
Proof.
  intros Hl Hok HQ.
  pose proof (events_set_conn_spec x fp (fun _ => wpf F k Q) s Hl Hok HQ) as Hb.
  apply wpf_bind_inv in Hb. apply wpf_bind. eapply wpf_mono; [exact Hb|].
  intros i s' Hi. by apply wpf_bind.
Qed.

Lemma keeps_write_json x f elem n :
  0 <= f_write_timeout_msec f ->
  keeps F (daemon_ok x) (pjsocky_framing_write_json f elem n).
Proof.
  intros Ht s Hok. eapply wpf_mono; [by apply write_json_delivered|].
  intros st s' (data & Hs & _). apply sends_actions in Hs as (l & -> & Hl & _).
  apply (stable_app (daemon_ok x)); [|done]. eapply Forall_impl; [exact Hl|].
  intros a. apply event_action_no_timer.
Qed.

Lemma keeps_set_nonblocking x n : keeps F (daemon_ok x) (set_nonblocking n).
Proof. unfold set_nonblocking. keeps_go. Qed.
#[local] Hint Resolve keeps_set_nonblocking : keeps_db.

Lemma refuse_conn_spec x n s :
  daemon_ok x s -> 0 <= srv_write_timeout_msec (x_srv x) ->
  wpf F (refuse_conn n) (fun _ s' => daemon_ok (closed n x) s') s.
Proof.
  intros Hok Ht. unfold refuse_conn. keeps_over Hok. clear a. keeps_over Hok. rename a into pool.
  eapply (wpf_keeps_bind _ (daemon_ok x)); [exact Hok| |].
  - apply keeps_when. apply keeps_bind; [keeps_go|intros _].
    intros s1 Hok1. do 2 wp_step. do 2 wp_step.
    assert (Hv : srv s1 = x_srv x) by apply Hok1. rewrite Hv.
    eapply (wpf_keeps_bind _ (daemon_ok x)); [exact Hok1|by apply keeps_write_json|].
    intros st s2 Hok2. by apply keeps_log_call; [exact _|..].
  - intros [] s1 Hok1. apply wpf_log_call. by apply ok_closed.
Qed.

Lemma close_conn_spec c v s :
  server_ok c v s -> active c = true ->
  wpf F close_conn (fun _ s' => server_ok (c <| active := false |>) v s') s.
Proof.
  intros [Hok Hwf Ht Hv Hs] Ha. unfold close_conn.
  eapply events_set_conn_then; [|exact Hok|]; [done|].
  clear s Hok. intros s Hok. wp_step. apply wpf_log_call.
  apply (stable _ (A_pool_release "pjsocky-conn")) in Hok; [|done].
  forget_state Hok. clear s. rename s0 into s.
  wp_step. wp_step. assert (Hc : conn s = c) by apply Hok. rewrite Hc. wp_step.
  apply wpf_log_call. apply wpf_modify.
  apply (ok_closed (conn_sock c)) in Hok.
  apply (ok_with_conn _ (fun c => c <| active := false |>)) in Hok.
  split; try done. eapply (ok_live_ext _ (sockets_for (c <| active := false |>) v)) in Hok.
  - exact Hok.
  - intros n. simpl. unfold sockets_for. simpl. rewrite Ha. simpl. lia.
Qed.

Lemma wf_framing_init sock t f :
  wf_framing f -> wf_framing (pjsocky_framing_init sock t f).
Proof. intros []. split; simpl; [done|lia|done]. Qed.

(** The coordinator has the connection, the server does not count it yet. *)
Definition greeting_ctx (c : conn_state) (v : server) : ctx :=
  {| x_events := events_for (c <| active := true |>); x_conn := c; x_srv := v;
     x_live := sockets_for (c <| active := true |>) v |}.
Record greeting_ok (c : conn_state) (v : server) (s : St) : Prop := {
  go_daemon : daemon_ok (greeting_ctx c v) s;
  go_inactive : active c = false;
  go_framing : wf_framing (conn_framing c);
  go_timeout : 0 <= f_write_timeout_msec (conn_framing c);
  go_srv_timeout : 0 <= srv_write_timeout_msec v;
  go_sock : f_sock (conn_framing c) = conn_sock c }.

Lemma greeting_serviceable c v s : greeting_ok c v s -> serviceable F (greeting_ctx c v).
Proof. intros []. by split. Qed.

Lemma attach_conn_spec c v n s :
  daemon_ok (opened n (server_ctx c v)) s -> wf_framing (conn_framing c) ->
  0 <= f_write_timeout_msec (conn_framing c) ->
  0 <= srv_write_timeout_msec v -> active c = false ->
  wpf F (attach_conn n) (fun b s' =>
    if b : bool then exists c', greeting_ok c' v s' /\ conn_sock c' = n /\ pending (conn_framing c') = []
    else server_ok c v s') s.
Proof.
  intros Hok Hwf Hct Hv Ha. set (x := opened n (server_ctx c v)) in *.
  assert (Hback : forall s', daemon_ok (closed n x) s' -> server_ok c v s').
  { intros s' Hok'. split; try done; [|congruence].
    eapply (ok_live_ext _ (sockets_for c v)) in Hok'; [exact Hok'|].
    intros m. simpl. lia. }
  unfold attach_conn. keeps_over Hok. destruct (negb (ok a)).
  { keeps_over Hok. wp_step. apply wpf_log_call, wpf_ret. by apply Hback, ok_closed. }
  keeps_over Hok. destruct (negb a0).
  { keeps_over Hok. wp_step. apply wpf_log_call, wpf_ret. by apply Hback, ok_closed. }
  do 2 wp_step. assert (Hs' : srv s'0 = v) by apply Hok. rewrite Hs'.
  wp_step. apply wpf_modify. clear Hs'.
  set (upd := fun c => c <| conn_sock := n |>
    <| conn_framing := pjsocky_framing_init n (srv_write_timeout_msec v) (conn_framing c) |>).
  apply (ok_with_conn _ upd) in Hok. forget_state Hok. clear s s' s'0 a a0.
  eapply events_set_conn_then; [|exact Hok|]; [done|].
  clear Hok. intros s Hok. apply wpf_ret. exists (upd c). split; [|done].
  eapply (ok_live_ext _ (sockets_for (upd c <| active := true |>) v)) in Hok.
  - split; try done. by apply wf_framing_init.
  - intros m. simpl. unfold sockets_for. simpl. rewrite Ha. simpl. lia.
Qed.

Lemma greet_client_spec c v s :
  greeting_ok c v s ->
  wpf F greet_client (fun _ s' => server_ok (c <| active := true |>) v s') s.
Proof.
  intros Hg. pose proof Hg as [Hok Ha Hwf Ht Hv Hs]. unfold greet_client. wp_step. eapply wpf_mono.
  { eapply keeps_push_ok; [by eapply greeting_serviceable|exact Hok]. }
  clear s Hok Hg. intros st s Hok. cbv beta in *. wp_step. apply wpf_modify, wpf_log_call.
  apply (ok_with_conn _ (fun c => c <| active := true |>)) in Hok.
  by apply (stable _ (A_log 4 "Client connected" [])) in Hok.
Qed.

Lemma open_conn_spec c v n s :
  daemon_ok (opened n (server_ctx c v)) s -> wf_framing (conn_framing c) ->
  0 <= f_write_timeout_msec (conn_framing c) ->
  0 <= srv_write_timeout_msec v -> active c = false ->
  wpf F (open_conn n) (fun _ s' => exists c', server_ok c' v s' /\
    (c' = c \/ active c' = true /\ conn_sock c' = n /\ pending (conn_framing c') = [])) s.
Proof.
  intros Hok Hwf Ht Hv Ha. unfold open_conn. wp_step.
  eapply wpf_mono; [by apply (attach_conn_spec c v)|]. intros [] s1 Hc; cbn [when].
  - destruct Hc as (c' & Hg & <- & Hp). eapply wpf_mono; [by apply (greet_client_spec c' v)|].
    intros [] s2 Hok2. exists (c' <| active := true |>). split; [done|by right].
  - apply wpf_ret. exists c. split; [done|by left].
Qed.

(** ** One iteration *)

Lemma handle_conn_input_ok c v s :
  server_ok c v s -> active c = true ->
  wpf F handle_conn_input (fun _ s' =>
    exists f', server_ok (c <| conn_framing := f' |>) v s') s.
Proof.
  intros Hok Ha. pose proof Hok as [Hd Hwf Ht Hv Hs].
  eapply wpf_mono.
  { apply (handle_conn_input_spec F (server_ctx c v)); [by eapply server_serviceable|done..|].
    by apply Forall_true. }
  intros st s' [(f' & Hwf' & Hs' & Ht' & Hd') _]. exists f'. split; simpl in *; try done.
  - by rewrite Ht'.
  - intros _. by rewrite Hs', Hs.
Qed.

(** Input handled, and the connection closed where it has to be. *)
Lemma serve_input_ok c v s :
  server_ok c v s -> active c = true ->
  wpf F (status ← handle_conn_input; when (negb (ok status)) close_conn)
    (fun _ s' => exists c', server_ok c' v s') s.
Proof.
  intros Hok Ha. wp_step. eapply wpf_mono; [by apply handle_conn_input_ok|].
  intros st s' (f' & Hok'). apply wpf_when; [intros _|by exists (c <| conn_framing := f' |>)].
  eapply wpf_mono; [by apply (close_conn_spec _ _ _ Hok')|]. intros [] s1 Hok1. by eexists.
Qed.

Lemma close_if_active c v s :
  server_ok c v s ->
  wpf F (when (active c) close_conn)
    (fun _ s' => exists c', server_ok c' v s' /\ active c' = false) s.
Proof.
  intros Hok. apply wpf_when; intros Ha; [|by exists c].
  eapply wpf_mono; [by apply close_conn_spec|]. intros [] s2 Hok2. by eexists.
Qed.

(** A socket was accepted while the connection object is [c]. *)
Lemma accepted_ok c v n l s :
  server_ok c v s ->
  daemon_ok (opened n (server_ctx c v))
    (s <| hist := A_accept l (PJ_SUCCESS, n) :: hist s |>).
Proof. intros [Hd _ _ _ _]. by apply ok_opened. Qed.

Lemma server_ok_stable c v s a :
  owned_action a = false -> server_ok c v s -> server_ok c v (s <| hist := a :: hist s |>).
Proof. intros Ha []. split; try done. by apply stable. Qed.

Lemma accept_ok c v listen s :
  server_ok c v s ->
  wpf F (accept_conn listen)
    (fun r s' => exists c', server_ok c' v s' /\
       match r with Some st => active c' = false /\ st <> PJ_SUCCESS | None => True end) s.
Proof.
  intros Hok. pose proof Hok as [Hd Hwf Ht Hv Hs].
  assert (Hc : conn s = c) by apply Hd. unfold accept_conn.
  wp_step. apply wpf_ask. destruct (ans_accept _ _) as [st n]. cbn beta iota.
  do 2 wp_step.
  change (conn (s <| hist := A_accept listen (st, n) :: hist s |>)) with (conn s).
  rewrite Hc. destruct (ok st) eqn:Hst; cbn [negb].
  - apply ok_true in Hst as ->. pose proof (accepted_ok c v n listen s Hok) as Hacc.
    destruct (active c) eqn:Ha; wp_step.
    + eapply wpf_mono; [apply (refuse_conn_spec _ n _ Hacc Hv)|].
      intros [] s' Hd'. apply wpf_ret. exists c. split; [|done].
      split; try done; [|by intros _; apply Hs].
      eapply (ok_live_ext _ (sockets_for c v)) in Hd'; [exact Hd'|].
      intros m. simpl. lia.
    + eapply wpf_mono; [apply (open_conn_spec c v n _ Hacc Hwf Ht Hv Ha)|].
      intros [] s' (c' & Hok' & _). apply wpf_ret. by exists c'.
  - apply ok_false in Hst.
    assert (server_ok c v (s <| hist := A_accept listen (st, n) :: hist s |>)) as Hok'.
    { split; try done. by apply ok_accept_failed. }
    wp_step. apply wpf_log_call.
    apply (server_ok_stable _ _ _ (A_perror 1 st "accept() failed" [])) in Hok'; [|done].
    wp_step. eapply wpf_mono; [apply (close_if_active _ _ _ Hok')|].
    intros [] s' (c' & Hc' & Ha'). apply wpf_ret. by exists c'.
Qed.

Lemma server_iteration_ok c v s :
  server_ok c v s ->
  wpf F server_iteration (fun r s' => exists c', server_ok c' v s' /\
    match r with Some st => active c' = false /\ st <> PJ_SUCCESS | None => True end) s.
Proof.
  intros Hok. unfold server_iteration. do 4 wp_step.
  assert (Hc : conn s = c) by apply Hok. rewrite Hc.
  wp_step. apply wpf_ask. set (a := A_select_read _ _ _).
  apply (server_ok_stable _ _ _ a) in Hok; [|done].
  forget_state Hok. rename s0 into s1. clear a Hc.
  destruct (ans_select_read _ _ _ _) as [| |fds].
  - wp_step. apply wpf_ask. apply (server_ok_stable _ _ _ A_get_os_error) in Hok; [|done].
    pose proof (os_error_fails (hist s1)). case_decide; [apply wpf_ret; by exists c|].
    wp_step. apply wpf_log_call.
    apply (server_ok_stable _ _ _ (A_perror 1 (ans_get_os_error (hist s1)) "select() failed" [])) in Hok;
      [|done].
    wp_step. eapply wpf_mono; [apply (close_if_active _ _ _ Hok)|].
    intros [] s' (c' & Hok' & Ha'). apply wpf_ret. by exists c'.
  - apply wpf_ret. by exists c.
  - wp_step. apply wpf_bind_inv, wpf_bind. eapply wpf_mono.
    { assert (Hw : wpf F (when (active c && bool_decide (conn_sock c ∈ fds))
        (status ← handle_conn_input; when (negb (ok status)) close_conn))
        (fun _ s' => exists c', server_ok c' v s') s1); [|exact Hw].
      apply wpf_when; [|by exists c]. intros [Ha _]%andb_true_iff. by apply serve_input_ok with c. }
    intros [] s' (c' & Hok'). case_decide; [|apply wpf_ret; by exists c'].
    by apply accept_ok with c'.
Qed.

(** ** The loop *)

(** What the rest of the process may do between two iterations: anything
    that keeps the invariant and leaves connection and server alone, but
    for asking the server to stop. *)
Definition same_server (v v' : server) : Prop :=
  listen_sock v' = listen_sock v /\ sun_path v' = sun_path v /\
  srv_write_timeout_msec v' = srv_write_timeout_msec v.
Definition others_ok (others : C unit) : Prop := forall c v s,
  server_ok c v s ->
  wpf F others (fun _ s' => exists v', server_ok c v' s' /\ same_server v v') s.

(** With [F], the schedule may come to its end before the loop does. *)
Lemma server_loop_ok schedule c v s :
  F -> Forall others_ok schedule -> server_ok c v s ->
  wpf F (server_loop schedule) (fun _ s' =>
    exists c' v', server_ok c' v' s' /\ active c' = false /\ same_server v v') s.
Proof.
  intros HF. revert c v s. induction schedule as [|others schedule IH]; intros c v s Ho Hok; [exact HF|].
  apply Forall_cons in Ho as [Ho Hrest].
  cbn [server_loop]. wp_step. eapply wpf_mono; [by eapply Ho|].
  intros [] s1 (v1 & Hok1 & Hv1). do 2 wp_step.
  destruct (stop_requested (srv s1)).
  - do 2 wp_step. assert (Hc : conn s1 = c) by apply Hok1. rewrite Hc. wp_step.
    eapply wpf_mono; [by eapply close_if_active|].
    intros [] s2 (c2 & Hok2 & Ha2). apply wpf_ret. by exists c2, v1.
  - wp_step. eapply wpf_mono; [by eapply server_iteration_ok|].
    intros [st|] s2 (c2 & Hok2 & Hr).
    + apply wpf_ret. destruct Hr. by exists c2, v1.
    + eapply wpf_mono; [by eapply IH|].
      intros st s3 (c3 & v3 & Hok3 & Ha3 & Hv3).
      exists c3, v3. split_and!; try done. unfold same_server in *.
      destruct Hv1 as (? & ? & ?), Hv3 as (? & ? & ?). split_and!; congruence.
Qed.

(** ** From start to end *)

(** The state [pjsocky_server_run] starts from: the coordinator created,
    the server listening, no connection socket open. *)
Record listening (v : server) (s : St) : Prop := {
  li_events : g_instance s = Some {| ev_lock_held := false; ev_framing := None |};
  li_server : srv s = v;
  li_timeout : 0 <= srv_write_timeout_msec v;
  li_conn : 0 <= f_write_timeout_msec (conn_framing (conn s));
  li_live n : live n (hist s) = b2z (bool_decide (listen_sock v = n));
  li_account : account_ok (acc s);
  li_timers t : scheduled t (call s) = armed t (hist s);
  li_arms : well_armed (hist s) }.

Lemma zero_framing_wf : wf_framing zero_framing.
Proof. split; [apply length_replicate|simpl; lia|done]. Qed.

Lemma listening_ok v s :
  listening v s -> server_ok zero_conn v (s <| conn := zero_conn |>).
Proof.
  intros []. split; [|apply zero_framing_wf|done|done|done].
  split; try done. split_and!; try done. intros n. simpl. unfold sockets_for. simpl.
  by rewrite li_live0, Z.add_0_r.
Qed.

Lemma server_ok_listening c v s : server_ok c v s -> active c = false -> listening v s.
Proof.
  intros [[(He & Hc & Hv & Hl) ? ? ?] ? ? ? ?] Ha. split; try done.
  - rewrite He. simpl. unfold events_for. by rewrite Ha.
  - by rewrite Hc.
  - intros n. rewrite Hl. simpl. unfold sockets_for. rewrite Ha. simpl. lia.
Qed.

Lemma server_run_spec schedule v s :
  F -> Forall others_ok schedule -> listening v s ->
  wpf F (pjsocky_server_run schedule) (fun _ s' =>
    exists v', listening v' s' /\ same_server v v') s.
Proof.
  intros HF Ho Hl. unfold pjsocky_server_run. wp_step. apply wpf_modify.
  eapply wpf_mono; [apply (server_loop_ok schedule zero_conn v); try done|].
  - by apply listening_ok.
  - intros st s' (c' & v' & Hok & Ha & Hv). exists v'. split; [|done].
    by eapply server_ok_listening.
Qed.
End loop.
