(* ===== verification/Liveness.v ===== *)
(** * Every request is answered (src/proto/server.c, dispatch.c, framing.c)

    The path of a request through the whole daemon: the bytes of a readable
    connection, its lines, the dispatcher, the handler and the line written
    back, for a client that reads what it is sent. *)

From S2P Require Import Prelude Float32 Pjlib Env SimEnv State Framing Compact SimJson Wire JsonUtil Events Invariant Device Account Im Call Dispatch Requests Server ServerInput ServerLoop.
#[local] Open Scope string_scope.
#[local] Open Scope list_scope.
#[local] Open Scope Z_scope.

(** ** Handlers leave the sockets alone *)
Definition silent (a : action) : Prop :=
  match a with
  | A_sock_send _ _ _ | A_sock_recv _ _ | A_accept _ _ => False
  | _ => True
  end.

Lemma silent_wire n l : Forall silent l -> wire n l = [].
Proof. induction 1 as [|a l Ha _ IH]; [done|]. simpl. rewrite IH. by destruct a. Qed.

(** The handlers and the operations they call. *)
#[export] Hint Unfold cmd_ping cmd_version_get cmd_status_get cmd_account_configure
  cmd_account_register cmd_account_unregister cmd_account_remove cmd_device_list_audio
  cmd_device_list_video cmd_device_set_audio cmd_device_set_video cmd_call_dial
  cmd_call_hangup cmd_call_hangup_all cmd_call_get_info cmd_call_answer
  cmd_config_set_ring_timeout cmd_config_get_ring_timeout cmd_im_send cmd_im_typing status_only
  add_rtp_counters is_valid_call_id pjsocky_call_hangup pjsocky_call_hangup_all
  pjsocky_call_answer pjsocky_call_get_info pjsocky_call_get_rtp_counters
  pjsocky_call_remote_offered_video pjsocky_call_get_ring_timeout pjsocky_call_set_ring_timeout
  pjsocky_call_get_id pjsocky_account_configure pjsocky_account_register
  pjsocky_account_unregister pjsocky_account_remove pjsocky_device_list_audio
  pjsocky_device_list_video pjsocky_device_set_audio pjsocky_device_set_video_capture
  pjsocky_call_dial pjsocky_im_send pjsocky_im_typing registered_account
  resolve_default_vid_cap_dev update_account_capture : ops.

Section silence.
Context `{!Env, !PjJson} (s0 : St).
Abbreviation I := (logs silent s0).

Lemma silent_rtp_loop id type i media : keeps True I (rtp_counters_loop id type i media).
Proof.
  revert i. induction media as [|m media IH]; intros i; simpl; [apply keeps_ret|].
  destruct (negb _); [apply IH|keeps_go].
Qed.
Lemma silent_get_int params name : keeps True I (get_int_member params name).
Proof. unfold get_int_member, check. keeps_go. Qed.

#[local] Hint Resolve silent_rtp_loop silent_get_int : keeps_db.
Lemma silent_first_capture F devices : keeps F I (first_capture_device devices).
Proof. induction devices as [|d devices IH]; simpl; keeps_go. Qed.
#[local] Hint Resolve silent_first_capture : keeps_db.

Lemma silent_handlers params result :
  Forall (fun entry : string * _ => keeps True I (entry.2 params result)) CMD_TABLE.
Proof.
  unfold CMD_TABLE. repeat apply Forall_cons_2; [..|by apply Forall_nil_2]; cbn [snd]; keeps_go.
Qed.

Lemma silent_dispatch line : keeps True I (pjsocky_dispatch_line line).
Proof.
  unfold pjsocky_dispatch_line. cbv zeta.
  destruct (pj_json_parse line) as [[n [| | | | |cs]]|]; try apply keeps_ret.
  destruct (pjsocky_json_find _ "id") as [[? [| | |id| |]]|]; try apply keeps_ret.
  destruct (pjsocky_json_find _ "cmd") as [[? [| | |cmd| |]]|]; try apply keeps_ret.
  destruct (find_cmd cmd) as [fn|] eqn:Hfn; [|apply keeps_ret].
  apply find_in_table_In in Hfn as [entry Hin]. apply keeps_bind; [|keeps_go].
  exact (proj1 (Forall_forall _ _) (silent_handlers _ _) (entry, fn) Hin).
Qed.
End silence.

(** ** A client that reads *)
Section reader.
Context `{!Env, !EnvLaws, !PjJson}.

(** The socket takes at least a byte of whatever it is sent. *)
Definition reads (n : Z) : Prop := forall h data, data <> [] ->
  exists k, ans_sock_send h n data = (PJ_SUCCESS, k) /\ 0 < k.

Lemma send_loop_reads fuel n buf t start sent s :
  reads n -> (sent <= length buf)%nat -> (length buf - sent < fuel)%nat ->
  wp (send_loop fuel n buf t start sent) (fun st _ => st = PJ_SUCCESS) s.
Proof.
  intros Hr. revert sent s. induction fuel as [|fuel IH]; intros sent s Hle Hf; [lia|].
  cbn [send_loop]. case_decide as Hlt; [|by apply wpf_ret]. wp_step. apply wpf_ask.
  destruct (Hr (hist s) (drop sent buf)) as (k & Hk & Hpos).
  { intros Hd%(f_equal length). rewrite length_drop in Hd. simpl in Hd. lia. }
  pose proof (send_count _ _ _ _ Hk) as Hc. rewrite length_drop in Hc. rewrite Hk.
  change (ok PJ_SUCCESS) with true. cbn iota. rewrite (proj2 (Z.leb_gt _ _)) by lia.
  apply IH; lia.
Qed.

Lemma send_all_reads n buf t s :
  reads n -> wp (send_all n buf t) (fun st _ => st = PJ_SUCCESS) s.
Proof.
  intros Hr. unfold send_all. wp_step. apply wpf_ask.
  apply send_loop_reads; [done|lia|unfold send_fuel; lia].
Qed.

Lemma write_json_reads f e n s :
  reads (f_sock f) ->
  wp (pjsocky_framing_write_json f e n) (fun st _ =>
    match json_line e n with inl st' => st = st' | inr _ => st = PJ_SUCCESS end) s.
Proof.
  intros Hr. unfold pjsocky_framing_write_json, json_line.
  destruct (pj_json_write e _) as [st out]. destruct (ok st) eqn:Hok; cbn [negb].
  - apply ok_true in Hok as ->. destruct (compact_json_eq out) as (buf & k & Hc & _ & _).
    wp_step. eapply wpf_check; [done|]. cbn beta iota. unfold pjsocky_framing_write_line.
    wp_step. eapply wpf_mono; [by apply send_all_reads|]. intros _ s' ->. by apply send_all_reads.
  - apply ok_false in Hok. apply wpf_ret. by destruct st.
Qed.

(** A write to a client that reads: the whole line if the message fits the
    buffer it is printed to, nothing if it does not. *)
Definition written (e : jelem) (n : nat) (st : pj_status) (data : bytes) : Prop :=
  match json_line e n with
  | inl st' => st = st' /\ st <> PJ_SUCCESS /\ data = []
  | inr msg => st = PJ_SUCCESS /\ data = msg
  end.

Lemma delivered_written e n st data :
  delivered e n st data ->
  match json_line e n with inl st' => st = st' | inr _ => st = PJ_SUCCESS end ->
  written e n st data.
Proof.
  unfold delivered, written. destruct (json_line e n) as [st'|msg].
  - by intros [? ->] ->.
  - intros [_ [Hd _]] ->. by rewrite Hd.
Qed.

Lemma write_response_reads e s response n :
  select_waits -> ready s e -> is_Some (ev_framing e) ->
  reads (f_sock (conn_framing (conn s))) ->
  wp (write_response response n) (fun st s' => exists data,
    locked_write s data s' /\ written response n st data) s.
Proof.
  intros Hclk Hrd [[] Hf] Hr. pose proof Hrd as [Hi Hl HL Ht].
  unfold write_response, pjsocky_events_instance. do 3 wp_step. rewrite Hi. wp_step. cbn.
  eapply wpf_mono.
  - apply wpf_conj; [by apply write_response_spec; [right|exact Hrd]|].
    instantiate (1 := fun st _ =>
      match json_line response n with inl st' => st = st' | inr _ => st = PJ_SUCCESS end).
    unfold pjsocky_events_write_response.
    wp_step. eapply wpf_lock; [done..|]. wp_step. eapply wpf_deref_events; [done|]. simpl.
    rewrite Hf. wp_step. apply wpf_deref_framing. wp_step. eapply wpf_mono.
    { apply wpf_conj; [by apply (write_json_delivered False _ response n); [right|..]|].
      by apply write_json_reads. }
    intros st s' [(data & Hs & _) Hst]. apply sends_actions in Hs as (l & -> & _ & _).
    wp_step. eapply wpf_unlock; [done|]. by apply wpf_ret.
  - intros st s' [(data & Hw & Hd) Hst]. exists data. split; [done|].
    rewrite Hf in Hd. by apply delivered_written.
Qed.
End reader.

(** ** One line *)
Section answers.
Context `{!Env, !EnvLaws, !PjJson, !PjJsonLaws} (n : Z).
Context (Hclk : select_waits) (Hreads : reads n).

(** Events and responses go to socket [n], and the daemon is in order. *)
Definition attached (F : Prop) (s : St) : Prop :=
  exists x, serviceable F x /\ daemon_ok x s /\ is_Some (ev_framing (x_events x)) /\
    f_sock (conn_framing (x_conn x)) = n.

(** What is sent for a line: for a request the one line of its response, for
    any other line the error event, if it can be sent. *)
Definition reply (line msg : bytes) : Prop :=
  match string_member (pj_json_parse line) "id" with
  | Some id => exists response, well_formed_response id response /\
      json_line response PJSOCKY_MAX_LINE = inr msg
  | None => exists a st, delivered (event_object "error"
      (Some (build_error_event_data "bad_request" bad_line_message)) a) PJSOCKY_MAX_LINE st msg
  end.

(** A request whose response cannot be printed. *)
Definition unanswerable (line : bytes) (st : pj_status) : Prop :=
  exists id response, string_member (pj_json_parse line) "id" = Some id /\
    well_formed_response id response /\ json_line response PJSOCKY_MAX_LINE = inl st.

Lemma attached_ready F x s : serviceable F x -> daemon_ok x s -> ready s (x_events x).
Proof. intros [] [(Hi & Hc & _) _ _ _]. split; try done. by rewrite Hc. Qed.

Lemma handle_line_answers line s :
  attached False s -> line_ok False line ->
  wp (handle_line line) (fun st s' => attached False s' /\ exists data,
    wire n (hist s') = wire n (hist s) ++ data /\
    if ok st then reply line data else data = [] /\ unanswerable line st) s.
Proof.
  intros (x & Hx & Hok & He & Hn) Hl. apply wpf_conj.
  { eapply wpf_mono; [by apply (keeps_handle_line False x line)|]. intros st s' Hok'. by exists x. }
  unfold handle_line. wp_step. eapply wpf_mono; [apply wpf_run, (dispatch_response_spec x); done|].
  intros r s1 [[Hok1 Hr] Hrun].
  eapply wlp_run in Hrun; [|apply (silent_dispatch s line), logs_refl].
  destruct Hrun as (l & Hh & Hsil). pose proof (attached_ready False x s1 Hx Hok1) as Hrd.
  assert (Hw1 : wire n (hist s1) = wire n (hist s))
    by (by rewrite Hh, wire_app, (silent_wire n l Hsil), app_nil_r).
  assert (Hcn : f_sock (conn_framing (conn s1)) = n) by (by rewrite (proj1 (proj2 (ok_fixed _ _ Hok1)))).
  unfold reply, unanswerable. destruct (string_member _ "id") as [id|].
  - destruct Hr as (response & -> & Hwf). change (ok PJ_SUCCESS) with true. cbn iota.
    unfold send_response. wp_step.
    eapply wpf_mono; [apply (write_response_reads (x_events x)); try done; by rewrite Hcn|].
    intros st s2 (data & Hlw & Hd). wp_step. apply wpf_log_call.
    wp_step. apply wpf_report. intros lr Hlr. apply wpf_ret.
    apply emits_wire in Hlw. rewrite Hcn, Hw1 in Hlw.
    exists data. split; [simpl; rewrite <-Hlw, wire_app, (wire_logs n lr) by done; simpl;
      by rewrite !app_nil_r|].
    unfold written in Hd. destruct (json_line _ _) as [st'|msg] eqn:Hj.
    + destruct Hd as (-> & Hst & ->). rewrite (proj2 (ok_false _) Hst). split; [done|].
      by exists id, response.
    + destruct Hd as [-> ->]. by exists response.
  - destruct Hr as [-> ->]. cbn iota. unfold report_bad_line, push_error_event.
    wp_step. apply wpf_log_call. do 2 wp_step.
    eapply wpf_mono; [apply (push_spec False (x_events x)); [by right|by destruct Hrd]|].
    intros st s2 (data & Hlw & Hd). apply wpf_ret. wp_step. apply wpf_log_call, wpf_ret.
    apply emits_wire in Hlw. simpl in Hlw. rewrite Hcn, app_nil_r in Hlw.
    exists data. split; [by rewrite <-Hlw; simpl; rewrite app_nil_r|].
    destruct He as [fp Hf]. rewrite Hf in Hd. by exists (acc s), st.
Qed.

(** ** The lines of one input *)

Lemma attached_reframed F s s' : attached F s -> reframed s s' ->
  attached F s' /\ hist s' = hist s.
Proof.
  intros (x & Hx & Hok & He & Hn) (f & -> & Hs & Ht). split; [|done].
  assert (Hc : conn s = x_conn x) by apply Hok. rewrite Hc in Hs, Ht.
  exists (with_framing x f). split_and!.
  - by apply with_framing_serviceable.
  - by apply put_framing_ok.
  - done.
  - simpl. by rewrite Hs.
Qed.

(** The first [k] lines are replied to in order; if these are not all, the
    response to the next one cannot be printed and [st] says so. *)
Definition replied (ls : list bytes) (s : St) (st : pj_status) (s' : St) : Prop :=
  exists k replies, Forall2 reply (take k ls) replies /\
    wire n (hist s') = wire n (hist s) ++ concat replies /\
    if ok st then (length ls <= k)%nat
    else exists line, ls !! k = Some line /\ unanswerable line st.

Lemma served_replied ls s st s' :
  served ls s st s' -> attached False s -> Forall (line_ok False) ls ->
  attached False s' /\ replied ls s st s'.
Proof.
  induction 1 as [s|l ls s0 s s1 st s2 Hrf Hh Hs IH|l ls s0 s st s1 Hrf Hh Hst];
    intros Hat Hls.
  - split; [done|]. exists 0%nat, []. simpl. rewrite app_nil_r. by split_and!; [constructor|..].
  - apply Forall_cons in Hls as [Hl Hls]. destruct (attached_reframed _ _ _ Hat Hrf) as [Hat' Hhist].
    pose proof (handle_line_answers l s Hat' Hl) as Hw. eapply wp_wlp, wlp_run in Hw; [|exact Hh].
    destruct Hw as (Hat1 & data & Hw & Hrep). cbn in Hrep.
    destruct (IH Hat1 Hls) as (Hat2 & k & replies & Hk & Hw2 & Hend). split; [done|].
    exists (S k), (data :: replies). split_and!; [by constructor| |].
    + rewrite Hw2, Hw, Hhist. simpl. by rewrite app_assoc.
    + destruct (ok st); [simpl; lia|exact Hend].
  - apply Forall_cons in Hls as [Hl Hls]. destruct (attached_reframed _ _ _ Hat Hrf) as [Hat' Hhist].
    pose proof (handle_line_answers l s Hat' Hl) as Hw. eapply wp_wlp, wlp_run in Hw; [|exact Hh].
    destruct Hw as (Hat1 & data & Hw & Hrep). split; [done|].
    apply ok_false in Hst. rewrite Hst in Hrep. destruct Hrep as [-> Hun].
    exists 0%nat, []. simpl. split_and!; [constructor|by rewrite Hw, Hhist|].
    rewrite Hst. by exists l.
Qed.
End answers.

Section iteration.
Context `{!Env, !EnvLaws, !PjJson, !PjJsonLaws}.

Lemma silent_close_conn s0 : keeps True (logs silent s0) close_conn.
Proof.
  unfold close_conn, pjsocky_events_instance, pjsocky_events_set_conn, pj_mutex_lock,
    pj_mutex_unlock, set_events, deref_events. keeps_go.
Qed.

Lemma server_attached F c v s :
  1 <= LONG_BIT -> F \/ select_waits -> server_ok c v s -> active c = true ->
  attached (conn_sock c) F s.
Proof.
  intros HL Hclk Hok Ha. exists (server_ctx c v). split_and!.
  - by eapply server_serviceable.
  - apply Hok.
  - simpl. unfold events_for. rewrite Ha. by eexists.
  - simpl. by apply Hok.
Qed.

Lemma received_attached F n s s' : attached n F s -> received s s' ->
  attached n F s' /\ wire n (hist s') = wire n (hist s).
Proof.
  intros Hat Hrec. set (f := conn_framing (conn s)) in *.
  assert (attached n F (after_recv f s)) as Hat'.
  { destruct Hat as (x & ? & ? & ? & ?). exists x. split_and!; try done. by apply (after_recv_stable (daemon_ok x)). }
  destruct (attached_reframed _ _ _ _ Hat' Hrec) as [? ->]. split; [done|].
  unfold after_recv. case_decide; [done|]. simpl. by rewrite app_nil_r.
Qed.

Lemma outcome_ready s p ls r st s' :
  filled s = (PJ_SUCCESS, p) -> split_lines p = (ls, r) -> (length r < PJSOCKY_MAX_LINE)%nat ->
  conn_input_outcome s st s' ->
  exists s1 st1 s2, received s s1 /\ served ls s1 st1 s2 /\
    if ok st1 then st = PJ_SUCCESS /\ reframed s2 s' /\ pending (conn_framing (conn s')) = r
    else st = st1 /\ s' = s2.
Proof.
  unfold conn_input_outcome, input_outcome. intros -> -> Hlen.
  rewrite decide_False by done. change (ok PJ_SUCCESS) with true. cbn iota.
  intros (s1 & Hrec & st1 & s2 & Hsv & Hst). exists s1, st1, s2. split_and!; [done..|].
  destruct (ok st1); [|done]. rewrite decide_False in Hst by (apply Nat.nle_gt, Hlen). done.
Qed.

(** A readable connection to a client that reads. *)
Lemma input_replied c v s p ls r :
  1 <= LONG_BIT -> select_waits -> reads (conn_sock c) -> server_ok c v s -> active c = true ->
  filled s = (PJ_SUCCESS, p) -> split_lines p = (ls, r) -> (length r < PJSOCKY_MAX_LINE)%nat ->
  Forall (line_ok False) ls ->
  wp handle_conn_input (fun st s' => replied (conn_sock c) ls s st s' /\
    (exists f', server_ok (c <| conn_framing := f' |>) v s') /\
    (ok st = true -> pending (conn_framing (conn s')) = r)) s.
Proof.
  intros HL Hclk Hr Hok Ha Hf Hp Hlen Hls. pose proof Hok as [Hd Hwf Ht Hv Hs].
  eapply wpf_mono.
  { apply (handle_conn_input_spec False (server_ctx c v)); [|done|done|by rewrite Hf; simpl; rewrite Hp].
    eapply server_serviceable; [by right|done|exact Hok]. }
  intros st s' [(f' & Hwf' & Hs' & Ht' & Hd') Hout]. split_and!; cycle 1.
  - exists f'. split; simpl in *; try done; [by rewrite Ht'|intros _; by rewrite Hs', Hs].
  - destruct (outcome_ready _ _ _ _ _ _ Hf Hp Hlen Hout) as (s1 & st1 & s2 & _ & _ & Hst).
    intros Hok'. destruct (ok st1) eqn:Hst1; [by destruct Hst as (_ & _ & ?)|].
    destruct Hst as [-> _]. congruence.
  - destruct (outcome_ready _ _ _ _ _ _ Hf Hp Hlen Hout) as (s1 & st1 & s2 & Hrec & Hsv & Hst).
    pose proof (server_attached False c v s HL (or_intror Hclk) Hok Ha) as Hat.
    destruct (received_attached _ _ _ _ Hat Hrec) as [Hat1 Hw1].
    destruct (served_replied _ Hclk Hr ls s1 st1 s2 Hsv Hat1 Hls) as (Hat2 & k & rs & Hk & Hw & Hend).
    exists k, rs. split; [done|]. rewrite <-Hw1, <-Hw.
    destruct (ok st1) eqn:Hst1.
    + destruct Hst as (-> & Hrf & _). change (ok PJ_SUCCESS) with true. split; [|done].
      by rewrite (proj2 (attached_reframed _ _ _ _ Hat2 Hrf)).
    + destruct Hst as [-> ->]. by rewrite Hst1.
Qed.
End iteration.

(** ** Properties *)

(** C13: Every request is answered in the iteration of the server loop that
    reads it: with a client that takes what it is sent, when the connection
    is readable, the complete lines of what was pending and what arrived are
    replied to one by one, in order - each request by the one line of a
    well-formed response that echoes its id -, nothing else is written to the
    client, and the connection stays open with the unfinished line pending.
    The one exception is a response that does not fit the buffer it is
    printed to: the requests before it have been answered, and the
    connection is closed. *)
Theorem requests_answered `{!Env, !EnvLaws, !PjJson, !PjJsonLaws} c v s fds p ls r :
  1 <= LONG_BIT -> select_waits -> reads (conn_sock c) ->
  server_ok c v s -> active c = true ->
  ans_select_read (hist s) [listen_sock v; conn_sock c] 0 500000 = SelectReady fds ->
  conn_sock c ∈ fds -> listen_sock v ∉ fds ->
  filled (s <| hist := A_select_read [listen_sock v; conn_sock c] 0 500000 :: hist s |>)
    = (PJ_SUCCESS, p) ->
  split_lines p = (ls, r) -> (length r < PJSOCKY_MAX_LINE)%nat -> Forall (line_ok False) ls ->
  wp server_iteration (fun res s' => res = None /\ exists k replies,
    Forall2 reply (take k ls) replies /\
    wire (conn_sock c) (hist s') = wire (conn_sock c) (hist s) ++ concat replies /\
    ((length ls <= k)%nat /\ active (conn s') = true /\ pending (conn_framing (conn s')) = r \/
     exists line st, ls !! k = Some line /\ unanswerable line st /\ active (conn s') = false)) s.
Proof.
  intros HL Hclk Hr Hok Ha Hsel Hin Hnl Hf Hp Hlen Hls.
  assert (Hc : conn s = c) by apply Hok. assert (Hv : srv s = v) by apply Hok.
  unfold server_iteration. do 4 wp_step. rewrite Hc, Hv, Ha. wp_step. apply wpf_ask.
  change (PJSOCKY_ACCEPT_POLL_MSEC * 1000) with 500000. rewrite Hsel.
  set (a := A_select_read _ _ _) in *. apply (server_ok_stable c v s a) in Hok; [|done].
  rewrite bool_decide_true by done. cbn [andb when]. wp_step. wp_step.
  eapply wpf_mono; [by eapply input_replied|]. intros st s1 (Hrep & (f' & Hok1) & Hpend).
  destruct Hrep as (k & replies & Hk & Hw & Hend). simpl in Hw. rewrite app_nil_r in Hw.
  assert (Hfin : forall s2, wire (conn_sock c) (hist s2) = wire (conn_sock c) (hist s1) ->
    ((length ls <= k)%nat /\ active (conn s2) = true /\ pending (conn_framing (conn s2)) = r \/
     exists line st, ls !! k = Some line /\ unanswerable line st /\ active (conn s2) = false) ->
    wp (if decide (listen_sock v ∈ fds) then accept_conn (listen_sock v) else mret None)
      (fun res s' => res = None /\ exists k replies, Forall2 reply (take k ls) replies /\
        wire (conn_sock c) (hist s') = wire (conn_sock c) (hist s) ++ concat replies /\
        ((length ls <= k)%nat /\ active (conn s') = true /\ pending (conn_framing (conn s')) = r \/
         exists line st, ls !! k = Some line /\ unanswerable line st /\ active (conn s') = false)) s2).
  { intros s2 Hw2 Hcase. rewrite decide_False by done. apply wpf_ret. split; [done|].
    exists k, replies. by rewrite Hw2, Hw. }
  assert (Hc1 : conn s1 = c <| conn_framing := f' |>) by apply Hok1.
  apply wpf_when; intros Hst.
  - apply negb_true_iff in Hst. rewrite Hst in Hend. destruct Hend as (line & Hline & Hun).
    eapply wpf_mono; [apply wpf_run; by apply (close_conn_spec False _ _ _ Hok1)|].
    intros [] s2 [Hok2 Hrun]. eapply wlp_run in Hrun; [|apply (silent_close_conn s1), logs_refl].
    destruct Hrun as (l & Hl & Hsil). apply Hfin.
    + by rewrite Hl, wire_app, (silent_wire _ l Hsil), app_nil_r.
    + right. exists line, st. split_and!; try done.
      by rewrite (proj1 (proj2 (ok_fixed _ _ (so_daemon _ _ _ Hok2)))).
  - apply negb_false_iff in Hst. rewrite Hst in Hend. apply Hfin; [done|]. left.
    split_and!; [done|by rewrite Hc1|by apply Hpend].
Qed.
