(* ===== verification/Config.v ===== *)
(** * Configuration from the environment (src/main.c)

    What main() makes of each environment variable, on strings as C has them:
    lists of bytes up to the first NUL. *)

From S2P Require Import Prelude Float32 Pjlib Env SimEnv Framing.

(** ** The variables, and the resolver file *)
Definition PJSOCKY_SOCK_PATH_ENV : string := "PJSOCKY_SOCK_PATH".
Definition PJSOCKY_LOG_LEVEL_ENV : string := "PJSOCKY_LOG_LEVEL".
Definition PJSOCKY_WRITE_TIMEOUT_ENV : string := "PJSOCKY_WRITE_TIMEOUT_MSEC".
Definition PJSOCKY_VAD_ENV : string := "PJSOCKY_VAD".
Definition PJSOCKY_VIDEO_SIZE_ENV : string := "PJSOCKY_VIDEO_SIZE".
Definition PJSOCKY_VIDEO_FPS_ENV : string := "PJSOCKY_VIDEO_FPS".
Definition PJSOCKY_STUN_SRV_ENV : string := "PJSOCKY_STUN_SRV".
Definition PJSOCKY_ICE_ENV : string := "PJSOCKY_ICE".
Definition PJSOCKY_NAMESERVER_ENV : string := "PJSOCKY_NAMESERVER".
Definition PJSOCKY_RESOLV_CONF : string := "/etc/resolv.conf".
Definition PJSOCKY_TEST_FAST_TIMERS_ENV : string := "PJSOCKY_TEST_FAST_TIMERS".

(** ** The C library's string functions that main.c uses *)

Definition is_digit (c : ascii) : bool :=
  bool_decide (48 <= nat_of_ascii c <= 57)%nat.
Definition digit_value (c : ascii) : Z := Z.of_nat (nat_of_ascii c) - 48.
Definition isspace (c : ascii) : bool :=
  bool_decide (c = SPACE) || bool_decide (9 <= nat_of_ascii c <= 13)%nat.
Definition tolower (c : ascii) : ascii :=
  if decide (65 <= nat_of_ascii c <= 90)%nat
  then ascii_of_nat (nat_of_ascii c + 32) else c.

(** The longest run of digits at the head of a string and its value. *)
Fixpoint scan_digits (acc : Z) (s : bytes) : Z * bytes :=
  match s with
  | c :: rest => if is_digit c then scan_digits (10 * acc + digit_value c) rest else (acc, s)
  | [] => (acc, [])
  end.
Fixpoint skip_spaces (s : bytes) : bytes :=
  match s with
  | c :: rest => if isspace c then skip_spaces rest else s
  | [] => []
  end.
(** An optional sign: whether it is a minus, and what follows it. *)
Definition scan_sign (s : bytes) : bool * bytes :=
  match s with
  | c :: rest => if decide (c = "-"%char) then (true, rest)
                 else if decide (c = "+"%char) then (false, rest) else (false, s)
  | [] => (false, [])
  end.
(** Sign, value and rest of a decimal number; [None] where there is none. *)
Definition scan_decimal (s : bytes) : option (bool * Z * bytes) :=
  let '(minus, s) := scan_sign (skip_spaces s) in
  match s with
  | c :: _ => if is_digit c then let '(v, rest) := scan_digits 0 s in Some (minus, v, rest)
              else None
  | [] => None
  end.

Section config.
Context `{!Env}.

Definition ULONG_MAX : Z := 2 ^ LONG_BIT - 1.

(** [strtoul(s, &end, 10)]: the value, and the rest of the string [end]
    points to.  Out of range it is [ULONG_MAX]; a minus sign negates in
    the unsigned type. *)
Definition strtoul (s : bytes) : Z * bytes :=
  match scan_decimal s with
  | None => (0, s)
  | Some (minus, v, rest) =>
      (if ULONG_MAX <? v then ULONG_MAX
       else if (minus : bool) then (- v) mod 2 ^ LONG_BIT else v, rest)
  end.

(** [atol(s)]; the behaviour is undefined where the value is no [long]. *)
Definition atol (s : bytes) : option Z :=
  match scan_decimal s with
  | None => Some 0
  | Some (minus, v, _) =>
      let v := if (minus : bool) then - v else v in
      if (- 2 ^ (LONG_BIT - 1) <=? v) && (v <? 2 ^ (LONG_BIT - 1)) then Some v else None
  end.

Definition stricmp_eq (a : bytes) (b : string) : bool :=
  bool_decide (tolower <$> a = tolower <$> bytes_of_string b).

(** [strtok_r]: the tokens of a string, delimiters removed. *)
Fixpoint tokens (delim : ascii -> bool) (cur : bytes) (s : bytes) : list bytes :=
  match s with
  | [] => match cur with [] => [] | _ => [cur] end
  | c :: rest =>
      if delim c
      then match cur with [] => [] | _ => [cur] end ++ tokens delim [] rest
      else tokens delim (cur ++ [c]) rest
  end.
Definition strtok (delims : bytes) (s : bytes) : list bytes :=
  tokens (fun c => bool_decide (c ∈ delims)) [] s.

(** The successive results of [fgets(buf, 512, f)]: up to 511 bytes, cut
    after a newline. *)
Fixpoint fgets_lines (cur : bytes) (file : bytes) : list bytes :=
  match file with
  | [] => match cur with [] => [] | _ => [cur] end
  | c :: rest =>
      if decide (c = LF \/ S (length cur) = 511%nat)
      then (cur ++ [c]) :: fgets_lines [] rest
      else fgets_lines (cur ++ [c]) rest
  end.
(** A byte buffer read as a C string ends at its first NUL. *)
Fixpoint c_str (s : bytes) : bytes :=
  match s with
  | [] => []
  | c :: rest => if decide (c = NUL) then [] else c :: c_str rest
  end.

(** ** Flags *)

(** [val] is [getenv(name)]. *)
Definition env_flag_is_set (val : option bytes) : bool :=
  match val with
  | None => false
  | Some val => bool_decide (val = bytes_of_string "1") || stricmp_eq val "on"
                || stricmp_eq val "yes" || stricmp_eq val "true"
  end.

(** ** Nameservers *)

Definition NAMESERVER_SLOTS : nat := 4.

Fixpoint env_loop (toks ns : list bytes) : list bytes :=
  match toks with
  | [] => ns
  | tok :: rest =>
      if decide (NAMESERVER_SLOTS <= length ns)%nat then ns
      else env_loop rest (ns ++ [tok])
  end.

Fixpoint resolv_loop (lines ns : list bytes) : list bytes :=
  match lines with
  | [] => ns
  | buf :: rest =>
      if decide (length ns < NAMESERVER_SLOTS)%nat then
        match strtok [SPACE; TAB; CR; LF] (c_str buf) with
        | tok :: tok2 :: _ =>
            if decide (tok = bytes_of_string "nameserver")
            then resolv_loop rest (ns ++ [tok2])
            else resolv_loop rest ns
        | _ => resolv_loop rest ns
        end
      else ns
  end.

(** The variable a list of nameservers comes from, or the file. *)
Definition nameserver_source (env : option bytes) : string :=
  match env with Some (_ :: _) => PJSOCKY_NAMESERVER_ENV | _ => PJSOCKY_RESOLV_CONF end.

(** [env] is the variable's value, [resolv_conf] the file's contents where
    it can be opened; the result is [ua_cfg->nameserver[0 .. count-1]]. *)
Definition configure_nameservers (env resolv_conf : option bytes) : list bytes :=
  match env with
  | Some (c :: s) => env_loop (strtok [SPACE; ","%char] (take 511 (c :: s))) []
  | _ => match resolv_conf with
         | Some file => resolv_loop (fgets_lines [] file) []
         | None => []
         end
  end.

(** ** The video format override *)

Definition PJSOCKY_VIDEO_MAX_DIM : Z := 8192.
Definition PJSOCKY_VIDEO_MAX_FPS : Z := 240.

Definition is_x (c : ascii) : bool :=
  bool_decide (c = "x"%char) || bool_decide (c = "X"%char).
Definition head_is_digit (s : bytes) : bool :=
  match s with c :: _ => is_digit c | [] => false end.

(** [None]: the value is ignored. *)
Definition parse_video_size (size_str : bytes) : option (Z * Z) :=
  let '(w, end_) := if head_is_digit size_str then strtoul size_str else (0, size_str) in
  let '(h, end_) :=
    match end_ with
    | c :: rest => if negb (w =? 0) && is_x c && head_is_digit rest
                   then strtoul rest else (0, end_)
    | [] => (0, end_)
    end in
  if (w =? 0) || (h =? 0) || negb (bool_decide (end_ = []))
     || (PJSOCKY_VIDEO_MAX_DIM <? w) || (PJSOCKY_VIDEO_MAX_DIM <? h)
  then None else Some (to_unsigned w, to_unsigned h).

Definition parse_video_fps (fps_str : bytes) : option Z :=
  let '(f, end_) := if head_is_digit fps_str then strtoul fps_str else (0, fps_str) in
  if (f =? 0) || negb (bool_decide (end_ = [])) || (PJSOCKY_VIDEO_MAX_FPS <? f)
  then None else Some (to_unsigned f).

(** [width] and [height], and [fps]; 0 where there is no value or it is
    ignored. *)
Definition video_size (size_str : option bytes) : Z * Z :=
  default (0, 0) (size_str ≫= parse_video_size).
Definition video_fps (fps_str : option bytes) : Z :=
  default 0 (fps_str ≫= parse_video_fps).

(** What the override does to one codec's parameters. *)
Definition override_codec_param (width height fps : Z) (param : vid_codec_param)
  : vid_codec_param :=
  let param := if negb (width =? 0)
               then param <| size_w := width |> <| size_h := height |> else param in
  if negb (fps =? 0) then param <| fps_num := fps |> <| fps_denum := 1 |> else param.

(** ** Log level, User-Agent, STUN, write deadline, socket path *)

(** [None]: pjsua's own default stays. *)
Definition log_level (log_level_str : option bytes) : option Z :=
  (fun s => to_unsigned (strtoul s).1) <$> log_level_str.

Definition sanitize_ua (ua : bytes) : bytes :=
  imap (fun i c => if decide (c = "/"%char /\ (S (length (bytes_of_string "pjsocky/")) + 1 < i)%nat)
                   then SPACE else c) ua.
(** [sys_info] is [pj_get_sys_info()->info]. *)
Definition user_agent (sys_info : string) : bytes :=
  sanitize_ua (take 127 (bytes_of_string
    ("pjsocky/" ++ PJSOCKY_VERSION ++ " (PJSUA/v" ++ pj_get_version ++ " " ++ sys_info ++ ")")%string)).

(** The one STUN server, and whether its failure is ignored. *)
Definition stun_server (stun : option bytes) : option (bytes * bool) :=
  match stun with
  | Some (c :: s) => Some (c :: s, true)
  | _ => None
  end.

Definition PJSOCKY_WRITE_TIMEOUT_DEFAULT_MSEC : Z := 5000.

(** [None] is undefined behaviour of [atol]. *)
Definition write_timeout (timeout_str : option bytes) : option Z :=
  match timeout_str with
  | None => Some PJSOCKY_WRITE_TIMEOUT_DEFAULT_MSEC
  | Some s =>
      parsed ← atol s;
      Some (if 0 <? parsed then to_unsigned parsed else PJSOCKY_WRITE_TIMEOUT_DEFAULT_MSEC)
  end.

Definition PJSOCKY_SOCK_PATH_DEFAULT : bytes := bytes_of_string "/tmp/pjsocky.sock".
Definition sock_path (env : option bytes) : bytes := default PJSOCKY_SOCK_PATH_DEFAULT env.
End config.

(** ** Decimal numbers *)

(** The number a string of digits denotes. *)
Definition decimal (ds : bytes) : Z := foldl (fun v c => 10 * v + digit_value c) 0 ds.
Definition digits (ds : bytes) : Prop := ds <> [] /\ Forall (fun c => is_digit c = true) ds.

Lemma digit_value_range c : is_digit c = true -> 0 <= digit_value c <= 9.
Proof. intros H%bool_decide_eq_true. unfold digit_value. lia. Qed.

Lemma scan_digits_spec v s :
  exists ds rest, s = ds ++ rest /\ Forall (fun c => is_digit c = true) ds /\
    head_is_digit rest = false /\
    scan_digits v s = (foldl (fun v c => 10 * v + digit_value c) v ds, rest).
Proof.
  revert v. induction s as [|c s IH]; intros v; simpl; [by exists [], []|].
  destruct (is_digit c) eqn:Hc; [|by exists [], (c :: s)].
  destruct (IH (10 * v + digit_value c)) as (ds & rest & -> & Hds & Hr & Hscan).
  exists (c :: ds), rest. split_and!; [done|by constructor|done|done].
Qed.

Lemma scan_digits_app v ds rest :
  Forall (fun c => is_digit c = true) ds -> head_is_digit rest = false ->
  scan_digits v (ds ++ rest) = (foldl (fun v c => 10 * v + digit_value c) v ds, rest).
Proof.
  intros Hds Hr. revert v. induction Hds as [|c ds Hc Hds IH]; intros v; simpl.
  - destruct rest as [|c rest]; [done|]. simpl in *. by rewrite Hr.
  - by rewrite Hc, IH.
Qed.

Lemma decimal_nonneg ds : Forall (fun c => is_digit c = true) ds -> 0 <= decimal ds.
Proof.
  unfold decimal. intros Hds. assert (Hgen : forall v, 0 <= v ->
    0 <= foldl (fun v c => 10 * v + digit_value c) v ds); [|by apply Hgen].
  induction Hds as [|c ds Hc _ IH]; intros v Hv; simpl; [done|].
  apply IH. pose proof (digit_value_range c Hc). lia.
Qed.

Lemma digit_not_sign c : is_digit c = true ->
  isspace c = false /\ c <> "-"%char /\ c <> "+"%char /\ is_x c = false.
Proof.
  intros Hc%bool_decide_eq_true. unfold isspace, is_x, SPACE.
  rewrite !orb_false_iff, !bool_decide_eq_false.
  split_and!; first [intros ->; vm_compute in Hc; lia | lia].
Qed.

(** A string that starts with a digit is scanned from there. *)
Lemma scan_decimal_digit s :
  head_is_digit s = true ->
  scan_decimal s = Some (false, (scan_digits 0 s).1, (scan_digits 0 s).2).
Proof.
  destruct s as [|c s]; [done|]. cbn [head_is_digit]. intros Hc.
  destruct (digit_not_sign c Hc) as (Hsp & Hm & Hp & _).
  unfold scan_decimal. cbn [skip_spaces]. rewrite Hsp. unfold scan_sign.
  rewrite !decide_False by done. rewrite Hc. by destruct (scan_digits 0 (c :: s)).
Qed.

Section numbers.
Context `{!Env}.

Lemma strtoul_digits ds rest :
  digits ds -> head_is_digit rest = false ->
  strtoul (ds ++ rest) = (Z.min (decimal ds) ULONG_MAX, rest).
Proof.
  intros [Hne Hds] Hr. unfold strtoul. rewrite scan_decimal_digit.
  - rewrite scan_digits_app by done. simpl. fold (decimal ds).
    destruct (Z.ltb_spec ULONG_MAX (decimal ds)); f_equal; lia.
  - destruct Hds; [done|]. done.
Qed.

Lemma digits_prefix s :
  head_is_digit s = true ->
  exists ds rest, s = ds ++ rest /\ digits ds /\ head_is_digit rest = false.
Proof.
  intros Hs. destruct (scan_digits_spec 0 s) as (ds & rest & -> & Hds & Hr & _).
  exists ds, rest. split_and!; try done. split; [|done]. intros ->. simpl in Hs. congruence.
Qed.
End numbers.

(** ** Properties *)

(** The size override is honoured exactly for WIDTHxHEIGHT with both
    numbers plain decimals between 1 and 8192: such a value gives these two
    numbers, and every other value - signs, blanks, trailing text, a zero, a
    number too large for [unsigned long] - is ignored. *)
Theorem video_size_spec `{!Env} str w h :
  32 <= LONG_BIT ->
  (video_size (Some str) = (w, h) /\ (w, h) <> (0, 0)) <->
  exists dw x dh, str = dw ++ x :: dh /\ digits dw /\ digits dh /\ is_x x = true /\
    decimal dw = w /\ decimal dh = h /\ 1 <= w <= 8192 /\ 1 <= h <= 8192.
Proof.
  intros HL. assert (8192 < ULONG_MAX) as Hmax.
  { unfold ULONG_MAX. pose proof (Z.pow_le_mono_r 2 32 LONG_BIT). lia. }
  unfold video_size. simpl. unfold parse_video_size, PJSOCKY_VIDEO_MAX_DIM. split.
  - intros [Hv Hne]. destruct (head_is_digit str) eqn:Hstr; [|destruct str; simpl in Hv; congruence].
    apply digits_prefix in Hstr as (dw & rest & -> & Hdw & Hrest).
    rewrite strtoul_digits in Hv by done. cbn iota beta in Hv.
    pose proof (decimal_nonneg dw (proj2 Hdw)) as Hw.
    destruct rest as [|x rest]; [change (0 =? 0) with true in Hv; rewrite orb_true_r in Hv; simpl in Hv; congruence|].
    destruct (negb _ && is_x x && head_is_digit rest) eqn:Hx; cycle 1.
    { change (0 =? 0) with true in Hv. rewrite orb_true_r in Hv. simpl in Hv. congruence. }
    apply andb_true_iff in Hx as [[_ Hx]%andb_true_iff Hh].
    apply digits_prefix in Hh as (dh & tail & -> & Hdh & Htail).
    rewrite strtoul_digits in Hv by done. cbn iota beta in Hv.
    pose proof (decimal_nonneg dh (proj2 Hdh)) as Hh.
    destruct (_ || _) eqn:Hbad in Hv; simpl in Hv; [congruence|].
    rewrite !orb_false_iff, negb_false_iff, bool_decide_eq_true in Hbad.
    destruct Hbad as ((((?%Z.eqb_neq & ?%Z.eqb_neq) & ->) & ?%Z.ltb_ge) & ?%Z.ltb_ge).
    rewrite !to_unsigned_small in Hv by lia. rewrite app_nil_r.
    exists dw, x, dh. injection Hv as <- <-. split_and!; try done; lia.
  - intros (dw & x & dh & -> & Hdw & Hdh & Hx & Hw & Hh & ? & ?).
    assert (head_is_digit (dw ++ x :: dh) = true) as ->.
    { destruct Hdw as [Hne Hdw]. by destruct Hdw. }
    assert (head_is_digit dh = true) as Hd by (destruct Hdh as [Hne Hdh']; by destruct Hdh').
    rewrite strtoul_digits; [|done|].
    2: { simpl. destruct (is_digit x) eqn:Hc; [|done].
         apply digit_not_sign in Hc as (_ & _ & _ & ?). congruence. }
    cbn iota beta. rewrite Hx, Hd, Hw, andb_true_r.
    rewrite (proj2 (Z.eqb_neq (w `min` ULONG_MAX) 0)) by lia. cbn [negb andb].
    pose proof (strtoul_digits dh [] Hdh eq_refl) as Hs. rewrite app_nil_r in Hs. rewrite Hs, Hh.
    cbn iota beta. rewrite !Z.min_l by lia.
    destruct (_ || _) eqn:Hbad; [|rewrite !to_unsigned_small by lia; split; [done|intros [=]; lia]].
    rewrite !orb_true_iff, !Z.eqb_eq, !Z.ltb_lt in Hbad. simpl in Hbad.
    destruct Hbad as [[[[]|]|]|]; lia || done.
Qed.

(** A token: nonempty, and without delimiters. *)
Definition token (delim : ascii -> bool) (t : bytes) : Prop :=
  t <> [] /\ Forall (fun c => delim c = false) t.

Lemma tokens_spec delim cur s :
  Forall (fun c => delim c = false) cur -> Forall (token delim) (tokens delim cur s).
Proof.
  assert (Hcur : forall cur, Forall (fun c => delim c = false) cur ->
    Forall (token delim) (match cur with [] => [] | _ => [cur] end)).
  { intros [|c l] Hl; [constructor|]. repeat constructor; [done|by inversion Hl..]. }
  revert cur. induction s as [|c s IH]; intros cur Hd; simpl; [by apply Hcur|].
  destruct (delim c) eqn:Hc.
  - apply Forall_app. split; [by apply Hcur|]. by apply IH.
  - apply IH. apply Forall_app. by repeat constructor.
Qed.

Lemma env_loop_spec toks ns :
  (length ns <= NAMESERVER_SLOTS)%nat ->
  env_loop toks ns = ns ++ take (NAMESERVER_SLOTS - length ns) toks.
Proof.
  revert ns. induction toks as [|t toks IH]; intros ns Hlen; simpl.
  { by rewrite take_nil, app_nil_r. }
  case_decide as Hd.
  - replace (NAMESERVER_SLOTS - length ns)%nat with 0%nat by lia. by rewrite app_nil_r.
  - rewrite IH by (rewrite length_app; simpl; lia). rewrite length_app, <-app_assoc.
    destruct (NAMESERVER_SLOTS - length ns)%nat as [|k] eqn:Hk; [lia|]. simpl.
    do 3 f_equal. simpl. lia.
Qed.

(** Nothing is left, or a delimiter follows. *)
Definition cut (delim : ascii -> bool) (rest : bytes) : Prop :=
  match rest with [] => True | c :: _ => delim c = true end.

Lemma tokens_word delim cur w rest :
  Forall (fun c => delim c = false) w -> cut delim rest ->
  tokens delim cur (w ++ rest)
  = match cur ++ w with [] => [] | _ => [cur ++ w] end ++ tokens delim [] rest.
Proof.
  intros Hw Hr. revert cur. induction Hw as [|c w Hc _ IH]; intros cur.
  - rewrite app_nil_l, app_nil_r. destruct rest as [|c rest]; simpl; [by destruct cur|].
    simpl in Hr. by rewrite Hr.
  - simpl. by rewrite Hc, IH, <-app_assoc.
Qed.

Lemma tokens_delims delim b s :
  Forall (fun c => delim c = true) b -> tokens delim [] (b ++ s) = tokens delim [] s.
Proof. induction 1 as [|c b Hc _ IH]; [done|]. simpl. by rewrite Hc. Qed.

(** A string starts with the longest run of characters of a kind. *)
Lemma span_of (f : ascii -> bool) (s : bytes) :
  exists w rest, s = w ++ rest /\ Forall (fun c => f c = true) w /\
    match rest with [] => True | c :: _ => f c = false end.
Proof.
  induction s as [|c s (w & rest & -> & Hw & Hr)]; [by exists [], []|].
  destruct (f c) eqn:Hc; [exists (c :: w), rest; by split_and!; [|constructor|]|].
  by exists [], (c :: w ++ rest).
Qed.

(** The first token of a string, and what the others are the tokens of. *)
Lemma tokens_cons delim s t ts :
  tokens delim [] s = t :: ts <->
  exists b rest, s = b ++ t ++ rest /\ Forall (fun c => delim c = true) b /\
    token delim t /\ cut delim rest /\ tokens delim [] rest = ts.
Proof.
  split.
  - destruct (span_of delim s) as (b & s' & -> & Hb & Hs'). rewrite tokens_delims by done.
    destruct (span_of (fun c => negb (delim c)) s') as (w & rest & -> & Hw & Hr).
    assert (Forall (fun c => delim c = false) w) as Hw'
      by (eapply Forall_impl; [exact Hw|]; intros c; apply negb_true_iff).
    assert (cut delim rest) as Hcut by (destruct rest; [done|by apply negb_false_iff]).
    rewrite tokens_word by done. rewrite app_nil_l. destruct w as [|c w].
    + destruct rest as [|c rest]; [done|]. simpl in Hs', Hcut. congruence.
    + intros [= <- <-]. by exists b, rest.
  - intros (b & rest & -> & Hb & [Hne Ht] & Hcut & <-).
    rewrite tokens_delims, tokens_word by done. by destruct t.
Qed.

Definition is_blank_or_comma (c : ascii) : bool := bool_decide (c ∈ [SPACE; ","%char]).
Definition is_blank (c : ascii) : bool := bool_decide (c ∈ [SPACE; TAB; CR; LF]).

(** A line of the resolver file names a server: its first word is
    [nameserver] and its second one the server; more may follow. *)
Definition names_server (line server : bytes) : Prop :=
  exists b1 b2 rest, line = b1 ++ bytes_of_string "nameserver" ++ b2 ++ server ++ rest /\
    Forall (fun c => is_blank c = true) b1 /\ Forall (fun c => is_blank c = true) b2 /\
    b2 <> [] /\ token is_blank server /\ cut is_blank rest.

(** The servers the lines name, in order. *)
Inductive servers_named : list bytes -> list bytes -> Prop :=
| named_none : servers_named [] []
| named_line line server lines servers :
    names_server line server -> servers_named lines servers ->
    servers_named (line :: lines) (server :: servers)
| named_other line lines servers :
    (forall server, ~ names_server line server) -> servers_named lines servers ->
    servers_named (line :: lines) servers.

Lemma nameserver_token : token is_blank (bytes_of_string "nameserver").
Proof. split; [done|]. repeat constructor. Qed.

Lemma names_server_tokens line server :
  names_server line server <->
  exists more, strtok [SPACE; TAB; CR; LF] line = bytes_of_string "nameserver" :: server :: more.
Proof.
  unfold strtok. fold is_blank. split.
  - intros (b1 & b2 & rest & -> & Hb1 & Hb2 & Hne & Ht & Hcut). exists (tokens is_blank [] rest).
    apply tokens_cons. exists b1, (b2 ++ server ++ rest). split; [done|]. split; [done|]. split; [apply nameserver_token|]. split.
    + by destruct Hb2.
    + apply tokens_cons. by exists b2, rest.
  - intros (more & (b1 & r1 & -> & Hb1 & _ & Hcut1 & Hr1)%tokens_cons).
    apply tokens_cons in Hr1 as (b2 & rest & -> & Hb2 & Ht & Hcut & _).
    exists b1, b2, rest. split_and!; try done. intros ->. destruct Ht as [Hne Ht].
    destruct Ht as [|c t Hc _]; [done|]. simpl in Hcut1. congruence.
Qed.

Lemma resolv_loop_spec lines ns :
  (length ns <= NAMESERVER_SLOTS)%nat ->
  exists servers, servers_named (c_str <$> lines) servers /\
    resolv_loop lines ns = ns ++ take (NAMESERVER_SLOTS - length ns) servers.
Proof.
  revert ns. induction lines as [|l lines IH]; intros ns Hlen; cbn [resolv_loop fmap list_fmap].
  { exists []. split; [constructor|]. by rewrite take_nil, app_nil_r. }
  case_decide as Hd; cycle 1.
  { destruct (IH ns Hlen) as (servers & Hn & _).
    replace (NAMESERVER_SLOTS - length ns)%nat with 0%nat by lia.
    destruct (strtok [SPACE; TAB; CR; LF] (c_str l)) as [|t [|t2 more]] eqn:Ht;
      [| |destruct (decide (t = bytes_of_string "nameserver")) as [->|Hne]].
    3: { exists (t2 :: servers). rewrite app_nil_r. split; [|done]. constructor; [|done].
         apply names_server_tokens. by exists more. }
    all: exists servers; rewrite app_nil_r; (split; [|done]); apply named_other; [|done];
      intros server (more' & Hm)%names_server_tokens; rewrite Ht in Hm; congruence. }
  destruct (strtok [SPACE; TAB; CR; LF] (c_str l)) as [|t [|t2 more]] eqn:Ht;
    [| |destruct (decide (t = bytes_of_string "nameserver")) as [->|Hne]].
  3: { destruct (IH (ns ++ [t2])) as (servers & Hn & ->); [rewrite length_app; simpl; lia|].
       exists (t2 :: servers). split.
       - constructor; [|done]. apply names_server_tokens. by exists more.
       - rewrite length_app, <-app_assoc. simpl. f_equal.
         replace (NAMESERVER_SLOTS - length ns)%nat with (S (NAMESERVER_SLOTS - (length ns + 1))) by lia.
         done. }
  all: destruct (IH ns Hlen) as (servers & Hn & ->); exists servers; (split; [|done]);
    apply named_other; [|done]; intros server (more' & Hm)%names_server_tokens; rewrite Ht in Hm; congruence.
Qed.

Lemma servers_named_tokens lines servers :
  servers_named lines servers -> Forall (token is_blank) servers.
Proof.
  induction 1 as [|line server lines servers (? & ? & ? & _ & _ & _ & _ & Ht & _) _ IH|]; [done| |done].
  by constructor.
Qed.

(** C39: The resolver gets at most four nameservers, the slots pjsua has, and
    never an empty or a ragged one: from the variable the first four entries
    of its first 511 bytes, cut at blanks and commas, in order; without it,
    the first four servers that lines of the resolver file name - each the
    second word of a line whose first word is [nameserver] -, in the order of
    the lines; without the file, none. *)
Theorem nameservers_fit env resolv_conf :
  (length (configure_nameservers env resolv_conf) <= NAMESERVER_SLOTS)%nat /\
  match env, resolv_conf with
  | Some (c :: s), _ =>
      configure_nameservers env resolv_conf =
        take 4 (strtok [SPACE; ","%char] (take 511 (c :: s))) /\
      Forall (token is_blank_or_comma) (configure_nameservers env resolv_conf)
  | _, Some file => exists servers,
      servers_named (c_str <$> fgets_lines [] file) servers /\
      configure_nameservers env resolv_conf = take 4 servers /\
      Forall (token is_blank) servers
  | _, None => configure_nameservers env resolv_conf = []
  end.
Proof.
  assert (Hfile : forall file, exists servers, servers_named (c_str <$> fgets_lines [] file) servers /\
    resolv_loop (fgets_lines [] file) [] = take 4 servers /\ Forall (token is_blank) servers).
  { intros file. destruct (resolv_loop_spec (fgets_lines [] file) []) as (servers & Hn & Heq);
      [apply le_0_n|]. exists servers. split_and!; [done|exact Heq|by eapply servers_named_tokens]. }
  assert (Hlen : forall file, (length (resolv_loop (fgets_lines [] file) []) <= NAMESERVER_SLOTS)%nat).
  { intros file. destruct (Hfile file) as (servers & _ & -> & _). rewrite length_take.
    unfold NAMESERVER_SLOTS. lia. }
  destruct env as [[|c s]|]; [|unfold configure_nameservers|];
    [destruct resolv_conf as [file|]; (split; [apply Hlen || apply le_0_n|done || apply Hfile])| |
     destruct resolv_conf as [file|]; (split; [apply Hlen || apply le_0_n|done || apply Hfile])].
  rewrite env_loop_spec by apply le_0_n. change (NAMESERVER_SLOTS - length [])%nat with 4%nat.
  rewrite app_nil_l. split_and!.
  - rewrite length_take. unfold NAMESERVER_SLOTS. lia.
  - done.
  - apply Forall_take. by apply tokens_spec.
Qed.

(** The write deadline: for a plain decimal number that fits [long], the
    daemon takes the value modulo 2^32 - the value itself below that - and
    the default for zero; in particular 2^32 gives a deadline of 0 rather than
    a long one. *)
Theorem write_timeout_decimal `{!Env} ds :
  32 <= LONG_BIT -> digits ds -> decimal ds < 2 ^ (LONG_BIT - 1) ->
  write_timeout (Some ds) =
    Some (if decimal ds =? 0 then 5000
          else if decimal ds <? 2 ^ 32 then decimal ds else decimal ds mod 2 ^ 32).
Proof.
  intros HL Hds Hlt. pose proof (decimal_nonneg ds (proj2 Hds)) as Hpos.
  assert (head_is_digit ds = true) as Hd by (destruct Hds as [? Hds]; by destruct Hds).
  unfold write_timeout, atol. rewrite (scan_decimal_digit _ Hd).
  pose proof (scan_digits_app 0 ds [] (proj2 Hds) eq_refl) as Hs. rewrite app_nil_r in Hs.
  rewrite Hs. cbn [fst snd]. fold (decimal ds).
  rewrite (proj2 (Z.leb_le _ _)) by lia. rewrite (proj2 (Z.ltb_lt _ _)) by done. simpl.
  destruct (Z.eqb_spec (decimal ds) 0) as [->|Hne]; [done|].
  rewrite (proj2 (Z.ltb_lt 0 _)) by lia. destruct (Z.ltb_spec (decimal ds) (2 ^ 32)); [|done].
  by rewrite to_unsigned_small by lia.
Qed.

(** ** The theorems at work *)
Section witnesses.
#[local] Instance config_env : Env := env_of quiet.

Lemma is_digits ds : ds <> [] -> forallb is_digit ds = true -> digits ds.
Proof. intros Hne Hf. split; [done|]. apply Forall_forall. intros c Hc.
  rewrite forallb_forall in Hf. by apply Hf, list_elem_of_In. Qed.

Lemma video_size_spec_witness :
  video_size (Some (bytes_of_string "640x480")) = (640, 480) /\ (640, 480) <> (0, 0).
Proof.
  apply (video_size_spec (bytes_of_string "640x480") 640 480); [simpl; lia|].
  exists (bytes_of_string "640"), "x"%char, (bytes_of_string "480").
  split_and!; try reflexivity; try lia; by apply is_digits.
Defined.

(** Lines of the resolver file that name no server, and two that do. *)
Example resolver_file :
  configure_nameservers None (Some (bytes_of_string "search lan" ++ LF ::
    bytes_of_string " nameserver 10.0.0.1 # first" ++ LF :: bytes_of_string "nameserver" ++ LF ::
    bytes_of_string "nameserver 10.0.0.2"))
  = [bytes_of_string "10.0.0.1"; bytes_of_string "10.0.0.2"].
Proof. reflexivity. Qed.

Lemma write_timeout_decimal_witness :
  write_timeout (Some (bytes_of_string "4294967296")) = Some 0.
Proof.
  apply (write_timeout_decimal (bytes_of_string "4294967296"));
    [simpl; lia|by apply is_digits|vm_compute; reflexivity].
Defined.
End witnesses.
