(* ===== verification/Startup.v ===== *)
(** * Start-up (src/main.c, main() up to the control socket)

    How main() brings pjsua up: the process-wide objects, the configuration
    it hands to [pjsua_init] from the environment variables of Config.v, the
    override of the video codecs' formats and the remaining library calls,
    with the exit on every failure. *)

From S2P Require Import Prelude Float32 Pjlib Env SimEnv State NullVideoDev Framing Compact Wire JsonUtil Events Invariant Config.

(** The callbacks main() registers. *)
Definition registered_callbacks : list callback :=
  [on_reg_state2; on_call_state; on_call_media_state; on_call_media_event;
   on_call_rx_offer; on_incoming_call; on_pager2; on_pager_status2; on_typing2].

Definition no_nameserver_message : string :=
  "no nameserver from %s: SIP targets resolve synchronously, so dialling blocks on the system resolver".
Definition ignored_size_message : string :=
  "Ignoring %s=" ++ quoted "%s" ++ ": expected WxH with each side 1-%d, e.g. 640x480".
Definition ignored_fps_message : string :=
  "Ignoring %s=" ++ quoted "%s" ++ ": expected a whole number of frames per second, 1-%d".

Section startup.
Context `{!Env}.
(** [getenv(name)], and the contents of /etc/resolv.conf if it can be read. *)
Context (getenv : string -> option bytes) (resolv_conf : option bytes).

(** ** The configuration handed to [pjsua_init] *)

Definition configured_ua : pjsua_config :=
  let ua_cfg := pjsua_config_default
    <| nameserver := configure_nameservers (getenv PJSOCKY_NAMESERVER_ENV) resolv_conf |>
    <| cfg_user_agent := user_agent sys_info |> in
  let ua_cfg := match stun_server (getenv PJSOCKY_STUN_SRV_ENV) with
    | Some (srv, ignore) => ua_cfg <| stun_srv := [srv] |> <| stun_ignore_failure := ignore |>
    | None => ua_cfg
    end in
  ua_cfg <| cb := registered_callbacks |>.

Definition configured_logging : pjsua_logging_config :=
  match log_level (getenv PJSOCKY_LOG_LEVEL_ENV) with
  | Some l => pjsua_logging_config_default <| level := l |> <| console_level := l |>
  | None => pjsua_logging_config_default
  end.

Definition configured_media : pjsua_media_config :=
  let media_cfg := pjsua_media_config_default
    <| no_vad := negb (env_flag_is_set (getenv PJSOCKY_VAD_ENV)) |> in
  if env_flag_is_set (getenv PJSOCKY_ICE_ENV) then media_cfg <| enable_ice := true |> else media_cfg.

(** What the log says of it, in the order of main(). *)
Definition log_nameservers (source : string) (ns : list bytes) : C unit :=
  match ns with
  | [] => PJ_LOG 2 no_nameserver_message [LogStr source]
  | _ => mapM (fun n => PJ_LOG 3 "nameserver %.*s (%s)"
                          [LogStr (string_of_bytes n); LogStr source]) ns;; mret tt
  end.

Definition log_configuration : C unit :=
  let env := getenv PJSOCKY_NAMESERVER_ENV in
  log_nameservers (nameserver_source env) (configure_nameservers env resolv_conf);;
  when (env_flag_is_set (getenv PJSOCKY_VAD_ENV))
    (PJ_LOG 3 "%s set: silence detection enabled" [LogStr PJSOCKY_VAD_ENV]);;
  match stun_server (getenv PJSOCKY_STUN_SRV_ENV) with
  | Some (srv, _) =>
      PJ_LOG 3 "STUN server %s (%s)" [LogStr (string_of_bytes srv); LogStr PJSOCKY_STUN_SRV_ENV]
  | None => mret tt
  end;;
  when (env_flag_is_set (getenv PJSOCKY_ICE_ENV))
    (PJ_LOG 3 "%s set: ICE enabled" [LogStr PJSOCKY_ICE_ENV]).

(** ** The video codecs *)

(** One turn of the loop over the codecs.  The line it logs divides the
    frame rate's two numbers. *)
Definition override_codec (width height fps : Z) (codec : string) : C unit :=
  '(status, param) ← pjsua_vid_codec_get_param codec;
  if negb (ok status) then pjsua_perror "Error reading video codec param" status else
  let param := override_codec_param width height fps param in
  status ← pjsua_vid_codec_set_param codec param;
  if negb (ok status) then pjsua_perror "Error setting video codec param" status else
  if fps_denum param =? 0 then undef else
  PJ_LOG 3 "Video codec %.*s encodes at %dx%d @%d fps"
    [LogStr codec; LogNum (to_signed 32 (size_w param)); LogNum (to_signed 32 (size_h param));
     LogNum (to_signed 32 (fps_num param / fps_denum param))].

Fixpoint override_codecs (width height fps : Z) (codecs : list string) : C unit :=
  match codecs with
  | [] => mret tt
  | codec :: rest => override_codec width height fps codec;; override_codecs width height fps rest
  end.

(** An override that is set but ignored is reported. *)
Definition report_ignored_size : C unit :=
  match getenv PJSOCKY_VIDEO_SIZE_ENV with
  | Some s =>
      when (bool_decide (parse_video_size s = None))
        (PJ_LOG 1 ignored_size_message
           [LogStr PJSOCKY_VIDEO_SIZE_ENV; LogStr (string_of_bytes s); LogNum PJSOCKY_VIDEO_MAX_DIM])
  | None => mret tt
  end.
Definition report_ignored_fps : C unit :=
  match getenv PJSOCKY_VIDEO_FPS_ENV with
  | Some s =>
      when (bool_decide (parse_video_fps s = None))
        (PJ_LOG 1 ignored_fps_message
           [LogStr PJSOCKY_VIDEO_FPS_ENV; LogStr (string_of_bytes s); LogNum PJSOCKY_VIDEO_MAX_FPS])
  | None => mret tt
  end.

Definition apply_video_format_override : C unit :=
  let '(width, height) := video_size (getenv PJSOCKY_VIDEO_SIZE_ENV) in
  report_ignored_size;;
  let fps := video_fps (getenv PJSOCKY_VIDEO_FPS_ENV) in
  report_ignored_fps;;
  if (width =? 0) && (fps =? 0) then mret tt else
  '(status, codecs) ← pjsua_vid_enum_codecs PJMEDIA_CODEC_MGR_MAX_CODECS;
  if negb (ok status) then pjsua_perror "Error enumerating video codecs" status else
  override_codecs width height fps codecs.

(** ** The sequence of main()

    Each part returns whether main() goes on; where it does not, main()
    returns 1. *)

(** The way out once pjsua has been created. *)
Definition abandon (report : C unit) : C bool := report;; pjsua_destroy;; mret false.

(** pjsua, the start-up pool, the event coordinator. *)
Definition create_process : C bool :=
  status ← pjsua_create;
  if negb (ok status) then pjsua_perror "Error creating pjsua" status;; mret false else
  pool ← pj_pool_create "pjsocky";
  if negb pool then abandon (PJ_LOG 1 "Failed to allocate startup pool" []) else
  status ← pjsocky_events_create;
  if negb (ok status) then abandon (pjsua_perror "Error creating event dispatcher" status) else
  mret true.

Definition shrink_timers : C unit :=
  match getenv PJSOCKY_TEST_FAST_TIMERS_ENV with
  | Some _ =>
      pjsip_tsx_set_timers 100 0 0 1000;;
      PJ_LOG 2 "%s set: SIP transaction timers shrunk for testing, do not use in production"
        [LogStr PJSOCKY_TEST_FAST_TIMERS_ENV]
  | None => mret tt
  end.

(** The sound device of a box without one. *)
Definition null_sound_device : C unit :=
  n ← pjmedia_aud_dev_count;
  when (n =? 0) (
    PJ_LOG 3 "No audio devices found - using the null sound device" [];;
    status ← pjsua_set_null_snd_dev;
    when (negb (ok status)) (pjsua_perror "Error setting null sound device" status)).

(** [pjmedia_vid_register_factory(&pjsocky_null_vid_factory, NULL)]: pjmedia
    runs the factory's operations, as far as it gets.  A format is kept as the
    arguments of [pjmedia_format_init_video] it is made of. *)
Definition pjmedia_vid_register_null_factory : C pj_status :=
  '(status, use) ← register_null_factory;
  when (match use with FACTORY_UNUSED => false | _ => true end) (
    nf ← pjsocky_null_vid_factory;
    '(_, nf) ← factory_init (fun w h num denom => (w, h, num, denom)) nf;
    when (match use with FACTORY_DROPPED => true | _ => false end) (factory_destroy nf;; mret tt));;
  mret status.

(** From [pjsua_init] to [pjsua_start]. *)
Definition start_library : C bool :=
  status ← pjsua_init configured_ua configured_logging configured_media;
  if negb (ok status) then abandon (pjsua_perror "Error initializing pjsua" status) else
  status ← pjmedia_vid_register_null_factory;
  if negb (ok status)
  then abandon (pjsua_perror "Error registering null video render device" status) else
  apply_video_format_override;;
  status ← pjsua_transport_create;
  if negb (ok status) then abandon (pjsua_perror "Error creating SIP UDP transport" status) else
  status ← pjsua_start;
  if negb (ok status) then abandon (pjsua_perror "Error starting pjsua" status) else
  mret true.

Definition log_started : C unit :=
  PJ_LOG 3 "pjsocky %s (protocol %s, pjsip %s) starting"
    [LogStr PJSOCKY_VERSION; LogStr PJSOCKY_PROTOCOL_VERSION; LogStr pj_get_version];;
  PJ_LOG 3 "pjsocky started idle, no accounts configured" [].

Definition start_up : C bool :=
  go_on ← create_process;
  if negb go_on then mret false else
  shrink_timers;;
  log_configuration;;
  go_on ← start_library;
  if negb go_on then mret false else
  null_sound_device;;
  log_started;;
  mret true.
End startup.

#[export] Hint Unfold pjmedia_vid_register_null_factory pjsocky_null_vid_factory factory_init
  factory_destroy : ops.

(** ** What start-up leaves behind *)

Definition unlocked_events : events := {| ev_lock_held := false; ev_framing := None |}.

(** The calls about single codecs, which the environment asks for. *)
Definition codec_call (a : action) : bool :=
  match a with
  | A_vid_enum_codecs | A_vid_codec_get_param _ _ | A_vid_codec_set_param _ _ _ => true
  | _ => false
  end.

(** Those, and the lines of the log, which the environment asks for as well. *)
Definition side_call (a : action) : bool := codec_call a || is_log a.

Lemma side_logs l : Forall is_log l -> Forall (fun a => side_call a = true) l.
Proof. intros Hl. eapply Forall_impl; [exact Hl|]. by intros [] []. Qed.

(** A call without the answer that is recorded with it. *)
Definition erase_answer (a : action) : action :=
  match a with
  | A_pjsua_create _ => A_pjsua_create PJ_SUCCESS
  | A_pool_create name _ => A_pool_create name true
  | a => a
  end.

(** The calls of a history in the order they were made, but for the side
    calls. *)
Definition boot_log (h : history) : list action :=
  erase_answer <$> filter (fun a => side_call a = false) (rev h).

Lemma boot_log_cons a h :
  boot_log (a :: h) = boot_log h ++ if side_call a then [] else [erase_answer a].
Proof.
  unfold boot_log. simpl. rewrite filter_app, fmap_app. f_equal.
  rewrite filter_cons. destruct (side_call a) eqn:Ha; [by rewrite decide_False by congruence|].
  by rewrite decide_True.
Qed.

Lemma boot_log_side l h :
  Forall (fun a => side_call a = true) l -> boot_log (l ++ h) = boot_log h.
Proof.
  induction 1 as [|a l Ha _ IH]; [done|]. rewrite <-app_comm_cons, boot_log_cons, Ha, IH.
  by rewrite app_nil_r.
Qed.

Section spec.
Context `{!Env} (getenv : string -> option bytes) (resolv_conf : option bytes).

(** One turn of the codec loop: a codec whose parameters cannot be read is
    skipped; any other is set to what it had, with the override.  A failure
    is reported, a success too. *)
Inductive codec_turn (w h f : Z) : string -> history -> Prop :=
| turn_unreadable c st p :
    st <> PJ_SUCCESS ->
    codec_turn w h f c [A_sua_perror "Error reading video codec param" st;
                        A_vid_codec_get_param c (st, p)]
| turn_refused c p st :
    st <> PJ_SUCCESS ->
    codec_turn w h f c [A_sua_perror "Error setting video codec param" st;
                        A_vid_codec_set_param c (override_codec_param w h f p) st;
                        A_vid_codec_get_param c (PJ_SUCCESS, p)]
| turn_set c p p' :
    p' = override_codec_param w h f p ->
    codec_turn w h f c [A_log 3 "Video codec %.*s encodes at %dx%d @%d fps"
                          [LogStr c; LogNum (to_signed 32 (size_w p'));
                           LogNum (to_signed 32 (size_h p'));
                           LogNum (to_signed 32 (fps_num p' / fps_denum p'))];
                        A_vid_codec_set_param c p' PJ_SUCCESS;
                        A_vid_codec_get_param c (PJ_SUCCESS, p)].

(** No codec reports a frame rate with a zero denominator. *)
Definition rates_defined : Prop :=
  forall h c p, ans_vid_codec_get_param h c = (PJ_SUCCESS, p) -> fps_denum p <> 0.

Context (F : Prop) (Hrates : F \/ rates_defined).

Lemma override_denum w h f p : fps_denum p <> 0 -> fps_denum (override_codec_param w h f p) <> 0.
Proof. intros Hp. unfold override_codec_param. by destruct (negb (w =? 0)), (negb (f =? 0)). Qed.

Lemma override_codec_spec w h f c s :
  wpf F (override_codec w h f c) (fun _ s' => exists l,
    s' = s <| hist := l ++ hist s |> /\ codec_turn w h f c l) s.
Proof.
  unfold override_codec. wp_step. apply wpf_ask.
  destruct (ans_vid_codec_get_param (hist s) c) as [st p] eqn:Hget. cbn beta iota.
  destruct (ok st) eqn:Hst; cbn [negb].
  2:{ apply wpf_log_call. eexists [_; _]. split; [done|]. apply turn_unreadable. by apply ok_false. }
  apply ok_true in Hst as ->. wp_step. apply wpf_ask.
  set (st := ans_vid_codec_set_param _ _ _). destruct (ok st) eqn:Hst; cbn [negb].
  2:{ apply wpf_log_call. eexists [_; _; _]. split; [done|]. apply turn_refused. by apply ok_false. }
  apply ok_true in Hst. destruct (fps_denum _ =? 0) eqn:Hz.
  - destruct Hrates as [HF|Hr]; [exact HF|]. apply Z.eqb_eq in Hz.
    by destruct (override_denum w h f p (Hr _ _ _ Hget)).
  - apply wpf_log_call. eexists [_; _; _]. split; [rewrite Hst; done|]. by apply turn_set.
Qed.

Lemma override_codecs_spec w h f codecs s :
  wpf F (override_codecs w h f codecs) (fun _ s' => exists ls,
    s' = s <| hist := concat (rev ls) ++ hist s |> /\ Forall2 (codec_turn w h f) codecs ls) s.
Proof.
  revert s. induction codecs as [|c codecs IH]; intros s; simpl.
  - apply wpf_ret. exists []. split; [by destruct s|constructor].
  - wp_step. eapply wpf_mono; [apply override_codec_spec|]. intros _ s1 (l & -> & Hl).
    eapply wpf_mono; [apply IH|]. intros _ s2 (ls & -> & Hls). exists (l :: ls).
    split; [|by constructor]. cbn [rev]. rewrite concat_app. simpl.
    by rewrite app_nil_r, <-app_assoc.
Qed.

Lemma codec_turn_calls w h f c l :
  codec_turn w h f c l -> Forall (fun a => side_call a = true) l.
Proof. destruct 1; by repeat constructor. Qed.

(** What is reported about values that are set but ignored. *)
Definition ignored {A} (var : string) (parse : bytes -> option A) (msg : string) (max : Z)
  : history :=
  match getenv var with
  | Some s =>
      match parse s with
      | None => [A_log 1 msg [LogStr var; LogStr (string_of_bytes s); LogNum max]]
      | Some _ => []
      end
  | None => []
  end.
Definition ignored_values : history :=
  ignored PJSOCKY_VIDEO_FPS_ENV parse_video_fps ignored_fps_message PJSOCKY_VIDEO_MAX_FPS ++
  ignored PJSOCKY_VIDEO_SIZE_ENV parse_video_size ignored_size_message PJSOCKY_VIDEO_MAX_DIM.

Lemma report_ignored_spec {A B} (k : C B) Q s var (parse : bytes -> option A) msg max :
  wpf F k Q (s <| hist := ignored var parse msg max ++ hist s |>) ->
  wpf F (match getenv var with
         | Some str => when (bool_decide (parse str = None))
             (PJ_LOG 1 msg [LogStr var; LogStr (string_of_bytes str); LogNum max])
         | None => mret tt
         end;; k) Q s.
Proof using Type.
  clear Hrates. unfold ignored. intros HQ. wp_step.
  destruct (getenv var) as [str|]; [|apply wpf_ret; by destruct s].
  destruct (parse str); [|by apply wpf_log_call]. apply wpf_ret. by destruct s.
Qed.

(** The calls [apply_video_format_override] makes: the reports, and for a
    size or a rate that is not ignored the codecs' turns. *)
Definition video_override (h l : history) : Prop :=
  let '(w, ht) := video_size (getenv PJSOCKY_VIDEO_SIZE_ENV) in
  let f := video_fps (getenv PJSOCKY_VIDEO_FPS_ENV) in
  exists k, l = k ++ ignored_values /\
  if (w =? 0) && (f =? 0) then k = []
  else let '(status, codecs) :=
      ans_vid_enum_codecs (ignored_values ++ h) PJMEDIA_CODEC_MGR_MAX_CODECS in
    if ok status then exists ls, k = concat (rev ls) ++ [A_vid_enum_codecs] /\
      Forall2 (codec_turn w ht f) codecs ls
    else k = [A_sua_perror "Error enumerating video codecs" status; A_vid_enum_codecs].

Lemma apply_override_spec s :
  wpf F (apply_video_format_override getenv) (fun _ s' => exists l,
    s' = s <| hist := l ++ hist s |> /\ video_override (hist s) l) s.
Proof.
  unfold apply_video_format_override, video_override. destruct (video_size _) as [w ht].
  apply (report_ignored_spec _ _ _ _ parse_video_size). set (f := video_fps _). cbv zeta.
  apply (report_ignored_spec _ _ _ _ parse_video_fps). simpl hist.
  rewrite (app_assoc _ _ (hist s)). fold ignored_values.
  destruct ((w =? 0) && (f =? 0)).
  { apply wpf_ret. eexists. split; [reflexivity|]. by exists []. }
  wp_step. apply wpf_ask. simpl hist. destruct (ans_vid_enum_codecs _ _) as [st codecs]. cbn beta iota.
  destruct (ok st); cbn [negb].
  - eapply wpf_mono; [apply override_codecs_spec|]. intros _ s' (ls & -> & Hls).
    eexists ((concat (rev ls) ++ [A_vid_enum_codecs]) ++ ignored_values). split.
    + simpl. by rewrite <-!app_assoc.
    + eexists. split; [done|]. by exists ls.
  - apply wpf_log_call.
    exists ([A_sua_perror "Error enumerating video codecs" st; A_vid_enum_codecs] ++ ignored_values).
    split; [done|]. by eexists.
Qed.

Lemma ignored_logs : Forall is_log ignored_values.
Proof using Type.
  clear Hrates F. unfold ignored_values, ignored. apply Forall_app. split.
  - destruct (getenv _) as [str|]; [|done]. by destruct (parse_video_fps str); repeat constructor.
  - destruct (getenv _) as [str|]; [|done]. by destruct (parse_video_size str); repeat constructor.
Qed.

Lemma video_override_calls h l :
  video_override h l -> Forall (fun a => side_call a = true) l.
Proof using Type.
  clear Hrates F.
  unfold video_override. destruct (video_size _) as [w ht]. intros (k & -> & Hk).
  apply Forall_app. split; [|apply side_logs, ignored_logs].
  destruct (_ && _); [by subst k|]. destruct (ans_vid_enum_codecs _ _) as [st codecs].
  destruct (ok st); [|subst k; by repeat constructor].
  destruct Hk as (ls & -> & Hls). apply Forall_app. split; [|by repeat constructor].
  apply Forall_concat, Forall_rev. clear -Hls. induction Hls; constructor; [|done].
  by eapply codec_turn_calls.
Qed.

Lemma log_configuration_spec s0 : keeps F (adds is_log s0) (log_configuration getenv resolv_conf).
Proof using Type.
  clear Hrates. unfold log_configuration, log_nameservers. apply keeps_bind; [|keeps_go].
  destruct (configure_nameservers _ _) as [|n ns]; [keeps_go|].
  apply keeps_bind; [|keeps_go]. generalize (n :: ns). clear n ns. intros ns.
  induction ns as [|n ns IH]; simpl; keeps_go.
Qed.
End spec.

(** ** The sequence of calls *)
Section sequence.
Context `{!Env} `{Hlaws : !EnvLaws} (getenv : string -> option bytes) (resolv_conf : option bytes).

(** No codec reports a frame rate with a zero denominator, and there is
    memory for the null renderer. *)
Definition start_up_safe : Prop :=
  rates_defined /\ forall h, ans_pool_create h "null-vid-render" = true.

(** The calls of a complete start-up up to the question for audio devices;
    the first part creates the process, the last sets pjsua up. *)
Definition timer_calls : list action :=
  if getenv PJSOCKY_TEST_FAST_TIMERS_ENV then [A_tsx_set_timers 100 0 0 1000] else [].
Definition library_calls : list action :=
  [A_pjsua_init (configured_ua getenv resolv_conf) (configured_logging getenv)
     (configured_media getenv);
   A_register_null_factory; A_pool_create "null-vid-render" true; A_transport_create; A_pjsua_start].
Definition boot_calls : list action :=
  [A_pjsua_create PJ_SUCCESS; A_pool_create "pjsocky" true; A_mutex_create "pjsocky-events"]
  ++ timer_calls ++ library_calls.

(** The answer to a call of the start-up, made after [h], is a failure. *)
Definition call_failed (h : history) (a : action) : Prop :=
  match a with
  | A_pjsua_create st => st <> PJ_SUCCESS
  | A_pool_create _ made => made = false
  | A_mutex_create name => ans_mutex_create h name <> PJ_SUCCESS
  | A_pjsua_init ua log media => ans_pjsua_init h ua log media <> PJ_SUCCESS
  | A_register_null_factory => (ans_register_null_factory h).1 <> PJ_SUCCESS
  | A_transport_create => ans_transport_create h <> PJ_SUCCESS
  | A_pjsua_start => ans_pjsua_start h <> PJ_SUCCESS
  | _ => False
  end.

(** What the log says of it. *)
Definition failure_report (h : history) (a : action) : action :=
  match a with
  | A_pjsua_create st => A_sua_perror "Error creating pjsua" st
  | A_mutex_create name =>
      A_sua_perror "Error creating event dispatcher" (ans_mutex_create h name)
  | A_pjsua_init ua log media =>
      A_sua_perror "Error initializing pjsua" (ans_pjsua_init h ua log media)
  | A_register_null_factory =>
      A_sua_perror "Error registering null video render device" (ans_register_null_factory h).1
  | A_transport_create => A_sua_perror "Error creating SIP UDP transport" (ans_transport_create h)
  | A_pjsua_start => A_sua_perror "Error starting pjsua" (ans_pjsua_start h)
  | _ => A_log 1 "Failed to allocate startup pool" []
  end.

(** What the null renderer's factory does while it is being registered. *)
Definition factory_calls (use : factory_use) : history :=
  match use with
  | FACTORY_UNUSED => []
  | FACTORY_KEPT =>
      [A_log 4 "Null video renderer initialized" []; A_pool_create "null-vid-render" true]
  | FACTORY_DROPPED =>
      [A_pool_release "null-vid-render"; A_log 4 "Null video renderer initialized" [];
       A_pool_create "null-vid-render" true]
  end.
Definition callback_calls (h : history) (a : action) : history :=
  match a with
  | A_register_null_factory => factory_calls (ans_register_null_factory h).2
  | _ => []
  end.

(** A start-up that gave up: the last call failed, the ones before are those
    of a complete start-up, the failure is reported, and pjsua is destroyed
    if it exists. *)
Definition start_failed (h : history) : Prop :=
  exists a h', call_failed h' a /\ boot_log (a :: h') `prefix_of` boot_calls /\
    h = match a with
        | A_pjsua_create _ => [failure_report h' a; a]
        | _ => A_pjsua_destroy :: failure_report h' a :: callback_calls h' a ++ a :: h'
        end.

(** The null sound device of a box without another, after history [h]. *)
Definition sound_calls (h : history) : history :=
  if ans_aud_dev_count h =? 0 then
    let h := A_log 3 "No audio devices found - using the null sound device" []
             :: A_aud_dev_count :: h in
    let st := ans_set_null_snd_dev h in
    (if ok st then [] else [A_sua_perror "Error setting null sound device" st])
    ++ A_set_null_snd_dev :: h
  else A_aud_dev_count :: h.
Definition started_lines : history :=
  [A_log 3 "pjsocky started idle, no accounts configured" [];
   A_log 3 "pjsocky %s (protocol %s, pjsip %s) starting"
     [LogStr PJSOCKY_VERSION; LogStr PJSOCKY_PROTOCOL_VERSION; LogStr pj_get_version]].

(** A complete one. *)
Definition start_complete (h : history) : Prop :=
  exists h', boot_log h' = boot_calls /\ h = started_lines ++ sound_calls h'.

(** All that start-up changes is the event coordinator. *)
Definition started (b : bool) (s : St) : Prop :=
  exists i, s = initial_state <| g_instance := i |> <| hist := hist s |> /\
    if b then i = Some unlocked_events /\ start_complete (hist s)
    else start_failed (hist s).

Context (F : Prop) (Hsafe : F \/ start_up_safe).

(** What is left to do of [boot_calls] is [rest]. *)
Definition booting (i : option events) (rest : list action) (s : St) : Prop :=
  s = initial_state <| g_instance := i |> <| hist := hist s |> /\
  boot_log (hist s) ++ rest = boot_calls.

Lemma booting_call i a rest s :
  side_call a = false -> booting i (erase_answer a :: rest) s ->
  booting i rest (s <| hist := a :: hist s |>).
Proof.
  intros Ha [Hs Hlog]. split; [by rewrite Hs at 1|]. simpl.
  by rewrite boot_log_cons, Ha, <-app_assoc.
Qed.

Lemma booting_side i l rest s :
  Forall (fun a => side_call a = true) l -> booting i rest s ->
  booting i rest (s <| hist := l ++ hist s |>).
Proof.
  intros Hl [Hs Hlog]. split; [by rewrite Hs at 1|]. simpl. by rewrite boot_log_side.
Qed.

(** A call that fails ends the start-up. *)
Lemma boot_failed i a rest s :
  (forall st, a <> A_pjsua_create st) -> call_failed (hist s) a -> side_call a = false ->
  booting i (erase_answer a :: rest) s ->
  started false (s <| hist := A_pjsua_destroy :: failure_report (hist s) a
    :: callback_calls (hist s) a ++ a :: hist s |>).
Proof.
  intros Hne Hf Ha Hb. pose proof (booting_call i a rest s Ha Hb) as [_ Hlog].
  destruct Hb as [Hs _]. exists i. split; [by rewrite Hs at 1|]. exists a, (hist s).
  split_and!; [done|by exists rest|]. destruct a; try done. by destruct (Hne answer).
Qed.

(** A step that may end the start-up. *)
Lemma boot_step i a r rest s (Q : bool -> St -> Prop) (m : C bool) (good : bool) :
  side_call a = false ->
  (good = false -> call_failed (hist s) a /\ failure_report (hist s) a = r) ->
  (forall st, a <> A_pjsua_create st) -> callback_calls (hist s) a = [] ->
  booting i (erase_answer a :: rest) s ->
  (forall s', started false s' -> Q false s') ->
  (forall s', booting i rest s' -> wpf F m Q s') ->
  wpf F (if negb good then abandon (log_call r) else m) Q (s <| hist := a :: hist s |>).
Proof.
  intros Hc Hbad Hne Hcb Hb HQ Hm. pose proof (booting_call i a rest s Hc Hb) as Hb'.
  destruct good; cbn [negb]; [by apply Hm|]. clear Hm. destruct Hbad as [Hf <-]; [done|].
  pose proof (boot_failed i a rest s Hne Hf Hc Hb) as Hst. rewrite Hcb in Hst.
  unfold abandon. wp_step. apply wpf_log_call. wp_step. apply wpf_log_call.
  apply wpf_ret. by apply HQ.
Qed.

Ltac boot_next H :=
  eapply boot_step;
    [done|first [intros ?%ok_false|intros ?]; by split|done|done|exact H|done|clear H; intros ? H].

(** The registration of the null renderer. *)
Lemma register_run s :
  let '(status, use) := ans_register_null_factory (hist s) in
  wpf F pjmedia_vid_register_null_factory (fun st s' => st = status /\
    s' = s <| hist := factory_calls use ++ A_register_null_factory :: hist s |>) s.
Proof.
  destruct (ans_register_null_factory (hist s)) as [status use] eqn:Hreg.
  unfold pjmedia_vid_register_null_factory. wp_step. apply wpf_ask. rewrite Hreg. cbn beta iota.
  assert (Hpool : F \/ forall h, ans_pool_create h "null-vid-render" = true)
    by (destruct Hsafe as [?|[_ ?]]; [by left|by right]).
  wp_step. destruct use; cbn [when]; [by apply wpf_ret, wpf_ret|..];
    (wp_step; unfold pjsocky_null_vid_factory; wp_step; apply wpf_ask;
     destruct (ans_pool_create _ _) eqn:Hp; cbn [negb];
       [|destruct Hpool as [Hpool|Hpool]; [exact Hpool|by rewrite Hpool in Hp]];
     apply wpf_ret; unfold factory_init; do 2 wp_step; apply wpf_log_call, wpf_ret; cbn beta iota).
  - by apply wpf_ret, wpf_ret.
  - unfold factory_destroy. cbn [nf_pool when]. do 2 wp_step. by apply wpf_log_call, wpf_ret, wpf_ret, wpf_ret.
Qed.

Lemma start_library_spec s :
  booting (Some unlocked_events) library_calls s ->
  wpf F (start_library getenv resolv_conf) (fun b s' =>
    if b then booting (Some unlocked_events) [] s' else started false s') s.
Proof.
  intros Hb. unfold library_calls in Hb. unfold start_library.
  wp_step. apply wpf_ask. boot_next Hb. wp_step. pose proof (register_run s') as Hreg.
  destruct (ans_register_null_factory (hist s')) as [status use] eqn:Hans.
  eapply wpf_mono; [exact Hreg|]. clear Hreg. intros _ s1 [-> ->].
  destruct (ok status) eqn:Hst; cbn [negb]; cycle 1.
  { pose proof (fun i rest => boot_failed i A_register_null_factory rest s' ltac:(done)) as Hfail. cbn in Hfail.
    rewrite Hans in Hfail. unfold abandon. wp_step. apply wpf_log_call. wp_step. apply wpf_log_call. apply wpf_ret.
    eapply Hfail; [by apply ok_false|done|exact Hb]. }
  apply ok_true in Hst as ->. apply register_keeps in Hans as ->. cbn [factory_calls app].
  apply (booting_call _ A_register_null_factory) in Hb; [|done].
  apply (booting_call _ (A_pool_create "null-vid-render" true)) in Hb; [|done].
  apply (booting_side _ [A_log 4 "Null video renderer initialized" []]) in Hb; [|by repeat constructor].
  forget_state Hb. assert (Hrates : F \/ rates_defined) by (destruct Hsafe as [?|[? _]]; [by left|by right]).
  wp_step. eapply wpf_mono; [by apply apply_override_spec|]. intros _ s1 (l & -> & Hl).
  apply (booting_side _ l) in Hb; [|by eapply video_override_calls]. forget_state Hb.
  wp_step. apply wpf_ask. boot_next Hb. wp_step. apply wpf_ask. boot_next Hb. by apply wpf_ret.
Qed.

Lemma sound_spec s (k : C bool) Q :
  (forall s', s' = s <| hist := sound_calls (hist s) |> -> wpf F k Q s') ->
  wpf F (null_sound_device;; k) Q s.
Proof using Type.
  clear Hsafe. intros Hk. unfold null_sound_device. wp_step. wp_step. apply wpf_ask.
  unfold sound_calls in Hk. simpl in Hk.
  apply wpf_when; intros Hn; rewrite Hn in Hk; [|by apply Hk].
  wp_step. apply wpf_log_call. wp_step. apply wpf_ask. simpl hist.
  set (st := ans_set_null_snd_dev _) in *.
  apply wpf_when; intros Hst; [apply wpf_log_call|]; apply Hk;
    destruct (ok st); try discriminate Hst; reflexivity.
Qed.

(** Start-up, in each of its outcomes. *)
Lemma create_process_spec :
  wpf F create_process (fun b s' =>
    if b then booting (Some unlocked_events) (timer_calls ++ library_calls) s'
    else started false s') initial_state.
Proof using Type.
  clear Hsafe. assert (Hb : booting None boot_calls initial_state) by done.
  unfold boot_calls in Hb. cbn [app] in Hb. unfold create_process.
  wp_step. apply wpf_ask. set (st := ans_pjsua_create _).
  pose proof (booting_call None (A_pjsua_create st) _ initial_state eq_refl Hb) as Hb'.
  destruct (ok st) eqn:Hst; cbn [negb]; cycle 1.
  { wp_step. apply wpf_log_call, wpf_ret. exists None. split; [done|].
    exists (A_pjsua_create st), []. apply ok_false in Hst. split_and!; [done| |done]. by eexists. }
  clear Hb. rename Hb' into Hb. forget_state Hb. clear st Hst.
  wp_step. apply wpf_ask. boot_next Hb.
  unfold pjsocky_events_create. do 2 wp_step. apply wpf_ask.
  match type of Hb with booting _ _ ?s => set (st := ans_mutex_create (hist s) "pjsocky-events") end.
  pose proof (booting_call _ (A_mutex_create "pjsocky-events") _ _ eq_refl Hb) as Hb'.
  destruct (ok st) eqn:Hst; cbn [negb].
  - wp_step. apply wpf_modify, wpf_ret. change (ok PJ_SUCCESS) with true. apply wpf_ret.
    destruct Hb' as [Hs Hlog]. split; [by rewrite Hs at 1|exact Hlog].
  - apply wpf_ret. rewrite Hst. cbn [negb]. unfold abandon. wp_step.
    apply wpf_log_call. wp_step. apply wpf_log_call, wpf_ret. exists None.
    destruct Hb as [Hs _], Hb' as [_ Hlog]. split; [by rewrite Hs at 1|].
    exists (A_mutex_create "pjsocky-events"), (hist s').
    split_and!; [by apply ok_false|by eexists|done].
Qed.

Lemma start_up_spec :
  wpf F (start_up getenv resolv_conf) started initial_state.
Proof.
  unfold start_up. wp_step. eapply wpf_mono; [apply create_process_spec|].
  intros [] s Hb; cbn [negb]; [|by apply wpf_ret].
  wp_step. eapply (wpf_mono _ _ (fun _ s' => booting (Some unlocked_events) library_calls s')).
  { unfold shrink_timers, timer_calls in *. destruct (getenv _); [|by apply wpf_ret].
    wp_step. apply wpf_log_call. apply (booting_call _ (A_tsx_set_timers 100 0 0 1000)) in Hb; [|done].
    match goal with |- wpf _ (PJ_LOG ?l ?m ?a) _ _ => apply (booting_side _ [A_log l m a]) in Hb end;
      [by apply wpf_log_call|by repeat constructor]. }
  clear s Hb. intros _ s Hb.
  wp_step. eapply wpf_mono; [apply log_configuration_spec, adds_refl|].
  intros _ s' (l & -> & Hl). apply (booting_side _ l) in Hb; [|by apply side_logs].
  forget_state Hb. wp_step. eapply wpf_mono; [by apply start_library_spec|].
  clear. intros [] s Hb; cbn [negb]; [|by apply wpf_ret].
  apply sound_spec. intros s' ->. unfold log_started. do 2 wp_step. apply wpf_log_call, wpf_log_call.
  apply wpf_ret. destruct Hb as [Hs Hlog]. exists (Some unlocked_events).
  split; [by rewrite Hs at 1|]. split; [done|]. exists (hist s).
  rewrite app_nil_r in Hlog. by split.
Qed.

(** Start-up opens no socket and starts no timer. *)
Lemma boot_unowned h :
  boot_log h `prefix_of` boot_calls -> Forall (fun a => owned_action a = false) h.
Proof using Type.
  clear F Hsafe Hlaws. intros [rest Hlog]. apply Forall_forall. intros a Ha.
  destruct (side_call a) eqn:Hc; [by destruct a|].
  assert (Hin : erase_answer a ∈ boot_calls).
  { rewrite Hlog. apply elem_of_app. left. unfold boot_log. apply list_elem_of_fmap_2.
    apply list_elem_of_filter. split; [done|].
    apply list_elem_of_In. rewrite <-in_rev. by apply list_elem_of_In. }
  unfold boot_calls, timer_calls, library_calls in Hin.
  destruct (getenv _); by set_unfold; destruct a; naive_solver.
Qed.

Lemma started_unowned b s :
  started b s -> Forall (fun a => owned_action a = false) (hist s).
Proof using Type.
  intros (i & _ & Hs). destruct b.
  - destruct Hs as (_ & h & Hlog & ->).
    assert (Hu : Forall (fun a => owned_action a = false) h)
      by (apply boot_unowned; exists []; by rewrite app_nil_r).
    unfold sound_calls. destruct (_ =? 0); [|by repeat constructor].
    simpl. by destruct (ok _); repeat constructor.
  - destruct Hs as (a & h & _ & Hlog%boot_unowned & ->).
    apply Forall_cons in Hlog as Hlog'. destruct Hlog' as [Ha Hh].
    destruct a; try (by repeat (apply Forall_cons; split; [done|])).
    do 2 (apply Forall_cons; split; [done|]). apply Forall_app. split; [|done].
    simpl. by destruct (ans_register_null_factory h).2; repeat constructor.
Qed.
End sequence.

(** ** Properties *)

(** C36: Start-up, on every path: it returns - where no codec reports a frame
    rate with a zero denominator and the null renderer gets its memory, which
    its source does not check -; when it succeeds, exactly the
    calls of [boot_calls] were made in this order, every one of them
    answered with success, [pjsua_init] with the configuration the
    environment asks for - plus the codecs' calls and the lines of the log,
    and the null sound device where there is no other, whatever became of
    these; when it fails, the last call of main() before the report and
    [pjsua_destroy] is one whose answer was a failure, which the report gives
    - what the null renderer's factory did while it was being registered,
    where that is what failed, is in between -, what came before is the
    beginning of that sequence, and pjsua is destroyed exactly if it was
    created.  Of the process only the event coordinator has changed. *)
Theorem start_up_outcome `{!Env, !EnvLaws} getenv resolv_conf :
  start_up_safe ->
  wp (start_up getenv resolv_conf) (fun b s' =>
    exists i, s' = initial_state <| g_instance := i |> <| hist := hist s' |> /\
    if b then i = Some unlocked_events /\ start_complete getenv resolv_conf (hist s')
    else start_failed getenv resolv_conf (hist s')) initial_state.
Proof. intros Hr. apply start_up_spec. by right. Qed.

(** The video format override reaches every codec: a size or frame rate
    that is set but not valid is reported and ignored; without a valid one
    no codec is touched; with one, every codec pjsua lists is read and, if
    that succeeds, set to what it had but for the size and rate asked for -
    a codec that fails does not keep the later ones from their turn - and
    every outcome is reported. *)
Theorem video_override_applied `{!Env} getenv s :
  rates_defined ->
  wp (apply_video_format_override getenv) (fun _ s' => exists k,
    let h := ignored_values getenv ++ hist s in
    s' = s <| hist := k ++ h |> /\
    let '(w, ht) := video_size (getenv PJSOCKY_VIDEO_SIZE_ENV) in
    let f := video_fps (getenv PJSOCKY_VIDEO_FPS_ENV) in
    if (w =? 0) && (f =? 0) then k = []
    else let '(status, codecs) := ans_vid_enum_codecs h PJMEDIA_CODEC_MGR_MAX_CODECS in
      if ok status then exists ls, k = concat (rev ls) ++ [A_vid_enum_codecs] /\
        Forall2 (codec_turn w ht f) codecs ls
      else k = [A_sua_perror "Error enumerating video codecs" status; A_vid_enum_codecs]) s.
Proof.
  intros Hr. eapply wpf_mono; [apply apply_override_spec; by right|].
  intros _ s' (l & -> & Hl). unfold video_override in Hl. destruct (video_size _) as [w ht].
  destruct Hl as (k & -> & Hk). exists k. cbv zeta. by rewrite <-app_assoc.
Qed.

(** ** The theorems at work *)
Section witnesses.
#[local] Instance startup_env : Env := env_of quiet.
#[local] Instance startup_laws : EnvLaws := quiet_laws.

Definition sample_getenv (name : string) : option bytes :=
  if String.eqb name "PJSOCKY_VIDEO_SIZE" then Some (bytes_of_string "640x480")
  else if String.eqb name "PJSOCKY_TEST_FAST_TIMERS" then Some (bytes_of_string "1")
  else if String.eqb name "PJSOCKY_STUN_SRV" then Some (bytes_of_string "stun.example.org")
  else None.

Lemma sim_rates_defined : rates_defined.
Proof. by intros h c p [= <-]. Qed.

(** The whole log of a start-up: both codecs set, the second in vain, and the
    null sound device. *)
Example sample_start_up :
  (fun r => match r with Ok (b, s) => Some (b, rev (hist s)) | _ => None end)
    (start_up sample_getenv None initial_state) =
  Some (true,
    let param := {| size_w := 640; size_h := 480; fps_num := 15; fps_denum := 1; codec_other := 0 |} in
    let old := param <| size_w := 720 |> in
    [A_pjsua_create PJ_SUCCESS; A_pool_create "pjsocky" true; A_mutex_create "pjsocky-events";
     A_tsx_set_timers 100 0 0 1000;
     A_log 2 "%s set: SIP transaction timers shrunk for testing, do not use in production"
       [LogStr "PJSOCKY_TEST_FAST_TIMERS"];
     A_log 2 no_nameserver_message [LogStr "/etc/resolv.conf"];
     A_log 3 "STUN server %s (%s)" [LogStr "stun.example.org"; LogStr "PJSOCKY_STUN_SRV"];
     A_pjsua_init
       {| nameserver := []; stun_srv := [bytes_of_string "stun.example.org"];
          cfg_user_agent := bytes_of_string "pjsocky/1.0.0.1 (PJSUA v2.15 Linux-6.1 armv7l glibc-2.36)";
          stun_ignore_failure := true; cb := registered_callbacks; ua_other := 0 |}
       {| level := 5; console_level := 4; logging_other := 0 |}
       {| no_vad := true; enable_ice := false; media_other := 0 |};
     A_register_null_factory; A_pool_create "null-vid-render" true;
     A_log 4 "Null video renderer initialized" []; A_vid_enum_codecs;
     A_vid_codec_get_param "H264" (PJ_SUCCESS, old); A_vid_codec_set_param "H264" param PJ_SUCCESS;
     A_log 3 "Video codec %.*s encodes at %dx%d @%d fps"
       [LogStr "H264"; LogNum 640; LogNum 480; LogNum 15];
     A_vid_codec_get_param "VP8" (PJ_SUCCESS, old); A_vid_codec_set_param "VP8" param PJ_EINVAL;
     A_sua_perror "Error setting video codec param" PJ_EINVAL;
     A_transport_create; A_pjsua_start; A_aud_dev_count;
     A_log 3 "No audio devices found - using the null sound device" []; A_set_null_snd_dev;
     A_log 3 "pjsocky %s (protocol %s, pjsip %s) starting"
       [LogStr "1.0.0.1"; LogStr "1.1.0"; LogStr "2.15"];
     A_log 3 "pjsocky started idle, no accounts configured" []]).
Proof. vm_compute. reflexivity. Qed.

Lemma start_up_outcome_witness :
  wp (start_up sample_getenv None) (fun b s' =>
    exists i, s' = initial_state <| g_instance := i |> <| hist := hist s' |> /\
    if b then i = Some unlocked_events /\ start_complete sample_getenv None (hist s')
    else start_failed sample_getenv None (hist s')) initial_state.
Proof.
  apply (start_up_outcome sample_getenv None). split; [exact sim_rates_defined|by intros h].
Defined.

Lemma video_override_applied_witness :
  wp (apply_video_format_override sample_getenv) (fun _ s' => exists k,
    s' = initial_state <| hist := k ++ [] |> /\
    exists ls, k = concat (rev ls) ++ [A_vid_enum_codecs] /\
      Forall2 (codec_turn 640 480 0) ["H264"; "VP8"]%string ls) initial_state.
Proof. exact (video_override_applied sample_getenv initial_state sim_rates_defined). Defined.
End witnesses.
