(* ===== verification/System.v ===== *)
(** * The daemon as a whole (src/main.c, src/proto/server.c)

    The activity of the SIP stack and of the signal handler around the server
    loop, the run of the daemon from start-up to exit, and the theorems about
    every such run. *)

From S2P Require Import Prelude Float32 Pjlib Env SimEnv State Framing Compact SimJson Wire JsonUtil Events Invariant Device Account Im Call Dispatch Server ServerInput ServerLoop Liveness Config Startup.

Section system.
Context `{!Env, !PjJson}.

(** main()'s signal handler; the server exists when it is installed. *)
Definition on_shutdown_signal : C unit := pjsocky_server_stop.

(** pjlib runs the callback of an expired timer, which it has disarmed. *)
Definition timer_expires (t : timer) : C unit :=
  a ← gets (fun s => armed t (hist s));
  when a (
    log_call (A_timer_fired t);;
    match t with
    | RING_TIMER => ring_timer_cb
    | VIDEO_WATCHDOG => video_watchdog_cb
    | MEDIA_REPORT => media_report_cb
    end).

(** pjsua-lib reports the registration state of accounts that exist. *)
Definition reg_state_reported (acc_id : Z) (info : reg_info) : C unit :=
  id ← pjsocky_account_get_id;
  when (negb (id =? PJSUA_INVALID_ID)) (pjsocky_account_on_reg_state2 acc_id info).

(** What the SIP stack does on its own: it runs the callbacks main()
    registers and those of expired timers, in any order. *)
Inductive activity : C unit -> Prop :=
| act_nothing : activity (mret tt)
| act_timer t : activity (timer_expires t)
| act_reg_state2 acc_id info : activity (reg_state_reported acc_id info)
| act_call_state id : activity (pjsocky_call_on_call_state id)
| act_call_media_state id : activity (pjsocky_call_on_call_media_state id)
| act_call_media_event id idx err : activity (pjsocky_call_on_call_media_event id idx err)
| act_call_rx_offer id offer opt :
    activity (pjsocky_call_on_call_rx_offer id offer opt;; mret tt)
| act_incoming_call acc_id id : activity (pjsocky_call_on_incoming_call acc_id id)
| act_pager2 id from to contact mime body acc_id :
    activity (pjsocky_im_on_pager2 id from to contact mime body acc_id)
| act_pager_status2 id to body st reason acc_id :
    activity (pjsocky_im_on_pager_status2 id to body st reason acc_id)
| act_typing2 id from to contact typing acc_id :
    activity (pjsocky_im_on_typing2 id from to contact typing acc_id)
| act_seq m k : activity m -> activity k -> activity (m;; k).

(** What happens outside the server loop once it runs: that, and the signal
    handler. *)
Inductive background : C unit -> Prop :=
| bg_signal : background on_shutdown_signal
| bg_activity m : activity m -> background m
| bg_seq m k : background m -> background k -> background (m;; k).

(** A write deadline that is not positive is reported. *)
Definition report_ignored_timeout (timeout_str : option bytes) : C unit :=
  match timeout_str with
  | Some s =>
      when (from_option (fun parsed => negb (0 <? parsed)) false (atol s))
        (PJ_LOG 2 "Ignoring invalid %s='%s'"
           [LogStr PJSOCKY_WRITE_TIMEOUT_ENV; LogStr (string_of_bytes s)])
  | None => mret tt
  end.

(** The block of main() that creates the control socket. *)
Definition create_control_socket (getenv : string -> option bytes) (write_timeout_msec : Z)
  : C pj_status :=
  report_ignored_timeout (getenv PJSOCKY_WRITE_TIMEOUT_ENV);;
  pjsocky_server_create (string_of_bytes (sock_path (getenv PJSOCKY_SOCK_PATH_ENV)))
    write_timeout_msec.

(** The end of main(), once the server loop has returned [status]; [after]
    happens before pjsua is destroyed. *)
Definition wind_up (status : pj_status) (after : C unit) : C Z :=
  when (negb (ok status)) (pjsua_perror "Control socket accept loop stopped" status);;
  pjsocky_server_destroy;;
  after;;
  pjsua_destroy;;
  mret 0.

(** main(), from its first call to the exit code: [before] happens between
    start-up and the creation of the control socket, [run] is the run of the
    server - [pjsocky_server_run] with what the other threads do in the
    meantime -, [after] happens before pjsua is destroyed.  An environment
    variable that [atol] has no value for is undefined behaviour. *)
Definition serve (getenv : string -> option bytes) (write_timeout_msec : Z)
    (run : C pj_status) (after : C unit) : C Z :=
  status ← create_control_socket getenv write_timeout_msec;
  if negb (ok status) then
    pjsua_perror "Error creating control socket" status;; pjsua_destroy;; mret 1
  else
  status ← run;
  wind_up status after.

Definition main (getenv : string -> option bytes) (resolv_conf : option bytes)
    (before : C unit) (run : C pj_status) (after : C unit) : C Z :=
  go_on ← start_up getenv resolv_conf;
  if negb go_on then mret 1 else
  before;;
  match write_timeout (getenv PJSOCKY_WRITE_TIMEOUT_ENV) with
  | None => undef
  | Some write_timeout_msec => serve getenv write_timeout_msec run after
  end.

(** A state in which main() begins to run the server: start-up, callbacks
    before the control socket exists, and the creation of that socket, which
    has succeeded. *)
Definition begun (s : St) : Prop := exists getenv resolv_conf before s0 s1 t,
  start_up getenv resolv_conf initial_state = Ok (true, s0) /\
  activity before /\ before s0 = Ok (tt, s1) /\
  write_timeout (getenv PJSOCKY_WRITE_TIMEOUT_ENV) = Some t /\
  create_control_socket getenv t s1 = Ok (PJ_SUCCESS, s).
End system.

Section safety.
Context `{!Env, !EnvLaws, !PjJson} (F : Prop).
Context (Hclk : F \/ select_waits) (Hlong : 1 <= LONG_BIT).

Lemma keeps_timer_expires x t :
  serviceable F x -> keeps F (daemon_ok x) (timer_expires t).
Proof.
  intros Hs. unfold timer_expires. apply keeps_bind; [keeps_go|]. intros a.
  apply keeps_when. destruct t; eauto with nocore keeps_db.
Qed.

Lemma keeps_reg_state_reported x acc_id info :
  serviceable F x -> keeps F (daemon_ok x) (reg_state_reported acc_id info).
Proof.
  intros Hs s Hok. unfold reg_state_reported, pjsocky_account_get_id. wp_step. wp_step.
  apply wpf_when; intros Hid; [|done].
  apply (keeps_on_reg_state2 F x Hs); [done|]. intros Heq. by rewrite Heq in Hid.
Qed.

Lemma same_server_refl v : same_server v v.
Proof. by split_and!. Qed.

(** Activity that keeps the invariant for every context. *)
Lemma keeps_others m :
  (forall x, serviceable F x -> keeps F (daemon_ok x) m) -> others_ok F m.
Proof.
  intros Hm c v s Hok. eapply wpf_mono.
  { eapply Hm; [|by destruct Hok]. by eapply server_serviceable. }
  intros [] s' Hd. exists v. split; [|apply same_server_refl]. by destruct Hok; split.
Qed.

Lemma stop_ok : others_ok F pjsocky_server_stop.
Proof.
  intros c v s [[(? & ? & Hv & ?) ? ? ?] ? ? ? ?]. apply wpf_modify.
  exists (v <| stop_requested := true |>). split; [|by split_and!].
  split; try done. split; try done. split_and!; try done. simpl. by rewrite Hv.
Qed.

Lemma seq_ok m k : others_ok F m -> others_ok F k -> others_ok F (m;; k).
Proof.
  intros Hm Hk c v s Hok. wp_step. eapply wpf_mono; [by eapply Hm|].
  intros [] s1 (v1 & Hok1 & Hv1). eapply wpf_mono; [by eapply Hk|].
  intros [] s2 (v2 & Hok2 & Hv2). exists v2. split; [done|].
  destruct Hv1 as (? & ? & ?), Hv2 as (? & ? & ?). split_and!; congruence.
Qed.

Lemma keeps_activity x m :
  serviceable F x -> activity m -> keeps F (daemon_ok x) m.
Proof.
  intros Hs. induction 1; eauto using keeps_timer_expires, keeps_reg_state_reported
    with nocore keeps_db.
  - apply keeps_ret.
  - apply keeps_bind; [eauto with nocore keeps_db|intros; apply keeps_ret].
  - by apply keeps_bind.
Qed.

Lemma background_ok m : background m -> others_ok F m.
Proof.
  induction 1; [by apply stop_ok| |by apply seq_ok].
  apply keeps_others. intros x Hs. by apply keeps_activity.
Qed.

(** *** Start-up and exit *)

(** No socket is open, and account and timers are in order. *)
Record quiescent (s : St) : Prop := {
  qu_live n : live n (hist s) = 0;
  qu_account : account_ok (acc s);
  qu_timers t : scheduled t (call s) = armed t (hist s);
  qu_arms : well_armed (hist s) }.

Lemma quiescent_stable s a :
  owned_action a = false -> quiescent s -> quiescent (s <| hist := a :: hist s |>).
Proof.
  intros Ha []. split; [|done|..|by apply well_armed_other].
  - intros n. rewrite <-(qu_live0 n). by apply live_other.
  - intros t. rewrite qu_timers0. symmetry. by apply armed_other.
Qed.

#[local] Instance quiescent_is_stable : Stable quiescent.
Proof. intros s a. apply quiescent_stable. Qed.

(** The same, with the event coordinator in place and no client. *)
Definition idle (s : St) : Prop :=
  quiescent s /\ g_instance s = Some unlocked_events /\
  0 <= f_write_timeout_msec (conn_framing (conn s)).

Lemma idle_ok s :
  idle s -> daemon_ok {| x_events := unlocked_events; x_conn := conn s; x_srv := srv s;
                         x_live := fun _ => 0 |} s.
Proof. intros [[] [? ?]]. by split. Qed.

(** The daemon outside its server loop is not disturbed by what goes on. *)
Lemma keeps_idle m : background m -> keeps F idle m.
Proof.
  induction 1 as [|m Hm|]; [| |by apply keeps_bind].
  - apply keeps_modify. by intros s [[] [? ?]].
  - intros s Hs. eapply wpf_mono; [eapply keeps_activity; [|exact Hm|by apply idle_ok]|].
    { destruct Hs as (? & ? & ?). by split. }
    intros _ s' [(He & Hc & _ & Hl) ? ? ?]. split; [by split|]. split; [done|].
    rewrite Hc. by destruct Hs as (_ & _ & ?).
Qed.

(** The calls of a successful creation, in order. *)
Definition create_calls (path : string) (sock : Z) : history :=
  [A_log 3 "Listening on %s" [LogStr path]; A_listen sock 4; A_chmod path 384; A_bind sock path; A_unlink path;
   A_socket (PJ_SUCCESS, sock)].

(** One socket more than before is open. *)
Definition one_socket (sock : Z) (s : St) : Prop :=
  (forall n, live n (hist s) = b2z (bool_decide (sock = n))) /\
  account_ok (acc s) /\ (forall t, scheduled t (call s) = armed t (hist s)) /\
  well_armed (hist s).
#[local] Instance one_socket_stable sock : Stable (one_socket sock).
Proof.
  intros s a Ha (Hl & ? & Ht & ?). split_and!; [|done| |by apply well_armed_other].
  - intros n. rewrite <-Hl. by apply live_other.
  - intros t. rewrite Ht. symmetry. by apply armed_other.
Qed.

Lemma one_socket_closed sock s :
  one_socket sock s -> quiescent (s <| hist := A_close sock :: hist s |>).
Proof.
  intros (Hl & ? & Ht & ?). split; [|done|exact Ht|done]. intros n. simpl. rewrite Hl.
  unfold b2z. case_decide; case_bool_decide; lia.
Qed.

Lemma server_create_spec path t s :
  idle s -> 0 <= t ->
  wpf F (pjsocky_server_create path t) (fun st s' =>
    if ok st then exists sock,
      listening {| listen_sock := sock; sun_path := path;
                   srv_write_timeout_msec := t; stop_requested := false |} s' /\
      0 <= sock /\
      hist s' = create_calls path sock ++ hist s
    else quiescent s') s.
Proof.
  intros (Hq & Hi & Hcn) Ht. unfold pjsocky_server_create.
  case_decide; [by apply wpf_ret|]. wp_step. apply wpf_ask.
  destruct (ans_socket (hist s)) as [st sock] eqn:Hsock. cbn beta iota.
  destruct (ok st) eqn:Hst; cbn [negb].
  2:{ apply wpf_ret. rewrite Hst. apply ok_false in Hst. destruct Hq. split; try done.
      intros n. simpl. by destruct st. }
  apply ok_true in Hst as ->. pose proof (socket_valid _ _ Hsock) as Hpos.
  assert (Ho : one_socket sock (s <| hist := A_socket (PJ_SUCCESS, sock) :: hist s |>)).
  { destruct Hq. split_and!; try done. intros n. simpl. rewrite qu_live0. unfold b2z.
    by case_decide; case_bool_decide. }
  wp_step. apply wpf_log_call. apply (stable _ (A_unlink path)) in Ho; [|done].
  wp_step. apply wpf_ask. apply (stable _ (A_bind sock path)) in Ho; [|done].
  destruct (ok (ans_bind _ _ _)) eqn:Hb; cbn [negb].
  2:{ wp_step. apply wpf_log_call. apply wpf_ret. rewrite Hb. by apply one_socket_closed. }
  wp_step. apply wpf_ask. apply (stable _ (A_chmod path 384)) in Ho; [|done].
  destruct (negb _).
  { forget_state Ho. do 2 keeps_over Ho. wp_step. apply wpf_log_call. wp_step. apply wpf_log_call. apply wpf_ask.
    apply one_socket_closed in Ho. apply (quiescent_stable _ (A_unlink path)) in Ho; [|done].
    apply (quiescent_stable _ A_get_os_error) in Ho; [|done].
    match goal with |- context [ok (ans_get_os_error ?h)] =>
      pose proof (os_error_fails h) as Herr end.
    apply ok_false in Herr. by rewrite Herr. }
  wp_step. apply wpf_ask. apply (stable _ (A_listen sock 4)) in Ho; [|done].
  destruct (ok (ans_listen _ _ _)) eqn:Hl; cbn [negb].
  2:{ wp_step. apply wpf_log_call. wp_step. apply wpf_log_call. apply wpf_ret. rewrite Hl.
      apply one_socket_closed in Ho. by apply (quiescent_stable _ (A_unlink path)) in Ho. }
  wp_step. apply wpf_log_call. apply (stable _ (A_log 3 "Listening on %s" [LogStr path])) in Ho;
    [|done].
  wp_step. apply wpf_modify. apply wpf_ret. simpl. exists sock.
  destruct Ho as (? & ? & ? & ?). by split.
Qed.

#[local] Instance idle_stable : Stable idle.
Proof. intros s a Ha [? ?]. split; [by apply stable|done]. Qed.

#[local] Instance listening_stable v : Stable (listening v).
Proof.
  intros s a Ha [? ? ? ? Hl ? Ht ?]. split; try done.
  - intros n. rewrite <-Hl. by apply live_other.
  - intros t. rewrite Ht. symmetry. by apply armed_other.
  - by apply well_armed_other.
Qed.

Lemma create_socket_spec getenv t s :
  idle s -> 0 <= t ->
  wpf F (create_control_socket getenv t) (fun st s' =>
    if ok st then exists v, listening v s' /\ 0 <= listen_sock v else quiescent s') s.
Proof.
  intros Hi Ht. unfold create_control_socket.
  eapply (wpf_keeps_bind _ idle); [exact Hi| |].
  { unfold report_ignored_timeout. destruct (getenv _); keeps_go. }
  intros _ s1 Hi1. eapply wpf_mono; [by apply server_create_spec|].
  intros st s' Hcr. cbv beta in *. destruct (ok st); [|done].
  destruct Hcr as (sock & Hl & Hpos & _). by eexists.
Qed.

Lemma server_destroy_spec v s :
  listening v s -> listen_sock v <> PJ_INVALID_SOCKET ->
  wpf F pjsocky_server_destroy (fun _ s' => idle s') s.
Proof.
  intros [Hi Hv _ Hcn Hl Ha Ht Hw] Hne. unfold pjsocky_server_destroy. do 3 wp_step. rewrite Hv.
  rewrite (proj2 (Z.eqb_neq _ _) Hne). cbn [negb when]. apply wpf_log_call.
  assert (Ho : one_socket (listen_sock v) s) by done.
  apply one_socket_closed in Ho. do 2 wp_step. apply wpf_log_call.
  split; [exact (quiescent_stable _ (A_unlink _) eq_refl Ho)|done].
Qed.

(** The last call the daemon made is the one that destroys pjsua. *)
Definition torn_down (s : St) : Prop := exists h, hist s = A_pjsua_destroy :: h.

Lemma wpf_tear_down {A} (a : A) (Q : A -> St -> Prop) s :
  quiescent s ->
  (forall s', quiescent s' -> torn_down s' -> Q a s') ->
  wpf F (pjsua_destroy;; mret a) Q s.
Proof.
  intros Hq HQ. wp_step. apply wpf_log_call, wpf_ret. apply HQ.
  - by apply quiescent_stable.
  - by exists (hist s).
Qed.

(** A run of the server leaves it listening, without a connection. *)
Definition serves (run : C pj_status) : Prop := forall v s, listening v s -> begun s ->
  wpf F run (fun _ s' => exists v', listening v' s' /\ same_server v v') s.

(** What main() does first once the loop has ended: the status is reported
    unless it is success, the listening socket is closed and its path is
    removed. *)
Definition wound_up (status : pj_status) (v : server) (s : St) : St :=
  s <| hist := [A_unlink (sun_path v); A_close (listen_sock v)]
       ++ (if ok status then [] else [A_sua_perror "Control socket accept loop stopped" status])
       ++ hist s |>.

Lemma wind_up_run v status after s :
  listening v s -> listen_sock v <> PJ_INVALID_SOCKET ->
  wind_up status after s = (after;; pjsua_destroy;; mret 0) (wound_up status v s) /\
  idle (wound_up status v s).
Proof.
  intros Hl Hne.
  set (s1 := s <| hist := (if ok status then []
    else [A_sua_perror "Control socket accept loop stopped" status]) ++ hist s |>).
  assert (listening v s1) as Hl1 by (apply (stable_app (listening v)); [destruct (ok status); by repeat constructor|done]).
  assert (when (negb (ok status)) (pjsua_perror "Control socket accept loop stopped" status) s = Ok (tt, s1)) as Hw
    by (unfold s1; destruct s, (ok status); done).
  assert (pjsocky_server_destroy s1 = Ok (tt, wound_up status v s)) as Hd.
  { apply wp_eq. assert (Hv : srv s1 = v) by apply Hl1. unfold pjsocky_server_destroy. do 3 wp_step.
    rewrite Hv, (proj2 (Z.eqb_neq _ _) Hne). cbn [negb when]. apply wpf_log_call. do 2 wp_step.
    apply wpf_log_call. split; [done|]. unfold wound_up. rewrite <-Hv. done. }
  split.
  - unfold wind_up. unfold mbind at 1, M_bind at 1. rewrite Hw. cbn beta iota.
    unfold mbind at 1, M_bind at 1. by rewrite Hd.
  - pose proof (server_destroy_spec v s1 Hl1 Hne) as Hi. unfold wpf in Hi. by rewrite Hd in Hi.
Qed.

Lemma wind_up_spec v status after s :
  listening v s -> listen_sock v <> PJ_INVALID_SOCKET -> background after ->
  wpf F (wind_up status after) (fun code s' => code = 0 /\ quiescent s' /\ torn_down s') s.
Proof using All.
  intros Hl Hne Ha. destruct (wind_up_run v status after s Hl Hne) as [Heq Hi].
  unfold wpf at 1. rewrite Heq. change (wpf F (after;; pjsua_destroy;; mret 0)
    (fun code s' => code = 0 /\ quiescent s' /\ torn_down s') (wound_up status v s)).
  wp_step. eapply wpf_mono; [by apply keeps_idle|]. intros [] s4 [Hq _]. by apply wpf_tear_down.
Qed.

Lemma serve_spec getenv t run after s :
  idle s -> 0 <= t ->
  (forall s', create_control_socket getenv t s = Ok (PJ_SUCCESS, s') -> begun s') ->
  serves run -> background after ->
  wpf F (serve getenv t run after) (fun code s' =>
    quiescent s' /\ torn_down s' /\ 0 <= code <= 1) s.
Proof using All.
  intros Hi Ht Hbegun Hrun Ha. unfold serve. wp_step.
  eapply wpf_mono; [by apply wpf_run, create_socket_spec|].
  intros st s1 [Hcr Heq]. cbv beta in Hcr. destruct (ok st) eqn:Hst; cbn [negb].
  - apply ok_true in Hst as ->. destruct Hcr as (v & Hl & Hpos). wp_step.
    eapply wpf_mono; [by apply Hrun, Hbegun|]. intros st' s2 (v' & Hl' & Hv).
    eapply wpf_mono; [eapply (wind_up_spec v'); [exact Hl'| |exact Ha]|].
    + destruct Hv as [Hv _]. unfold PJ_INVALID_SOCKET. lia.
    + intros code s' (-> & ? & ?). split; [done|]. split; [done|lia].
  - wp_step. apply wpf_log_call.
    apply (quiescent_stable _ (A_sua_perror "Error creating control socket" st)) in Hcr; [|done].
    by apply wpf_tear_down.
Qed.

(** How a run of main() ends. *)
Definition exited (code : Z) (s : St) : Prop :=
  quiescent s /\ 0 <= code <= 1 /\
  (torn_down s \/ exists st, st <> PJ_SUCCESS /\
     hist s = [A_sua_perror "Error creating pjsua" st; A_pjsua_create st]).

Lemma write_timeout_nonneg str t : write_timeout str = Some t -> 0 <= t.
Proof.
  unfold write_timeout. destruct str as [str|]; [|by intros [= <-]].
  destruct (atol str) as [z|]; [|done]. intros [= <-].
  destruct (0 <? z); [|done]. apply to_unsigned_range.
Qed.

Lemma started_quiescent getenv resolv_conf b s :
  started getenv resolv_conf b s -> quiescent s.
Proof.
  intros Hs. pose proof Hs as Hu. eapply started_unowned in Hu. destruct Hs as (i & -> & _).
  simpl in Hu. set (s0 := initial_state <| g_instance := i |>).
  assert (Hq : quiescent s0) by (split; try done; by intros []).
  apply (stable_app quiescent s0 (hist s) Hu) in Hq. simpl in Hq. by rewrite app_nil_r in Hq.
Qed.

Lemma started_idle getenv resolv_conf s :
  started getenv resolv_conf true s -> idle s.
Proof.
  intros Hs. pose proof Hs as Hq. apply started_quiescent in Hq.
  destruct Hs as (i & Heq & -> & _).
  split_and!; [done|rewrite Heq; done|rewrite Heq; simpl; lia].
Qed.

Lemma started_exited getenv resolv_conf s :
  started getenv resolv_conf false s -> exited 1 s.
Proof.
  intros Hs. split; [by eapply started_quiescent|]. split; [lia|].
  destruct Hs as (_ & _ & a & h & Hf & _ & Hh). destruct a; try (left; by eexists).
  right. by exists answer.
Qed.

Lemma main_spec getenv resolv_conf before run after :
  F \/ start_up_safe ->
  F \/ is_Some (write_timeout (getenv PJSOCKY_WRITE_TIMEOUT_ENV)) ->
  activity before -> serves run -> background after ->
  wpf F (main getenv resolv_conf before run after) exited initial_state.
Proof using All.
  intros Hr Hwt Hb Hrun Ha. unfold main. wp_step.
  eapply wpf_mono; [by apply wpf_run, start_up_spec|]. intros go_on s1 [Hs Hup].
  destruct go_on; cbn [negb]; [|by apply wpf_ret; eapply started_exited].
  wp_step. eapply wpf_mono; [apply wpf_run, keeps_idle; [by constructor|by eapply started_idle]|].
  intros [] s2 [Hi Hbf]. destruct (write_timeout _) as [t|] eqn:Ht.
  - eapply wpf_mono; [apply serve_spec; [done|by eapply write_timeout_nonneg|..|done|done]|].
    { intros s3 Hc. by exists getenv, resolv_conf, before, s1, s2, t. }
    intros code s' (Hq & Hd & Hc). split_and!; try done; lia || by left.
  - destruct Hwt as [?|[? ?]]; done.
Qed.
End safety.

(** ** Properties *)

Section properties.
Context `{!Env, !EnvLaws, !PjJson}.

(** The states the daemon is in between two steps: once the control socket
    has been created, pieces of background activity and iterations of the server loop, in any
    order. *)
Inductive reachable : St -> Prop :=
| reach_start s : begun s -> reachable (s <| conn := zero_conn |>)
| reach_background m s s' :
    reachable s -> background m -> m s = Ok (tt, s') -> reachable s'
| reach_iteration s s' :
    reachable s -> stop_requested (srv s) = false -> server_iteration s = Ok (None, s') ->
    reachable s'.

Lemma line_ok_true line : line_ok True line.
Proof. by left. Qed.

Lemma reachable_server_ok s :
  1 <= LONG_BIT -> reachable s -> exists c v, server_ok c v s.
Proof.
  intros HL. induction 1 as [s (getenv & rc & before & s0 & s1 & t & Hs & Hb & Hb' & Ht & Hc)
    |m s s' _ (c & v & IH) Hm Hrun|s s' _ (c & v & IH) _ Hrun].
  - eapply wlp_run in Hs; [|apply (start_up_spec _ _ True); by left].
    apply started_idle in Hs.
    eapply wlp_run in Hb'; [|apply (keeps_idle True); [by left|done|by constructor|exact Hs]].
    eapply wlp_run in Hc;
      [|apply create_socket_spec; [exact Hb'|by eapply write_timeout_nonneg]].
    destruct Hc as (v & Hl & _). eexists _, _. by apply listening_ok.
  - eapply wlp_run in Hrun; [|eapply (background_ok True); [by left|done|exact Hm|exact IH]].
    destruct Hrun as (v' & ? & _). by exists c, v'.
  - eapply wlp_run in Hrun;
      [|eapply (server_iteration_ok True); [by left|done|exact line_ok_true|exact IH]].
    destruct Hrun as (c' & ? & _). by exists c', v.
Qed.
End properties.

(** The invariant of the daemon, in every reachable state, whatever the
    clients send, whatever the SIP stack reports and however its callbacks,
    the timers, the shutdown signal and the server loop interleave: the
    account is registered only if it is configured; each timer's flag says
    exactly whether the timer is armed, and no timer was ever scheduled
    while armed; the event lock is free, and events go to a connection
    exactly while one is active; the receive buffer is well-formed; and the
    open sockets are exactly the listening one and the active connection's. *)
Theorem daemon_invariant `{!Env, !EnvLaws, !PjJson} (s : St) :
  1 <= LONG_BIT -> reachable s ->
  (g_registered (acc s) = true -> g_acc_id (acc s) <> PJSUA_INVALID_ID) /\
  (forall t, scheduled t (call s) = armed t (hist s)) /\ well_armed (hist s) /\
  g_instance s = Some {| ev_lock_held := false;
    ev_framing := if active (conn s) then Some CONN_FRAMING else None |} /\
  wf_framing (conn_framing (conn s)) /\
  (forall n, live n (hist s) =
     b2z (bool_decide (listen_sock (srv s) = n)) +
     b2z (active (conn s) && bool_decide (conn_sock (conn s) = n))).
Proof.
  intros HL (c & v & [[(Hi & Hc & Hv & Hl) Ha Ht Hw] Hwf _ _ _])%reachable_server_ok; [|done].
  simpl in *. subst c v. by split_and!.
Qed.

(** With the other threads acting between two iterations of the server loop
    only (Progress.v has them act between any two of its operations): every
    run of main() that ends - whatever the environment variables, the
    resolver file and the libraries' answers, for any activity before,
    during and after the server loop - ends with exit code 0 or 1, no socket
    left open, no armed timer forgotten and the account in order; its last
    call destroys pjsua, unless creating pjsua is what failed. *)
Theorem main_leaves_nothing_open_by_iterations `{!Env, !EnvLaws, !PjJson} getenv resolv_conf
    before schedule after :
  1 <= LONG_BIT -> activity before -> Forall background schedule -> background after ->
  wlp (main getenv resolv_conf before (pjsocky_server_run schedule) after) (fun code s' =>
    0 <= code <= 1 /\ (forall n, live n (hist s') = 0) /\
    (forall t, scheduled t (call s') = armed t (hist s')) /\
    (g_registered (acc s') = true -> g_acc_id (acc s') <> PJSUA_INVALID_ID) /\
    ((exists h, hist s' = A_pjsua_destroy :: h) \/
     exists st, st <> PJ_SUCCESS /\
       hist s' = [A_sua_perror "Error creating pjsua" st; A_pjsua_create st])) initial_state.
Proof.
  intros HL Hbefore Hb Hafter.
  eapply wpf_mono; [apply (main_spec True); try done; try by left|].
  - intros v s Hl _. revert Hl. apply (server_run_spec True); [by left|done|apply line_ok_true|done|].
    eapply Forall_impl; [exact Hb|]. intros m. apply background_ok; [by left|done].
  - intros code s' ([] & [? ?] & ?). by split_and!.
Qed.

(** Creation of the control socket: on success exactly these library
    calls were made, in this order - the socket is narrowed to mode 0600
    after it is bound and before it listens - and the server is the one that
    was asked for; on any failure no socket stays open. *)
Theorem server_create_calls `{!Env, !EnvLaws, !PjJson} path t s :
  idle s -> 0 <= t ->
  wp (pjsocky_server_create path t) (fun st s' =>
    if ok st then exists sock,
      srv s' = {| listen_sock := sock; sun_path := path;
                  srv_write_timeout_msec := t; stop_requested := false |} /\
      hist s' = [A_log 3 "Listening on %s" [LogStr path]; A_listen sock 4; A_chmod path 384; A_bind sock path; A_unlink path;
                 A_socket (PJ_SUCCESS, sock)] ++ hist s
    else forall n, live n (hist s') = 0) s.
Proof.
  intros Hi Ht. eapply wpf_mono; [by apply server_create_spec|].
  intros st s' Hpost. cbv beta in Hpost. destruct (ok st); [|by destruct Hpost].
  destruct Hpost as (sock & [] & _ & ?). by exists sock.
Qed.

(** C12: The input of a connection is served line by line: when the socket is
    readable, what is pending and what [recv] delivers is split at its
    newlines, each complete line is handled once, in order, until one asks
    for the connection to be dropped; what follows the last newline stays
    pending - unless it fills the buffer, which is reported to the client
    and drops the connection; the loop returns and keeps the invariant. *)
Theorem handle_conn_input_serves `{!Env, !EnvLaws, !PjJson} c v s :
  1 <= LONG_BIT -> select_waits -> server_ok c v s -> active c = true ->
  Forall (line_ok False) (split_lines (filled s).2).1 ->
  wp handle_conn_input (fun st s' =>
    conn_input_outcome s st s' /\ exists f', server_ok (c <| conn_framing := f' |>) v s') s.
Proof.
  intros HL Hclk Hok Ha Hls. pose proof Hok as [Hd Hwf Ht Hv Hs].
  eapply wpf_mono.
  { apply (handle_conn_input_spec False (server_ctx c v)); [|done..].
    eapply server_serviceable; [by right|done|exact Hok]. }
  intros st s' [(f' & Hwf' & Hs' & Ht' & Hd') Hout]. split; [done|].
  exists f'. split; simpl in *; try done.
  - by rewrite Ht'.
  - intros _. by rewrite Hs', Hs.
Qed.

(** A garbage line does not poison the session: a line that is not a JSON
    object with a string id makes [handle_line] keep the connection,
    whatever became of the error event it sends, and leaves every part of
    the daemon's state but the history of calls as it was. *)
Theorem bad_line_keeps_connection `{!Env, !EnvLaws, !PjJson} c v s line :
  1 <= LONG_BIT -> select_waits -> server_ok c v s ->
  (forall n cs, pj_json_parse line = Some (Elem n (PJ_JSON_VAL_OBJ cs)) ->
     forall n' id, pjsocky_json_find (pj_json_parse line) "id"
                   <> Some (Elem n' (PJ_JSON_VAL_STRING id))) ->
  wp (handle_line line) (fun st s' => st = PJ_SUCCESS /\ exists data l st',
    s' = s <| hist := l ++ hist s |> /\ wire (f_sock (conn_framing c)) l = data /\
    match ev_framing (events_for c) with
    | Some _ => delivered
        (event_object "error" (Some (build_error_event_data "bad_request" bad_line_message))
           (acc s)) PJSOCKY_MAX_LINE st' data
    | None => data = []
    end) s.
Proof.
  intros HL Hclk Hok Hbad. unfold handle_line. wp_step.
  assert (pjsocky_dispatch_line line s = Ok (PJ_EINVAL, None, s)) as Hd.
  { unfold pjsocky_dispatch_line. cbv zeta.
    destruct (pj_json_parse line) as [[n [| | | | |cs]]|] eqn:Hp; try done.
    specialize (Hbad n cs eq_refl).
    destruct (pjsocky_json_find _ "id") as [[n' [| | |id| |]]|] eqn:Hf; try done.
    by destruct (Hbad n' id). }
  unfold wpf at 1. rewrite Hd. cbn beta iota. unfold report_bad_line, push_error_event.
  wp_step. apply wpf_log_call. wp_step.
  assert (Hr : ready s (events_for c)).
  { destruct Hok as [[(Hi & Hc & _) _ _ _] _ Ht _ _]. split; try done. by rewrite Hc. }
  assert (Hc : conn s = c) by apply Hok.
  wp_step. eapply wpf_mono; [apply (push_spec False (events_for c)); [by right|by destruct Hr]|].
  intros st s1 (data & (l & -> & Hl & Hw) & Hd'). apply wpf_ret.
  wp_step. apply wpf_log_call. apply wpf_ret. split; [done|]. simpl in Hw. rewrite Hc in *.
  exists data, (A_pool_reset "pjsocky-conn" :: l ++
    [A_log 2 "Unparseable request line - reporting via error event" []]), st. split_and!.
  - simpl. by rewrite <-app_assoc.
  - simpl. by rewrite wire_app, app_nil_r.
  - destruct (ev_framing (events_for c)); [done|]. by destruct Hd'.
Qed.

(** The calls of [set_nonblocking], latest first. *)
Definition nonblocking_calls `{!Env} (n : Z) (h : history) : history :=
  let flags := ans_fcntl_getfl h n in
  let h1 := A_fcntl_getfl n :: h in
  if flags <? 0 then [A_get_os_error; A_fcntl_getfl n] else
  let flags' := Z.lor flags O_NONBLOCK in
  (if ans_fcntl_setfl h1 n flags' <? 0 then [A_get_os_error] else [])
  ++ [A_fcntl_setfl n flags'; A_fcntl_getfl n].

Lemma set_nonblocking_calls `{!Env} F n s :
  wpf F (set_nonblocking n) (fun _ s' =>
    s' = s <| hist := nonblocking_calls n (hist s) ++ hist s |>) s.
Proof.
  unfold set_nonblocking, nonblocking_calls. wp_step. apply wpf_ask.
  destruct (_ <? 0); [by apply wpf_ask|]. wp_step. apply wpf_ask. simpl hist.
  destruct (ans_fcntl_setfl _ _ _ <? 0); [by apply wpf_ask|by apply wpf_ret].
Qed.

(** A newcomer on socket [n] is turned away in state [s], [data] being what
    its socket has taken: the refusal is logged; with a pool to be had, the
    socket is made non-blocking and sent the refusal within the server's
    deadline; the socket is closed; and that is all. *)
Definition turned_away `{!Env, !PjJson} (n : Z) (s s' : St) (st : pj_status) (data : bytes) : Prop :=
  let h := A_log 3 "Refusing concurrent control connection (one already active)" [] :: hist s in
  let pool := ans_pool_create h "pjsocky-refuse" in
  let h := A_pool_create "pjsocky-refuse" pool :: h in
  if pool then exists l,
    let h := nonblocking_calls n h ++ h in
    message_sent (pjsocky_framing_init n (srv_write_timeout_msec (srv s)) zero_framing)
      (refusal (acc s)) 512 h l st data /\
    s' = s <| hist := A_close n :: A_pool_release "pjsocky-refuse" :: l ++ h |>
  else data = [] /\ s' = s <| hist := A_close n :: h |>.

Lemma refuse_conn_runs `{!Env, !EnvLaws, !PjJson} F n s :
  1 <= LONG_BIT -> F \/ select_waits -> 0 <= srv_write_timeout_msec (srv s) ->
  wpf F (refuse_conn n) (fun _ s' => exists st data, turned_away n s s' st data) s.
Proof.
  intros HL Hclk Ht. unfold refuse_conn, turned_away. wp_step. apply wpf_log_call.
  wp_step. apply wpf_ask. simpl hist. destruct (ans_pool_create _ _); cbn [when].
  - do 2 wp_step. eapply wpf_mono; [apply set_nonblocking_calls|]. intros _ s1 ->.
    do 2 wp_step. do 3 wp_step. eapply wpf_mono; [by apply write_json_sent|].
    intros st s1 (l & data & -> & Hm). apply wpf_log_call, wpf_log_call. by exists st, data, l.
  - wp_step. apply wpf_ret, wpf_log_call. by exists PJ_SUCCESS, [].
Qed.

Lemma nonblocking_silent `{!Env} n h : Forall silent (nonblocking_calls n h).
Proof.
  unfold nonblocking_calls. destruct (_ <? 0); [by repeat constructor|].
  apply Forall_app. split; [case_match|]; by repeat constructor.
Qed.

Lemma turned_away_calls `{!Env, !EnvLaws, !PjJson} n s s' st data :
  turned_away n s s' st data ->
  exists l, s' = s <| hist := A_close n :: l ++ hist s |> /\ Forall plain l /\
    (forall m, m <> n -> wire m l = []) /\ wire n l = data /\
    (data = [] \/ delivered (refusal (acc s)) 512 st data).
Proof.
  unfold turned_away. intros Hrun.
  set (h := A_log 3 "Refusing concurrent control connection (one already active)" [] :: hist s) in *.
  destruct (ans_pool_create h "pjsocky-refuse"); cycle 1.
  { destruct Hrun as [-> ->]. eexists [_; _]. split_and!; [reflexivity|by repeat constructor|done|done|by left]. }
  destruct Hrun as (k & Hm & ->). set (l0 := nonblocking_calls n _) in *.
  pose proof (nonblocking_silent n (A_pool_create "pjsocky-refuse" true :: h)) as Hl0. fold l0 in Hl0.
  apply (message_sent_delivered _ _ _ _ s) in Hm as [(k' & Heq & Hk & Hw) Hd].
  apply (f_equal hist) in Heq. apply app_inv_tail in Heq as <-. simpl in Hk, Hw.
  set (l1 := l0 ++ [A_pool_create "pjsocky-refuse" true;
    A_log 3 "Refusing concurrent control connection (one already active)" []]).
  assert (Hl1 : Forall silent l1) by (apply Forall_app; split; [done|by repeat constructor]).
  exists (A_pool_release "pjsocky-refuse" :: k ++ l1). split_and!.
  - unfold l1, h. simpl. by rewrite <-!app_assoc.
  - constructor; [done|]. apply Forall_app. split.
    + eapply Forall_impl; [exact Hk|]. by intros [].
    + eapply Forall_impl; [exact Hl1|]. by intros [].
  - intros m Hne. simpl. rewrite wire_app, (silent_wire m l1), app_nil_r by done. simpl.
    by apply (send_action_other_wire _ _ _ _ Hk).
  - simpl. by rewrite wire_app, (silent_wire n l1), app_nil_r.
  - by right.
Qed.

(** What [refuse_conn] does to the process. *)
Lemma refuse_conn_trace `{!Env, !EnvLaws, !PjJson} F n s :
  1 <= LONG_BIT -> F \/ select_waits -> 0 <= srv_write_timeout_msec (srv s) ->
  wpf F (refuse_conn n) (fun _ s' => exists l data st,
    s' = s <| hist := A_close n :: l ++ hist s |> /\ Forall plain l /\
    (forall m, m <> n -> wire m l = []) /\ wire n l = data /\
    (data = [] \/ delivered (refusal (acc s)) 512 st data)) s.
Proof.
  intros HL Hclk Ht. eapply wpf_mono; [by apply refuse_conn_runs|].
  intros _ s' (st & data & (l & Hl)%turned_away_calls). by exists l, data, st.
Qed.

(** C26: A second client is turned away without touching the first: whatever
    the new socket does, [refuse_conn] leaves the connection, the
    coordinator, the account and the calls as they are and writes nothing to
    any other socket.  With a pool to be had the newcomer's socket is made
    non-blocking and the one "connection_refused" line is sent to it
    ([message_sent]): it takes all of it, or all it will take within the
    deadline.  Then the socket is closed. *)
Theorem refuse_conn_leaves_client `{!Env, !EnvLaws, !PjJson} n s :
  1 <= LONG_BIT -> select_waits -> 0 <= srv_write_timeout_msec (srv s) ->
  wp (refuse_conn n) (fun _ s' => exists st data,
    turned_away n s s' st data /\ exists l, s' = s <| hist := A_close n :: l ++ hist s |> /\
    (forall m, m <> n -> wire m l = []) /\ wire n l = data /\
    (data = [] \/ delivered (refusal (acc s)) 512 st data)) s.
Proof.
  intros HL Hclk Ht. eapply wpf_mono; [by apply refuse_conn_runs; [|right|]|].
  intros _ s' (st & data & Hr). exists st, data. split; [done|].
  apply turned_away_calls in Hr as (l & ? & _ & ?). by exists l.
Qed.
