(* ===== verification/Threads.v ===== *)
(** * Two threads (src/proto/server.c, src/proto/events.c)

    The main thread of the daemon one operation at a time, with the
    activity of pjsua-lib's threads and of the signal handler between any
    two: between the lines of one read, between a request and its response,
    between the moment a new connection can be written to and its greeting. *)

From S2P Require Import Prelude Float32 Pjlib Env SimEnv State Framing Compact SimJson Wire JsonUtil Events Invariant Device Account Im Call Watchdog Dispatch Requests Server Schema ServerInput ServerLoop Liveness Config Startup System.
#[local] Open Scope string_scope.
#[local] Open Scope list_scope.
#[local] Open Scope Z_scope.

(** ** The main thread *)

(** Where the main thread is in [pjsocky_server_run]: at the test of the loop
    condition, before the call of [select], and - [fds] being the sockets
    [select] has reported - before the stages of [handle_conn_input],
    [handle_line], [close_conn], of the listening socket's part and of
    [open_conn]. *)
Inductive locus : Type :=
| Looping
| Selecting
| Reading (fds : list Z)
| Extracting (fds : list Z)
| Dispatching (fds : list Z) (line : bytes)
| Answering (fds : list Z) (line : bytes) (response : jelem)
| Complaining (fds : list Z) (line : bytes)
| Rejecting (fds : list Z)
| Dropping (fds : list Z)
| Accepting (fds : list Z)
| Opening (sock : Z)
| Greeting
| Returned (status : pj_status).

Section turns.
Context `{!Env, !PjJson}.

(** The operation the main thread does at a locus, and where it is then. *)
Definition turn (l : locus) : C locus :=
  match l with
  | Looping =>
      stop ← gets (fun s => stop_requested (srv s));
      if (stop : bool) then
        a ← gets (fun s => active (conn s));
        when a close_conn;;
        mret (Returned PJ_SUCCESS)
      else mret Selecting
  | Selecting =>
      listen ← gets (fun s => listen_sock (srv s));
      c ← gets conn;
      let rfds := listen :: (if active c then [conn_sock c] else []) in
      n ← select_read rfds 0 (PJSOCKY_ACCEPT_POLL_MSEC * 1000);
      match n with
      | SelectError =>
          status ← pj_get_os_error;
          if decide (status = PJ_STATUS_FROM_OS EINTR) then mret Looping else
          PJ_PERROR 1 status "select() failed" [];;
          when (active c) close_conn;;
          mret (Returned status)
      | SelectTimeout => mret Looping
      | SelectReady fds =>
          mret (if active c && bool_decide (conn_sock c ∈ fds) then Reading fds else Accepting fds)
      end
  | Reading fds =>
      f ← get_conn_framing;
      '(status, f) ← pjsocky_framing_fill f;
      put_conn_framing f;;
      if decide (status = PJ_EPENDING) then mret (Accepting fds)
      else if decide (status = PJ_EEOF) then
        PJ_LOG 4 "Client disconnected" [];; mret (Dropping fds)
      else if negb (ok status) then
        PJ_PERROR 2 status "Socket read error" [];; mret (Dropping fds)
      else mret (Extracting fds)
  | Extracting fds =>
      f ← get_conn_framing;
      '(status, line, f) ← check (pjsocky_framing_extract_line f);
      put_conn_framing f;;
      if decide (status = PJ_EPENDING) then mret (Accepting fds)
      else if decide (status = PJ_ETOOBIG) then mret (Rejecting fds)
      else
        text ← check (line_text line (f_buf f));
        mret (Dispatching fds text)
  | Dispatching fds line =>
      '(status, response) ← pjsocky_dispatch_line line;
      mret (match response with
            | Some response => if ok status then Answering fds line response else Complaining fds line
            | None => Complaining fds line
            end)
  | Answering fds _ response =>
      status ← send_response response;
      mret (if ok status then Extracting fds else Dropping fds)
  | Complaining fds _ =>
      status ← report_bad_line;
      mret (if ok status then Extracting fds else Dropping fds)
  | Rejecting fds => report_long_line;; mret (Dropping fds)
  | Dropping fds => close_conn;; mret (Accepting fds)
  | Accepting fds =>
      listen ← gets (fun s => listen_sock (srv s));
      if decide (listen ∈ fds) then
        '(status, new_sock) ← pj_sock_accept listen;
        c ← gets conn;
        if negb (ok status) then
          PJ_PERROR 1 status "accept() failed" [];;
          when (active c) close_conn;;
          mret (Returned status)
        else if active c then refuse_conn new_sock;; mret Looping
        else mret (Opening new_sock)
      else mret Looping
  | Opening sock =>
      attached ← attach_conn sock;
      mret (if attached : bool then Greeting else Looping)
  | Greeting => greet_client;; mret Looping
  | Returned status => mret (Returned status)
  end.

(** The main thread, undisturbed. *)
Definition goes : locus * St -> locus * St -> Prop := rtc (fun x y => turn x.1 x.2 = Ok y).

(** Where an iteration of the loop ends. *)
Definition home (r : option pj_status) : locus :=
  match r with Some st => Returned st | None => Looping end.

(** The states of the process, with the other activity between the turns of
    the main thread: [reachable] with finer steps.  Unless [early] holds there
    is none just before a greeting. *)
Inductive interleaved (early : Prop) : locus -> St -> Prop :=
| il_start s : begun s -> interleaved early Looping (s <| conn := zero_conn |>)
| il_background l m s s' :
    interleaved early l s -> (l = Greeting -> early) -> background m -> m s = Ok (tt, s') ->
    interleaved early l s'
| il_turn l s l' s' :
    interleaved early l s -> turn l s = Ok (l', s') -> interleaved early l' s'.
End turns.

(** ** Turns make up the iterations of the server loop *)
Section lockstep.
Context `{!Env, !EnvLaws, !PjJson}.

Lemma run_bind {A B} (m : C A) (k : A -> C B) s b s2 :
  (m ≫= k) s = Ok (b, s2) -> exists a s1, m s = Ok (a, s1) /\ k a s1 = Ok (b, s2).
Proof.
  unfold mbind, M_bind. destruct (m s) as [[a s1]| |]; [|done..]. intros Hk. by exists a, s1.
Qed.

Lemma wp_of_run {A} (m : C A) Q s a s' : m s = Ok (a, s') -> Q a s' -> wp m Q s.
Proof. unfold wpf. by intros ->. Qed.

Lemma goes_turn l s X : wp (turn l) (fun l' s' => goes (l', s') X) s -> goes (l, s) X.
Proof.
  unfold wpf. destruct (turn l s) as [[l' s']| |] eqn:Ht; [|done..].
  intros Hg. eapply rtc_l; [|exact Hg]. exact Ht.
Qed.

(** A turn that runs one operation of the program. *)
Lemma goes_then {A} (m : C A) (next : A -> locus) l s a s' X :
  turn l = (a ← m; mret (next a)) -> m s = Ok (a, s') -> goes (next a, s') X -> goes (l, s) X.
Proof.
  intros Hl Hm Hg. apply goes_turn. rewrite Hl. wp_step. eapply wp_of_run; [exact Hm|].
  by apply wpf_ret.
Qed.
End lockstep.

(** [run_step H] takes the first operation of the program that [H] says has
    run, and the same one of the program in the goal. *)
Ltac run_step H :=
  let a := fresh "a" in let s := fresh "s" in let Hm := fresh "Hm" in
  apply run_bind in H as (a & s & Hm & H); wp_step;
  eapply wp_of_run; [exact Hm|]; cbn beta iota in H; cbn beta iota.
Ltac run_ret H := injection H as <- <-; apply wpf_ret.

Section turns_run.
Context `{!Env, !EnvLaws, !PjJson}.

Lemma handle_line_turns fds line s st s' :
  handle_line line s = Ok (st, s') ->
  goes (Dispatching fds line, s) (if ok st then Extracting fds else Dropping fds, s').
Proof.
  unfold handle_line. intros Hrun. apply run_bind in Hrun as ([st0 response] & s1 & Hm & Hrun).
  assert (Hbad : report_bad_line s1 = Ok (st, s') ->
    goes (Complaining fds line, s1) (if ok st then Extracting fds else Dropping fds, s')).
  { intros Hb. eapply (goes_then report_bad_line (fun st => if ok st then Extracting fds else Dropping fds));
      [done|exact Hb|apply rtc_refl]. }
  apply goes_turn. cbn [turn]. wp_step. eapply wp_of_run; [exact Hm|]. apply wpf_ret.
  destruct response as [response|]; [|by apply Hbad]. destruct (ok st0); [|by apply Hbad].
  by eapply (goes_then (send_response response) (fun st => if ok st then Extracting fds else Dropping fds));
    [done|exact Hrun|apply rtc_refl].
Qed.

Lemma input_loop_turns fuel fds s st s' :
  input_loop fuel s = Ok (st, s') ->
  goes (Extracting fds, s) (if ok st then Accepting fds else Dropping fds, s').
Proof.
  revert s. induction fuel as [|fuel IH]; intros s Hrun; [done|]. cbn [input_loop] in Hrun.
  apply goes_turn. cbn [turn]. run_step Hrun. run_step Hrun. destruct a0 as [[st0 line] f].
  run_step Hrun. case_decide; [run_ret Hrun; apply rtc_refl|]. case_decide as Hbig.
  - apply run_bind in Hrun as ([] & s3 & Hm2 & Hrun). run_ret Hrun. subst st0.
    by eapply (goes_then report_long_line (fun _ => Dropping fds)); [done|exact Hm2|apply rtc_refl].
  - run_step Hrun. apply wpf_ret. apply run_bind in Hrun as (st1 & s4 & Hm3 & Hrun).
    etrans; [by eapply handle_line_turns|]. destruct (ok st1) eqn:Hst1; cbn [negb] in Hrun.
    + by apply IH.
    + injection Hrun as <- <-. rewrite Hst1. apply rtc_refl.
Qed.

Lemma handle_conn_input_turns fds s st s' :
  handle_conn_input s = Ok (st, s') ->
  goes (Reading fds, s) (if ok st then Accepting fds else Dropping fds, s').
Proof.
  unfold handle_conn_input. intros Hrun. apply goes_turn. cbn [turn].
  run_step Hrun. run_step Hrun. destruct a0 as [st0 f]. run_step Hrun.
  case_decide; [run_ret Hrun; apply rtc_refl|]. case_decide as Heof.
  { run_step Hrun. run_ret Hrun. subst st0. apply rtc_refl. }
  destruct (ok st0) eqn:Hst0; cbn [negb] in *.
  - apply wpf_ret. by eapply input_loop_turns.
  - run_step Hrun. run_ret Hrun. rewrite Hst0. apply rtc_refl.
Qed.

Lemma accept_conn_turns fds s r s' :
  (if decide (listen_sock (srv s) ∈ fds) then accept_conn (listen_sock (srv s)) else mret None) s
    = Ok (r, s') ->
  goes (Accepting fds, s) (home r, s').
Proof.
  intros Hrun. apply goes_turn. cbn [turn]. do 2 wp_step.
  case_decide; [|run_ret Hrun; apply rtc_refl]. unfold accept_conn in Hrun.
  run_step Hrun. destruct a as [st sock]. run_step Hrun. destruct (negb (ok st)).
  { run_step Hrun. run_step Hrun. run_ret Hrun. apply rtc_refl. }
  destruct (active a).
  { run_step Hrun. run_ret Hrun. apply rtc_refl. }
  apply wpf_ret. apply run_bind in Hrun as ([] & s4 & Hopen & Hrun). injection Hrun as <- <-.
  unfold open_conn in Hopen. apply run_bind in Hopen as (attached & s5 & Hatt & Hg).
  eapply (goes_then (attach_conn sock) (fun b : bool => if b then Greeting else Looping));
    [done|exact Hatt|]. destruct attached; cbn [when] in Hg.
  - by eapply (goes_then greet_client (fun _ => Looping)); [done|exact Hg|apply rtc_refl].
  - injection Hg as <-. apply rtc_refl.
Qed.

Lemma iteration_turns c v s r s' :
  1 <= LONG_BIT -> server_ok c v s -> server_iteration s = Ok (r, s') ->
  goes (Selecting, s) (home r, s').
Proof.
  intros HL Hok Hrun. unfold server_iteration in Hrun. apply goes_turn. cbn [turn].
  assert (Hc : conn s = c) by apply Hok. assert (Hv : srv s = v) by apply Hok.
  apply run_bind in Hrun as (listen & s1 & Hl & Hrun). injection Hl as <- <-.
  apply run_bind in Hrun as (c1 & s1 & Hc1 & Hrun). injection Hc1 as <- <-. do 4 wp_step.
  run_step Hrun. rename a into n, s0 into s1.
  assert (Hok1 : server_ok c v s1).
  { injection Hm as _ <-. by apply server_ok_stable. }
  clear Hm. destruct n as [| |fds].
  - run_step Hrun. case_decide; [run_ret Hrun; apply rtc_refl|]. run_step Hrun. run_step Hrun.
    run_ret Hrun. apply rtc_refl.
  - run_ret Hrun. apply rtc_refl.
  - apply wpf_ret. rewrite Hc, Hv in *.
    assert (Haccept : forall c' s2, server_ok c' v s2 ->
      (if decide (listen_sock v ∈ fds) then accept_conn (listen_sock v) else mret None) s2
        = Ok (r, s') -> goes (Accepting fds, s2) (home r, s')).
    { intros c' s2 Hok2 Hacc. apply accept_conn_turns.
      assert (Hv2 : srv s2 = v) by apply Hok2. by rewrite Hv2. }
    destruct (active c && _) eqn:Hin; cbn [when] in Hrun; [|by eapply Haccept].
    apply andb_true_iff in Hin as [Ha _].
    apply run_bind in Hrun as ([] & s2 & Hserve & Hrun).
    apply run_bind in Hserve as (st & s3 & Hinput & Hclose).
    etrans; [by eapply handle_conn_input_turns|].
    eapply wlp_run in Hinput; [|apply (handle_conn_input_ok True) with (c := c) (v := v);
      auto using line_ok_true]. destruct Hinput as (f' & Hok3).
    destruct (ok st); cbn [negb when] in Hclose.
    + injection Hclose as <-. by eapply Haccept.
    + eapply (goes_then close_conn (fun _ => Accepting fds)); [done|exact Hclose|].
      eapply wlp_run in Hclose; [|by apply (close_conn_spec True _ _ _ Hok3)].
      exact (Haccept _ _ Hclose Hrun).
Qed.

(** The loop condition and an iteration. *)
Lemma loop_turns c v s s' :
  1 <= LONG_BIT -> server_ok c v s -> stop_requested (srv s) = false ->
  server_iteration s = Ok (None, s') -> goes (Looping, s) (Looping, s').
Proof.
  intros HL Hok Hstop Hrun. apply goes_turn. cbn [turn]. do 2 wp_step. rewrite Hstop.
  apply wpf_ret. change Looping with (home None). by eapply iteration_turns.
Qed.

Lemma interleaved_goes early l s l' s' :
  interleaved early l s -> goes (l, s) (l', s') -> interleaved early l' s'.
Proof.
  intros Hi Hg. remember (l, s) as x eqn:Hx. remember (l', s') as y eqn:Hy.
  revert l s Hi Hx. induction Hg as [x|x [l1 s1] y Ht _ IH]; intros l s Hi ->; simplify_eq; [done|].
  apply (IH eq_refl l1 s1); [|done]. by eapply il_turn.
Qed.

Lemma reachable_interleaved_aux early s :
  1 <= LONG_BIT -> reachable s -> interleaved early Looping s.
Proof.
  intros HL. induction 1 as [| |s s' Hr IH Hstop Hrun].
  - by eapply il_start.
  - by eapply il_background.
  - destruct (reachable_server_ok s HL Hr) as (c & v & Hok).
    eapply interleaved_goes; [exact IH|by eapply loop_turns].
Qed.
End turns_run.

(** ** The invariant at every locus *)

(** A connection can be written to. *)
Definition attached_at (l : locus) (c : conn_state) : bool :=
  match l with Greeting => true | _ => active c end.
(** The coordinator, the connection object and the open sockets at a locus. *)
Definition locus_ctx (l : locus) (c : conn_state) (v : server) : ctx :=
  match l with
  | Opening m => opened m (server_ctx c v)
  | Greeting => greeting_ctx c v
  | _ => server_ctx c v
  end.
(** The loci of a connection being served, and those without a connection. *)
Definition phase_ok (l : locus) (c : conn_state) : Prop :=
  match l with
  | Reading _ | Extracting _ | Dispatching _ _ | Answering _ _ _ | Complaining _ _
  | Rejecting _ | Dropping _ => active c = true
  | Opening _ | Greeting | Returned _ => active c = false
  | Looping | Selecting | Accepting _ => True
  end.

Record located (l : locus) (c : conn_state) (v : server) (s : St) : Prop := {
  lo_daemon : daemon_ok (locus_ctx l c v) s;
  lo_framing : wf_framing (conn_framing c);
  lo_timeout : 0 <= f_write_timeout_msec (conn_framing c);
  lo_srv_timeout : 0 <= srv_write_timeout_msec v;
  lo_sock : attached_at l c = true -> f_sock (conn_framing c) = conn_sock c;
  lo_phase : phase_ok l c }.

Section invariant.
Context `{!Env, !EnvLaws, !PjJson} (HL : 1 <= LONG_BIT).
Context (F : Prop) (Hclk : F \/ select_waits).

Definition ordinary (l : locus) : Prop :=
  match l with Opening _ | Greeting => False | _ => True end.

Lemma located_server l c v s :
  ordinary l -> located l c v s <-> server_ok c v s /\ phase_ok l c.
Proof.
  intros Ho. split.
  - intros []. by destruct l.
  - intros [[] ?]. by destruct l; split.
Qed.

Lemma located_serviceable l c v s : located l c v s -> serviceable F (locus_ctx l c v).
Proof using Hclk HL. intros []. by destruct l; split. Qed.

Lemma located_conn l c v s : located l c v s -> conn s = c /\ srv s = v.
Proof. intros [[(_ & Hc & Hv & _) _ _ _] _ _ _ _ _]. by destruct l. Qed.

#[local] Instance server_ok_is_stable c v : Stable (server_ok c v).
Proof using Type. intros s a Ha. by apply server_ok_stable. Qed.

(** *** The other threads *)
Definition with_srv (x : ctx) (v : server) : ctx :=
  {| x_events := x_events x; x_conn := x_conn x; x_srv := v; x_live := x_live x |}.

(** The server may have been asked to stop; such a request is not withdrawn. *)
Definition follows (v v' : server) : Prop :=
  same_server v v' /\ (stop_requested v = true -> stop_requested v' = true).

Lemma follows_refl v : follows v v.
Proof using Type. by split; [apply same_server_refl|]. Qed.
Lemma follows_trans v1 v2 v3 : follows v1 v2 -> follows v2 v3 -> follows v1 v3.
Proof using Type.
  intros [(? & ? & ?) ?] [(? & ? & ?) ?]. split; [split_and!; congruence|auto].
Qed.

Lemma background_ctx x m s :
  serviceable F x -> background m -> daemon_ok x s ->
  wpf F m (fun _ s' => exists v, daemon_ok (with_srv x v) s' /\ follows (x_srv x) v) s.
Proof using All.
  intros Hx Hm. revert x s Hx. induction Hm as [|m Hm|m k _ IHm _ IHk]; intros x s Hx Hok.
  - apply wpf_modify. exists (srv s <| stop_requested := true |>).
    destruct Hok as [(Hi & Hc & Hv & Hl) ? ? ?]. split; [by split|]. by rewrite Hv.
  - eapply wpf_mono; [by apply (keeps_activity F x)|]. intros [] s' Hok'.
    exists (x_srv x). split; [|apply follows_refl]. cbv beta in Hok'.
    destruct Hok' as [Hfix Hacc Htim Harm]. split; [exact Hfix|done..].
  - wp_step. eapply wpf_mono; [by apply IHm|]. intros _ s1 (v1 & Hok1 & Hv1).
    eapply wpf_mono; [apply (IHk (with_srv x v1)); [by destruct Hx|done]|].
    intros _ s2 (v2 & Hok2 & Hv2). exists v2. split; [done|]. by eapply follows_trans.
Qed.

Lemma locus_live_srv l c v v' n :
  same_server v v' -> x_live (locus_ctx l c v') n = x_live (locus_ctx l c v) n.
Proof using Type.
  intros (Hl & _ & _). by destruct l; simpl; unfold sockets_for; simpl; rewrite Hl.
Qed.

Lemma background_located l c v s m :
  located l c v s -> background m ->
  wpf F m (fun _ s' => exists v', located l c v' s' /\ follows v v') s.
Proof using All.
  intros Hl Hm. pose proof (located_serviceable l c v s Hl) as Hx.
  destruct Hl as [Hd Hwf Ht Hv Hs Hp].
  eapply wpf_mono; [by apply (background_ctx (locus_ctx l c v))|]. intros _ s' (v' & Hok & Hsame).
  assert (Hsrv : x_srv (locus_ctx l c v) = v) by by destruct l. rewrite Hsrv in Hsame.
  exists v'. split; [|done]. destruct Hsame as [Hsame _].
  split; try done; [|by destruct Hsame as (_ & _ & ->)].
  apply (ok_live_ext _ (x_live (locus_ctx l c v'))) in Hok.
  - by destruct l.
  - intros n. simpl. symmetry. by apply locus_live_srv.
Qed.

(** *** The turns of the main thread *)
Lemma server_located l c v s : ordinary l -> server_ok c v s -> phase_ok l c -> located l c v s.
Proof using Type. intros. by apply located_server. Qed.

(** The numbers of the request that is about to be run fit an [int] - with [F]
    true, nothing is asked. *)
Definition fits (l : locus) : Prop :=
  match l with Dispatching _ line => line_ok F line | _ => True end.

(** A turn ends at a locus of the same server. *)
Definition lands (v : server) (l : locus) (s : St) : Prop := exists c, located l c v s.

Lemma lands_at c v l s : ordinary l -> server_ok c v s -> phase_ok l c -> lands v l s.
Proof using Type. intros. exists c. by apply server_located. Qed.

Lemma close_then_lands c v s l :
  server_ok c v s -> (forall c', active c' = false -> phase_ok l c') -> ordinary l ->
  wpf F (when (active c) close_conn;; mret l) (lands v) s.
Proof using All.
  intros Hok Hp Ho. wp_step. eapply wpf_mono; [by apply (close_if_active F)|].
  intros _ s' (c' & Hok' & Ha). apply wpf_ret. by apply (lands_at c'); [..|apply Hp].
Qed.

Lemma looping_lands c v s : server_ok c v s -> wpf F (turn Looping) (lands v) s.
Proof using All.
  intros Hok. assert (Hc : conn s = c) by apply Hok. cbn [turn]. do 2 wp_step.
  destruct (stop_requested (srv s)); [|apply wpf_ret; by apply (lands_at c)].
  wp_step. wp_step. rewrite Hc. by apply close_then_lands with (l := Returned PJ_SUCCESS).
Qed.

Lemma selecting_lands c v s : server_ok c v s -> wpf F (turn Selecting) (lands v) s.
Proof using All.
  intros Hok. assert (Hc : conn s = c) by apply Hok. cbn [turn]. do 4 wp_step. rewrite Hc.
  wp_step. apply wpf_ask. set (a := A_select_read _ _ _).
  apply (stable _ a) in Hok; [|done].
  destruct (ans_select_read _ _ _ _) as [| |fds].
  - keeps_over Hok. case_decide; [apply wpf_ret; by apply (lands_at c)|]. keeps_over Hok.
    by apply close_then_lands with (l := Returned _).
  - apply wpf_ret. by apply (lands_at c).
  - apply wpf_ret. destruct (active c) eqn:Ha; cbn [andb]; [|by apply (lands_at c)].
    by case_bool_decide; apply (lands_at c).
Qed.

(** A new receive buffer for the connection. *)
Lemma put_framing_server c v f s :
  server_ok c v s -> active c = true -> wf_framing f -> f_sock f = f_sock (conn_framing c) ->
  f_write_timeout_msec f = f_write_timeout_msec (conn_framing c) ->
  server_ok (c <| conn_framing := f |>) v (s <| conn := conn s <| conn_framing := f |> |>).
Proof using Type.
  intros [Hd Hwf Ht Hv Hs] Ha Hwf' Hsk Htm. split; simpl; try done.
  - by apply (put_framing_ok _ f) in Hd.
  - by rewrite Htm.
  - intros _. by rewrite Hsk, Hs.
Qed.

Lemma reading_lands fds c v s :
  server_ok c v s -> active c = true -> wpf F (turn (Reading fds)) (lands v) s.
Proof using All.
  intros Hok Ha. assert (Hc : conn s = c) by apply Hok. cbn [turn]. unfold get_conn_framing, put_conn_framing.
  do 3 wp_step. rewrite Hc. eapply wpf_mono; [by apply (fill_total F), Hok|].
  intros [st f] s1 (-> & Hwf & _ & Hsk & Htm). cbn [fst snd] in *.
  apply (after_recv_stable (server_ok c v) (conn_framing c)) in Hok.
  apply (put_framing_server c v f) in Hok; [|done..]. wp_step. apply wpf_modify. cbn beta iota.
  match goal with |- wpf _ _ _ ?s0 => change s0 with
    (after_recv (conn_framing c) s <| conn := conn (after_recv (conn_framing c) s) <| conn_framing := f |> |>) end.
  forget_state Hok.
  case_decide; [apply wpf_ret; by eapply lands_at|].
  case_decide; [|destruct (negb (ok st)); [|apply wpf_ret; by eapply lands_at]];
    wp_step; apply wpf_log_call, wpf_ret; (eapply lands_at; [done|by apply server_ok_stable|done]).
Qed.

Lemma extracting_lands fds c v s :
  server_ok c v s -> active c = true -> wpf F (turn (Extracting fds)) (lands v) s.
Proof using All.
  intros Hok Ha. assert (Hc : conn s = c) by apply Hok. cbn [turn]. unfold get_conn_framing, put_conn_framing.
  do 2 wp_step. rewrite Hc. set (f := conn_framing c).
  assert (Hwf : wf_framing f) by apply Hok. wp_step.
  destruct (memchr LF (pending f)) as [n|] eqn:Hn.
  - destruct (extract_line_SUCCESS f n Hwf Hn) as (f' & Hx & Hwf' & _ & _ & _ & _ & Hsk & Htm).
    destruct (extract_refines_aux f Hwf) as (st0 & line0 & f0 & Hx' & _ & Hspec).
    rewrite Hx in Hx'. injection Hx' as <- <- <-. unfold spec_extract in Hspec. rewrite Hn in Hspec.
    eapply wpf_check; [exact Hx|]. cbn beta iota. wp_step. apply wpf_modify.
    apply (put_framing_server c v f') in Hok; [|done..].
    rewrite decide_False, decide_False by done. wp_step.
    eapply (wpf_check _ _ (take n (pending f))); [congruence|]. apply wpf_ret. by eapply lands_at.
  - pose proof (extract_line_other f Hwf Hn) as Hx. eapply wpf_check; [exact Hx|].
    destruct (decide (PJSOCKY_MAX_LINE <= f_len f)%nat); cbn beta iota; wp_step; apply wpf_modify.
    + rewrite decide_False, decide_True by done. apply wpf_ret. eapply lands_at; [done|apply (put_framing_server c v); try done|done].
      destruct Hwf. split; simpl; [done|lia|done].
    + rewrite decide_True by done. apply wpf_ret. eapply lands_at; [done|by apply (put_framing_server c v f)|done].
Qed.

(** An operation that leaves the server's own state alone. *)
Lemma operation_keeps {A} (m : C A) c v s :
  server_ok c v s -> (forall x, serviceable F x -> keeps F (daemon_ok x) m) ->
  wpf F m (fun _ s' => server_ok c v s') s.
Proof using All.
  intros Hok Hm. eapply wpf_mono.
  { eapply Hm; [by eapply (server_serviceable F); [exact Hclk|..]|apply Hok]. }
  intros a s' Hd. by destruct Hok; split.
Qed.

Lemma operation_lands {A} (m : C A) (next : A -> locus) c v s :
  server_ok c v s -> (forall x, serviceable F x -> keeps F (daemon_ok x) m) ->
  (forall a, ordinary (next a) /\ phase_ok (next a) c) ->
  wpf F (a ← m; mret (next a)) (lands v) s.
Proof using All.
  intros Hok Hm Hn. wp_step. eapply wpf_mono; [by apply (operation_keeps m c v)|].
  intros a s' Hok'. apply wpf_ret. destruct (Hn a). by apply (lands_at c).
Qed.

Lemma serving_lands l c v s :
  server_ok c v s -> active c = true -> fits l ->
  match l with Dispatching _ _ | Answering _ _ _ | Complaining _ _ | Rejecting _ => True | _ => False end ->
  wpf F (turn l) (lands v) s.
Proof using All.
  intros Hok Ha Hf Hl. destruct l as [| | | |fds line|fds line r|fds line|fds| | | | |]; try done; cbn [turn].
  - wp_step. eapply wpf_mono; [apply (operation_keeps _ c v); [done|]|].
    + intros x Hx. by apply (keeps_dispatch F x).
    + intros [st r] s' Hok'. apply wpf_ret.
      destruct r as [r|]; [destruct (ok st)|]; by apply (lands_at c).
  - apply (operation_lands _ (fun st => if ok st then _ else _) c); [done|..].
    + intros x. apply keeps_send_response.
    + intros st. by destruct (ok st).
  - apply (operation_lands _ (fun st => if ok st then _ else _) c); [done|..].
    + intros x. apply keeps_report_bad_line.
    + intros st. by destruct (ok st).
  - apply (operation_lands _ (fun _ => _) c); [done| |done].
    intros x. apply keeps_report_long_line.
Qed.

Lemma dropping_lands fds c v s :
  server_ok c v s -> active c = true -> wpf F (turn (Dropping fds)) (lands v) s.
Proof using All.
  intros Hok Ha. cbn [turn]. wp_step. eapply wpf_mono; [by apply (close_conn_spec F c v)|].
  intros [] s' Hok'. apply wpf_ret. by eapply lands_at.
Qed.

Lemma accepting_lands fds c v s : server_ok c v s -> wpf F (turn (Accepting fds)) (lands v) s.
Proof using All.
  intros Hok. assert (Hc : conn s = c) by apply Hok. pose proof Hok as [_ Hwf Ht Hv Hs].
  cbn [turn]. do 2 wp_step. case_decide; [|apply wpf_ret; by eapply lands_at].
  set (listen := listen_sock (srv s)) in *.
  wp_step. apply wpf_ask. destruct (ans_accept _ _) as [st m]. cbn beta iota. do 2 wp_step.
  set (s1 := set_with hist _ s). change (conn s1) with (conn s). rewrite Hc.
  destruct (ok st) eqn:Hst; cbn [negb].
  - apply ok_true in Hst as ->. pose proof (accepted_ok c v m listen s Hok) as Hacc.
    destruct (active c) eqn:Ha.
    + wp_step. eapply wpf_mono; [by apply (refuse_conn_spec F) with (x := opened m (server_ctx c v)); [exact Hclk|..]|].
      intros [] s2 Hd. apply wpf_ret. apply (lands_at c); [done| |done].
      split; try done; [|by intros _; apply Hs].
      eapply (ok_live_ext _ (sockets_for c v)) in Hd; [exact Hd|]. intros n. simpl. lia.
    + apply wpf_ret. exists c. split; try done. simpl. by rewrite Ha.
  - apply ok_false in Hst.
    assert (Hok1 : server_ok c v s1) by (destruct Hok; split; try done; by apply ok_accept_failed).
    keeps_over Hok1. by apply close_then_lands with (l := Returned st).
Qed.

Lemma opening_lands m c v s : located (Opening m) c v s -> wpf F (turn (Opening m)) (lands v) s.
Proof using All.
  intros [Hd Hwf Ht Hv _ Ha]. cbn [turn]. wp_step.
  eapply wpf_mono; [by apply (attach_conn_spec F) with (c := c) (v := v)|].
  intros [] s' Hpost; apply wpf_ret.
  - destruct Hpost as (c' & [] & _ & _). by exists c'.
  - by apply (lands_at c).
Qed.

Lemma greeting_lands c v s : located Greeting c v s -> wpf F (turn Greeting) (lands v) s.
Proof using All.
  intros [Hd Hwf Ht Hv Hs Ha]. cbn [turn]. wp_step.
  eapply wpf_mono; [apply (greet_client_spec F) with (c := c) (v := v); [exact Hclk|done|by split; [..|apply Hs]]|].
  intros [] s' Hok. apply wpf_ret. by eapply lands_at.
Qed.

Lemma turn_located l c v s : fits l -> located l c v s -> wpf F (turn l) (lands v) s.
Proof using All.
  intros Hf Hl. destruct l; try (by apply (opening_lands _ c)); try (by apply (greeting_lands c));
    apply located_server in Hl as [Hok Hp]; try done.
  - by apply (looping_lands c).
  - by apply (selecting_lands c).
  - by apply (reading_lands _ c).
  - by apply (extracting_lands _ c).
  - by apply (serving_lands _ c).
  - by apply (serving_lands _ c).
  - by apply (serving_lands _ c).
  - by apply (serving_lands _ c).
  - by apply (dropping_lands _ c).
  - by apply (accepting_lands _ c).
  - cbn [turn]. apply wpf_ret. by apply (lands_at c).
Qed.

End invariant.

Lemma fits_true `{!PjJson} l : fits True l.
Proof. destruct l; try done. apply line_ok_true. Qed.

Section everywhere.
Context `{!Env, !EnvLaws, !PjJson} (HL : 1 <= LONG_BIT).

Lemma interleaved_located early l s : interleaved early l s -> exists c v, located l c v s.
Proof using All.
  induction 1 as [s Hb|l m s s' _ (c & v & IH) _ Hm Hrun
    |l s l' s' _ (c & v & IH) Hrun].
  - destruct (reachable_server_ok (s <| conn := zero_conn |>) HL) as (c & v & Hok).
    { by eapply reach_start. }
    exists c, v. by apply server_located.
  - eapply wlp_run in Hrun; [|by eapply (background_located HL True (or_introl I))].
    destruct Hrun as (v' & Hl & _). by exists c, v'.
  - eapply wlp_run in Hrun; [|by apply (turn_located HL True (or_introl I) l c v s (fits_true l))].
    destruct Hrun as (c' & Hl). by exists c', v.
Qed.

(** The listening socket is a socket. *)
Lemma begun_listens s : begun s -> 0 <= listen_sock (srv s).
Proof using All.
  intros (getenv & rc & before & s0 & s1 & t & Hs & Hb & Hb' & Ht & Hc).
  eapply wlp_run in Hs; [|apply (start_up_spec _ _ True); by left]. apply started_idle in Hs.
  eapply wlp_run in Hb'; [|apply (keeps_idle True); [by left|done|by constructor|exact Hs]].
  eapply wlp_run in Hc; [|apply create_socket_spec; [exact Hb'|by eapply write_timeout_nonneg]].
  destruct Hc as (v & [_ Hv] & Hpos). by rewrite Hv.
Qed.

Lemma interleaved_listens early l s : interleaved early l s -> 0 <= listen_sock (srv s).
Proof using All.
  induction 1 as [s Hb|l m s s' Hi IH _ Hm Hrun|l s l' s' Hi IH Hrun]; [exact (begun_listens s Hb)|..];
    destruct (interleaved_located early l s Hi) as (c & v & Hl); rewrite (proj2 (located_conn l c v s Hl)) in IH.
  - eapply wlp_run in Hrun; [|by eapply (background_located HL True (or_introl I))].
    destruct Hrun as (v' & Hl' & [[Hv _] _]). by rewrite (proj2 (located_conn l c v' s' Hl')), Hv.
  - eapply wlp_run in Hrun; [|by apply (turn_located HL True (or_introl I) l c v s (fits_true l))].
    destruct Hrun as (c' & Hl'). by rewrite (proj2 (located_conn l' c' v s' Hl')).
Qed.

(** The coordinator at a locus: whether events go to the connection. *)
Lemma located_attached l c v s :
  located l c v s -> attached_at l c = true ->
  (exists e, ready s e /\ is_Some (ev_framing e)) /\ f_sock (conn_framing (conn s)) = conn_sock c.
Proof using HL.
  intros Hl Hatt. pose proof (located_conn l c v s Hl) as [Hc _].
  pose proof Hl as [[(Hi & _) _ _ _] _ Ht _ Hs _]. split; [|rewrite Hc; by apply Hs].
  exists (events_for (c <| active := true |>)). split; [|by eexists].
  split; rewrite ?Hc; try done. rewrite Hi.
  destruct l; simpl in *; unfold events_for; simpl; by rewrite ?Hatt.
Qed.
Lemma located_unattached l c v s :
  located l c v s -> attached_at l c = false ->
  exists e, g_instance s = Some e /\ ev_lock_held e = false /\ ev_framing e = None.
Proof using Type.
  intros [[(Hi & _) _ _ _] _ _ _ _ _] Hatt. eexists. split; [exact Hi|].
  by destruct l; simpl in *; rewrite ?Hatt.
Qed.
End everywhere.

(** ** The end of a connection *)

(** The calls of [close_conn] for socket [n], latest first. *)
Definition close_calls (n : Z) : history :=
  [A_close n; A_pool_release "pjsocky-conn"; A_mutex_unlock; A_mutex_lock].

Lemma close_conn_run `{!Env, !PjJson} c v s :
  server_ok c v s ->
  close_conn s = Ok (tt, s <| g_instance := Some unlocked_events |>
    <| conn := c <| active := false |> |> <| hist := close_calls (conn_sock c) ++ hist s |>).
Proof. intros [[(Hi & Hc & _) _ _ _] _ _ _ _]. destruct s. simpl in *. by subst. Qed.

(** The main thread at a failing [accept]. *)
Lemma accept_failure_run `{!Env, !EnvLaws, !PjJson} fds c v s st n :
  server_ok c v s -> listen_sock v ∈ fds ->
  ans_accept (hist s) (listen_sock v) = (st, n) -> st <> PJ_SUCCESS ->
  turn (Accepting fds) s = Ok (Returned st, s <| g_instance := Some unlocked_events |>
    <| conn := c <| active := false |> |>
    <| hist := (if active c then close_calls (conn_sock c) else []) ++
         [A_perror 1 st "accept() failed" []; A_accept (listen_sock v) (st, n)] ++ hist s |>).
Proof.
  intros Hok Hin Hacc Hst. assert (Hv : srv s = v) by apply Hok. assert (Hc : conn s = c) by apply Hok.
  apply wp_eq. cbn [turn]. do 2 wp_step. rewrite Hv, decide_True by done.
  wp_step. apply wpf_ask. rewrite Hacc. cbn beta iota. do 2 wp_step. simpl conn. rewrite Hc.
  assert (ok st = false) as -> by (by apply ok_false). cbn [negb]. wp_step. apply wpf_log_call.
  set (s0 := s <| hist := A_accept (listen_sock v) (st, n) :: hist s |>).
  assert (Hok1 : server_ok c v (s0 <| hist := A_perror 1 st "accept() failed" [] :: hist s0 |>)).
  { apply server_ok_stable; [done|]. destruct Hok; split; try done. by apply ok_accept_failed. }
  wp_step. destruct (active c) eqn:Ha; cbn [when].
  - eapply wpf_mono; [exact (proj2 (wp_eq _ _ _ _) (close_conn_run c v _ Hok1))|]. intros [] s2 [_ ->]. by apply wpf_ret.
  - do 2 apply wpf_ret. split; [done|]. destruct Hok as [[(Hi & _) _ _ _] _ _ _ _].
    simpl in Hi. unfold events_for in Hi. rewrite Ha in Hi.
    destruct s as [acc dev call i srv conn h], c as [a cs cf]. simpl in *. by subst.
Qed.

(** ** Properties *)

(** C1: The invariant of the daemon between any two operations of the main
    thread, whatever the clients send and whatever the threads of the SIP
    stack and the signal handler do in between: the account is registered
    only if it is configured; each timer's flag says exactly whether the
    timer is armed, and no timer was ever scheduled while armed; the event
    lock is free; events go to a connection exactly from the moment it is
    opened to the moment it is dropped; the receive buffer is well-formed;
    and the open sockets are exactly the listening one, the connection's and
    one that has just been accepted. *)
Theorem threads_invariant `{!Env, !EnvLaws, !PjJson} early l (s : St) :
  1 <= LONG_BIT -> interleaved early l s ->
  (g_registered (acc s) = true -> g_acc_id (acc s) <> PJSUA_INVALID_ID) /\
  (forall t, scheduled t (call s) = armed t (hist s)) /\ well_armed (hist s) /\
  g_instance s = Some {| ev_lock_held := false;
    ev_framing := if attached_at l (conn s) then Some CONN_FRAMING else None |} /\
  wf_framing (conn_framing (conn s)) /\
  (forall n, live n (hist s) =
     b2z (bool_decide (listen_sock (srv s) = n)) +
     b2z (attached_at l (conn s) && bool_decide (conn_sock (conn s) = n)) +
     match l with Opening m => b2z (bool_decide (m = n)) | _ => 0 end).
Proof.
  intros HL (c & v & Hl)%interleaved_located; [|done].
  destruct (located_conn l c v s Hl) as [-> ->].
  destruct Hl as [[(Hi & _ & _ & Hlive) Ha Ht Hw] Hwf _ _ _ _].
  split_and!; [done..| |done|].
  - rewrite Hi. by destruct l.
  - intros n. rewrite Hlive. destruct l; simpl; unfold sockets_for; simpl; lia.
Qed.

(** The server loop is made of these operations: an iteration that ends,
    begun in a reachable state, is a run of the main thread from the call of
    [select] to the next test of the loop condition, or to the return with
    the same status, through exactly the same states; hence every reachable
    state is one of the interleaved ones, with nothing between the operations
    of an iteration. *)
Theorem iterations_are_turns `{!Env, !EnvLaws, !PjJson} (s : St) :
  1 <= LONG_BIT -> reachable s ->
  interleaved False Looping s /\
  forall r s', server_iteration s = Ok (r, s') -> goes (Selecting, s) (home r, s').
Proof.
  intros HL Hr. split; [by apply reachable_interleaved_aux|]. intros r s' Hrun.
  destruct (reachable_server_ok s HL Hr) as (c & v & Hok). by eapply iteration_turns.
Qed.

(** C38: A failing [accept] ends the daemon: when the listening socket is
    reported and [accept] fails, the main thread returns from the server loop
    with that status, having logged it and closed the connection of a client
    that was being served, which gets no more events; main() reports the
    status, closes the listening socket and removes its path, destroys pjsua
    and exits with code 0, no socket left open - whatever the other threads do
    in the meantime. *)
Theorem accept_failure_ends_daemon `{!Env, !EnvLaws, !PjJson} early fds (s : St) st n after :
  1 <= LONG_BIT -> select_waits -> interleaved early (Accepting fds) s ->
  listen_sock (srv s) ∈ fds -> ans_accept (hist s) (listen_sock (srv s)) = (st, n) ->
  st <> PJ_SUCCESS -> background after ->
  exists s1 s2, turn (Accepting fds) s = Ok (Returned st, s1) /\
    active (conn s1) = false /\ g_instance s1 = Some unlocked_events /\
    hist s1 = (if active (conn s) then close_calls (conn_sock (conn s)) else []) ++
      [A_perror 1 st "accept() failed" []; A_accept (listen_sock (srv s)) (st, n)] ++ hist s /\
    wind_up st after s1 = (after;; pjsua_destroy;; mret 0)
      (s1 <| hist := [A_unlink (sun_path (srv s)); A_close (listen_sock (srv s));
                      A_sua_perror "Control socket accept loop stopped" st] ++ hist s1 |>) /\
    wind_up st after s1 = Ok (0, s2) /\
    (forall m, live m (hist s2) = 0) /\ exists h, hist s2 = A_pjsua_destroy :: h.
Proof.
  intros HL Hclk Hi Hin Hacc Hst Haf. pose proof (interleaved_listens HL early _ s Hi) as Hpos.
  destruct (interleaved_located HL early _ s Hi) as (c & v & Hl).
  destruct (located_conn _ c v s Hl) as [Hc Hv]. pose proof Hl as [Hok _]%located_server; [|done].
  rewrite Hc, Hv in *. pose proof (accept_failure_run fds c v s st n Hok Hin Hacc Hst) as Hrun.
  set (s1 := set_with hist _ _) in Hrun.
  assert (Hli : listening v s1).
  { pose proof (turn_located HL True (or_introl I) (Accepting fds) c v s I Hl) as Hw.
    eapply wlp_run in Hw as (c' & Hl'); [|exact Hrun].
    apply located_server in Hl' as [Hok' Ha]; [|done]. by apply (server_ok_listening c'). }
  assert (Hne : listen_sock v <> PJ_INVALID_SOCKET) by (unfold PJ_INVALID_SOCKET; lia).
  destruct (wind_up_run False v st after s1 Hli Hne) as [Hwind _].
  pose proof (wind_up_spec False (or_intror Hclk) HL v st after s1 Hli Hne Haf) as Hw.
  unfold wpf in Hw. destruct (wind_up st after s1) as [[code s2]| |] eqn:Heq; [|done..].
  destruct Hw as (-> & [Hlive _ _ _] & Htorn). exists s1, s2. split_and!; try done.
  unfold wound_up in Hwind. rewrite (proj2 (ok_false st) Hst) in Hwind. by rewrite Heq.
Qed.
