(* ===== verification/Lifecycle.v ===== *)
(** * The life of a call (src/call.c, over the whole daemon)

    A specification of what call.c keeps of a call - which call is current,
    whose ringing is timed, whose video is watched and with what readings,
    whose video has been given up, whose media is reported - as a transition
    system, and the proof that the daemon implements it: every state between
    two operations of the main thread, whatever the other threads do, represents
    a state the specification reaches. *)

From S2P Require Import Prelude Float32 Pjlib Env SimEnv State Framing Compact SimJson Wire JsonUtil Events Invariant Device Account Im Call Watchdog Dispatch Server ServerInput ServerLoop Liveness Config Startup System Threads.

(** ** The specification *)

(** [PJSUA_INVALID_ID] stands for no call; [sp_removed] are the
    video streams the daemon has asked pjsua to remove, with their calls, latest
    first. *)
Record call_spec := {
  sp_current : Z;
  sp_ringing : option Z;
  sp_watched : option (Z * list Z);
  sp_given_up : Z;
  sp_reported : option Z;
  sp_removed : list (Z * Z) }.
#[global] Instance call_spec_settable : Settable call_spec := fun v =>
  {| sp_current := sp_current v; sp_ringing := sp_ringing v; sp_watched := sp_watched v;
     sp_given_up := sp_given_up v; sp_reported := sp_reported v; sp_removed := sp_removed v |}.

Definition spec_start : call_spec :=
  {| sp_current := PJSUA_INVALID_ID; sp_ringing := None; sp_watched := None;
     sp_given_up := PJSUA_INVALID_ID; sp_reported := None; sp_removed := [] |}.

(** Giving up on the video of a call: it is marked, its stream removed, and
    nothing is watched any more. *)
Definition end_video (id stream : Z) (v : call_spec) : call_spec :=
  v <| sp_given_up := id |> <| sp_watched := None |>
    <| sp_removed := (id, stream) :: sp_removed v |>.

(** What makes the daemon act: a request that is run, a report of pjsua-lib on
    a call, the expiry of a timer, or something that does not concern calls. *)
Inductive cause : Type :=
| REQUEST | CALL_STATE (id : Z) | MEDIA_STATE (id : Z) | MEDIA_ERROR (id : Z)
| INCOMING (id : Z) | EXPIRY (t : timer) | OTHER.

(** The causes that may stop the watching without giving up. *)
Definition unwatches (e : cause) : bool :=
  match e with CALL_STATE _ | MEDIA_STATE _ | EXPIRY VIDEO_WATCHDOG => true | _ => false end.
(** Those that may end the timing of a ringing call, and the reports. *)
Definition ends_ringing (e : cause) (v : call_spec) : Prop :=
  match e with
  | CALL_STATE id => sp_ringing v = Some id
  | INCOMING _ | EXPIRY RING_TIMER => True
  | _ => False
  end.
Definition ends_reports (e : cause) : bool :=
  match e with CALL_STATE _ | MEDIA_STATE _ | EXPIRY MEDIA_REPORT => true | _ => false end.

Inductive spec_step : cause -> call_spec -> call_spec -> Prop :=
(** The current call: the one last dialled or that last came in, until a dial
    fails or that call is disconnected. *)
| step_dialled id v : spec_step REQUEST v (v <| sp_current := id |>)
| step_incoming id v : spec_step (INCOMING id) v (v <| sp_current := id |>)
| step_gone id v :
    sp_current v = id -> spec_step (CALL_STATE id) v (v <| sp_current := PJSUA_INVALID_ID |>)
(** Ringing is timed for the call that came in last, until that call no longer
    rings or has rung too long. *)
| step_ring id v : spec_step (INCOMING id) v (v <| sp_ringing := Some id |>)
| step_rung e v : ends_ringing e v -> spec_step e v (v <| sp_ringing := None |>)
(** Reports are on the call whose media changed last. *)
| step_report id v : spec_step (MEDIA_STATE id) v (v <| sp_reported := Some id |>)
| step_reported e v : ends_reports e = true -> spec_step e v (v <| sp_reported := None |>)
(** Video is watched from a change of the call's media on, without readings,
    unless it has been given up. *)
| step_watch id v :
    id <> sp_given_up v -> spec_step (MEDIA_STATE id) v (v <| sp_watched := Some (id, []) |>)
| step_unwatch e v :
    unwatches e = true -> spec_step e v (v <| sp_watched := None |>)
(** An expiry of the watchdog takes a reading; a stall ends the video. *)
| step_reading id past reading v :
    sp_watched v = Some (id, past) -> 0 <= reading -> stalled past reading = false ->
    spec_step (EXPIRY VIDEO_WATCHDOG) v (v <| sp_watched := Some (id, past ++ [reading]) |>)
| step_stalled id past reading stream v :
    sp_watched v = Some (id, past) -> 0 <= reading -> stalled past reading = true ->
    spec_step (EXPIRY VIDEO_WATCHDOG) v (end_video id stream v)
(** So does an error of the device, once. *)
| step_failed id stream v : id <> sp_given_up v -> spec_step (MEDIA_ERROR id) v (end_video id stream v)
| step_forget id v :
    sp_given_up v = id ->
    spec_step (CALL_STATE id) v
      (v <| sp_given_up := PJSUA_INVALID_ID |> <| sp_watched := None |>).

Definition spec_steps (e : cause) : call_spec -> call_spec -> Prop := rtc (spec_step e).

(** No reading was a stall when it was taken. *)
Definition progressing (past : list Z) : Prop :=
  forall pre reading post, past = pre ++ reading :: post -> stalled pre reading = false.

(** What the specification promises: a watched call has not been given up, and
    no reading of it was a stall; a call is given up only with a removal of
    one of its streams, the latest there was. *)
Record spec_safe (v : call_spec) : Prop := {
  safe_watched id past :
    sp_watched v = Some (id, past) -> id <> sp_given_up v /\ progressing past;
  safe_given_up :
    sp_given_up v <> PJSUA_INVALID_ID ->
    exists stream, head (sp_removed v) = Some (sp_given_up v, stream) }.

Lemma progressing_snoc past reading :
  progressing past -> stalled past reading = false -> progressing (past ++ [reading]).
Proof.
  intros Hp Hs pre r post Heq. destruct post as [|x post _] using rev_ind.
  - by apply app_inj_tail in Heq as [<- <-].
  - rewrite app_comm_cons, app_assoc in Heq. apply app_inj_tail in Heq as [Heq _]. by eapply Hp.
Qed.

Lemma spec_step_safe e v v' : spec_step e v v' -> spec_safe v -> spec_safe v'.
Proof.
  intros Hs [Hw Hg]. destruct Hs; split; simpl; try done; try (by eexists);
    intros id' past' Hw'; simplify_eq/=.
  - split; [done|]. by intros [|? ?].
  - destruct (Hw _ _ H) as [? Hp]. split; [done|]. by apply progressing_snoc.
Qed.

(** ** The representation *)

Definition watched (c : call_st) (o : option (Z * list Z)) : Prop :=
  if g_video_watchdog_scheduled c
  then exists past, o = Some (g_video_watchdog c, past) /\ tracks past c
  else o = None.

Record represents (v : call_spec) (s : St) : Prop := {
  rep_current : sp_current v = g_call_id (call s);
  rep_ringing : sp_ringing v =
    if g_ring_timer_scheduled (call s) then Some (g_ring_timer (call s)) else None;
  rep_watched : watched (call s) (sp_watched v);
  rep_given_up : sp_given_up v = g_video_failed_call_id (call s);
  rep_reported : sp_reported v =
    if g_media_report_scheduled (call s) then Some (g_media_report (call s)) else None;
  rep_removed : sp_removed v = removed_streams (hist s) }.

Lemma watched_ext c c' o :
  g_video_watchdog_scheduled c' = g_video_watchdog_scheduled c ->
  g_video_watchdog c' = g_video_watchdog c ->
  g_video_tx_packets_seen c' = g_video_tx_packets_seen c ->
  g_video_stall_ticks c' = g_video_stall_ticks c -> watched c o -> watched c' o.
Proof.
  unfold watched. intros -> -> Hs Ht. destruct (g_video_watchdog_scheduled c); [|done].
  intros (past & -> & []). exists past. split; [done|]. by split; rewrite ?Hs, ?Ht.
Qed.

(** Some state the specification reaches from [v0] for the cause [e] is
    represented. *)
Definition implements (e : cause) (v0 : call_spec) (s : St) : Prop :=
  exists v, spec_steps e v0 v /\ represents v s.

Definition not_removal (a : action) : Prop :=
  match a with A_call_set_vid_strm _ PJSUA_CALL_VID_STRM_REMOVE _ => False | _ => True end.

Lemma removed_other a h : not_removal a -> removed_streams (a :: h) = removed_streams h.
Proof. destruct a; try done. by destruct op. Qed.

(** ** Programs that implement the specification *)
Section implementing.
Context (e : cause) (v0 : call_spec).
Abbreviation I := (implements e v0).

Lemma implements_step v v' s :
  spec_steps e v0 v -> spec_step e v v' -> represents v' s -> I s.
Proof. intros Hr Hs Hrep. exists v'. split; [|done]. by eapply rtc_r. Qed.

(** The representation depends on call.c's variables and the removals only. *)
Lemma implements_frame s s' :
  call s' = call s -> removed_streams (hist s') = removed_streams (hist s) -> I s -> I s'.
Proof. intros Hc Hh (v & Hr & []). exists v. split; [done|]. split; by rewrite ?Hc, ?Hh. Qed.

Lemma implements_ask {A} (q : history -> A) act :
  (forall a, not_removal (act a)) -> keeps True I (ask q act).
Proof.
  intros Ha s Hs. apply wpf_ask. apply (implements_frame s); [done| |exact Hs]. by apply removed_other.
Qed.
Lemma implements_log_call a : not_removal a -> keeps True I (log_call a).
Proof.
  intros Ha s Hs. apply wpf_log_call. apply (implements_frame s); [done| |exact Hs].
  by apply removed_other.
Qed.
Lemma implements_modify (f : St -> St) :
  (forall s, call (f s) = call s /\ hist (f s) = hist s) -> keeps True I (modify f).
Proof.
  intros Hf. apply keeps_modify. intros s Hs. destruct (Hf s) as [Hc Hh].
  apply (implements_frame s); [..|exact Hs]; by rewrite ?Hh.
Qed.

(** Updates of call.c's variables. *)
Lemma implements_set_call (f : call_st -> call_st) :
  (forall v s, represents v s -> exists v', spec_steps e v v' /\
     represents v' (s <| call := f (call s) |>)) ->
  keeps True I (set_call f).
Proof.
  intros Hf s (v & Hr & Hrep). apply wpf_modify. destruct (Hf v s Hrep) as (v' & Hs & Hrep').
  exists v'. split; [|exact Hrep']. unfold spec_steps in *. by trans v.
Qed.

Lemma implements_current id :
  (forall v, spec_step e v (v <| sp_current := id |>)) ->
  keeps True I (set_call (fun c => c <| g_call_id := id |>)).
Proof.
  intros He. apply implements_set_call. intros v s []. eexists. split; [by apply rtc_once, He|].
  split; try done. by eapply watched_ext; [..|eassumption].
Qed.

Lemma implements_ring_off :
  (forall v, ends_ringing e v) ->
  keeps True I (set_call (fun c => c <| g_ring_timer_scheduled := false |>)).
Proof.
  intros He. apply implements_set_call. intros v s []. eexists.
  split; [by apply rtc_once, step_rung|].
  split; try done. by eapply watched_ext; [..|eassumption].
Qed.

Lemma implements_report_off :
  ends_reports e = true ->
  keeps True I (set_call (fun c => c <| g_media_report_scheduled := false |>)).
Proof.
  intros He. apply implements_set_call. intros v s []. eexists.
  split; [by apply rtc_once, step_reported|].
  split; try done. by eapply watched_ext; [..|eassumption].
Qed.

Lemma implements_ring_timeout z :
  keeps True I (set_call (fun c => c <| g_ring_timeout_sec := z |>)).
Proof.
  apply implements_set_call. intros v s []. exists v. split; [done|].
  split; try done. by eapply watched_ext; [..|eassumption].
Qed.
End implementing.

#[export] Hint Extern 1 (keeps _ (implements _ _) (ask _ _)) =>
  apply implements_ask; solve [intros; simpl; auto] : keeps_db.
#[export] Hint Extern 1 (keeps _ (implements _ _) (log_call _)) =>
  apply implements_log_call; solve [simpl; auto] : keeps_db.
Ltac implements_update :=
  first [apply implements_modify; solve [intros; split; reflexivity]
        |apply implements_ring_timeout
        |apply implements_current; solve [constructor]
        |apply implements_ring_off; solve [simpl; auto]
        |apply implements_report_off; solve [simpl; auto]].
#[export] Hint Extern 2 (keeps _ (implements _ _) (modify _)) => implements_update : keeps_db.
#[export] Hint Extern 2 (keeps _ (implements _ _) (set_call _)) => implements_update : keeps_db.

Section video.
Context `{!Env, !PjJson} (e : cause) (v0 : call_spec).
Abbreviation I := (implements e v0).

Lemma watched_unscheduled c o :
  watched c o -> watched (c <| g_video_watchdog_scheduled := false |>) None.
Proof. done. Qed.

(** The state with the watchdog disarmed. *)
Lemma implements_unwatched s h :
  unwatches e = true -> removed_streams h = removed_streams (hist s) -> I s ->
  I (s <| call := call s <| g_video_watchdog_scheduled := false |> |> <| hist := h |>).
Proof.
  intros He Hh (v & Hr & []). eapply (implements_step e v0 v); [done|by apply step_unwatch|].
  split; simpl; try done. by rewrite Hh.
Qed.

Lemma implements_cancel_watchdog : unwatches e = true -> keeps True I cancel_video_watchdog.
Proof.
  intros He s Hs. eapply (wpf_cancelled _ VIDEO_WATCHDOG); [done|].
  apply implements_unwatched; [done|apply removed_streams_cancelled|done].
Qed.

Lemma represents_ended id stream v s s' :
  represents v s -> video_ended id stream s s' -> represents (end_video id stream v) s'.
Proof. intros [] (ticks & h & -> & Hh). split; simpl; try done. by rewrite Hh, rep_removed0. Qed.

Lemma implements_give_up id idx reason_status reason :
  e = MEDIA_ERROR id -> keeps True I (give_up_on_video id idx reason_status reason).
Proof.
  intros -> s Hs. eapply wpf_mono; [apply wp_wlp, give_up_spec|]. intros [] s' [st ->].
  destruct (Z.eqb_spec id (g_video_failed_call_id (call s))) as [_|Hne]; [done|].
  pose proof (give_up_ends id idx reason_status reason st s) as Hend. destruct Hs as (v & Hr & Hrep).
  eapply (implements_step _ v0 v); [done|apply (step_failed id)|by eapply represents_ended].
  by rewrite (rep_given_up _ _ Hrep).
Qed.

Lemma removed_streams_timers l h :
  Forall timer_action l -> removed_streams (l ++ h) = removed_streams h.
Proof. induction 1 as [|a l Ha _ IH]; [done|]. by destruct a. Qed.

Lemma implements_arm_watchdog id info :
  e = MEDIA_STATE id -> keeps True I (arm_video_watchdog id info).
Proof.
  intros He s (v & Hr & []). eapply wpf_mono; [apply wp_wlp, arm_watchdog_spec|].
  intros [] s' (watch & ->). pose proof (watch_timers_only id info watch (call s)) as Hl.
  set (l := watch_timers _ _ _ _) in *. unfold watch_call. simpl g_video_failed_call_id.
  set (b := bool_decide _ && _).
  apply (implements_step e v0 v
    (v <| sp_watched := if b && ok watch then Some (id, []) else None |>) _ Hr).
  - destruct b eqn:Hb; simpl; [destruct (ok watch)|]; try (apply step_unwatch; by rewrite He).
    rewrite He. apply step_watch. apply andb_true_iff in Hb as [_ Hne].
    rewrite rep_given_up0. by apply negb_true_iff, Z.eqb_neq in Hne.
  - destruct b; [destruct (ok watch) eqn:Hok|];
      (split; simpl; rewrite ?removed_streams_timers, ?Hok by done; try done).
    by exists [].
Qed.

(** Forgetting the call whose video failed, and no longer watching. *)
Lemma implements_forget id s {A} (k : C A) :
  e = CALL_STATE id -> I s -> keeps True I k ->
  wpf True (set_call (fun c => if id =? g_video_failed_call_id c
                               then c <| g_video_failed_call_id := PJSUA_INVALID_ID |> else c);;
            cancel_video_watchdog;; k) (fun _ s' => I s') s.
Proof.
  intros He Hs Hk. wp_step. apply wpf_modify. wp_step.
  eapply (wpf_cancelled _ VIDEO_WATCHDOG); [done|]. apply Hk.
  destruct Hs as (v & Hr & []). simpl. destruct (Z.eqb_spec id (g_video_failed_call_id (call s))).
  - eapply (implements_step e v0 v); [done|rewrite He; apply step_forget; by rewrite rep_given_up0|].
    split; simpl; try done. by rewrite removed_streams_cancelled.
  - eapply (implements_step e v0 v); [done|apply step_unwatch; by rewrite He|].
    split; simpl; try done. by rewrite removed_streams_cancelled.
Qed.

(** The expiry of the watchdog. *)
Lemma implements_watchdog_cb s :
  e = EXPIRY VIDEO_WATCHDOG -> counters_unsigned -> spec_safe v0 -> represents v0 s ->
  g_video_watchdog_scheduled (call s) = true ->
  wpf True video_watchdog_cb (fun _ s' => I s') s.
Proof.
  intros He Hu Hsafe Hrep Hon. pose proof Hrep as []. pose proof rep_watched0 as Hw.
  unfold watched in Hw. rewrite Hon in Hw. destruct Hw as (past & Hpast & Ht).
  destruct (safe_watched _ Hsafe _ _ Hpast) as [Hid _]. rewrite rep_given_up0 in Hid.
  eapply wpf_mono; [by apply wp_wlp, (watchdog_cb_spec past)|]. intros [] s'. cbv beta zeta.
  destruct (ans_call_get_info _ _) as [st info].
  destruct (if ok st && _ then find_sending_video info else None) as [idx|]; cycle 1.
  { intros ->. apply implements_unwatched; [by rewrite He|done|]. by exists v0. }
  set (reading := reading_at _ _). intros [Hpos Hcase]. destruct (stalled past reading) eqn:Hst.
  - eapply (implements_step _ v0 v0); [done| |by eapply represents_ended].
    rewrite He. by eapply (step_stalled _ past reading).
  - destruct Hcase as (seen & ticks & st' & h & -> & Htr & Hh). destruct (ok st') eqn:Hok.
    + eapply (implements_step _ v0 v0); [done|rewrite He; by eapply (step_reading _ past reading)|].
      split; simpl; rewrite ?Hok, ?Hh; try done. by exists (past ++ [reading]).
    + eapply (implements_step _ v0 v0); [done|apply step_unwatch; by rewrite He|].
      split; simpl; rewrite ?Hok, ?Hh; done.
Qed.
End video.

(** ** Every activity of the daemon *)
#[local] Hint Unfold check deref_framing pjsocky_events_instance deref_events set_events pj_mutex_lock
  pj_mutex_unlock wait_writable send_all pjsocky_framing_write_line pjsocky_framing_write_json
  pjsocky_events_push pjsocky_events_write_response push write_response push_error_event
  pjsocky_events_set_conn close_conn set_nonblocking refuse_conn open_conn attach_conn greet_client
  pjsocky_framing_fill get_conn_framing put_conn_framing : ops.

#[local] Hint Unfold reg_state_reported pjsocky_account_on_reg_state2
  pjsocky_call_on_call_rx_offer pjsocky_im_on_pager2 pjsocky_im_on_pager_status2
  pjsocky_im_on_typing2 on_shutdown_signal pjsocky_server_stop : ops.

#[local] Hint Unfold give_up_on_video apply_video_capture_device log_negotiated_media
  pjsocky_call_get_ring_timeout : ops.

Section handlers.
Context `{!Env, !PjJson} (e : cause) (v0 : call_spec).
Abbreviation I := (implements e v0).

(** *** What only writes to clients or queries pjsua *)
Lemma implements_nofuel A : keeps True I (nofuel : C A).
Proof. by intros s _. Qed.
#[local] Hint Resolve implements_nofuel : keeps_db.

Lemma implements_send_loop fuel n buf t start sent :
  keeps True I (send_loop fuel n buf t start sent).
Proof. revert sent. induction fuel as [|fuel IH]; intros sent; simpl; keeps_go. Qed.
#[local] Hint Resolve implements_send_loop : keeps_db.

Lemma implements_push name b : keeps True I (push name b).
Proof. keeps_go. Qed.
Lemma implements_write_response response n : keeps True I (write_response response n).
Proof. keeps_go. Qed.
Lemma implements_rtp_loop id type i media : keeps True I (rtp_counters_loop id type i media).
Proof. revert i. induction media as [|m media IH]; intros i; simpl; keeps_go. Qed.
Lemma implements_connect_audio media : keeps True I (connect_call_audio_to_sound_dev media).
Proof. induction media as [|m media IH]; simpl; keeps_go. Qed.
Lemma implements_log_lines id i media : keeps True I (log_media_lines id i media).
Proof. revert i. induction media as [|m media IH]; intros i; simpl; keeps_go. Qed.
#[local] Hint Resolve implements_push implements_write_response implements_rtp_loop
  implements_connect_audio implements_log_lines : keeps_db.

Lemma implements_counters id type : keeps True I (pjsocky_call_get_rtp_counters id type).
Proof. unfold pjsocky_call_get_rtp_counters, pjsocky_call_get_info, is_valid_call_id. keeps_go. Qed.
#[local] Hint Resolve implements_counters : keeps_db.

Lemma implements_reg_state acc_id info : keeps True I (reg_state_reported acc_id info).
Proof. keeps_go. Qed.
Lemma implements_rx_offer id offer opt :
  keeps True I (pjsocky_call_on_call_rx_offer id offer opt).
Proof. keeps_go. Qed.
Lemma implements_pager2 id from to contact mime body acc_id :
  keeps True I (pjsocky_im_on_pager2 id from to contact mime body acc_id).
Proof. keeps_go. Qed.
Lemma implements_pager_status2 id to body st reason acc_id :
  keeps True I (pjsocky_im_on_pager_status2 id to body st reason acc_id).
Proof. keeps_go. Qed.
Lemma implements_typing2 id from to contact typing acc_id :
  keeps True I (pjsocky_im_on_typing2 id from to contact typing acc_id).
Proof. keeps_go. Qed.
Lemma implements_stop : keeps True I on_shutdown_signal.
Proof. keeps_go. Qed.

(** *** Reports of pjsua-lib on a call *)

Lemma implements_arm_report id :
  e = MEDIA_STATE id -> keeps True I (arm_media_report id).
Proof.
  intros He s (v & Hr & []). eapply wpf_mono; [apply wp_wlp, arm_report_spec|].
  intros [] s' (report & ->). pose proof (report_timers_only report (call s)) as Hl.
  set (l := report_timers _ _) in *. clearbody l.
  apply (implements_step e v0 v (v <| sp_reported := if ok report then Some id else None |>) _ Hr).
  - rewrite He. destruct (ok report); [apply (step_report id)|by apply step_reported].
  - split; simpl; rewrite ?removed_streams_timers by done; try done.
    by eapply watched_ext; [..|eassumption].
Qed.

Lemma implements_on_call_media_state id :
  e = MEDIA_STATE id -> keeps True I (pjsocky_call_on_call_media_state id).
Proof.
  intros He. pose proof (fun info => implements_arm_watchdog e v0 id info He).
  pose proof (implements_arm_report id He). unfold pjsocky_call_on_call_media_state. keeps_go.
Qed.

Lemma implements_on_call_media_event id idx err :
  e = MEDIA_ERROR id -> keeps True I (pjsocky_call_on_call_media_event id idx err).
Proof.
  intros He. unfold pjsocky_call_on_call_media_event. destruct err; [|apply keeps_ret].
  by apply implements_give_up.
Qed.

(** Timing the ringing of a call: whether or not pjlib can, no other call is
    timed. *)
Lemma implements_arm_ring id d :
  e = INCOMING id ->
  keeps True I (cancel_ring_timer;;
    set_call (fun c => c <| g_ring_timer := id |>);;
    st ← pjsua_schedule_timer RING_TIMER d;
    if ok st then set_call (fun c => c <| g_ring_timer_scheduled := true |>)
    else PJ_LOG 1 "failed to schedule ring timeout timer" []).
Proof.
  intros ->. apply keeps_bind; [unfold cancel_ring_timer; keeps_go|].
  intros _ s (v & Hr & []). wp_step. apply wpf_modify. wp_step. apply wpf_ask.
  assert (Hend : forall b h, removed_streams h = removed_streams (hist s) ->
    implements (INCOMING id) v0
      (s <| call := call s <| g_ring_timer := id |> <| g_ring_timer_scheduled := b |> |>
         <| hist := h |>)).
  { intros b h Hh.
    apply (implements_step _ v0 v (v <| sp_ringing := if b then Some id else None |>) _ Hr).
    - destruct b; [apply (step_ring id)|by apply step_rung].
    - split; simpl; rewrite ?Hh; try done. by eapply watched_ext; [..|eassumption]. }
  destruct (ok _); [apply wpf_modify; by apply (Hend true)|apply wpf_log_call].
  specialize (Hend (g_ring_timer_scheduled (call s))).
  destruct s as [? ? [] ? ? ? ?]. by apply Hend.
Qed.

Lemma implements_on_incoming_call acc_id id :
  e = INCOMING id -> keeps True I (pjsocky_call_on_incoming_call acc_id id).
Proof.
  intros He. pose proof (fun d => implements_arm_ring id d He) as Harm.
  unfold pjsocky_call_on_incoming_call. apply keeps_bind; [rewrite He; keeps_go|].
  repeat first [apply Harm | keeps_step; cbn beta iota].
Qed.

(** A report of the state of a call. *)
Lemma implements_stop_ringing id b {A} (k : C A) :
  e = CALL_STATE id -> keeps True I k ->
  keeps True I (c ← gets call;
    when (g_ring_timer_scheduled c && (id =? g_ring_timer c) && b) cancel_ring_timer;; k).
Proof.
  intros He Hk s Hs. do 3 wp_step. apply wpf_when; intros Hb; [|by apply Hk].
  apply andb_true_iff in Hb as [[Hon ->%Z.eqb_eq]%andb_true_iff _].
  eapply (wpf_cancelled _ RING_TIMER); [done|]. apply Hk. destruct Hs as (v & Hr & []).
  eapply (implements_step e v0 v); [done|apply step_rung; by rewrite He; simpl; rewrite rep_ringing0, Hon|].
  split; try done; [by eapply watched_ext; [..|eassumption]|].
  simpl. by rewrite removed_streams_cancelled.
Qed.

Lemma implements_gone id :
  e = CALL_STATE id ->
  keeps True I (set_call (fun c => if id =? g_call_id c
                                   then c <| g_call_id := PJSUA_INVALID_ID |> else c)).
Proof.
  intros ->. apply implements_set_call. intros v s Hrep. pose proof Hrep as [].
  destruct (Z.eqb_spec id (g_call_id (call s))) as [Heq|]; cycle 1.
  { exists v. split; [done|]. by destruct s. }
  eexists. split; [by apply rtc_once, step_gone; rewrite rep_current0|].
  split; try done. by eapply watched_ext; [..|eassumption].
Qed.

Lemma implements_on_call_state id :
  e = CALL_STATE id -> keeps True I (pjsocky_call_on_call_state id).
Proof.
  intros He. unfold pjsocky_call_on_call_state.
  apply keeps_bind; [keeps_go|]. intros [st info]. destruct (negb _); [keeps_go|].
  apply implements_stop_ringing; [done|]. apply keeps_bind; [|keeps_go].
  intros []. apply keeps_when, keeps_bind; [by apply implements_gone|].
  intros _ s Hs. apply (implements_forget e v0 id); [done..|].
  unfold cancel_media_report. rewrite He. keeps_go.
Qed.

End handlers.
#[export] Hint Resolve implements_nofuel implements_send_loop implements_push
  implements_write_response implements_rtp_loop implements_counters implements_connect_audio
  implements_log_lines implements_reg_state implements_rx_offer implements_pager2
  implements_pager_status2 implements_typing2 implements_stop : keeps_db.

(** *** The main thread *)
Definition turn_cause (l : locus) : cause :=
  match l with Dispatching _ _ => REQUEST | _ => OTHER end.

Lemma implements_turn_aside `{!Env, !PjJson} e v0 l :
  turn_cause l = OTHER -> keeps True (implements e v0) (turn l).
Proof.
  intros Hl. destruct l; try done; cbn [turn]; unfold send_response, report_bad_line, report_long_line;
    keeps_go.
Qed.

Section requests.
Context `{!Env, !PjJson} (v0 : call_spec).
Abbreviation I := (implements REQUEST v0).

Lemma implements_get_int params name : keeps True I (get_int_member params name).
Proof. unfold get_int_member. keeps_go. Qed.
#[local] Hint Resolve implements_get_int : keeps_db.

Lemma implements_first_capture devices : keeps True I (first_capture_device devices).
Proof. induction devices as [|d devices IH]; simpl; keeps_go. Qed.
#[local] Hint Resolve implements_first_capture : keeps_db.

Lemma implements_handlers params result :
  Forall (fun entry : string * _ => keeps True I (entry.2 params result)) CMD_TABLE.
Proof.
  unfold CMD_TABLE. repeat apply Forall_cons_2; [..|by apply Forall_nil_2]; cbn [snd]; keeps_go.
Qed.

Lemma implements_dispatch line : keeps True I (pjsocky_dispatch_line line).
Proof.
  unfold pjsocky_dispatch_line. cbv zeta.
  destruct (pj_json_parse line) as [[n [| | | | |cs]]|]; try apply keeps_ret.
  destruct (pjsocky_json_find _ "id") as [[? [| | |id| |]]|]; try apply keeps_ret.
  destruct (pjsocky_json_find _ "cmd") as [[? [| | |cmd| |]]|]; try apply keeps_ret.
  destruct (find_cmd cmd) as [fn|] eqn:Hfn; [|apply keeps_ret].
  apply find_in_table_In in Hfn as [entry Hin]. apply keeps_bind; [|keeps_go].
  exact (proj1 (Forall_forall _ _) (implements_handlers _ _) (entry, fn) Hin).
Qed.
#[local] Hint Resolve implements_dispatch : keeps_db.

(** Only the operation that runs a request may act for one. *)
Lemma implements_request fds line : keeps True I (turn (Dispatching fds line)).
Proof. cbn [turn]. keeps_go. Qed.

Lemma implements_create getenv t : keeps True I (create_control_socket getenv t).
Proof.
  unfold create_control_socket, report_ignored_timeout, pjsocky_server_create. keeps_go.
Qed.
End requests.

Section start_up.
Context `{!Env, !PjJson} (e : cause) (v0 : call_spec).
Context (getenv : string -> option bytes) (resolv_conf : option bytes).
Abbreviation I := (implements e v0).

Lemma implements_override_codecs w h fps codecs : keeps True I (override_codecs w h fps codecs).
Proof. induction codecs as [|codec codecs IH]; simpl; [|unfold override_codec]; keeps_go. Qed.
#[local] Hint Resolve implements_override_codecs : keeps_db.

Lemma implements_log_nameservers source ns : keeps True I (log_nameservers source ns).
Proof.
  unfold log_nameservers. destruct ns as [|n ns]; [keeps_go|].
  apply keeps_bind; [|keeps_go]. generalize (n :: ns). clear n ns. intros ns.
  induction ns as [|n ns IH]; simpl; keeps_go.
Qed.
#[local] Hint Resolve implements_log_nameservers : keeps_db.

Lemma implements_start_up : keeps True I (start_up getenv resolv_conf).
Proof.
  unfold start_up, create_process, shrink_timers, log_configuration, start_library,
    apply_video_format_override, report_ignored_size, report_ignored_fps, null_sound_device,
    log_started, abandon, pjsocky_events_create. keeps_go.
Qed.
End start_up.

(** *** Timers *)
Section expiries.
Context `{!Env, !PjJson}.

Lemma represents_log v s a :
  not_removal a -> represents v s -> represents v (s <| hist := a :: hist s |>).
Proof.
  intros Ha []. split; try done. etrans; [done|]. symmetry. by apply removed_other.
Qed.

Lemma implements_ring_cb v0 : keeps True (implements (EXPIRY RING_TIMER) v0) ring_timer_cb.
Proof. unfold ring_timer_cb. keeps_go. Qed.

(** While the report is made nothing but the history changes. *)
Definition reporting (v : call_spec) (c : call_st) (s : St) : Prop :=
  call s = c <| g_media_report_scheduled := false |> /\ removed_streams (hist s) = sp_removed v.

Lemma reporting_ask v c {A} (q : history -> A) act :
  (forall a, not_removal (act a)) -> keeps True (reporting v c) (ask q act).
Proof. intros Ha s [? Hh]. apply wpf_ask. split; [done|]. etrans; [by apply removed_other|done]. Qed.
Lemma reporting_log v c a : not_removal a -> keeps True (reporting v c) (log_call a).
Proof. intros Ha s [? Hh]. apply wpf_log_call. split; [done|]. etrans; [by apply removed_other|done]. Qed.
#[local] Hint Extern 1 (keeps _ (reporting _ _) (ask _ _)) =>
  apply reporting_ask; solve [intros; simpl; auto] : keeps_db.
#[local] Hint Extern 1 (keeps _ (reporting _ _) (log_call _)) =>
  apply reporting_log; solve [simpl; auto] : keeps_db.

Lemma reporting_rtp_loop v c id type i media :
  keeps True (reporting v c) (rtp_counters_loop id type i media).
Proof. revert i. induction media as [|m media IH]; intros i; simpl; keeps_go. Qed.
#[local] Hint Resolve reporting_rtp_loop : keeps_db.

Lemma implements_report_cb v s :
  represents v s -> g_media_report_scheduled (call s) = true ->
  wpf True media_report_cb (fun _ s' => implements (EXPIRY MEDIA_REPORT) v s') s.
Proof.
  intros [] Hon. unfold media_report_cb. do 2 wp_step. wp_step. apply wpf_modify.
  set (c := call s) in *.
  assert (Hstop : forall s', reporting v c s' -> implements (EXPIRY MEDIA_REPORT) v s').
  { intros s' [Hc Hh]. eapply (implements_step _ v v); [done|by apply step_reported|].
    split; rewrite ?Hc; try done. by eapply watched_ext; [..|eassumption]. }
  set (s1 := s <| call := _ |>). assert (Hs : reporting v c s1) by done. clearbody s1.
  keeps_over Hs. destruct a as [st info]. destruct (negb (ok st)); [by apply wpf_ret, Hstop|].
  destruct (negb _); [by apply wpf_ret, Hstop|].
  keeps_over Hs. destruct a as [ast a]. keeps_over Hs. destruct a0 as [vst w]. keeps_over Hs.
  wp_step. apply wpf_ask. apply wpf_when; intros _; [apply wpf_modify|].
  - exists v. split; [done|]. destruct Hs as [Hc Hh]. split; simpl; rewrite ?Hc, ?Hh; try done.
    + by eapply watched_ext; [..|eassumption].
    + by rewrite rep_reported0, Hon.
  - apply Hstop. destruct Hs. by split.
Qed.
End expiries.

(** ** The whole daemon *)

Lemma implements_turn `{!Env, !PjJson} v0 l : keeps True (implements (turn_cause l) v0) (turn l).
Proof.
  destruct (turn_cause l) eqn:Hl; try by destruct l.
  - destruct l; try done. apply implements_request.
  - by apply implements_turn_aside.
Qed.

(** What happens for which cause. *)
Inductive caused `{!Env, !PjJson} : cause -> C unit -> Prop :=
| by_timer t : caused (EXPIRY t) (timer_expires t)
| by_call_state id : caused (CALL_STATE id) (pjsocky_call_on_call_state id)
| by_media_state id : caused (MEDIA_STATE id) (pjsocky_call_on_call_media_state id)
| by_media_event id idx err :
    caused (MEDIA_ERROR id) (pjsocky_call_on_call_media_event id idx err)
| by_incoming acc_id id : caused (INCOMING id) (pjsocky_call_on_incoming_call acc_id id)
| by_turn l : caused (turn_cause l) (turn l;; mret tt)
| by_reg_state acc_id info : caused OTHER (reg_state_reported acc_id info)
| by_rx_offer id offer opt : caused OTHER (pjsocky_call_on_call_rx_offer id offer opt;; mret tt)
| by_pager2 id from to contact mime body acc_id :
    caused OTHER (pjsocky_im_on_pager2 id from to contact mime body acc_id)
| by_pager_status2 id to body st reason acc_id :
    caused OTHER (pjsocky_im_on_pager_status2 id to body st reason acc_id)
| by_typing2 id from to contact typing acc_id :
    caused OTHER (pjsocky_im_on_typing2 id from to contact typing acc_id)
| by_signal : caused OTHER on_shutdown_signal.

Definition spec_run : call_spec -> call_spec -> Prop := rtc (fun v v' => exists e, spec_step e v v').

Lemma spec_steps_run e v v' : spec_steps e v v' -> spec_run v v'.
Proof. induction 1; [done|]. eapply rtc_l; [by exists e|done]. Qed.
Lemma spec_run_safe v v' : spec_run v v' -> spec_safe v -> spec_safe v'.
Proof. induction 1 as [|v w v' [e He] _ IH]; [done|]. intros. eauto using spec_step_safe. Qed.

Section refinement.
Context `{!Env, !EnvLaws, !PjJson} (Hu : counters_unsigned) (HL : 1 <= LONG_BIT).

Lemma caused_implements e m v s :
  caused e m -> (forall t, scheduled t (call s) = armed t (hist s)) ->
  spec_safe v -> represents v s -> wpf True m (fun _ s' => implements e v s') s.
Proof using Hu.
  intros He Ht Hv Hrep. assert (Hs : implements e v s) by by exists v.
  assert (Hk : keeps True (implements e v) m -> wpf True m (fun _ s' => implements e v s') s)
    by (intros Hk; by apply Hk).
  destruct He; try (apply Hk; solve
    [by apply implements_on_call_state|by apply implements_on_call_media_state
    |by apply implements_on_call_media_event|by apply implements_on_incoming_call
    |apply keeps_bind; [apply implements_turn|keeps_go]|keeps_go]).
  unfold timer_expires. do 2 wp_step. apply wpf_when; intros Ha; [|done].
  wp_step. apply wpf_log_call. rewrite <-Ht in Ha.
  apply (represents_log _ _ (A_timer_fired t)) in Hrep; [|done]. destruct t.
  - apply implements_ring_cb. by exists v.
  - by apply implements_watchdog_cb.
  - by apply implements_report_cb.
Qed.

(** The state is one the specification accounts for. *)
Definition accounted (s : St) : Prop := exists v, spec_run spec_start v /\ represents v s.

Lemma accounted_implements e v s : spec_run spec_start v -> implements e v s -> accounted s.
Proof. intros Hv (v' & Hs%spec_steps_run & ?). exists v'. split; [by trans v|done]. Qed.

Lemma spec_start_safe : spec_safe spec_start.
Proof. by split. Qed.

Lemma caused_accounted e m s :
  caused e m -> (forall t, scheduled t (call s) = armed t (hist s)) -> accounted s ->
  wpf True m (fun _ s' => accounted s') s.
Proof using Hu.
  intros He Ht (v & Hv & Hrep). eapply wpf_mono.
  { apply (caused_implements e m v s He Ht); [|done]. by eapply spec_run_safe, spec_start_safe. }
  intros [] s'. by apply accounted_implements.
Qed.

Lemma activity_accounted x m :
  serviceable True x -> activity m ->
  keeps True (fun s => daemon_ok x s /\ accounted s) m.
Proof using All.
  intros Hx. assert (Hbase : forall e m, activity m -> caused e m ->
    keeps True (fun s => daemon_ok x s /\ accounted s) m).
  { intros e m' Hm He s [Hok Ha]. apply wpf_conj.
    - by apply (keeps_activity True x).
    - apply (caused_accounted e); [done|apply Hok|done]. }
  induction 1; [apply keeps_ret|eapply Hbase..|by apply keeps_bind];
    [apply act_timer|apply by_timer|apply act_reg_state2|apply by_reg_state
    |apply act_call_state|apply by_call_state|apply act_call_media_state|apply by_media_state
    |apply act_call_media_event|apply by_media_event|apply act_call_rx_offer|apply by_rx_offer
    |apply act_incoming_call|apply by_incoming|apply act_pager2|apply by_pager2
    |apply act_pager_status2|apply by_pager_status2|apply act_typing2|apply by_typing2].
Qed.

(** The invariant at a locus, and the state accounted for. *)
Definition in_order (l : locus) (s : St) : Prop := (exists c v, located l c v s) /\ accounted s.

Lemma background_in_order l m : background m -> keeps True (in_order l) m.
Proof using All.
  intros Hm s [(c & v & Hl) Ha].
  assert (Hk : forall m, background m -> wlp m (fun _ s' => exists c v, located l c v s') s).
  { intros m' Hm'. eapply wpf_mono; [by apply (background_located HL True (or_introl I) l c v)|].
    intros _ s' (v' & ? & _). by exists c, v'. }
  apply wpf_conj; [by apply Hk|]. clear Hk. revert s c v Hl Ha.
  induction Hm as [|m Hm|m k Hm IHm _ IHk]; intros s c v Hl Ha.
  - apply (caused_accounted OTHER); [constructor|apply Hl|done].
  - eapply wpf_mono; [apply (activity_accounted (locus_ctx l c v)); [|exact Hm|]|].
    + exact (located_serviceable HL True (or_introl I) l c v s Hl).
    + split; [apply Hl|done].
    + by intros [] s' [].
  - wp_step. eapply wpf_mono; [apply wpf_conj; [by eapply IHm|]|].
    { by apply (background_located HL True (or_introl I) l c v). }
    intros [] s' [Ha' (v' & Hl' & _)]. by eapply IHk.
Qed.

Lemma start_accounted getenv rc before s0 s1 t s2 :
  start_up getenv rc initial_state = Ok (true, s0) -> activity before -> before s0 = Ok (tt, s1) ->
  create_control_socket getenv t s1 = Ok (PJ_SUCCESS, s2) -> accounted (s2 <| conn := zero_conn |>).
Proof using All.
  intros Hs Hb Hb' Hc. pose proof Hs as Hst.
  eapply wlp_run in Hst; [|apply (start_up_spec _ _ True); by left]. apply started_idle in Hst.
  assert (accounted s0) as Ha0.
  { eapply (accounted_implements REQUEST spec_start); [done|].
    refine (wlp_run _ (fun _ => implements REQUEST spec_start) _ _ _ _ Hs).
    apply implements_start_up. exists spec_start. split; [done|]. by split. }
  assert (accounted s1) as (v & Hv & Hrep).
  { pose proof (idle_ok _ Hst) as Hok. eapply wlp_run in Hb';
      [|eapply activity_accounted; [|done|split; [exact Hok|done]]; destruct Hst as (? & ? & ?); split; try done; by left].
    by destruct Hb'. }
  eapply (accounted_implements REQUEST v); [done|].
  apply (implements_frame REQUEST v s2); [done|done|].
  refine (wlp_run _ (fun _ => implements REQUEST v) _ _ _ _ Hc). apply implements_create. by exists v.
Qed.

Lemma interleaved_accounted early l s : interleaved early l s -> accounted s.
Proof using All.
  induction 1 as [s2 (getenv & rc & before & s0 & s1 & t & Hs & Hb & Hb' & _ & Hc)|l m s s' Hi IH _ Hm Hrun
    |l s l' s' Hi (v & Hv & Hrep) Hrun].
  - by eapply start_accounted.
  - refine (proj2 (wlp_run _ (fun _ => in_order l) _ _ _ _ Hrun)).
    apply background_in_order; [done|]. split; [by eapply interleaved_located|done].
  - eapply (accounted_implements (turn_cause l) v); [done|].
    refine (wlp_run _ (fun _ => implements (turn_cause l) v) _ _ _ _ Hrun).
    apply implements_turn. by exists v.
Qed.
End refinement.

(** ** Properties *)

(** C14: The daemon implements the specification of a call's life, however the
    threads interleave: every state between two operations of the main thread
    represents a state the specification reaches from the start, and whatever
    happens next - a request is run, the main thread does anything else,
    pjsua-lib reports, a timer expires - takes it to a state that steps
    allowed for that very cause lead to: only a request or an arriving call
    makes a call current, and only the report of its own end or a failed
    dial ends that; only an arriving call is timed, only its own state report
    or the timer ends that; only a report on the media of a call makes that
    call watched and reported on; only the watchdog's expiry or a device
    error ends its video; messages, registrations, the shutdown signal and
    the rest of the server loop touch none of it. *)
Theorem call_refines_spec `{!Env, !EnvLaws, !PjJson} early l (s : St) :
  1 <= LONG_BIT -> counters_unsigned -> interleaved early l s ->
  exists v, spec_run spec_start v /\ represents v s /\
    forall e m s', caused e m -> m s = Ok (tt, s') ->
      exists v', spec_steps e v v' /\ represents v' s'.
Proof.
  intros HL Hu Hi. destruct (interleaved_accounted Hu HL early l s Hi) as (v & Hv & Hrep).
  exists v. split_and!; [done|done|]. intros e m s' He Hm.
  destruct (interleaved_located HL early l s Hi) as (c & w & Hl).
  refine (wlp_run _ (fun _ => implements e v) _ _ _ (caused_implements Hu e m v s He _ _ Hrep) Hm).
  - apply Hl.
  - eapply spec_run_safe, spec_start_safe. exact Hv.
Qed.

(** Whenever the video watchdog is armed, between any two operations of
    the main thread, it is for a call whose video has not been given up, and
    its two counters summarise the packet counts read since the call's media
    last changed, none of which was a stall when it was read; and a call is
    remembered as given up only when the last stream pjsua was asked to
    remove is one of its. *)
Theorem watchdog_invariant `{!Env, !EnvLaws, !PjJson} early l (s : St) :
  1 <= LONG_BIT -> counters_unsigned -> interleaved early l s ->
  (g_video_watchdog_scheduled (call s) = true ->
   g_video_watchdog (call s) <> g_video_failed_call_id (call s) /\
   exists past, tracks past (call s) /\ progressing past) /\
  (g_video_failed_call_id (call s) <> PJSUA_INVALID_ID ->
   exists stream,
     head (removed_streams (hist s)) = Some (g_video_failed_call_id (call s), stream)).
Proof.
  intros HL Hu Hi. destruct (interleaved_accounted Hu HL early l s Hi) as (v & Hv & []).
  destruct (spec_run_safe _ _ Hv spec_start_safe) as [Hw Hg].
  rewrite rep_given_up0, rep_removed0 in *. split; [|done]. intros Hon.
  unfold watched in rep_watched0. rewrite Hon in rep_watched0.
  destruct rep_watched0 as (past & Hpast & Ht). destruct (Hw _ _ Hpast) as [? ?].
  split; [done|]. by exists past.
Qed.
