(* ===== verification/Session.v ===== *)
(** * The conversation with a client (src/proto/server.c, dispatch.c, events.c)

    What one client has said and heard since it connected, read off the
    history of the whole process; the conversations the protocol allows - a
    greeting, events, and one reply per line, in the order of the lines -;
    and what each operation of the daemon contributes to one. *)

From S2P Require Import Prelude Float32 Pjlib Env SimEnv State Framing Compact SimJson Wire JsonUtil Events Invariant Device Account Im Call Watchdog Dispatch Requests Server Schema ServerInput ServerLoop Liveness Config Startup System.
#[local] Open Scope string_scope.
#[local] Open Scope list_scope.
#[local] Open Scope Z_scope.

(** ** The two streams of a socket

    Since socket number [n] was last accepted: the bytes it has delivered,
    and the bytes it has taken. *)
Definition opens (n : Z) (a : action) : bool :=
  match a with A_accept _ (PJ_SUCCESS, m) => bool_decide (m = n) | _ => false end.
Definition delivery `{!Env} (n : Z) (h : history) (a : action) : bytes :=
  match a with
  | A_sock_recv m cap =>
      if decide (m = n) then
        match ans_sock_recv h n cap with (PJ_SUCCESS, data) => data | _ => [] end
      else []
  | _ => []
  end.
Fixpoint heard `{!Env} (n : Z) (h : history) : bytes :=
  match h with
  | [] => []
  | a :: h => if opens n a then [] else heard n h ++ delivery n h a
  end.
Fixpoint said (n : Z) (h : history) : bytes :=
  match h with
  | [] => []
  | a :: h => if opens n a then [] else said n h ++ accepted n a
  end.

Lemma plain_opens n a : plain a -> opens n a = false.
Proof. by destruct a. Qed.

Lemma heard_plain `{!Env} n l h : Forall plain l -> heard n (l ++ h) = heard n h.
Proof.
  induction 1 as [|a l Ha _ IH]; [done|]. simpl. rewrite plain_opens, IH by done.
  destruct a; try done; by rewrite app_nil_r.
Qed.

Lemma said_plain n l h : Forall plain l -> said n (l ++ h) = said n h ++ wire n l.
Proof.
  induction 1 as [|a l Ha _ IH]; simpl; [by rewrite app_nil_r|].
  by rewrite plain_opens, IH, app_assoc.
Qed.

Lemma silent_plain l : Forall silent l -> Forall plain l.
Proof. intros Hl. eapply Forall_impl; [exact Hl|]. by intros []. Qed.

(** ** The protocol as a conversation *)
Section protocol.
Context `{!PjJson} (all : Prop).

(** What a message contributes to the stream: a prefix of its line, and,
    where [all] holds, the whole line if it fits the print buffer. *)
Definition conveyed (e : jelem) (data : bytes) : Prop :=
  exists st, delivered e PJSOCKY_MAX_LINE st data /\
    (all -> written e PJSOCKY_MAX_LINE st data).

(** What a line is answered with. *)
Definition exchange (line data : bytes) : Prop :=
  match string_member (pj_json_parse line) "id" with
  | Some id => exists response, well_formed_response id response /\
      json_line response PJSOCKY_MAX_LINE = inr data
  | None => exists a, conveyed (event_object "error"
      (Some (build_error_event_data "bad_request" bad_line_message)) a) data
  end.

(** Events, and nothing else. *)
Inductive aside `{!Env} : bytes -> Prop :=
| aside_nil : aside []
| aside_event out e data : aside out -> typed_event e -> conveyed e data -> aside (out ++ data).

(** [conversation b ls out]: [out] answers the lines [ls], and [b] tells
    whether it contains the greeting.  The greeting comes before every reply;
    where [early] holds events may come before it, otherwise none do. *)
Inductive conversation `{!Env} (early : Prop) : bool -> list bytes -> bytes -> Prop :=
| conv_start : conversation early false [] []
| conv_greeting out a data :
    conversation early false [] out ->
    conveyed (event_object "hello" (Some build_hello_data) a) data ->
    conversation early true [] (out ++ data)
| conv_event b ls out e data :
    b = true \/ early -> conversation early b ls out ->
    typed_event e -> conveyed e data -> conversation early b ls (out ++ data)
| conv_line ls out line data :
    conversation early true ls out -> exchange line data ->
    conversation early true (ls ++ [line]) (out ++ data).

Lemma conv_ungreeted `{!Env} early ls out : conversation early false ls out -> ls = [].
Proof.
  intros Hc. remember false as b eqn:Hb. by induction Hc; simplify_eq; auto.
Qed.
Lemma aside_app `{!Env} d1 d2 : aside d1 -> aside d2 -> aside (d1 ++ d2).
Proof.
  intros H1. induction 1; [by rewrite app_nil_r|]. rewrite app_assoc. by eapply aside_event.
Qed.
Lemma conv_aside `{!Env} early b ls out data :
  b = true \/ early -> conversation early b ls out -> aside data ->
  conversation early b ls (out ++ data).
Proof.
  intros Hb Hc. induction 1; [by rewrite app_nil_r|]. rewrite app_assoc. by eapply conv_event.
Qed.
End protocol.

(** Memory for event pools is never short. *)
Definition memory `{!Env} : Prop := forall h name, ans_pool_create h name = true.

(** ** A push to a client that reads *)
Section pushing.
Context `{!Env, !EnvLaws, !PjJson}.

Lemma wpf_when_known F (P : Prop) {A} (m : C A) Q R s :
  (P -> wlp m Q s) -> wpf F m R s -> wpf F m (fun a s' => R a s' /\ (P -> Q a s')) s.
Proof.
  unfold wpf. destruct (m s) as [[a s']| |]; [|done..]. by split.
Qed.

Lemma push_reads e s name b :
  ready s e -> is_Some (ev_framing e) -> reads (f_sock (conn_framing (conn s))) -> memory ->
  wp (push name b) (fun st _ =>
    match json_line (event_object name (Some b) (acc s)) PJSOCKY_MAX_LINE with
    | inl st' => st = st'
    | inr _ => st = PJ_SUCCESS
    end) s.
Proof.
  intros [Hi Hl HL Ht] [[] Hf] Hr Hm. unfold push, pjsocky_events_instance.
  do 3 wp_step. rewrite Hi. wp_step. simpl. unfold pjsocky_events_push.
  wp_step. eapply wpf_lock; [done..|]. wp_step. eapply wpf_deref_events; [done|]. simpl.
  rewrite Hf. wp_step. apply wpf_ask. rewrite Hm. cbn [negb]. do 3 wp_step.
  apply wpf_deref_framing. wp_step.
  match goal with |- wpf _ _ _ ?s0 => set (s1 := s0) end. eapply wpf_mono.
  { apply wpf_conj; [by apply write_json_reads|].
    apply (wlp_wpf False _ (fun _ s' => exists l, s' = s1 <| hist := l ++ hist s1 |>)).
    - eapply wpf_mono; [by apply (write_json_delivered True); [left|..]|].
      intros st s' (data & Hs%sends_actions & _). destruct Hs as (l & -> & _). by exists l.
    - right. eapply wpf_mono; [by apply write_json_reads|done]. }
  intros st s' [Hst (l & ->)]. wp_step. apply wpf_log_call. wp_step.
  eapply wpf_unlock; [done|]. apply wpf_ret. exact Hst.
Qed.

Lemma push_conveyed all e s name b :
  (all -> reads (f_sock (conn_framing (conn s))) /\ memory) ->
  ready s e -> is_Some (ev_framing e) ->
  wlp (push name b) (fun _ s' => exists data, locked_write s data s' /\
    conveyed all (event_object name (Some b) (acc s)) data) s.
Proof.
  intros Hall Hr He. eapply wpf_mono.
  { eapply wpf_when_known.
    - intros [Hreads Hm]%Hall. by eapply wp_wlp, push_reads.
    - by apply (push_spec True e); [left|]. }
  intros st s' [(data & Hlw & Hd) Hw]. destruct He as [fp Hf]. rewrite Hf in Hd.
  exists data. split; [done|]. exists st. split; [done|].
  intros Ha. by apply delivered_written, Hw.
Qed.
End pushing.

(** ** What the other threads do

    A predicate that everything keeps but the push of an event: calls that
    neither write to nor read from a socket keep it, and so do changes of what
    is not the server's. *)
Class Quiet `{!Env, !PjJson} (I : St -> Prop) : Prop := {
  qt_ask {A} (q : history -> A) act : (forall a, silent (act a)) -> keeps True I (ask q act);
  qt_log a : silent a -> keeps True I (log_call a);
  qt_modify (f : St -> St) :
    (forall s, hist (f s) = hist s /\ conn (f s) = conn s /\ g_instance (f s) = g_instance s) ->
    keeps True I (modify f) }.

(** One that the activity outside the main thread keeps: the push of an event
    of a documented type does as well. *)
Class Undisturbed `{!Env, !PjJson} (I : St -> Prop) : Prop := {
  und_quiet :: Quiet I;
  und_push name b : (forall a, typed_event (event_object name (Some b) a)) ->
    keeps True I (push name b) }.

#[export] Hint Unfold reg_state_reported pjsocky_account_on_reg_state2
  pjsocky_call_on_call_rx_offer pjsocky_im_on_pager2 pjsocky_im_on_pager_status2
  pjsocky_im_on_typing2 on_shutdown_signal pjsocky_server_stop pjsocky_call_on_call_state
  pjsocky_call_on_call_media_state pjsocky_call_on_call_media_event pjsocky_call_on_incoming_call
  give_up_on_video apply_video_capture_device log_negotiated_media arm_media_report
  arm_video_watchdog cancel_video_watchdog pjsocky_account_get_id
  cancel_ring_timer cancel_media_report timer_expires ring_timer_cb video_watchdog_cb
  media_report_cb : ops.

#[export] Hint Extern 5 (keeps _ _ (ask _ _)) =>
  apply qt_ask; solve [intros; simpl; auto] : keeps_db.
#[export] Hint Extern 5 (keeps _ _ (log_call _)) => apply qt_log; solve [simpl; auto] : keeps_db.
#[export] Hint Extern 5 (keeps _ _ (modify _)) => apply qt_modify; by intros : keeps_db.

Section quiet.
Context `{!Env, !PjJson} (I : St -> Prop) `{!Quiet I}.

Lemma quiet_rtp_loop id type i media : keeps True I (rtp_counters_loop id type i media).
Proof. revert i. induction media as [|m media IH]; intros i; simpl; keeps_go. Qed.
Lemma quiet_connect_audio media : keeps True I (connect_call_audio_to_sound_dev media).
Proof. induction media as [|m media IH]; simpl; keeps_go. Qed.
Lemma quiet_log_lines id i media : keeps True I (log_media_lines id i media).
Proof. revert i. induction media as [|m media IH]; intros i; simpl; keeps_go. Qed.
Lemma quiet_first_capture devices : keeps True I (first_capture_device devices).
Proof. induction devices as [|d devices IH]; simpl; keeps_go. Qed.
End quiet.
#[export] Hint Extern 5 (keeps _ _ (rtp_counters_loop _ _ _ _)) => apply quiet_rtp_loop; exact _ : keeps_db.
#[export] Hint Extern 5 (keeps _ _ (connect_call_audio_to_sound_dev _)) =>
  apply quiet_connect_audio; exact _ : keeps_db.
#[export] Hint Extern 5 (keeps _ _ (log_media_lines _ _ _)) => apply quiet_log_lines; exact _ : keeps_db.
#[export] Hint Extern 5 (keeps _ _ (first_capture_device _)) => apply quiet_first_capture; exact _ : keeps_db.

Section activities.
Context `{!Env, !PjJson, !PjJsonLaws} (I : St -> Prop) `{!Undisturbed I}.

#[local] Hint Extern 1 (keeps _ I (push _ _)) =>
  apply und_push; intros ?; by apply event_types_spec : keeps_db.

Lemma undisturbed_activity m : activity m -> keeps True I m.
Proof using All.
  induction 1 as [|t| | | | | | | | | |]; [by apply keeps_ret|destruct t| | | | | | | | | |by apply keeps_bind].
  all: keeps_go.
Qed.

Lemma undisturbed_background m : background m -> keeps True I m.
Proof using All.
  induction 1; [keeps_go|by apply undisturbed_activity|by apply keeps_bind].
Qed.
End activities.

(** *** What the rest of the daemon says to the client *)

(** [speaks s0 s]: since [s0] no connection was opened or read from, and what
    was written to socket [n] fits in anywhere. *)
Definition speaks `{!Env, !PjJson} (all : Prop) (n : Z) (s0 s : St) : Prop :=
  exists l, hist s = l ++ hist s0 /\ Forall plain l /\ aside all (wire n l).

(** A client on socket [n] is connected, and was spoken to since [s0]. *)
Definition connected_since `{!Env, !PjJson} (all : Prop) (n : Z) (s0 s : St) : Prop :=
  (exists e, ready s e /\ is_Some (ev_framing e)) /\ f_sock (conn_framing (conn s)) = n /\
  speaks all n s0 s.

Section speaking.
Context `{!Env, !EnvLaws, !PjJson, !PjJsonLaws} (all : Prop) (n : Z) (s0 : St).
Context (Hall : all -> reads n /\ memory).
Abbreviation I := (connected_since all n s0).

Lemma speaks_silent s l :
  Forall silent l -> speaks all n s0 s -> speaks all n s0 (s <| hist := l ++ hist s |>).
Proof using Type.
  intros Hl (k & Hk & Hp & Ha). exists (l ++ k). simpl. rewrite Hk, app_assoc. split_and!; [done| |].
  - apply Forall_app. split; [by apply silent_plain|done].
  - by rewrite wire_app, (silent_wire n l), app_nil_r.
Qed.

Lemma connected_since_frame s s' l :
  hist s' = l ++ hist s -> Forall silent l -> conn s' = conn s -> g_instance s' = g_instance s ->
  I s -> I s'.
Proof using Type.
  intros Hh Hl Hc Hg ((e & [] & He) & Hf & Hs). split_and!.
  - exists e. split; [|done]. by split; rewrite ?Hg, ?Hc.
  - by rewrite Hc.
  - apply (speaks_silent s l Hl) in Hs as (k & Hk & ?). exists k. by rewrite Hh, <-Hk.
Qed.

Lemma keeps_ask_speaking {A} (q : history -> A) act :
  (forall a, silent (act a)) -> keeps True I (ask q act).
Proof using Type.
  intros Ha s Hs. apply wpf_ask. eapply (connected_since_frame s _ [_]); try done. by repeat constructor.
Qed.
Lemma keeps_log_speaking a : silent a -> keeps True I (log_call a).
Proof using Type.
  intros Ha s Hs. apply wpf_log_call.
  eapply (connected_since_frame s _ [_]); try done. by repeat constructor.
Qed.
Lemma keeps_modify_speaking (f : St -> St) :
  (forall s, hist (f s) = hist s /\ conn (f s) = conn s /\ g_instance (f s) = g_instance s) ->
  keeps True I (modify f).
Proof using Type.
  intros Hf. apply keeps_modify. intros s. destruct (Hf s) as (Hh & Hc & Hg).
  by apply (connected_since_frame s _ []).
Qed.

Lemma locked_write_speaks s data s' :
  locked_write s data s' -> aside all data -> I s -> I s'.
Proof using Type.
  intros (l & -> & Hl & Hw) Ha ((e & Hr & He) & Hf & (k & Hk & Hp & Hk')). split_and!.
  - exists e. split; [|done]. by destruct Hr.
  - done.
  - rewrite Hf in Hl, Hw. exists (l ++ k). simpl. rewrite Hk, app_assoc. split_and!; [done| |].
    + apply Forall_app. split; [|done]. eapply Forall_impl; [exact Hl|]. by intros [].
    + rewrite wire_app, Hw. by apply aside_app.
Qed.

Lemma keeps_push_speaking name b :
  (forall a, typed_event (event_object name (Some b) a)) -> keeps True I (push name b).
Proof using All.
  intros Ht s Hs. pose proof Hs as ((e & Hr & He) & Hf & _). eapply wpf_mono.
  { apply (push_conveyed all e); [|done..]. by rewrite Hf. }
  intros _ s' (data & Hlw & Hd). eapply locked_write_speaks; [exact Hlw| |exact Hs].
  rewrite <-(app_nil_l data). eapply aside_event; [apply aside_nil|done..].
Qed.

#[global] Instance connected_undisturbed : Undisturbed I.
Proof using All.
  split; [split|apply keeps_push_speaking];
    [apply @keeps_ask_speaking|apply keeps_log_speaking|apply keeps_modify_speaking].
Qed.
End speaking.

(** Without a connection nothing is written. *)
Definition unattached_since `{!Env} (s0 s : St) : Prop :=
  (exists e, g_instance s = Some e /\ ev_lock_held e = false /\ ev_framing e = None) /\
  logs silent s0 s.

Section unattached.
Context `{!Env, !EnvLaws, !PjJson} (s0 : St).

#[global] Instance unattached_undisturbed : Undisturbed (unattached_since s0).
Proof.
  split; [split|].
  - intros A q act Ha s [He Hl]. apply wpf_ask. split; [done|by apply logs_cons].
  - intros a Ha s [He Hl]. apply wpf_log_call. split; [done|by apply logs_cons].
  - intros f Hf. apply keeps_modify. intros s [He (l & Hl & Hs)].
    destruct (Hf s) as (Hh & _ & Hg). split; [by rewrite Hg|]. exists l. by rewrite Hh.
  - intros name b _ s [(e & Hi & Hlk & Hf) Hl]. unfold push, pjsocky_events_instance.
    do 3 wp_step. rewrite Hi. wp_step. simpl. unfold pjsocky_events_push.
    wp_step. eapply wpf_lock; [done..|]. wp_step. eapply wpf_deref_events; [done|]. simpl.
    rewrite Hf. wp_step. eapply wpf_unlock; [done|]. apply wpf_ret. split.
    + eexists. split_and!; [done..|]. exact Hf.
    + simpl. apply (logs_app silent s0 s [A_mutex_unlock; A_mutex_lock]); [by repeat constructor|done].
Qed.
End unattached.

(** ** The operations of the main thread *)

(** The client takes what it is sent, and there is memory for events. *)
Definition obliging `{!Env} (n : Z) : Prop := reads n /\ memory.

(** A socket number is given out only while it is closed. *)
Definition accept_fresh `{!Env} : Prop :=
  forall h l n, ans_accept h l = (PJ_SUCCESS, n) -> live n h = 0.

Section operations.
Context `{!Env, !EnvLaws, !PjJson, !PjJsonLaws} (HL : 1 <= LONG_BIT).

(** What was said and heard after calls that open and read nothing. *)
Lemma dialogue_plain n s s' l : hist s' = l ++ hist s -> Forall plain l ->
  heard n (hist s') = heard n (hist s) /\ said n (hist s') = said n (hist s) ++ wire n l.
Proof using Type. intros -> Hl. split; [by apply heard_plain|by apply said_plain]. Qed.

Lemma write_response_conveyed e s response :
  ready s e -> is_Some (ev_framing e) ->
  wlp (write_response response PJSOCKY_MAX_LINE) (fun st s' => exists data, locked_write s data s' /\
    delivered response PJSOCKY_MAX_LINE st data) s.
Proof using Type*.
  intros Hr [fp Hf]. unfold write_response, pjsocky_events_instance. do 3 wp_step.
  rewrite (ready_instance _ _ Hr). wp_step. cbn.
  eapply wpf_mono; [by apply (write_response_spec True e); [left|]|].
  intros st s' (data & Hlw & Hd). rewrite Hf in Hd. by exists data.
Qed.

(** A locked write adds its data to what was said. *)
Lemma locked_write_dialogue n s data s' :
  f_sock (conn_framing (conn s)) = n -> locked_write s data s' ->
  heard n (hist s') = heard n (hist s) /\ said n (hist s') = said n (hist s) ++ data.
Proof using Type.
  intros Hn (l & -> & Hl & Hw). rewrite Hn in Hl, Hw. rewrite <-Hw.
  apply (dialogue_plain n s); [done|]. eapply Forall_impl; [exact Hl|]. by intros [].
Qed.

(** The bytes an answer of [recv] delivers. *)
Definition arrived (answer : pj_status * bytes) : bytes :=
  match answer with (PJ_SUCCESS, data) => data | _ => [] end.

Lemma spec_fill_arrived answer p st q :
  spec_fill answer p = (st, q) ->
  let new := if decide (PJSOCKY_MAX_LINE <= length p)%nat then [] else arrived answer in
  (st = PJ_EPENDING -> q = p /\ new = []) /\ (st = PJ_SUCCESS -> q = p ++ new).
Proof using Type.
  unfold spec_fill. destruct (decide _) as [_|_]; cbv zeta.
  { intros [= <- <-]. split; [done|]. by rewrite app_nil_r. }
  destruct answer as [st0 data]. destruct (decide (st0 = PJ_SUCCESS)) as [->|Hst0].
  - by destruct data; intros [= <- <-].
  - assert (arrived (st0, data) = []) as -> by (by destruct st0).
    intros Hf. assert (q = p /\ st <> PJ_SUCCESS) as [-> ?]; [|done].
    revert Hf. destruct st0; try done; try (by intros [= <- <-]). simpl.
    by case_match; intros [= <- <-].
Qed.

Lemma after_recv_dialogue f s :
  said (f_sock f) (hist (after_recv f s)) = said (f_sock f) (hist s) /\
  heard (f_sock f) (hist (after_recv f s)) = heard (f_sock f) (hist s) ++
    (if decide (PJSOCKY_MAX_LINE <= f_len f)%nat then []
     else arrived (ans_sock_recv (hist s) (f_sock f) (PJSOCKY_MAX_LINE - f_len f))).
Proof using Type.
  unfold after_recv. destruct (decide _) as [_|_]; [by rewrite app_nil_r|].
  cbn [hist set_with heard said opens delivery accepted]. by rewrite app_nil_r, decide_True.
Qed.

Lemma filled_eq s : filled s =
  spec_fill (ans_sock_recv (hist s) (f_sock (conn_framing (conn s)))
    (PJSOCKY_MAX_LINE - f_len (conn_framing (conn s)))) (pending (conn_framing (conn s))).
Proof using Type. reflexivity. Qed.

(** What [fill] appends to the pending bytes is what the socket delivered. *)
Lemma filled_heard n s st p :
  wf_framing (conn_framing (conn s)) -> f_sock (conn_framing (conn s)) = n -> filled s = (st, p) ->
  let s1 := after_recv (conn_framing (conn s)) s in
  said n (hist s1) = said n (hist s) /\
  (st = PJ_EPENDING -> p = pending (conn_framing (conn s)) /\ heard n (hist s1) = heard n (hist s)) /\
  (st = PJ_SUCCESS -> exists new, p = pending (conn_framing (conn s)) ++ new /\
     heard n (hist s1) = heard n (hist s) ++ new).
Proof using Type.
  intros Hwf <- Hf s1. destruct (after_recv_dialogue (conn_framing (conn s)) s) as [Hs Hh].
  rewrite filled_eq in Hf. apply spec_fill_arrived in Hf. cbv zeta in Hf. rewrite (length_pending _ Hwf) in Hf.
  fold s1 in Hs, Hh. set (new := if decide _ then [] else arrived _) in Hf, Hh. clearbody new.
  destruct Hf as [He Hok]. split_and!; [done| |].
  - intros [-> ->]%He. by rewrite Hh, app_nil_r.
  - intros ->%Hok. by exists new.
Qed.

(** Since [s] the client on socket [n] has been sent the hello event, and
    nothing else. *)
Definition greeted (n : Z) (s s' : St) : Prop := exists l a,
  hist s' = l ++ hist s /\ Forall plain l /\
  conveyed (obliging n) (event_object "hello" (Some build_hello_data) a) (wire n l).

Lemma silent_attach_conn n s0 : keeps True (logs silent s0) (attach_conn n).
Proof using Type.
  unfold attach_conn, set_nonblocking, pjsocky_events_instance, pjsocky_events_set_conn,
    pj_mutex_lock, pj_mutex_unlock, set_events, deref_events. keeps_go.
Qed.

Lemma greet_client_greets c v s :
  greeting_ok c v s -> wlp greet_client (fun _ s' => greeted (conn_sock c) s s') s.
Proof using All.
  intros [Hok _ _ Ht _ Hs]. assert (Hc : conn s = c) by apply Hok. unfold greet_client. wp_step.
  eapply wpf_mono.
  { apply (push_conveyed (obliging (conn_sock c)) (events_for (c <| active := true |>)));
      [by rewrite Hc, Hs| |by eexists]. split; rewrite ?Hc; try done. apply Hok. }
  intros _ s1 (data & (l & -> & Hl & Hw) & Hd). wp_step. apply wpf_modify, wpf_log_call.
  rewrite Hc, Hs in Hl, Hw. exists (A_log 4 "Client connected" [] :: l), (acc s). split_and!; [done| |].
  - constructor; [done|]. eapply Forall_impl; [exact Hl|]. by intros [].
  - simpl. by rewrite app_nil_r, Hw.
Qed.

Lemma wlp_any {A} (m : C A) s : wlp m (fun _ _ => True) s.
Proof using Type. unfold wpf. by destruct (m s) as [[a s']| |]. Qed.

Lemma server_ready c v s : server_ok c v s -> ready s (events_for c).
Proof using HL.
  intros [[(? & Hc & _) _ _ _] _ Ht _ _]. simpl in *. split; [done|done|done|by rewrite Hc].
Qed.

(** The number of the connection's socket is not given out again. *)
Lemma accepted_other c v s m :
  server_ok c v s -> active c = true -> live m (hist s) = 0 -> m <> conn_sock c.
Proof using Type.
  intros [[(_ & _ & _ & Hl) _ _ _] _ _ _ _] Ha Hm ->. rewrite Hl in Hm. simpl in Hm.
  unfold sockets_for in Hm. rewrite Ha, (bool_decide_true (conn_sock c = conn_sock c)) in Hm by done.
  unfold b2z in Hm. simpl in Hm. by case_bool_decide.
Qed.

End operations.

(** ** Whole messages *)

(** The id a response echoes; an event has none. *)
Definition response_id (e : jelem) : option string :=
  match e with
  | Elem _ (PJ_JSON_VAL_OBJ (Elem name (PJ_JSON_VAL_STRING id) :: _)) =>
      if String.eqb name "id" then Some id else None
  | _ => None
  end.
Definition request_id `{!PjJson} (line : bytes) : option string :=
  string_member (pj_json_parse line) "id".
Definition message (e : jelem) : Prop :=
  typed_event e \/ exists id, well_formed_response id e.

(** [transcript ls out]: [out] consists of whole lines, each an event or a
    response, and the responses are those to the requests among [ls], in
    their order. *)
Definition transcript `{!PjJson} (ls : list bytes) (out : bytes) : Prop :=
  exists msgs texts, split_lines out = (texts, []) /\
    Forall2 (fun e text => json_line e PJSOCKY_MAX_LINE = inr (text ++ [LF])) msgs texts /\
    Forall message msgs /\ omap response_id msgs = omap request_id ls.

Section transcripts.
Context `{!Env, !PjJson, !PjJsonLaws, !PjJsonWriteLaws}.

Lemma typed_event_no_id e : typed_event e -> response_id e = None.
Proof using Type. by intros (name & t & data & _ & _ & ->). Qed.
Lemma response_id_spec id e : well_formed_response id e -> response_id e = Some id.
Proof using Type. by intros [[result ->]|(code & msg & _ & ->)]. Qed.

Lemma transcript_message ls out e data :
  transcript ls out -> message e -> json_line e PJSOCKY_MAX_LINE = inr data ->
  forall ls', omap request_id ls' = omap request_id ls ++ option_list (response_id e) ->
  transcript ls' (out ++ data).
Proof using All.
  intros (msgs & texts & Hsp & Hf & Hm & Hid) He Hj ls' Hls'.
  destruct (json_line_one_line _ _ _ Hj) as (body & -> & Hnl).
  exists (msgs ++ [e]), (texts ++ [body]). split_and!.
  - by rewrite split_lines_app, Hsp, app_nil_l, split_lines_newline.
  - apply Forall2_app; [done|]. by constructor.
  - apply Forall_app. by rewrite Forall_singleton.
  - by rewrite Hls', omap_app, Hid.
Qed.

Lemma transcript_event all ls out e data :
  all -> transcript ls out -> typed_event e -> conveyed all e data ->
  forall ls', omap request_id ls' = omap request_id ls -> transcript ls' (out ++ data).
Proof using All.
  intros Ha Ht He (st & _ & Hw) ls' Hls'. specialize (Hw Ha). unfold written in Hw.
  destruct (json_line e _) as [st'|msg] eqn:Hj.
  - destruct Hw as (_ & _ & ->). rewrite app_nil_r.
    destruct Ht as (msgs & texts & ? & ? & ? & Hid). exists msgs, texts. by rewrite Hls'.
  - destruct Hw as [_ ->]. apply (transcript_message ls out e); [done|by left|done|].
    by rewrite typed_event_no_id, app_nil_r.
Qed.

Lemma conversation_transcript (all : Prop) early b ls out :
  all -> conversation all early b ls out -> transcript ls out.
Proof using All.
  intros Ha. induction 1 as [|out a data _ IH Hd|b ls out e data _ _ IH He Hd|ls out line data _ IH Hx].
  - exists [], []. by split_and!.
  - apply (transcript_event all [] out (event_object "hello" (Some build_hello_data) a) data Ha);
      [done|by apply event_types_spec|done|done].
  - by apply (transcript_event all ls out e data).
  - unfold exchange in Hx. fold (request_id line) in Hx.
    assert (Hls : omap request_id (ls ++ [line]) = omap request_id ls ++ option_list (request_id line)).
    { by rewrite omap_app. }
    destruct (request_id line) as [id|].
    + destruct Hx as (response & Hwf & Hj). eapply transcript_message; [done|by right; exists id|done|].
      by rewrite (response_id_spec id).
    + destruct Hx as [a Hd]. eapply (transcript_event all); [done|done| |exact Hd|by rewrite Hls, app_nil_r].
      by apply event_types_spec.
Qed.
End transcripts.

