(* ===== verification/Pools.v ===== *)
(** * Memory pools (src/proto/server.c, src/proto/events.c, src/device.c, src/main.c)

    Which memory pools exist, as the history of calls has it: however the
    threads interleave, that of the start-up, that of the null renderer's
    factory, and the connection's while there is one. *)

From S2P Require Import Prelude Float32 Pjlib Env SimEnv State NullVideoDev Framing Compact SimJson Wire JsonUtil Events Invariant Device Account Im Call Watchdog Dispatch Requests Server Schema ServerInput ServerLoop Liveness Config Startup System Threads Session.
#[local] Open Scope string_scope.
#[local] Open Scope list_scope.
#[local] Open Scope Z_scope.

(** ** Pools in the history *)

(** How many pools of a name have been created and not released. *)
Fixpoint pools (name : string) (h : history) : Z :=
  match h with
  | [] => 0
  | A_pool_create n made :: h => pools name h + b2z (made && bool_decide (n = name))
  | A_pool_release n :: h => pools name h - b2z (bool_decide (n = name))
  | _ :: h => pools name h
  end.

Definition poolless (a : action) : Prop :=
  match a with A_pool_create _ _ | A_pool_release _ => False | _ => True end.

Lemma pools_other name a h : poolless a -> pools name (a :: h) = pools name h.
Proof. by destruct a. Qed.

(** The pools are as [k] says, and the connection object is [c]. *)
Definition holds (k : string -> Z) (c : conn_state) (s : St) : Prop :=
  (forall name, pools name (hist s) = k name) /\ conn s = c.

(** One more pool. *)
Definition with_pool (pool : string) (k : string -> Z) : string -> Z :=
  fun name => k name + b2z (bool_decide (pool = name)).

(** ** What creates and releases none *)
Section frame.
Context `{!Env} (k : string -> Z) (c : conn_state).
Abbreviation I := (holds k c).

Lemma holds_ask {A} (q : history -> A) act : (forall a, poolless (act a)) -> keeps True I (ask q act).
Proof.
  intros Ha s [Hk Hc]. apply wpf_ask. split; [|exact Hc]. intros name. etrans; [by apply pools_other|apply Hk].
Qed.
Lemma holds_log a : poolless a -> keeps True I (log_call a).
Proof.
  intros Ha s [Hk Hc]. apply wpf_log_call. split; [|exact Hc]. intros name. etrans; [by apply pools_other|apply Hk].
Qed.
Lemma holds_modify (f : St -> St) :
  (forall s, hist (f s) = hist s /\ conn (f s) = conn s) -> keeps True I (modify f).
Proof.
  intros Hf. apply keeps_modify. intros s [Hk Hc]. destruct (Hf s) as [Hh Hc']. by split; rewrite ?Hh, ?Hc'.
Qed.
Lemma holds_nofuel A : keeps True I (nofuel : C A).
Proof. by intros s _. Qed.

(** *** A pool's life *)
Lemma holds_create pool s (Q : bool -> St -> Prop) :
  I s -> (forall s', I s' -> Q false s') -> (forall s', holds (with_pool pool k) c s' -> Q true s') ->
  wlp (pj_pool_create pool) Q s.
Proof.
  intros [Hk Hc] Hno Hyes. apply wpf_ask. destruct (ans_pool_create _ _); [apply Hyes|apply Hno].
  - split; [|exact Hc]. intros name. simpl. by rewrite Hk.
  - split; [|exact Hc]. intros name. simpl. by rewrite Hk, Z.add_0_r.
Qed.
Lemma holds_release pool s :
  holds (with_pool pool k) c s -> wlp (pj_pool_release pool) (fun _ s' => I s') s.
Proof.
  intros [Hk Hc]. apply wpf_log_call. split; [|exact Hc]. intros name. simpl. rewrite Hk.
  unfold with_pool. lia.
Qed.
End frame.
#[export] Hint Extern 5 (keeps _ (holds _ _) (ask _ _)) =>
  apply holds_ask; solve [intros; simpl; auto] : keeps_db.
#[export] Hint Extern 5 (keeps _ (holds _ _) (log_call _)) =>
  apply holds_log; solve [simpl; auto] : keeps_db.
#[export] Hint Extern 5 (keeps _ (holds _ _) (modify _)) =>
  apply holds_modify; solve [intros; split; reflexivity] : keeps_db.
#[export] Hint Resolve holds_nofuel : keeps_db.

(** ** The operations *)
#[local] Hint Unfold check deref_framing pjsocky_events_instance deref_events set_events pj_mutex_lock
  pj_mutex_unlock wait_writable send_all pjsocky_framing_write_line pjsocky_framing_write_json
  pjsocky_events_write_response write_response set_nonblocking : ops.

Section operations.
Context `{!Env, !PjJson} (k : string -> Z) (c : conn_state).
Abbreviation I := (holds k c).

Lemma holds_send_loop k' fuel n buf t start sent :
  keeps True (holds k' c) (send_loop fuel n buf t start sent).
Proof. revert sent. induction fuel as [|fuel IH]; intros sent; simpl; keeps_go. Qed.
#[local] Hint Resolve holds_send_loop : keeps_db.

(** The pool of an event is released whatever becomes of the event. *)
Lemma holds_push name b : keeps True I (push name b).
Proof.
  intros s Hs. unfold push, pjsocky_events_instance. do 3 wp_step.
  destruct (g_instance s) as [e0|]; wp_step; [|by apply wpf_ret]. unfold pjsocky_events_push.
  do 2 keeps_over Hs. destruct (ev_framing a0); cycle 1.
  { keeps_over Hs. by apply wpf_ret. }
  wp_step. eapply holds_create; [exact Hs|..]; clear Hs; intros s1 Hs; cbn [negb].
  { keeps_over Hs. by apply wpf_ret. }
  do 3 keeps_over Hs. wp_step. eapply wpf_mono; [by apply holds_release|].
  clear Hs. intros [] s2 Hs. keeps_over Hs. by apply wpf_ret.
Qed.
#[local] Hint Resolve holds_push : keeps_db.

Lemma holds_rtp_loop id type i media : keeps True I (rtp_counters_loop id type i media).
Proof. revert i. induction media as [|m media IH]; intros i; simpl; keeps_go. Qed.
Lemma holds_connect_audio media : keeps True I (connect_call_audio_to_sound_dev media).
Proof. induction media as [|m media IH]; simpl; keeps_go. Qed.
Lemma holds_log_lines id i media : keeps True I (log_media_lines id i media).
Proof. revert i. induction media as [|m media IH]; intros i; simpl; keeps_go. Qed.
Lemma holds_first_capture devices : keeps True I (first_capture_device devices).
Proof. induction devices as [|d devices IH]; simpl; keeps_go. Qed.
Lemma holds_get_int params name : keeps True I (get_int_member params name).
Proof. unfold get_int_member. keeps_go. Qed.
#[local] Hint Resolve holds_rtp_loop holds_connect_audio holds_log_lines holds_first_capture
  holds_get_int : keeps_db.

(** So is the one of an account's update. *)
Lemma holds_update_capture acc_id id : keeps True I (update_account_capture acc_id id).
Proof.
  intros s Hs. unfold update_account_capture. wp_step.
  eapply holds_create; [exact Hs|..]; clear Hs; intros s1 Hs; cbn [negb]; [by apply wpf_ret|].
  keeps_over Hs. destruct a as [st cfg]. keeps_over Hs. by apply holds_release.
Qed.
#[local] Hint Resolve holds_update_capture : keeps_db.
Lemma holds_set_video_capture id : keeps True I (pjsocky_device_set_video_capture id).
Proof. unfold pjsocky_device_set_video_capture, pjsocky_account_get_id. keeps_go. Qed.
#[local] Hint Resolve holds_set_video_capture : keeps_db.
Lemma holds_cmd_set_video params result : keeps True I (cmd_device_set_video params result).
Proof. unfold cmd_device_set_video, status_only. keeps_go. Qed.
#[local] Hint Resolve holds_cmd_set_video : keeps_db.

(** *** Callbacks and requests *)
Lemma holds_activity m : activity m -> keeps True I m.
Proof.
  induction 1 as [|t| | | | | | | | | |]; [by apply keeps_ret|destruct t| | | | | | | | | |by apply keeps_bind].
  all: keeps_go.
Qed.
Lemma holds_background m : background m -> keeps True I m.
Proof.
  induction 1; [keeps_go|by apply holds_activity|by apply keeps_bind].
Qed.

Lemma holds_handlers params result :
  Forall (fun entry : string * _ => keeps True I (entry.2 params result)) CMD_TABLE.
Proof.
  unfold CMD_TABLE. repeat apply Forall_cons_2; [..|by apply Forall_nil_2]; cbn [snd]; keeps_go.
Qed.
Lemma holds_dispatch line : keeps True I (pjsocky_dispatch_line line).
Proof.
  unfold pjsocky_dispatch_line. cbv zeta.
  destruct (pj_json_parse line) as [[n [| | | | |cs]]|]; try apply keeps_ret.
  destruct (pjsocky_json_find _ "id") as [[? [| | |id| |]]|]; try apply keeps_ret.
  destruct (pjsocky_json_find _ "cmd") as [[? [| | |cmd| |]]|]; try apply keeps_ret.
  destruct (find_cmd cmd) as [fn|] eqn:Hfn; [|apply keeps_ret].
  apply find_in_table_In in Hfn as [entry Hin]. apply keeps_bind; [|keeps_go].
  exact (proj1 (Forall_forall _ _) (holds_handlers _ _) (entry, fn) Hin).
Qed.

Lemma holds_refuse sock : keeps True I (refuse_conn sock).
Proof.
  intros s Hs. unfold refuse_conn. keeps_over Hs. wp_step.
  eapply holds_create; [exact Hs|..]; clear Hs; intros s1 Hs; cbn [when].
  - wp_step. apply wpf_ret. by apply holds_log.
  - wp_step. do 4 keeps_over Hs. eapply wpf_mono; [by apply holds_release|].
    clear Hs. intros [] s2 Hs. by apply holds_log.
Qed.
End operations.
#[export] Hint Resolve holds_send_loop holds_push : keeps_db.

(** ** The pools at every locus *)

(** The pools of the start-up and of the null renderer and, where [att], that
    of the connection. *)
Definition pool_count (att : bool) : string -> Z := fun name =>
  b2z (bool_decide ("pjsocky" = name)) + b2z (bool_decide ("null-vid-render" = name)) +
  b2z (att && bool_decide ("pjsocky-conn" = name)).
Definition pooled (l : locus) (s : St) : Prop :=
  holds (pool_count (attached_at l (conn s))) (conn s) s.

Lemma with_conn_pool c s :
  holds (pool_count true) c s <-> holds (with_pool "pjsocky-conn" (pool_count false)) c s.
Proof.
  assert (forall name, with_pool "pjsocky-conn" (pool_count false) name = pool_count true name) as Hk
    by (intros name; unfold with_pool, pool_count; simpl; lia).
  split; intros [Hp Hc]; (split; [|exact Hc]); intros name; by rewrite Hp, Hk.
Qed.

Section turns.
Context `{!Env, !EnvLaws, !PjJson}.

Lemma pooled_at l b c s : holds (pool_count b) c s -> attached_at l c = b -> pooled l s.
Proof using Type. intros [Hk Hc] <-. split; [|done]. by rewrite Hc. Qed.

Lemma holds_close c s :
  holds (pool_count true) c s ->
  wlp close_conn (fun _ s' => holds (pool_count false) (c <| active := false |>) s') s.
Proof using Type.
  intros Hs. unfold close_conn, pjsocky_events_set_conn. do 2 keeps_over Hs.
  apply with_conn_pool in Hs. wp_step. eapply wpf_mono; [by apply holds_release|].
  clear Hs. intros [] s1 Hs. do 2 keeps_over Hs. destruct Hs as [Hk Hc]. apply wpf_modify.
  split; [exact Hk|]. simpl. by rewrite Hc.
Qed.

Lemma close_if_pooled c s l :
  (forall c', active c' = false -> attached_at l c' = false) -> holds (pool_count (active c)) c s ->
  wlp (when (active c) close_conn;; mret l) pooled s.
Proof using Type.
  intros Hl Hs. wp_step. apply wpf_when; intros Ha; rewrite Ha in Hs.
  - eapply wpf_mono; [by apply holds_close|]. intros [] s' Hs'. apply wpf_ret.
    by apply (pooled_at l false _ s' Hs'), Hl.
  - apply wpf_ret. by apply (pooled_at l false c), Hl.
Qed.

Lemma holds_attach c sock s :
  holds (pool_count false) c s ->
  wlp (attach_conn sock) (fun b s' =>
    if b : bool then exists c', holds (pool_count true) c' s' else holds (pool_count false) c s') s.
Proof using Type.
  intros Hs. unfold attach_conn. keeps_over Hs. destruct (negb _).
  { do 2 keeps_over Hs. by apply wpf_ret. }
  wp_step. eapply holds_create; [exact Hs|..]; clear Hs; intros s1 Hs; cbn [negb].
  { do 2 keeps_over Hs. by apply wpf_ret. }
  apply with_conn_pool in Hs as [Hk Hc]. do 2 wp_step. wp_step. apply wpf_modify.
  set (s2 := set_with conn _ s1). assert (Hs : holds (pool_count true) (conn s2) s2) by done.
  clearbody s2. unfold pjsocky_events_set_conn. do 2 keeps_over Hs. apply wpf_ret. by eexists.
Qed.

Lemma holds_greet c s :
  holds (pool_count true) c s ->
  wlp greet_client (fun _ s' => exists c', holds (pool_count true) c' s' /\ active c' = true) s.
Proof using Type.
  intros Hs. unfold greet_client. wp_step. eapply wpf_mono; [by apply holds_push|].
  intros a s1 [Hk Hc]. wp_step. apply wpf_modify, wpf_log_call. eexists. split; [by split|]. done.
Qed.

(** An operation after which the main thread is with the same connection. *)
Lemma pooled_bind {A} (m : C A) (next : A -> locus) l s :
  pooled l s -> (forall k c, keeps True (holds k c) m) ->
  (forall a, attached_at (next a) (conn s) = attached_at l (conn s)) ->
  wlp (a ← m; mret (next a)) pooled s.
Proof using Type.
  intros Hs Hm Hn. wp_step. eapply wpf_mono; [by apply Hm|]. intros a s' [Hk Hc]. apply wpf_ret.
  apply (pooled_at _ (attached_at l (conn s)) (conn s)); [by split|apply Hn].
Qed.

Lemma pooled_ret l l' s :
  pooled l s -> attached_at l' (conn s) = attached_at l (conn s) -> wlp (mret l') pooled s.
Proof using Type. intros Hs Hl. apply wpf_ret. by eapply pooled_at. Qed.

Lemma looping_pooled c s : holds (pool_count (active c)) c s -> wlp (turn Looping) pooled s.
Proof using Type.
  intros Hs. assert (Hc : conn s = c) by apply Hs. cbn [turn]. do 2 wp_step.
  destruct (stop_requested (srv s)); [|by apply wpf_ret, (pooled_at _ (active c) c)].
  do 2 wp_step. rewrite Hc. by apply close_if_pooled.
Qed.

Lemma selecting_pooled c s : holds (pool_count (active c)) c s -> wlp (turn Selecting) pooled s.
Proof using Type.
  intros Hs. assert (Hc : conn s = c) by apply Hs. cbn [turn]. do 4 wp_step. rewrite Hc.
  keeps_over Hs. destruct a as [| |fds].
  - keeps_over Hs. case_decide; [by apply wpf_ret, (pooled_at _ (active c) c)|]. keeps_over Hs.
    by apply close_if_pooled.
  - by apply wpf_ret, (pooled_at _ (active c) c).
  - apply wpf_ret. by destruct (_ && _); apply (pooled_at _ (active c) c).
Qed.

(** The buffer of the connection is none of the pools' business. *)
Lemma put_framing_pooled c f s :
  holds (pool_count (active c)) c s ->
  holds (pool_count (active (c <| conn_framing := f |>))) (c <| conn_framing := f |>)
    (s <| conn := conn s <| conn_framing := f |> |>).
Proof using Type. intros [Hk Hc]. split; [exact Hk|]. simpl. by rewrite Hc. Qed.

Lemma reading_pooled fds c s :
  holds (pool_count (active c)) c s -> wlp (turn (Reading fds)) pooled s.
Proof using Type.
  intros Hs. cbn [turn]. unfold get_conn_framing, put_conn_framing. do 3 wp_step.
  eapply wpf_mono.
  { assert (Hk : forall f, keeps True (holds (pool_count (active c)) c) (pjsocky_framing_fill f))
      by (intros f; unfold pjsocky_framing_fill; keeps_go).
    by apply Hk. }
  intros [st f] s1 Hs1. wp_step. apply wpf_modify. apply (put_framing_pooled c f) in Hs1.
  cbn beta iota. set (c' := set_with conn_framing _ c) in *. set (s2 := set_with conn _ s1) in *.
  clearbody c' s2. case_decide; [by apply wpf_ret, (pooled_at _ (active c') c')|].
  case_decide; [|destruct (negb (ok st))]; [keeps_over Hs1|keeps_over Hs1|];
    by apply wpf_ret, (pooled_at _ (active c') c').
Qed.

Lemma extracting_pooled fds c s :
  holds (pool_count (active c)) c s -> wlp (turn (Extracting fds)) pooled s.
Proof using Type.
  intros Hs. cbn [turn]. unfold get_conn_framing, put_conn_framing. do 2 wp_step. wp_step.
  unfold check at 1. destruct (pjsocky_framing_extract_line _) as [[[st line] f]|]; [|done].
  apply wpf_ret. cbn beta iota. wp_step. apply wpf_modify.
  apply (put_framing_pooled c f) in Hs.
  set (c' := set_with conn_framing _ c) in *. set (s2 := set_with conn _ s) in *. clearbody c' s2.
  case_decide; [by apply wpf_ret, (pooled_at _ (active c') c')|].
  case_decide; [by apply wpf_ret, (pooled_at _ (active c') c')|].
  wp_step. unfold check. destruct (line_text _ _); [|done].
  by apply wpf_ret, wpf_ret, (pooled_at _ (active c') c').
Qed.

Lemma accepting_pooled fds c s :
  holds (pool_count (active c)) c s -> wlp (turn (Accepting fds)) pooled s.
Proof using Type.
  intros Hs. cbn [turn]. do 2 wp_step. case_decide; [|by apply wpf_ret, (pooled_at _ (active c) c)].
  keeps_over Hs. destruct a as [st m]. do 2 wp_step. assert (Hc : conn s' = c) by apply Hs. rewrite Hc.
  destruct (negb (ok st)); [keeps_over Hs; by apply close_if_pooled|].
  destruct (active c) eqn:Ha.
  - wp_step. eapply wpf_mono; [by apply holds_refuse|]. intros [] s1 Hs1. apply wpf_ret.
    by apply (pooled_at _ true c).
  - apply wpf_ret. by apply (pooled_at _ false c).
Qed.

Lemma turn_pooled l c v s : located l c v s -> pooled l s -> wlp (turn l) pooled s.
Proof using Type.
  intros Hl Hp. pose proof (lo_phase _ _ _ _ Hl) as Ha.
  destruct (located_conn l c v s Hl) as [Hc _]. pose proof Hp as Hs. unfold pooled in Hs. rewrite Hc in Hs.
  destruct l; simpl in Ha, Hs.
  - by apply (looping_pooled c).
  - by apply (selecting_pooled c).
  - by apply (reading_pooled _ c).
  - by apply (extracting_pooled _ c).
  - cbn [turn]. wp_step. eapply wpf_mono; [by apply holds_dispatch|]. intros [st r] s1 Hs1. apply wpf_ret.
    apply (pooled_at _ (active c) c); [done|]. by destruct r; [destruct (ok st)|].
  - apply (pooled_bind _ (fun st => if ok st then _ else _) _ _ Hp).
    + intros k c'. unfold send_response. keeps_go.
    + intros st. by destruct (ok st).
  - apply (pooled_bind _ (fun st => if ok st then _ else _) _ _ Hp).
    + intros k c'. unfold report_bad_line, push_error_event. keeps_go.
    + intros st. by destruct (ok st).
  - apply (pooled_bind _ (fun _ => _) _ _ Hp); [|done].
    intros k c'. unfold report_long_line, push_error_event. keeps_go.
  - cbn [turn]. rewrite Ha in Hs. wp_step. eapply wpf_mono; [by apply holds_close|]. intros [] s1 Hs1.
    apply wpf_ret. by apply (pooled_at _ false _ s1 Hs1).
  - by apply (accepting_pooled _ c).
  - cbn [turn]. rewrite Ha in Hs. wp_step. eapply wpf_mono; [by apply (holds_attach c)|].
    intros [] s1 Hs1; apply wpf_ret.
    + destruct Hs1 as (c' & Hs1). by apply (pooled_at _ true c').
    + by apply (pooled_at _ false c).
  - cbn [turn]. wp_step. eapply wpf_mono; [by apply (holds_greet c)|]. intros [] s1 (c' & Hs1 & Ha').
    apply wpf_ret. by apply (pooled_at _ true c').
  - cbn [turn]. by apply (pooled_ret _ _ _ Hp).
Qed.
End turns.

(** ** Start-up *)
Section start_up.
Context `{!Env, !EnvLaws, !PjJson}.
Context (getenv : string -> option bytes) (resolv_conf : option bytes) (k : string -> Z) (c : conn_state).

Lemma holds_override_codecs w h fps codecs : keeps True (holds k c) (override_codecs w h fps codecs).
Proof using Type. induction codecs as [|codec codecs IH]; simpl; [|unfold override_codec]; keeps_go. Qed.
#[local] Hint Resolve holds_override_codecs : keeps_db.

Lemma holds_log_nameservers source ns : keeps True (holds k c) (log_nameservers source ns).
Proof using Type.
  unfold log_nameservers. destruct ns as [|n ns]; [keeps_go|].
  apply keeps_bind; [|keeps_go]. generalize (n :: ns). clear n ns. intros ns.
  induction ns as [|n ns IH]; simpl; keeps_go.
Qed.
#[local] Hint Resolve holds_log_nameservers : keeps_db.

(** The null renderer gets a pool, which it keeps. *)
Lemma register_pool s :
  holds k c s ->
  wlp pjmedia_vid_register_null_factory (fun st s' =>
    ok st = true -> holds (with_pool "null-vid-render" k) c s') s.
Proof using Type*.
  intros [Hk Hc]. pose proof (register_run True (or_introl I) s) as Hrun.
  destruct (ans_register_null_factory (hist s)) as [status use] eqn:Hans.
  eapply wpf_mono; [exact Hrun|]. intros st s' [-> ->] ->%ok_true. apply register_keeps in Hans as ->.
  split; [|exact Hc]. intros name. simpl. by rewrite Hk.
Qed.

Lemma holds_rest_of_start_library :
  keeps True (holds k c) (
    apply_video_format_override getenv;;
    status ← pjsua_transport_create;
    if negb (ok status) then abandon (pjsua_perror "Error creating SIP UDP transport" status) else
    status ← pjsua_start;
    if negb (ok status) then abandon (pjsua_perror "Error starting pjsua" status) else
    mret true).
Proof using Type.
  unfold apply_video_format_override, report_ignored_size, report_ignored_fps, abandon. keeps_go.
Qed.

Lemma wlp_abandon (m : C unit) (Q : Prop) s : wlp (abandon m) (fun b _ => b = true -> Q) s.
Proof using Type.
  unfold abandon. wp_step. eapply wpf_mono; [apply wlp_any|]. intros [] s1 _. wp_step.
  by apply wpf_log_call, wpf_ret.
Qed.

Lemma holds_shrink : keeps True (holds k c) (shrink_timers getenv).
Proof using Type. unfold shrink_timers. keeps_go. Qed.
Lemma holds_log_configuration : keeps True (holds k c) (log_configuration getenv resolv_conf).
Proof using Type. unfold log_configuration. keeps_go. Qed.
Lemma holds_sound : keeps True (holds k c) null_sound_device.
Proof using Type. unfold null_sound_device. keeps_go. Qed.
Lemma holds_log_started : keeps True (holds k c) log_started.
Proof using Type. unfold log_started. keeps_go. Qed.

Lemma holds_create_socket t : keeps True (holds k c) (create_control_socket getenv t).
Proof using Type.
  unfold create_control_socket, report_ignored_timeout, pjsocky_server_create. keeps_go.
Qed.
End start_up.

Section everywhere.
Context `{!Env, !EnvLaws, !PjJson} (HL : 1 <= LONG_BIT).

(** All of the start-up but the creation of pjsua, of its pool and of the
    coordinator. *)
Lemma start_library_pools getenv resolv_conf k c s :
  holds k c s ->
  wlp (start_library getenv resolv_conf) (fun b s' =>
    (b : bool) = true -> holds (with_pool "null-vid-render" k) c s') s.
Proof using Type*.
  intros Hs. unfold start_library. keeps_over Hs.
  destruct (negb (ok a)); [by eapply wpf_mono; [apply (wlp_abandon _ False)|]; naive_solver|].
  wp_step. eapply wpf_mono; [by apply (register_pool k c)|].
  clear Hs. intros st s1 Hs1. cbv beta in Hs1. destruct (ok st); cbn [negb];
    [|by eapply wpf_mono; [apply (wlp_abandon _ False)|]; naive_solver].
  eapply wpf_mono; [exact (holds_rest_of_start_library getenv _ _ _ (Hs1 eq_refl))|]. done.
Qed.

Lemma start_up_pools getenv resolv_conf :
  wlp (start_up getenv resolv_conf) (fun go_on s' =>
    (go_on : bool) = true -> exists c, holds (pool_count false) c s') initial_state.
Proof using All.
  assert (Hs : holds (fun _ => 0) (conn initial_state) initial_state) by done.
  unfold start_up, create_process. wp_step. keeps_over Hs.
  destruct (negb (ok a)); [keeps_over Hs; by apply wpf_ret, wpf_ret|].
  wp_step. eapply holds_create; [exact Hs|..]; clear Hs; intros s1 Hs; cbn [negb].
  { unfold abandon. do 2 keeps_over Hs. by apply wpf_ret, wpf_ret. }
  set (k := with_pool "pjsocky" _) in Hs.
  eapply (wpf_keeps_bind _ (holds k (conn initial_state)));
    [exact Hs|unfold pjsocky_events_create; keeps_go|clear Hs; intros st s2 Hs].
  destruct (negb (ok st)); [unfold abandon; do 2 keeps_over Hs; by apply wpf_ret, wpf_ret|].
  apply wpf_ret. cbn [negb].
  eapply (wpf_keeps_bind _ (holds k _)); [exact Hs|apply holds_shrink|clear Hs; intros _ s3 Hs].
  eapply (wpf_keeps_bind _ (holds k _)); [exact Hs|apply holds_log_configuration|clear Hs; intros _ s3' Hs].
  wp_step.
  eapply wpf_mono; [by apply start_library_pools|]. clear Hs. intros go_on s4 Hs.
  destruct go_on; cbn [negb]; [|by apply wpf_ret]. specialize (Hs eq_refl).
  eapply (wpf_keeps_bind _ (holds _ _)); [exact Hs|apply holds_sound|clear Hs; intros _ s5 Hs].
  eapply (wpf_keeps_bind _ (holds _ _)); [exact Hs|apply holds_log_started|clear Hs; intros _ s6 [Hk Hc]].
  apply wpf_ret. intros _. exists (conn initial_state). split; [|exact Hc].
  intros name. rewrite Hk. unfold k, with_pool, pool_count. simpl. lia.
Qed.

Lemma interleaved_pooled early l s : interleaved early l s -> pooled l s.
Proof using All.
  induction 1 as [s2 (getenv & rc & before & s0 & s1 & t & Hs & Hb & Hb' & _ & Hc)|l m s s' Hi IH _ Hm Hrun
    |l s l' s' Hi IH Hrun].
  - eapply wlp_run in Hs; [|apply start_up_pools]. destruct (Hs eq_refl) as (c & Hs0).
    pose proof (holds_activity (pool_count false) c _ Hb s0 Hs0) as Hk1. eapply wlp_run in Hk1; [|exact Hb'].
    pose proof (holds_create_socket getenv (pool_count false) c t s1 Hk1) as Hk2.
    eapply wlp_run in Hk2; [|exact Hc]. by destruct Hk2 as [Hk _].
  - pose proof (holds_background _ _ m Hm s IH) as Hk. eapply wlp_run in Hk; [|exact Hrun].
    by apply (pooled_at _ (attached_at l (conn s)) (conn s)).
  - destruct (interleaved_located HL early l s Hi) as (c & v & Hl).
    exact (wlp_run _ _ _ _ _ (turn_pooled l c v s Hl IH) Hrun).
Qed.
End everywhere.

(** ** Properties *)

(** C8: Memory does not leak: between any two operations of the main thread,
    whatever the clients send and the other threads do, the memory pools the
    daemon has created and not returned are the one of the start-up, the one
    the null renderer's factory lives in and, from the moment a connection is
    given to the event coordinator until it is closed, that connection's -
    every event, every refused client and every change of the capture device
    has returned its pool, on success and on failure.  The pools of the
    renderer's streams, which pjmedia creates and destroys by itself, are not
    counted. *)
Theorem pools_accounted `{!Env, !EnvLaws, !PjJson} early l (s : St) name :
  1 <= LONG_BIT -> interleaved early l s -> name <> "null-vid-render-strm" ->
  pools name (hist s) = b2z (bool_decide ("pjsocky" = name)) +
    b2z (bool_decide ("null-vid-render" = name)) +
    b2z (attached_at l (conn s) && bool_decide ("pjsocky-conn" = name)).
Proof. intros HL Hi _. exact (proj1 (interleaved_pooled HL early l s Hi) name). Qed.
