(* ===== verification/Dialogue.v ===== *)
(** * The dialogue with the client (src/proto/server.c, src/proto/events.c)

    What the control connection has been sent, as an answer to what the client
    has sent: the protocol as a conversation (Session.v), kept by every
    operation of the main thread and by the other threads between any two. *)

From S2P Require Import Prelude Float32 Pjlib Env SimEnv State Framing Compact SimJson Wire JsonUtil Events Invariant Device Account Im Call Watchdog Dispatch Requests Server Schema ServerInput ServerLoop Liveness Config Startup System Session Threads.
#[local] Open Scope string_scope.
#[local] Open Scope list_scope.
#[local] Open Scope Z_scope.

(** ** The dialogue at every locus *)

(** The lines taken from the socket that are not dealt with, and the bytes
    after the last newline, [p] being pending in the buffer. *)
Definition unserved (l : locus) (p : bytes) : list bytes * bytes :=
  match l with
  | Extracting _ => split_lines p
  | Dispatching _ line | Answering _ line _ | Complaining _ line =>
      (line :: (split_lines p).1, (split_lines p).2)
  | _ => ([], p)
  end.
(** There is a client, and it is not about to be dropped. *)
Definition talking (l : locus) (c : conn_state) : bool :=
  match l with
  | Rejecting _ | Dropping _ | Returned _ | Opening _ => false
  | Greeting => true
  | _ => active c
  end.
Definition greeted_at (l : locus) : bool := match l with Greeting => false | _ => true end.

(** The response that is about to be written is one to the line. *)
Definition answer_due `{!PjJson} (l : locus) : Prop :=
  match l with
  | Answering _ line response => exists id,
      string_member (pj_json_parse line) "id" = Some id /\ well_formed_response id response
  | Complaining _ line => string_member (pj_json_parse line) "id" = None
  | _ => True
  end.

Definition dialogue `{!Env, !PjJson} (early : Prop) (l : locus) (s : St) : Prop :=
  match l with Opening m => heard m (hist s) = [] /\ said m (hist s) = [] | _ => True end /\
  answer_due l /\
  (talking l (conn s) = true ->
   let n := conn_sock (conn s) in let '(ls', r) := unserved l (pending (conn_framing (conn s))) in
   exists ls, split_lines (heard n (hist s)) = (ls ++ ls', r) /\
     conversation (obliging n) early (greeted_at l) ls (said n (hist s))).

Section dialogues.
Context `{!Env, !EnvLaws, !PjJson, !PjJsonLaws} (early : Prop) (HL : 1 <= LONG_BIT).
Abbreviation D := (dialogue early).

(** Loci with nothing to say, and those between two requests. *)
Definition mute (l : locus) : Prop :=
  match l with Rejecting _ | Dropping _ | Returned _ => True | _ => False end.
Definition resting (l : locus) : Prop :=
  match l with Looping | Selecting | Reading _ | Accepting _ => True | _ => False end.
Definition in_dialogue (s : St) : Prop :=
  active (conn s) = true ->
  let n := conn_sock (conn s) in
  exists ls, split_lines (heard n (hist s)) = (ls, pending (conn_framing (conn s))) /\
    conversation (obliging n) early true ls (said n (hist s)).

Lemma dialogue_mute l s : mute l -> D l s.
Proof using Type. by destruct l. Qed.
Lemma dialogue_resting l s : resting l -> D l s <-> in_dialogue s.
Proof using Type.
  intros Hl. assert (forall P : Prop, True /\ True /\ P <-> P) as Hand by tauto.
  unfold dialogue, in_dialogue. by destruct l; try done; simpl; rewrite Hand;
    (split; intros Hd Ha; destruct (Hd Ha) as (ls & Hls & Hc); exists ls;
     rewrite ?app_nil_r in *).
Qed.

Lemma in_dialogue_silent s s' l :
  hist s' = l ++ hist s -> Forall silent l -> conn s' = conn s -> in_dialogue s -> in_dialogue s'.
Proof using Type.
  intros Hh Hl Hc Hd Ha. rewrite Hc in *. destruct (Hd Ha) as (ls & Hls & Hcv). exists ls.
  destruct (dialogue_plain (conn_sock (conn s)) s s' l Hh (silent_plain l Hl)) as [-> ->].
  by rewrite silent_wire, app_nil_r.
Qed.

Lemma in_dialogue_inactive s : active (conn s) = false -> in_dialogue s.
Proof using Type. intros Ha Ha'. congruence. Qed.

Lemma wlp_mute {A} (m : C A) l s : mute l -> wlp (m;; mret l) D s.
Proof using Type.
  intros Hl. wp_step. eapply wpf_mono; [apply wlp_any|]. intros. by apply wpf_ret, dialogue_mute.
Qed.

(** *** The turns of the main thread *)

Lemma looping_dialogue s : in_dialogue s -> wlp (turn Looping) D s.
Proof using Type.
  intros Hd. cbn [turn]. do 2 wp_step. destruct (stop_requested (srv s)).
  - do 2 wp_step. by apply wlp_mute.
  - apply wpf_ret. by apply dialogue_resting.
Qed.

Lemma selecting_dialogue s : in_dialogue s -> wlp (turn Selecting) D s.
Proof using Type.
  intros Hd. cbn [turn]. do 4 wp_step. wp_step. apply wpf_ask. set (a := A_select_read _ _ _).
  assert (Hd1 : in_dialogue (s <| hist := a :: hist s |>))
    by (apply (in_dialogue_silent s _ [a]); by repeat constructor).
  destruct (ans_select_read _ _ _ _) as [| |fds].
  - wp_step. apply wpf_ask. case_decide.
    + apply wpf_ret, dialogue_resting; [done|].
      apply (in_dialogue_silent s _ [A_get_os_error; a]); by repeat constructor.
    + wp_step. apply wpf_log_call. by apply wlp_mute.
  - by apply wpf_ret, dialogue_resting.
  - apply wpf_ret. by destruct (_ && _); apply dialogue_resting.
Qed.

Lemma reading_dialogue fds c v s :
  server_ok c v s -> active c = true -> in_dialogue s -> wlp (turn (Reading fds)) D s.
Proof using Type*.
  intros Hok Ha Hd. assert (Hc : conn s = c) by apply Hok. destruct Hd as (ls & Hls & Hcv); [by rewrite Hc|].
  set (n := conn_sock (conn s)) in *.
  assert (Hwf : wf_framing (conn_framing (conn s))) by (rewrite Hc; apply Hok).
  assert (Hn : f_sock (conn_framing (conn s)) = n) by (unfold n; rewrite Hc; by apply Hok).
  cbn [turn]. unfold get_conn_framing, put_conn_framing. do 3 wp_step.
  eapply wpf_mono; [by apply (fill_total True)|].
  intros [st f] s1 (-> & _ & Hfill & _). cbn [fst snd] in *. rewrite <-filled_eq in Hfill.
  destruct (filled_heard n s st (pending f)) as (Hs1 & Hp1 & Hp2); [done..|].
  wp_step. apply wpf_modify. cbn beta iota. set (s1 := after_recv _ s) in *. set (s2 := set_with conn _ s1).
  assert (active (conn s2) = true /\ conn_sock (conn s2) = n /\ conn_framing (conn s2) = f /\
    hist s2 = hist s1) as (Ha2 & Hn2 & Hf2 & Hh2).
  { unfold s2, s1, after_recv. case_decide; (split_and!; [simpl; by rewrite Hc|done..]). }
  case_decide as Hpend; [|case_decide; [|destruct (ok st) eqn:Hst; cbn [negb]]];
    try (by apply wlp_mute); apply wpf_ret.
  - destruct (Hp1 Hpend) as [Hp Hh]. apply dialogue_resting; [done|]. intros _.
    exists ls. by rewrite Hn2, Hf2, Hh2, Hh, Hs1, Hp.
  - apply ok_true in Hst as ->. destruct (Hp2 eq_refl) as (new & Hp & Hh).
    split; [done|split; [done|]]. intros _. cbv zeta. rewrite Hn2, Hf2, Hh2, Hh, Hs1.
    cbn [unserved greeted_at]. destruct (split_lines (pending f)) as [ls' r] eqn:Hsp.
    exists ls. split; [|done]. by rewrite split_lines_app, Hls, <-Hp, Hsp.
Qed.

Lemma extracting_dialogue fds c v s :
  server_ok c v s -> active c = true -> D (Extracting fds) s -> wlp (turn (Extracting fds)) D s.
Proof using Type*.
  intros Hok Ha (_ & _ & Hd). assert (Hc : conn s = c) by apply Hok. cbn [talking] in Hd.
  specialize (Hd ltac:(by rewrite Hc)). cbv zeta in Hd. cbn [unserved greeted_at] in Hd.
  cbn [turn]. unfold get_conn_framing, put_conn_framing. do 2 wp_step.
  assert (Hwf : wf_framing (conn_framing (conn s))) by (rewrite Hc; apply Hok).
  set (f := conn_framing (conn s)) in *. wp_step.
  destruct (memchr LF (pending f)) as [k|] eqn:Hk.
  - destruct (extract_line_SUCCESS f k Hwf Hk) as (f' & Hx & _ & Hp & _ & _ & _ & _ & _).
    destruct (extract_refines_aux f Hwf) as (st0 & line0 & f0 & Hx' & _ & Hspec).
    rewrite Hx in Hx'. injection Hx' as <- <- <-. unfold spec_extract in Hspec. rewrite Hk in Hspec.
    eapply wpf_check; [exact Hx|]. cbn beta iota. wp_step. apply wpf_modify.
    rewrite decide_False, decide_False by done. wp_step.
    eapply (wpf_check _ _ (take k (pending f))); [congruence|]. apply wpf_ret.
    rewrite (split_lines_memchr _ _ Hk) in Hd. destruct Hd as (ls & Hls & Hcv).
    split; [done|split; [done|]]. intros _. simpl. rewrite Hp. by exists ls.
  - pose proof (extract_line_other f Hwf Hk) as Hx. rewrite (memchr_None_split _ Hk) in Hd.
    eapply wpf_check; [exact Hx|].
    destruct (decide (PJSOCKY_MAX_LINE <= f_len f)%nat); cbn beta iota; wp_step; apply wpf_modify.
    + rewrite decide_False, decide_True by done. by apply wpf_ret, dialogue_mute.
    + rewrite decide_True by done. apply wpf_ret, dialogue_resting; [done|]. intros _.
      destruct Hd as (ls & Hls & Hcv). exists ls. simpl. by rewrite app_nil_r in Hls.
Qed.

Lemma dispatching_dialogue fds line c v s :
  server_ok c v s -> active c = true -> D (Dispatching fds line) s ->
  wlp (turn (Dispatching fds line)) D s.
Proof using Type*.
  intros Hok Ha (_ & _ & Hd). assert (Hc : conn s = c) by apply Hok. cbn [turn]. wp_step.
  eapply wpf_mono.
  { apply wpf_conj; [apply dispatch_wf|]. apply wpf_conj;
      [by apply (silent_dispatch s line), logs_refl|].
    apply (operation_keeps HL True (or_introl I) _ c v); [done|]. intros x Hx s1 Hs1.
    apply (keeps_dispatch True); first [exact Hx|by left|exact Hs1]. }
  intros r s1 (Hr & (l & Hh & Hl) & Hok1). assert (Hc1 : conn s1 = conn s) by (rewrite Hc; apply Hok1).
  destruct (dialogue_plain (conn_sock (conn s)) s s1 l Hh (silent_plain l Hl)) as [Hh1 Hs1].
  rewrite (silent_wire _ l Hl), app_nil_r in Hs1.
  destruct (string_member _ "id") as [id|] eqn:Hid.
  - destruct Hr as (response & -> & Hwf). apply wpf_ret. change (ok PJ_SUCCESS) with true. cbn iota.
    split; [done|split; [by exists id|]]. rewrite Hc1. cbv zeta. by rewrite Hh1, Hs1.
  - destruct Hr as [-> _]. apply wpf_ret. split; [done|split; [done|]]. rewrite Hc1. cbv zeta.
    by rewrite Hh1, Hs1.
Qed.

(** A line is dealt with once its exchange is complete. *)
Lemma exchange_dialogue fds line l s s' data :
  D l s -> (l = Complaining fds line \/ exists r, l = Answering fds line r) ->
  active (conn s) = true -> conn s' = conn s ->
  heard (conn_sock (conn s)) (hist s') = heard (conn_sock (conn s)) (hist s) ->
  said (conn_sock (conn s)) (hist s') = said (conn_sock (conn s)) (hist s) ++ data ->
  exchange (obliging (conn_sock (conn s))) line data -> D (Extracting fds) s'.
Proof using Type.
  intros (_ & _ & Hd) Hl Ha Hc Hh Hs Hx. split; [done|split; [done|]]. intros _.
  rewrite Hc. cbv zeta. rewrite Hh, Hs. cbn [unserved greeted_at].
  assert (talking l (conn s) = true /\ greeted_at l = true /\ forall p,
    unserved l p = (line :: (split_lines p).1, (split_lines p).2)) as (Ht & Hg & Hu)
    by by destruct Hl as [->|[r ->]].
  specialize (Hd Ht). cbv zeta in Hd. rewrite Hg, Hu in Hd. destruct Hd as (ls & Hls & Hcv).
  destruct (split_lines (pending _)) as [ls' r]. exists (ls ++ [line]).
  rewrite <-app_assoc. split; [exact Hls|]. by apply conv_line.
Qed.

Lemma answering_dialogue fds line response c v s :
  server_ok c v s -> active c = true -> D (Answering fds line response) s ->
  wlp (turn (Answering fds line response)) D s.
Proof using Type*.
  intros Hok Ha Hd. pose proof Hd as (_ & (id & Hid & Hwf) & _).
  assert (Hc : conn s = c) by apply Hok. pose proof (server_ready HL c v s Hok) as Hr.
  cbn [turn]. unfold send_response. do 2 wp_step. eapply wpf_mono.
  { apply (write_response_conveyed HL (events_for c)); [done|]. unfold events_for. rewrite Ha. by eexists. }
  intros st s1 (data & Hlw & Hdel).
  assert (conn s1 = conn s) as Hc1 by (by destruct Hlw as (? & -> & _)).
  apply (locked_write_dialogue (conn_sock c)) in Hlw as [Hh1 Hs1]; [|rewrite Hc; by apply Hok].
  wp_step. apply wpf_log_call. wp_step. apply wpf_report. intros lr Hlr. do 2 apply wpf_ret.
  destruct (ok st) eqn:Hst; [|by apply dialogue_mute]. apply ok_true in Hst as ->.
  eapply (exchange_dialogue fds line _ s _ data Hd); try (simpl; by rewrite ?Hc1, ?Hc).
  - right. by exists response.
  - simpl. rewrite heard_plain by auto using plain_logs. simpl. by rewrite app_nil_r, Hc.
  - simpl. rewrite said_plain, (wire_logs _ lr) by auto using plain_logs. simpl.
    by rewrite !app_nil_r, Hc.
  - unfold exchange. rewrite Hid. exists response. split; [done|].
    unfold delivered in Hdel. destruct (json_line _ _) as [st|msg]; [by destruct Hdel|].
    by rewrite (proj1 (proj2 Hdel)).
Qed.

Lemma complaining_dialogue fds line c v s :
  server_ok c v s -> active c = true -> D (Complaining fds line) s ->
  wlp (turn (Complaining fds line)) D s.
Proof using Type*.
  intros Hok Ha Hd. pose proof Hd as (_ & Hid & _). simpl in Hid.
  assert (Hc : conn s = c) by apply Hok. pose proof (server_ready HL c v s Hok) as Hr.
  assert (Hf : f_sock (conn_framing (conn s)) = conn_sock c) by (rewrite Hc; by apply Hok).
  cbn [turn]. unfold report_bad_line, push_error_event. do 2 wp_step. apply wpf_log_call.
  do 2 wp_step. set (s1 := set_with hist _ s). eapply wpf_mono.
  { apply (push_conveyed (obliging (conn_sock c)) (events_for c)); [simpl; by rewrite Hf|by destruct Hr|].
    unfold events_for. rewrite Ha. by eexists. }
  intros st s2 (data & Hlw & Hdel). apply wpf_ret.
  assert (conn s2 = conn s) as Hc2 by (by destruct Hlw as (? & -> & _)).
  apply (locked_write_dialogue (conn_sock c)) in Hlw as [Hh2 Hs2]; [|done].
  wp_step. apply wpf_log_call. do 2 apply wpf_ret. change (ok PJ_SUCCESS) with true. cbn iota.
  simpl in Hh2, Hs2. rewrite !app_nil_r in *.
  eapply (exchange_dialogue fds line _ s _ data Hd); try (simpl; by rewrite ?Hc2, ?Hc).
  - by left.
  - simpl. by rewrite app_nil_r, Hc, Hh2.
  - simpl. by rewrite app_nil_r, Hc, Hs2.
  - unfold exchange. rewrite Hid, Hc. by exists (acc s1).
Qed.

Lemma dropping_dialogue fds c v s :
  server_ok c v s -> active c = true -> wlp (turn (Dropping fds)) D s.
Proof using Type*.
  intros Hok Ha. cbn [turn]. wp_step. eapply wpf_mono; [by apply (close_conn_spec True c v)|].
  intros [] s' Hok'. apply wpf_ret, dialogue_resting; [done|]. apply in_dialogue_inactive.
  assert (Hc : conn s' = c <| active := false |>) by apply Hok'. by rewrite Hc.
Qed.

Lemma accepting_dialogue fds c v s :
  accept_fresh -> server_ok c v s -> in_dialogue s -> wlp (turn (Accepting fds)) D s.
Proof using Type*.
  intros Hfresh Hok Hd. assert (Hc : conn s = c) by apply Hok.
  cbn [turn]. do 2 wp_step. case_decide; [|by apply wpf_ret, dialogue_resting].
  set (listen := listen_sock (srv s)) in *.
  wp_step. apply wpf_ask. destruct (ans_accept _ _) as [st m] eqn:Hacc. cbn beta iota. do 2 wp_step.
  set (s1 := set_with hist _ s). change (conn s1) with (conn s). rewrite Hc.
  destruct (ok st) eqn:Hst; cbn [negb]; [|wp_step; apply wpf_log_call; by apply wlp_mute].
  apply ok_true in Hst as ->. apply Hfresh in Hacc. destruct (active c) eqn:Ha.
  - wp_step. eapply wpf_mono.
    { apply (refuse_conn_trace True m); [done|by left|].
      assert (Hv : srv s = v) by apply Hok. simpl. rewrite Hv. apply Hok. }
    intros _ s2 (l & data & st & -> & Hl & Hother & _). apply wpf_ret, dialogue_resting; [done|].
    intros _. pose proof (accepted_other c v s m Hok Ha Hacc) as Hne.
    destruct Hd as (ls & Hls & Hcv); [by rewrite Hc|]. simpl. rewrite Hc in *. exists ls.
    rewrite heard_plain, said_plain, Hother by done. simpl.
    rewrite (bool_decide_false (m = _)) by done. by rewrite !app_nil_r.
  - apply wpf_ret. split; [|by split]. simpl. by rewrite bool_decide_true.
Qed.

Lemma opening_dialogue m c v s :
  located (Opening m) c v s -> D (Opening m) s -> wlp (turn (Opening m)) D s.
Proof using Type*.
  intros [Hd Hwf Ht Hv _ Ha] ((Hh & Hs) & _). cbn [turn]. wp_step. eapply wpf_mono.
  { apply wpf_conj; [by apply (attach_conn_spec True) with (c := c) (v := v)|].
    apply (silent_attach_conn m s), logs_refl. }
  intros b s' [Hatt (l & Hl & Hsil)]. apply wpf_ret. destruct b.
  - destruct Hatt as (c' & Hg & <- & Hp). assert (Hc' : conn s' = c') by apply Hg.
    split; [done|split; [done|]]. intros _. rewrite Hc'. cbv zeta. cbn [unserved greeted_at].
    pose proof (silent_plain l Hsil) as Hpl.
    rewrite Hl, heard_plain, said_plain, Hh, Hs, Hp, (silent_wire _ l) by done.
    exists []. split; [done|apply conv_start].
  - assert (Hc' : conn s' = c) by apply Hatt. apply dialogue_resting; [done|].
    apply in_dialogue_inactive. by rewrite Hc'.
Qed.

Lemma greeting_dialogue c v s : located Greeting c v s -> D Greeting s -> wlp (turn Greeting) D s.
Proof using Type*.
  intros [Hok Hwf Ht Hv Hs Ha] (_ & _ & Hd). assert (Hc : conn s = c) by apply Hok.
  specialize (Hd eq_refl). rewrite Hc in Hd. cbv zeta in Hd. cbn [unserved greeted_at] in Hd.
  destruct Hd as (ls & Hls & Hcv). rewrite app_nil_r in Hls.
  assert (Hg : greeting_ok c v s) by (split; try done; by apply Hs).
  cbn [turn]. wp_step. eapply wpf_mono.
  { apply wpf_conj; [by apply (greet_client_spec True) with (c := c) (v := v); [left|..]|].
    by apply (greet_client_greets HL c v). }
  intros [] s' [Hok' (l & a & Hl & Hp & Hconv)]. apply wpf_ret, dialogue_resting; [done|]. intros _.
  assert (Hc' : conn s' = c <| active := true |>) by apply Hok'. rewrite Hc'. simpl.
  rewrite Hl, heard_plain, said_plain by done. exists ls. split; [done|].
  assert (ls = []) as -> by (by eapply conv_ungreeted).
  by eapply conv_greeting.
Qed.

Lemma turn_dialogue l c v s :
  accept_fresh -> located l c v s -> D l s -> wlp (turn l) D s.
Proof using Type*.
  intros Hfresh Hl Hd. destruct l;
    try (apply located_server in Hl as [Hok Hp]; [|done]; simpl in Hp);
    try (apply dialogue_resting in Hd; [|done]).
  - by apply looping_dialogue.
  - by apply selecting_dialogue.
  - by apply (reading_dialogue _ c v).
  - by apply (extracting_dialogue _ c v).
  - by apply (dispatching_dialogue _ _ c v).
  - by apply (answering_dialogue _ _ _ c v).
  - by apply (complaining_dialogue _ _ c v).
  - by apply wlp_mute.
  - by apply (dropping_dialogue _ c v).
  - by apply (accepting_dialogue _ c v).
  - by apply (opening_dialogue _ c v).
  - by apply (greeting_dialogue c v).
  - by apply wpf_ret, dialogue_mute.
Qed.

(** *** The other threads *)

Lemma background_dialogue l c v s m :
  located l c v s -> background m -> (l = Greeting -> early) -> D l s ->
  wlp m (fun _ s' => D l s') s.
Proof using Type*.
  intros Hl Hm Hearly Hd. pose proof (located_conn l c v s Hl) as [Hc _].
  assert (Hconn : wlp m (fun _ s' => conn s' = c) s).
  { eapply wpf_mono; [by eapply (background_located HL True (or_introl I))|]. intros [] s' (v' & Hl' & _).
    by destruct (located_conn l c v' s' Hl'). }
  destruct (attached_at l c) eqn:Hatt.
  - eapply wpf_mono.
    { apply wpf_conj; [exact Hconn|].
      pose proof (connected_undisturbed (obliging (conn_sock c)) (conn_sock c) s (fun H => H)).
      apply (undisturbed_background (connected_since (obliging (conn_sock c)) (conn_sock c) s) m Hm s).
      destruct (located_attached HL l c v s Hl Hatt) as [Hrd Hsk]. split_and!; [done..|].
      exists []. split_and!; [done..|apply aside_nil]. }
    intros [] s' [Hc' (_ & _ & k & Hk & Hp & Hw)]. destruct Hd as (Ho & Hdue & Hd).
    split; [|split; [done|]].
    + destruct l; try done. destruct Hl as [_ _ _ _ _ Hact]. simpl in *. congruence.
    + rewrite Hc', <-Hc. intros Htalk. specialize (Hd Htalk). cbv zeta in *.
      destruct (unserved _ _) as [ls' r]. destruct Hd as (ls & Hls & Hcv). exists ls.
      rewrite Hk, heard_plain, said_plain by done. split; [done|]. apply conv_aside; [|done|by rewrite Hc].
      destruct l; try (by left). right. by apply Hearly.
  - eapply wpf_mono.
    { apply wpf_conj; [exact Hconn|]. apply (undisturbed_background (unattached_since s) m Hm s).
      split; [by eapply located_unattached|apply logs_refl]. }
    intros [] s' [Hc' [_ (k & Hk & Hsil)]]. destruct Hd as (Ho & Hdue & _).
    split; [|split; [done|]].
    + destruct l; try done. rewrite Hk, heard_plain, said_plain, silent_wire by (done || by apply silent_plain).
      by rewrite app_nil_r.
    + rewrite Hc'. intros Htalk. by destruct l; simpl in *; try done; rewrite Hatt in Htalk.
Qed.

Lemma interleaved_dialogue l s : accept_fresh -> interleaved early l s -> D l s.
Proof using Type*.
  intros Hfresh. induction 1 as [|l m s s' Hi IH Hl Hm Hrun|l s l' s' Hi IH Hrun].
  - apply dialogue_resting; [done|]. by apply in_dialogue_inactive.
  - destruct (interleaved_located HL early l s Hi) as (c & v & Hloc).
    eapply wlp_run in Hrun; [|by apply (background_dialogue l c v)]. exact Hrun.
  - destruct (interleaved_located HL early l s Hi) as (c & v & Hloc).
    eapply wlp_run in Hrun; [|by apply (turn_dialogue l c v)]. exact Hrun.
Qed.
End dialogues.

(** What a client that reads has been sent, and the requests it made. *)
Lemma interleaved_transcript `{!Env, !EnvLaws, !PjJson, !PjJsonLaws, !PjJsonWriteLaws} l (s : St) :
  1 <= LONG_BIT -> accept_fresh -> interleaved True l s -> talking l (conn s) = true ->
  obliging (conn_sock (conn s)) ->
  exists ls msgs texts,
    (split_lines (heard (conn_sock (conn s)) (hist s))).1
      = ls ++ (unserved l (pending (conn_framing (conn s)))).1 /\
    split_lines (said (conn_sock (conn s)) (hist s)) = (texts, []) /\
    Forall2 (fun e text => json_line e PJSOCKY_MAX_LINE = inr (text ++ [LF])) msgs texts /\
    Forall message msgs /\ omap response_id msgs = omap request_id ls.
Proof.
  intros HL Hfresh Hi Ht Hob. pose proof (interleaved_dialogue True HL l s Hfresh Hi) as (_ & _ & Hd).
  specialize (Hd Ht). cbv zeta in Hd. destruct (unserved _ _) as [rest r].
  destruct Hd as (ls & Hls & Hcv).
  apply (conversation_transcript _ _ _ _ _ Hob) in Hcv as (msgs & texts & Htr).
  exists ls, msgs, texts. by rewrite Hls.
Qed.

(** ** Properties *)

(** C2: The control connection speaks the protocol, between any two operations
    of the main thread and whatever the threads of the SIP stack and the
    signal handler do in between: the complete lines a client has sent since
    it connected are those dealt with and those taken from the socket but
    not yet dealt with, and what it has been sent is a conversation about
    the former - the greeting and, for each line in order, the reply: the
    whole line of a well-formed response that echoes the id of a request,
    the error event for any other line -, with events in between.  The
    greeting comes before every reply, and before every event unless another
    thread acts just before it.  An event that could not be sent whole
    leaves a prefix of its line; to a client that reads, none does. *)
Theorem session_follows_protocol `{!Env, !EnvLaws, !PjJson, !PjJsonLaws} early l (s : St) :
  1 <= LONG_BIT -> accept_fresh -> interleaved early l s -> talking l (conn s) = true ->
  let n := conn_sock (conn s) in
  let '(rest, r) := unserved l (pending (conn_framing (conn s))) in
  exists ls, split_lines (heard n (hist s)) = (ls ++ rest, r) /\
    conversation (obliging n) early (greeted_at l) ls (said n (hist s)).
Proof. intros HL Hfresh Hi Ht. by apply (interleaved_dialogue early HL l s). Qed.

(** C4: A client that reads sees a clean stream, however the threads interleave:
    what it has been sent since it connected splits into whole lines, each
    the text of an event of its documented type or of a well-formed
    response, and the responses are those to the requests dealt with: every
    request is answered exactly once, in the order in which they were made. *)
Theorem session_transcript `{!Env, !EnvLaws, !PjJson, !PjJsonLaws, !PjJsonWriteLaws} l (s : St) :
  1 <= LONG_BIT -> accept_fresh -> interleaved True l s -> talking l (conn s) = true ->
  obliging (conn_sock (conn s)) ->
  exists ls msgs texts,
    (split_lines (heard (conn_sock (conn s)) (hist s))).1
      = ls ++ (unserved l (pending (conn_framing (conn s)))).1 /\
    split_lines (said (conn_sock (conn s)) (hist s)) = (texts, []) /\
    Forall2 (fun e text => json_line e PJSOCKY_MAX_LINE = inr (text ++ [LF])) msgs texts /\
    Forall message msgs /\ omap response_id msgs = omap request_id ls.
Proof. apply interleaved_transcript. Qed.
