(* ===== verification/Progress.v ===== *)
(** * Progress of the two threads (src/proto/server.c, src/proto/events.c)

    The main thread never gets stuck, whatever the other threads do between
    its operations: each operation returns, and the loop condition is tested
    again after a bounded number of them.  Hence main(), with the server loop
    run one operation at a time, returns after the signal. *)

From S2P Require Import Prelude Float32 Pjlib Env SimEnv State Framing Compact SimJson Wire JsonUtil Events Invariant Device Account Im Call Watchdog Dispatch Requests Server Schema ServerInput ServerLoop Liveness Config Startup System Session Threads Dialogue.
#[local] Open Scope string_scope.
#[local] Open Scope list_scope.
#[local] Open Scope Z_scope.

(** ** How many operations are left *)

(** A bound on the operations until the main thread is back at the loop
    condition or has returned, [pend] bytes being pending in the buffer: three
    for each of the lines these can make, and those after the last one. *)
Definition turns_left (l : locus) (pend : nat) : nat :=
  (match l with
  | Looping | Returned _ => 0
  | Greeting => 1
  | Opening _ => 2
  | Accepting _ => 3
  | Dropping _ => 4
  | Rejecting _ => 5
  | Extracting _ => 6 + 3 * pend
  | Answering _ _ _ | Complaining _ _ => 7 + 3 * pend
  | Dispatching _ _ => 8 + 3 * pend
  | Reading _ => 7 + 3 * PJSOCKY_MAX_LINE
  | Selecting => 8 + 3 * PJSOCKY_MAX_LINE
  end)%nat.

Definition pend (s : St) : nat := length (pending (conn_framing (conn s))).

(** The main thread is at the loop condition, or has returned. *)
Definition at_rest (l : locus) : bool :=
  match l with Looping | Returned _ => true | _ => false end.
Definition has_returned (l : locus) : bool :=
  match l with Returned _ => true | _ => false end.

(** The main thread with the activity of the other threads before each of its
    operations, up to a locus or to the end of the schedule. *)
Fixpoint drive `{!Env, !PjJson} (until : locus -> bool) (schedule : list (C unit)) (l : locus) : C locus :=
  match schedule with
  | [] => mret l
  | others :: schedule =>
      if until l then mret l else
      others;;
      l' ← turn l;
      drive until schedule l'
  end.

(** ** Each operation leaves fewer *)
Section descent.
Context `{!Env, !EnvLaws, !PjJson} (HL : 1 <= LONG_BIT).

(** Fewer than [n] operations are left. *)
Definition below (n : nat) (l : locus) (s : St) : Prop := (turns_left l (pend s) < n)%nat.

(** The bound does not depend on the buffer. *)
Definition level (l : locus) : Prop := forall p, turns_left l p = turns_left l 0.

Lemma level_below n l s : level l -> (turns_left l 0 < n)%nat -> below n l s.
Proof using Type. unfold below. intros Hl ?. by rewrite Hl. Qed.

Lemma below_bind {A} (m : C A) (next : A -> locus) n s :
  (forall a, level (next a) /\ turns_left (next a) 0 < n)%nat -> wlp (a ← m; mret (next a)) (below n) s.
Proof using Type.
  intros Hn. wp_step. eapply wpf_mono; [apply wlp_any|]. intros a s' _. apply wpf_ret.
  destruct (Hn a). by apply level_below.
Qed.

Lemma selecting_descends s : wlp (turn Selecting) (below (turns_left Selecting (pend s))) s.
Proof using Type.
  cbn [turn]. do 4 wp_step. wp_step. apply wpf_ask. destruct (ans_select_read _ _ _ _) as [| |fds].
  - wp_step. apply wpf_ask. case_decide; [apply wpf_ret, level_below; [done|cbn [turns_left]; lia]|].
    wp_step. apply wpf_log_call. apply below_bind. intros []. split; [done|cbn [turns_left]; lia].
  - apply wpf_ret, level_below; [done|cbn [turns_left]; lia].
  - apply wpf_ret. destruct (_ && _); (apply level_below; [done|cbn [turns_left]; lia]).
Qed.

Lemma reading_descends fds s :
  wf_framing (conn_framing (conn s)) ->
  wlp (turn (Reading fds)) (below (turns_left (Reading fds) (pend s))) s.
Proof using All.
  intros Hwf. cbn [turn]. unfold get_conn_framing, put_conn_framing. do 3 wp_step.
  eapply wpf_mono; [by apply (fill_total True)|].
  intros [st f] s1 (_ & Hwf' & _). cbn [fst snd] in *. wp_step. apply wpf_modify. cbn beta iota.
  case_decide; [apply wpf_ret, level_below; [done|cbn [turns_left]; lia]|].
  case_decide; [|destruct (negb (ok st))].
  1,2: apply below_bind; intros []; (split; [done|cbn [turns_left]; lia]).
  apply wpf_ret. unfold below, pend. cbn [turns_left conn conn_framing set_with]. simpl conn_framing.
  rewrite length_pending by done. destruct Hwf'. lia.
Qed.

(** An operation that does not touch the buffer. *)
Lemma below_operation {A} (m : C A) (next : A -> locus) c v n s :
  server_ok c v s -> (forall x, serviceable True x -> keeps True (daemon_ok x) m) ->
  (forall a, turns_left (next a) (pend s) < n)%nat -> wlp (a ← m; mret (next a)) (below n) s.
Proof using All.
  intros Hok Hm Hn. wp_step.
  eapply wpf_mono; [by apply (operation_keeps HL True (or_introl I) m c v)|].
  intros a s' Hok'. apply wpf_ret. unfold below, pend in *.
  assert (conn s = c) as Hc by apply Hok. assert (conn s' = c) as -> by apply Hok'. by rewrite <-Hc.
Qed.

Lemma extracting_descends fds s :
  wf_framing (conn_framing (conn s)) ->
  wlp (turn (Extracting fds)) (below (turns_left (Extracting fds) (pend s))) s.
Proof using Type.
  intros Hwf. cbn [turn]. unfold get_conn_framing, put_conn_framing. do 3 wp_step.
  set (f := conn_framing (conn s)) in *. destruct (memchr LF (pending f)) as [n|] eqn:Hn.
  - destruct (extract_line_SUCCESS f n Hwf Hn) as (f' & Hx & Hwf' & Hp & _).
    pose proof Hn as (_ & _ & Hlt)%memchr_Some.
    eapply wpf_check; [exact Hx|]. cbn beta iota. wp_step. apply wpf_modify.
    rewrite decide_False, decide_False by done. wp_step. unfold check.
    destruct (line_text _ _); [|done]. apply wpf_ret, wpf_ret. unfold below, pend. simpl conn_framing.
    rewrite Hp, length_drop. fold f. cbn [turns_left]. lia.
  - pose proof (extract_line_other f Hwf Hn) as Hx. eapply wpf_check; [exact Hx|].
    destruct (decide (PJSOCKY_MAX_LINE <= f_len f)%nat); cbn beta iota; wp_step; apply wpf_modify.
    + rewrite decide_False, decide_True by done. apply wpf_ret, level_below; [done|cbn [turns_left]; lia].
    + rewrite decide_True by done. apply wpf_ret, level_below; [done|cbn [turns_left]; lia].
Qed.

Lemma serving_descends l c v s :
  server_ok c v s ->
  match l with Dispatching _ _ | Answering _ _ _ | Complaining _ _ => True | _ => False end ->
  wlp (turn l) (below (turns_left l (pend s))) s.
Proof using All.
  intros Hok Hl. destruct l as [| | | |fds line|fds line r|fds line| | | | | |]; try done; cbn [turn].
  - wp_step. eapply wpf_mono; [apply (operation_keeps HL True (or_introl I) _ c v); [done|]|].
    + intros x Hx. apply (keeps_dispatch True x), line_ok_true.
    + intros [st r] s' Hok'. apply wpf_ret. assert (conn s = c) as Hc by apply Hok.
      assert (conn s' = c) as Hc' by apply Hok'. unfold below, pend. rewrite Hc', <-Hc.
      destruct r; [destruct (ok st)|]; cbn [turns_left]; lia.
  - apply (below_operation _ (fun st => if ok st then _ else _) c v); [done|..].
    + intros x. apply keeps_send_response.
    + intros st. destruct (ok st); cbn [turns_left]; lia.
  - apply (below_operation _ (fun st => if ok st then _ else _) c v); [done|..].
    + intros x. apply keeps_report_bad_line.
    + intros st. destruct (ok st); cbn [turns_left]; lia.
Qed.

Lemma accepting_descends fds s : wlp (turn (Accepting fds)) (below (turns_left (Accepting fds) (pend s))) s.
Proof using Type.
  cbn [turn]. do 2 wp_step. case_decide; [|apply wpf_ret, level_below; [done|cbn [turns_left]; lia]].
  wp_step. apply wpf_ask. destruct (ans_accept _ _) as [st m]. cbn beta iota. do 2 wp_step.
  destruct (negb (ok st)); [wp_step; apply wpf_log_call|destruct (active _)].
  1,2: apply below_bind; intros []; (split; [done|cbn [turns_left]; lia]).
  apply wpf_ret, level_below; [done|cbn [turns_left]; lia].
Qed.

(** Away from the loop condition, each operation brings the main thread
    closer to it. *)
Lemma turn_descends l c v s :
  at_rest l = false -> located l c v s -> wlp (turn l) (below (turns_left l (pend s))) s.
Proof using All.
  intros Hr Hl.
  assert (Hwf : wf_framing (conn_framing (conn s))).
  { destruct (located_conn l c v s Hl) as [-> _]. apply Hl. }
  destruct l; try done; try (apply located_server in Hl as [Hok _]; [|done]).
  - apply selecting_descends.
  - by apply reading_descends.
  - by apply extracting_descends.
  - by apply (serving_descends _ c v).
  - by apply (serving_descends _ c v).
  - by apply (serving_descends _ c v).
  - cbn [turn]. apply below_bind. intros []. split; [done|cbn [turns_left]; lia].
  - cbn [turn]. apply below_bind. intros []. split; [done|cbn [turns_left]; lia].
  - apply accepting_descends.
  - cbn [turn]. apply (below_bind _ (fun b : bool => if b then Greeting else Looping)). intros []; (split; [done|cbn [turns_left]; lia]).
  - cbn [turn]. apply below_bind. intros []. split; [done|cbn [turns_left]; lia].
Qed.

(** How many that is at most. *)
Lemma turns_left_bound l c v s :
  located l c v s -> (turns_left l (pend s) <= 8 + 3 * PJSOCKY_MAX_LINE)%nat.
Proof using Type.
  intros Hl. assert (pend s <= PJSOCKY_MAX_LINE)%nat.
  { destruct (located_conn l c v s Hl) as [Hc _]. unfold pend.
    rewrite Hc, length_pending by apply Hl. destruct (lo_framing _ _ _ _ Hl). lia. }
  destruct l; cbn [turns_left]; lia.
Qed.
End descent.

(** ** No operation is stuck *)
Section progress.
Context `{!Env, !EnvLaws, !PjJson} (HL : 1 <= LONG_BIT) (Hclk : select_waits).

Lemma background_returns early l s m :
  interleaved early l s -> background m -> exists s', m s = Ok (tt, s').
Proof using All.
  intros (c & v & Hl)%interleaved_located Hm; [|done].
  pose proof (background_located HL False (or_intror Hclk) l c v s m Hl Hm) as Hw.
  unfold wpf in Hw. destruct (m s) as [[[] s']| |]; [by exists s'|done..].
Qed.

Lemma turn_returns early l s :
  interleaved early l s -> fits False l -> exists l' s', turn l s = Ok (l', s').
Proof using All.
  intros (c & v & Hl)%interleaved_located Hf; [|done].
  pose proof (turn_located HL False (or_intror Hclk) l c v s Hf Hl) as Hw.
  unfold wpf in Hw. destruct (turn l s) as [[l' s']| |]; [by exists l', s'|done..].
Qed.
End progress.

(** ** Runs of the two threads *)
Section runs.
Context `{!Env, !EnvLaws, !PjJson} (HL : 1 <= LONG_BIT).
Context (F : Prop) (Hclk : F \/ select_waits).
(** What is known of every point of a run; it has to bound the numbers of the
    request that is about to be run, unless [F]. *)
Context (P : locus -> St -> Prop).
Context (Hstart : forall s, begun s -> P Looping (s <| conn := zero_conn |>)).
Context (Hbg : forall l m s s', P l s -> background m -> m s = Ok (tt, s') -> P l s').
Context (Hturn : forall l s l' s', P l s -> turn l s = Ok (l', s') -> P l' s').
Context (Hfits : forall l s, P l s -> fits F l).

Definition there (l : locus) (c : conn_state) (v : server) (s : St) : Prop :=
  located l c v s /\ P l s.

Lemma turn_goes l c v s :
  there l c v s ->
  wpf F (turn l) (fun l' s' => (exists c', there l' c' v s') /\
    (at_rest l = false -> turns_left l' (pend s') < turns_left l (pend s))%nat) s.
Proof using All.
  intros [Hl Hp]. apply wpf_conj_wlp.
  - eapply wpf_mono; [by apply wpf_run, (turn_located HL F Hclk l c v s (Hfits l s Hp))|].
    intros l' s' [(c' & Hl') Hrun]. exists c'. split; [done|by eapply Hturn].
  - destruct (at_rest l) eqn:Hr.
    + eapply wpf_mono; [apply wlp_any|]. done.
    + eapply wpf_mono; [by apply (turn_descends HL l c v)|]. done.
Qed.

Lemma background_goes l c v s m :
  there l c v s -> background m ->
  wpf F m (fun _ s' => exists v', there l c v' s' /\ follows v v' /\ pend s' = pend s) s.
Proof using All.
  intros [Hl Hp] Hm. eapply wpf_mono; [by apply wpf_run, (background_located HL F Hclk l c v)|].
  intros [] s' [(v' & Hl' & Hv) Hrun].
  exists v'. split_and!; [by split; [|eapply Hbg]|done|]. unfold pend.
  by rewrite (proj1 (located_conn l c v s Hl)), (proj1 (located_conn l c v' s' Hl')).
Qed.

(** Wherever a run ends, the invariant holds. *)
Lemma drive_there until schedule l c v s :
  there l c v s -> Forall background schedule ->
  wpf F (drive until schedule l) (fun l' s' => exists c' v', there l' c' v' s' /\ follows v v') s.
Proof using All.
  revert l c v s. induction schedule as [|m schedule IH]; intros l c v s Hl Hs; cbn [drive].
  { apply wpf_ret. exists c, v. split; [done|apply follows_refl]. }
  destruct (until l); [apply wpf_ret; exists c, v; split; [done|apply follows_refl]|].
  apply Forall_cons in Hs as [Hm Hs]. wp_step.
  eapply wpf_mono; [by apply (background_goes l c v)|]. intros _ s1 (v1 & Hl1 & Hv1 & _).
  wp_step. eapply wpf_mono; [by apply (turn_goes l c v1)|]. intros l2 s2 [(c2 & Hl2) _].
  eapply wpf_mono; [by apply (IH l2 c2 v1)|]. intros l3 s3 (c3 & v3 & Hl3 & Hv3).
  exists c3, v3. split; [done|]. by eapply follows_trans.
Qed.

Lemma no_turns_left l p : turns_left l p = 0%nat -> at_rest l = true.
Proof using Type. by destruct l. Qed.

(** The loop condition is tested again, or the loop has ended. *)
Lemma drive_rests schedule l c v s :
  there l c v s -> Forall background schedule ->
  (turns_left l (pend s) <= length schedule)%nat ->
  wpf F (drive at_rest schedule l) (fun l' s' => at_rest l' = true) s.
Proof using All.
  revert l c s v. induction schedule as [|m schedule IH]; intros l c s v Hl Hs Hlen; cbn [drive].
  - apply wpf_ret. simpl in Hlen. apply (no_turns_left l (pend s)). lia.
  - destruct (at_rest l) eqn:Hr; [by apply wpf_ret|]. apply Forall_cons in Hs as [Hm Hs].
    wp_step. eapply wpf_mono; [by apply (background_goes l c v)|]. intros _ s1 (v1 & Hl1 & _ & Hp1).
    wp_step. eapply wpf_mono; [by apply (turn_goes l c v1)|]. intros l2 s2 [(c2 & Hl2) Hd].
    apply (IH l2 c2 _ v1); [done..|]. specialize (Hd Hr). rewrite Hp1 in Hd. simpl in Hlen. lia.
Qed.

Lemma looping_returns c v s :
  there Looping c v s -> stop_requested v = true ->
  wlp (turn Looping) (fun l' s' => has_returned l' = true) s.
Proof using Type.
  intros Hl Hs. cbn [turn]. do 2 wp_step. rewrite (proj2 (located_conn _ c v s (proj1 Hl))), Hs.
  do 3 wp_step. eapply wpf_mono; [apply wlp_any|]. intros. by apply wpf_ret.
Qed.

(** Asked to stop, the server loop ends. *)
Lemma drive_returns schedule l c v s :
  there l c v s -> stop_requested v = true -> Forall background schedule ->
  (turns_left l (pend s) < length schedule)%nat ->
  wpf F (drive has_returned schedule l) (fun l' s' => has_returned l' = true) s.
Proof using All.
  revert l c v s. induction schedule as [|m schedule IH]; intros l c v s Hl Hstop Hs Hlen; cbn [drive];
    [simpl in Hlen; lia|].
  destruct (has_returned l) eqn:Hr; [by apply wpf_ret|]. apply Forall_cons in Hs as [Hm Hs].
  wp_step. eapply wpf_mono; [by apply (background_goes l c v)|].
  intros _ s1 (v1 & Hl1 & [_ Hstop1] & Hp1). specialize (Hstop1 Hstop). wp_step.
  destruct (at_rest l) eqn:Hrest.
  - destruct l; try done. eapply wpf_mono.
    { apply wpf_conj_wlp; [by apply (turn_goes Looping c v1)|by apply (looping_returns c v1)]. }
    intros l2 s2 [_ Hl2]. destruct schedule; cbn [drive]; [|rewrite Hl2]; by apply wpf_ret.
  - eapply wpf_mono; [by apply (turn_goes l c v1)|]. intros l2 s2 [(c2 & Hl2) Hd].
    apply (IH l2 c2 v1); [done..|]. specialize (Hd Hrest). rewrite Hp1 in Hd. simpl in Hlen. lia.
Qed.

Lemma drive_app until early late l s :
  drive until (early ++ late) l s = (l' ← drive until early l; drive until late l') s.
Proof using Type.
  revert l s. induction early as [|m early IH]; intros l s; [done|]. cbn [app drive].
  destruct (until l) eqn:Hl.
  { change (_ s) with (drive until late l s) at 2. destruct late; cbn [drive]; [done|by rewrite Hl]. }
  unfold mbind, M_bind in *. destruct (m s) as [[[] s1]| |]; [|done..].
  destruct (turn l s1) as [[l2 s2]| |]; [|done..]. apply IH.
Qed.

(** The signal arrives before the operation at [l]. *)
Lemma drive_signalled schedule l c v s :
  there l c v s -> Forall background schedule ->
  (8 + 3 * PJSOCKY_MAX_LINE < length schedule)%nat ->
  wpf F (drive has_returned (on_shutdown_signal :: schedule) l) (fun l' s' => has_returned l' = true) s.
Proof using All.
  intros Hl Hs Hlen. cbn [drive]. destruct (has_returned l) eqn:Hr; [by apply wpf_ret|]. wp_step.
  eapply wpf_mono.
  { apply wpf_conj_wlp; [apply (background_goes l c v s on_shutdown_signal); [done|apply bg_signal]|].
    by apply (wpf_modify True _ (fun _ s' => stop_requested (srv s') = true)). }
  intros [] s1 [(v1 & Hl1 & _) Hstop]. rewrite (proj2 (located_conn l c v1 s1 (proj1 Hl1))) in Hstop.
  wp_step. eapply wpf_mono; [by apply (turn_goes l c v1)|]. intros l2 s2 [(c2 & Hl2) _].
  apply (drive_returns schedule l2 c2 v1); [done..|].
  eapply Nat.le_lt_trans; [exact (turns_left_bound l2 c2 v1 s2 (proj1 Hl2))|exact Hlen].
Qed.

(** *** The whole daemon *)

(** [pjsocky_server_run], one operation at a time. *)
Definition run_threads (schedule : list (C unit)) : C pj_status :=
  set_conn (fun _ => zero_conn);;
  l ← drive has_returned schedule Looping;
  match l with
  | Returned status => mret status
  | _ => nofuel
  end.

Lemma run_threads_serves schedule :
  Forall background schedule ->
  (forall c v s, there Looping c v s ->
     wpf F (drive has_returned schedule Looping) (fun l' _ => F \/ has_returned l' = true) s) ->
  serves F (run_threads schedule).
Proof using All.
  intros Hs Hret v s Hl Hb. unfold run_threads. wp_step. apply wpf_modify.
  assert (Hloc : there Looping zero_conn v (s <| conn := zero_conn |>)).
  { split; [|by apply Hstart]. apply located_server; [done|]. split; [by apply listening_ok|done]. }
  wp_step. eapply wpf_mono.
  { apply wpf_conj; [by apply (drive_there has_returned schedule Looping zero_conn v)|].
    by apply (Hret zero_conn v). }
  intros l' s' [(c' & v' & [Hl' _] & Hv & _) Hr]. destruct l'; try (by destruct Hr).
  apply wpf_ret. exists v'. split; [|done]. apply located_server in Hl' as [Hok Ha]; [|done].
  by apply (server_ok_listening c').
Qed.
End runs.

Lemma drive_interleaved `{!Env, !PjJson} until schedule l s l' s' :
  interleaved True l s -> Forall background schedule ->
  drive until schedule l s = Ok (l', s') -> interleaved True l' s'.
Proof.
  revert l s. induction schedule as [|m schedule IH]; intros l s Hi Hs Hrun; cbn [drive] in Hrun.
  { by injection Hrun as <- <-. }
  destruct (until l); [by injection Hrun as <- <-|]. apply Forall_cons in Hs as [Hm Hs].
  apply run_bind in Hrun as ([] & s1 & Hm1 & Hrun). apply run_bind in Hrun as (l2 & s2 & Ht & Hrun).
  apply (IH l2 s2); [|done..]. eapply il_turn; [|exact Ht]. by eapply il_background.
Qed.

(** ** The server loop by turns *)
Section by_turns.
Context `{!Env, !EnvLaws, !PjJson} (HL : 1 <= LONG_BIT).
Abbreviation runs := (drive has_returned).

Lemma goes_drive x y :
  goes x y -> exists k, runs (replicate k (mret tt)) x.1 x.2 = Ok y.
Proof using Type.
  induction 1 as [x|x z y Ht _ (k & Hk)]; [exists 0%nat; by destruct x|].
  exists (S k). cbn [replicate drive]. destruct x as [l s]. cbn [fst snd] in *.
  destruct (has_returned l) eqn:Hl.
  - destruct l; try done. cbn [turn] in Ht. injection Ht as <-. cbn [fst snd] in Hk.
    destruct k; cbn [replicate drive] in Hk; exact Hk.
  - unfold mbind, M_bind. cbn. rewrite Ht. by destruct z.
Qed.

Lemma quiet_background k : Forall background (replicate k (mret tt)).
Proof using Type. apply Forall_replicate. apply bg_activity, act_nothing. Qed.

(** Runs can be put together; what happens first in the second one happens
    before the rest. *)
Lemma drive_trans sched1 sched2 l s l1 s1 l2 s2 :
  runs sched1 l s = Ok (l1, s1) -> runs sched2 l1 s1 = Ok (l2, s2) -> runs (sched1 ++ sched2) l s = Ok (l2, s2).
Proof using Type. intros Hd1 Hd2. rewrite drive_app. unfold mbind, M_bind. by rewrite Hd1. Qed.

Lemma server_loop_by_turns schedule c v s st s' :
  Forall background schedule -> server_ok c v s -> server_loop schedule s = Ok (st, s') ->
  exists schedule', Forall background schedule' /\ runs schedule' Looping s = Ok (Returned st, s').
Proof using All.
  revert c v s. induction schedule as [|m schedule IH]; intros c v s Hs Hok Hrun; [done|].
  apply Forall_cons in Hs as [Hm Hs]. cbn [server_loop] in Hrun.
  apply run_bind in Hrun as ([] & s1 & Hm1 & Hrun).
  pose proof (background_ok True (or_introl I) HL m Hm c v s Hok) as Hok1.
  eapply wlp_run in Hok1 as (v1 & Hok1 & _); [|exact Hm1].
  apply run_bind in Hrun as (stop & s1' & Hst & Hrun). injection Hst as <- <-.
  destruct (stop_requested (srv s1)) eqn:Hstop.
  - exists [m]. split; [by constructor|]. cbn [drive has_returned]. unfold mbind, M_bind in *.
    rewrite Hm1. cbn [turn]. unfold mbind, M_bind. unfold gets in *. rewrite Hstop.
    destruct (when _ _ s1) as [[[] s2]| |]; [|done..]. by injection Hrun as <- <-.
  - apply run_bind in Hrun as (r & s2 & Hit & Hrun).
    pose proof (iteration_turns c v1 s1 r s2 HL Hok1 Hit) as Hg.
    assert (Hfirst : runs [m] Looping s = Ok (Selecting, s1)).
    { cbn [drive has_returned]. unfold mbind, M_bind. rewrite Hm1. cbn [turn].
      unfold mbind, M_bind, gets. by rewrite Hstop. }
    apply goes_drive in Hg as (k & Hk). cbn [fst snd] in Hk.
    pose proof (drive_trans _ _ _ _ _ _ _ _ Hfirst Hk) as Hhome. destruct r as [st'|].
    + injection Hrun as <- <-. exists ([m] ++ replicate k (mret tt)).
      split; [constructor; [done|apply quiet_background]|done].
    + pose proof (server_iteration_ok True (or_introl I) HL line_ok_true c v1 s1 Hok1) as Hok2.
      eapply wlp_run in Hok2 as (c2 & Hok2 & _); [|exact Hit].
      destruct (IH c2 v1 s2 Hs Hok2 Hrun) as (sched & Hbg & Hd).
      exists (([m] ++ replicate k (mret tt)) ++ sched). split.
      * apply Forall_app. split; [constructor; [done|apply quiet_background]|done].
      * by eapply drive_trans.
Qed.
End by_turns.

(** ** Clients whose numbers fit an int *)

(** No client of this environment ever makes a request one of whose numbers
    does not fit an [int]: of every line it has sent, at any point of any
    interleaving. *)
Definition clients_in_range `{!Env, !PjJson} : Prop := forall l s,
  interleaved True l s -> talking l (conn s) = true ->
  Forall (line_ok False) (split_lines (heard (conn_sock (conn s)) (hist s))).1.

Section in_range.
Context `{!Env, !EnvLaws, !PjJson, !PjJsonLaws} (HL : 1 <= LONG_BIT).
Context (Hfresh : accept_fresh) (Hclients : clients_in_range).

(** The request that is about to be run is one of the lines sent. *)
Lemma interleaved_fits l s : interleaved True l s -> fits False l.
Proof using All.
  intros Hi. destruct l as [| | | |fds line| | | | | | | |]; try done. simpl.
  destruct (interleaved_located HL True _ s Hi) as (c & v & Hl).
  assert (Ht : talking (Dispatching fds line) (conn s) = true).
  { simpl. rewrite (proj1 (located_conn _ c v s Hl)). exact (lo_phase _ _ _ _ Hl). }
  destruct (interleaved_dialogue True HL _ s Hfresh Hi) as (_ & _ & Hd). specialize (Hd Ht).
  pose proof (Hclients _ _ Hi Ht) as Hok. cbn [unserved] in Hd. destruct Hd as (ls & Hls & _).
  rewrite Hls in Hok. apply Forall_app in Hok as [_ Hok]. by apply Forall_cons in Hok as [? _].
Qed.

Lemma interleaved_background l m s s' :
  interleaved True l s -> background m -> m s = Ok (tt, s') -> interleaved True l s'.
Proof using Type. intros. by eapply il_background. Qed.
Lemma interleaved_there l s :
  interleaved True l s -> exists c v, there (interleaved True) l c v s.
Proof using HL H0. intros Hi. destruct (interleaved_located HL True l s Hi) as (c & v & Hl). by exists c, v. Qed.
End in_range.

(** ** Properties *)

(** C11: The server loop is made of the operations between which the other
    threads act: whatever they do between the iterations of
    [pjsocky_server_run], a run of it that ends is a run by single operations
    with the same result and the same final state, down to the sequence of
    all library calls. *)
Theorem server_run_by_turns `{!Env, !EnvLaws, !PjJson} schedule v (s : St) st s' :
  1 <= LONG_BIT -> listening v s -> Forall background schedule ->
  pjsocky_server_run schedule s = Ok (st, s') ->
  exists schedule', Forall background schedule' /\ run_threads schedule' s = Ok (st, s').
Proof.
  intros HL Hl Hs Hrun. unfold pjsocky_server_run in Hrun.
  apply run_bind in Hrun as ([] & s1 & Hset & Hrun). injection Hset as <-.
  destruct (server_loop_by_turns HL schedule zero_conn v _ _ _ Hs (listening_ok v s Hl) Hrun)
    as (schedule' & Hs' & Hd).
  exists schedule'. split; [done|]. unfold run_threads, mbind, M_bind, set_conn, modify in *.
  by rewrite Hd.
Qed.

(** C7: Every run of main() that ends - whatever the environment variables, the
    resolver file and the libraries' answers, for any activity before and
    after the server loop and between any two operations of it - ends with
    exit code 0 or 1, no socket left open, no armed timer forgotten and the
    account in order; its last call destroys pjsua, unless creating pjsua is
    what failed. *)
Theorem main_leaves_nothing_open `{!Env, !EnvLaws, !PjJson} getenv resolv_conf
    before schedule after :
  1 <= LONG_BIT -> activity before -> Forall background schedule -> background after ->
  wlp (main getenv resolv_conf before (run_threads schedule) after) (fun code s' =>
    0 <= code <= 1 /\ (forall n, live n (hist s') = 0) /\
    (forall t, scheduled t (call s') = armed t (hist s')) /\
    (g_registered (acc s') = true -> g_acc_id (acc s') <> PJSUA_INVALID_ID) /\
    ((exists h, hist s' = A_pjsua_destroy :: h) \/
     exists st, st <> PJ_SUCCESS /\
       hist s' = [A_sua_perror "Error creating pjsua" st; A_pjsua_create st])) initial_state.
Proof.
  intros HL Hbefore Hb Hafter.
  eapply wpf_mono; [apply (main_spec True); try done; try by left|].
  - apply (run_threads_serves HL True (or_introl I) (fun _ _ => True)); try done.
    { intros l s _. apply fits_true. }
    intros c v s _. eapply wpf_mono; [apply wlp_any|]. by left.
  - intros code s' ([] & [? ?] & ?). by split_and!.
Qed.

(** C6: The daemon stops: where a wait in [select] ends ([select_waits]), with
    clients whose numeric parameters fit an [int], a write deadline that fits
    [long], codecs with proper frame rates and memory for the null renderer, a
    run of main() during which the shutdown signal arrives, between any two
    operations of the main thread, returns
    when the main thread can do [9 + 3 * PJSOCKY_MAX_LINE] more - no client,
    stalled or talkative, and no event can keep it from the test of the
    flag. *)
Theorem main_returns `{!Env, !EnvLaws, !PjJson, !PjJsonLaws} getenv resolv_conf
    before during after' after :
  1 <= LONG_BIT -> select_waits -> accept_fresh -> clients_in_range -> start_up_safe ->
  is_Some (write_timeout (getenv PJSOCKY_WRITE_TIMEOUT_ENV)) ->
  activity before -> Forall background during -> Forall background after' ->
  (8 + 3 * PJSOCKY_MAX_LINE < length after')%nat -> background after ->
  exists code s',
    main getenv resolv_conf before (run_threads (during ++ on_shutdown_signal :: after')) after
      initial_state = Ok (code, s').
Proof.
  intros HL Hclk Hfresh Hclients Hr Hwt Hbf Hb Ha Hlen Haf. set (schedule := during ++ _).
  assert (Hs : Forall background schedule)
    by (apply Forall_app; split; [done|constructor; [apply bg_signal|done]]).
  pose proof (interleaved_fits HL Hfresh Hclients) as Hfits.
  assert (Hserves : serves False (run_threads schedule)).
  { apply (run_threads_serves HL False (or_intror Hclk) (interleaved True)
      (il_start True) interleaved_background (il_turn True) Hfits); [done|].
    intros c v s Hl. unfold schedule, wpf. rewrite drive_app. apply wpf_bind.
    eapply wpf_mono; [by apply (drive_there HL False (or_intror Hclk) (interleaved True)
      (il_start True) interleaved_background (il_turn True) Hfits _ _ _ c v)|].
    intros l1 s1 (c1 & v1 & Hl1 & _).
    eapply wpf_mono; [by apply (drive_signalled HL False (or_intror Hclk) (interleaved True)
      (il_start True) interleaved_background (il_turn True) Hfits after' l1 c1 v1)|].
    by right. }
  pose proof (main_spec False (or_intror Hclk) HL getenv resolv_conf before _ after
    (or_intror Hr) (or_intror Hwt) Hbf Hserves Haf) as Hw.
  unfold wpf in Hw. destruct (main _ _ _ _ _ _) as [[code s']| |]; [by exists code, s'|done..].
Qed.

(** C9: No thread gets stuck: between any two operations of the main thread, its
    next operation returns, and so does whatever a thread of the SIP stack,
    a timer or the signal handler does next - no deadlock on the event lock,
    no wait without end, no undefined behaviour -, where a wait in [select]
    ends ([select_waits]) and the numbers of the request that is about to be
    run, if there is one, fit an [int]: converting any other is undefined. *)
Theorem threads_progress `{!Env, !EnvLaws, !PjJson} early l (s : St) :
  1 <= LONG_BIT -> select_waits -> interleaved early l s -> fits False l ->
  (exists l' s', turn l s = Ok (l', s')) /\
  (forall m, background m -> exists s', m s = Ok (tt, s')).
Proof.
  intros HL Hclk Hi Hf. split; [by eapply turn_returns|]. intros m. by eapply background_returns.
Qed.

(** C10: The server loop ends however the threads interleave, where a wait in
    [select] ends and the clients' numeric parameters fit an [int]: once the
    shutdown signal has been handled, the main thread returns from the loop
    within [turns_left] + 1 further operations - at most three for each byte
    pending, and a few -, whatever is done between them, and no client is
    connected any more. *)
Theorem threads_stop `{!Env, !EnvLaws, !PjJson, !PjJsonLaws} l (s : St) schedule :
  1 <= LONG_BIT -> select_waits -> accept_fresh -> clients_in_range ->
  interleaved True l s -> stop_requested (srv s) = true -> Forall background schedule ->
  (turns_left l (pend s) <= 8 + 3 * PJSOCKY_MAX_LINE)%nat /\
  ((turns_left l (pend s) < length schedule)%nat ->
   wp (drive has_returned schedule l) (fun l' s' =>
     (exists status, l' = Returned status) /\ active (conn s') = false) s).
Proof.
  intros HL Hclk Hfresh Hclients Hi Hstop Hs.
  pose proof (interleaved_fits HL Hfresh Hclients) as Hfits.
  destruct (interleaved_there HL l s Hi) as (c & v & Hl). pose proof Hl as [Hloc _].
  split; [by eapply turns_left_bound|].
  intros Hlen. rewrite (proj2 (located_conn l c v s Hloc)) in Hstop. eapply wpf_mono.
  { apply wpf_conj; [by apply (drive_returns HL False (or_intror Hclk) (interleaved True)
      (il_start True) interleaved_background (il_turn True) Hfits schedule l c v)|].
    by apply (drive_there HL False (or_intror Hclk) (interleaved True)
      (il_start True) interleaved_background (il_turn True) Hfits has_returned schedule l c v). }
  intros l' s' [Hr (c' & v' & [Hl' _] & _)].
  destruct l' as [| | | | | | | | | | | |status]; try done. split; [by eexists|].
  destruct (located_conn _ c' v' s' Hl') as [-> _]. exact (lo_phase _ _ _ _ Hl').
Qed.

(** C3: Every request is answered however the threads interleave, where a wait
    in [select] ends, a socket that is accepted is a new one and the clients'
    numeric parameters fit an [int]: from any point on, after at most
    [turns_left] further operations the main thread
    is back at the loop condition, or has returned, whatever is done between
    them; and if a client that reads is connected there, every complete line
    it has sent and the daemon has taken from the socket is dealt with: the
    responses it has been sent are those to all of its requests, each
    exactly once, in order, in a stream of whole, well-formed messages. *)
Theorem threads_answer `{!Env, !EnvLaws, !PjJson, !PjJsonLaws, !PjJsonWriteLaws} l (s : St) schedule :
  1 <= LONG_BIT -> select_waits -> accept_fresh -> clients_in_range ->
  interleaved True l s -> Forall background schedule ->
  (turns_left l (pend s) <= length schedule)%nat ->
  wp (drive at_rest schedule l) (fun l' s' => at_rest l' = true /\
    let n := conn_sock (conn s') in
    (talking l' (conn s') = true -> obliging n -> exists msgs texts,
      split_lines (said n (hist s')) = (texts, []) /\
      Forall2 (fun e text => json_line e PJSOCKY_MAX_LINE = inr (text ++ [LF])) msgs texts /\
      Forall message msgs /\
      omap response_id msgs = omap request_id (split_lines (heard n (hist s'))).1)) s.
Proof.
  intros HL Hclk Hfresh Hclients Hi Hs Hlen.
  destruct (interleaved_there HL l s Hi) as (c & v & Hl).
  eapply wpf_mono; [by apply wpf_run, (drive_rests HL False (or_intror Hclk) (interleaved True)
    (il_start True) interleaved_background (il_turn True) (interleaved_fits HL Hfresh Hclients) schedule l c v)|].
  intros l' s' [Hr Hrun]. pose proof (drive_interleaved _ _ _ _ _ _ Hi Hs Hrun) as Hi'.
  split; [done|]. cbv zeta. intros Ht Hob.
  destruct (interleaved_transcript l' s' HL Hfresh Hi' Ht Hob) as (ls & msgs & texts & Hh & Htr).
  exists msgs, texts. assert (unserved l' (pending (conn_framing (conn s'))) = ([], pending (conn_framing (conn s'))))
    as Hu by by destruct l'. by rewrite Hh, Hu, app_nil_r.
Qed.
