(* ===== verification/News.v ===== *)
(** * Events reach the client (src/call.c, src/account.c, src/im.c, src/proto/events.c)

    What each callback of the SIP side has to tell the client, and that a
    client that reads is told exactly that, wherever the main thread is. *)

From S2P Require Import Prelude Float32 Pjlib Env SimEnv State Framing Compact SimJson Wire JsonUtil Events Invariant Device Account Im Call Watchdog Dispatch Requests Server Schema ServerInput ServerLoop Liveness Config Startup System Threads Session Dialogue Progress.
#[local] Open Scope string_scope.
#[local] Open Scope list_scope.
#[local] Open Scope Z_scope.

(** ** What there is to tell *)

(** The name and the data of an event, if there is one. *)
Definition news : Type := option (string * event_builder).

Definition call_news `{!Env} (name : string) (build : call_info -> event_builder) (id : Z) (s : St) : news :=
  let '(st, info) := ans_call_get_info (hist s) id in
  if ok st then Some (name, build info) else None.

(** The event of each callback in the state it is run in: what pjsua knows of
    the call or the account; what the peer sent.  Timers, device errors, new
    offers and the signal have no event. *)
Inductive tells `{!Env, !PjJson} : C unit -> (St -> news) -> Prop :=
| tells_reg_state acc_id info : tells (reg_state_reported acc_id info) (fun s =>
    if g_acc_id (acc s) =? PJSUA_INVALID_ID then None else
    let '(st, i) := ans_acc_get_info (hist s) acc_id in
    if ok st then Some ("reg_state", build_reg_state_data i) else None)
| tells_call_state id :
    tells (pjsocky_call_on_call_state id) (call_news "call_state" build_call_state_data id)
| tells_media_state id :
    tells (pjsocky_call_on_call_media_state id)
      (call_news "call_media_state" build_call_media_state_data id)
| tells_incoming acc_id id :
    tells (pjsocky_call_on_incoming_call acc_id id)
      (call_news "incoming_call" build_incoming_call_data id)
| tells_pager2 id from to contact mime body acc_id :
    tells (pjsocky_im_on_pager2 id from to contact mime body acc_id)
      (fun _ => Some ("incoming_message", build_incoming_message_data from to mime body))
| tells_pager_status2 id to body st reason acc_id :
    tells (pjsocky_im_on_pager_status2 id to body st reason acc_id)
      (fun _ => Some ("message_status", build_message_status_data to body st reason))
| tells_typing2 id from to contact typing acc_id :
    tells (pjsocky_im_on_typing2 id from to contact typing acc_id)
      (fun _ => Some ("typing", build_typing_data from to typing))
| tells_timer t : tells (timer_expires t) (fun _ => None)
| tells_media_event id idx err :
    tells (pjsocky_call_on_call_media_event id idx err) (fun _ => None)
| tells_rx_offer id offer opt :
    tells (pjsocky_call_on_call_rx_offer id offer opt;; mret tt) (fun _ => None)
| tells_signal : tells on_shutdown_signal (fun _ => None).

(** The line of an event, [a] being the account when it is pushed; nothing
    where it does not fit the buffer it is printed to. *)
Definition told `{!PjJson} (w : news) (a : account_st) : bytes :=
  match w with
  | Some (name, b) =>
      match json_line (event_object name (Some b) a) PJSOCKY_MAX_LINE with
      | inr line => line
      | inl _ => []
      end
  | None => []
  end.

Lemma tells_background `{!Env, !PjJson} m w : tells m w -> background m.
Proof.
  intros []; [..|apply bg_signal]; apply bg_activity;
    [apply act_reg_state2|apply act_call_state|apply act_call_media_state|apply act_incoming_call
    |apply act_pager2|apply act_pager_status2|apply act_typing2|apply act_timer
    |apply act_call_media_event|apply act_call_rx_offer].
Qed.

(** ** Telling it *)
Section telling.
Context `{!Env, !EnvLaws, !PjJson, !PjJsonLaws} (n : Z) (s0 : St).
Context (Hob : obliging n) (e : events) (Hrd : ready s0 e) (He : is_Some (ev_framing e)).
Context (Hn : f_sock (conn_framing (conn s0)) = n).

(** Nothing has been said since [s0]. *)
Definition hushed (s : St) : Prop :=
  logs silent s0 s /\ conn s = conn s0 /\ g_instance s = g_instance s0.

#[local] Instance hushed_quiet : Quiet hushed.
Proof using Type.
  split.
  - intros A q act Ha s (Hl & Hc). apply wpf_ask. split; [by apply logs_cons|exact Hc].
  - intros a Ha s (Hl & Hc). apply wpf_log_call. split; [by apply logs_cons|exact Hc].
  - intros f Hf. apply keeps_modify. intros s ((l & Hl & Hs) & Hc & Hg).
    destruct (Hf s) as (Hh & Hc' & Hg'). split_and!; [|by rewrite Hc'|by rewrite Hg'].
    exists l. by rewrite Hh.
Qed.

Lemma hushed_start : hushed s0.
Proof using Type. split_and!; [apply logs_refl|done..]. Qed.

Definition tells_it (w : news) (s : St) : Prop :=
  said n (hist s) = said n (hist s0) ++ told w (acc s).

Lemma hushed_told s : hushed s -> tells_it None s.
Proof using Type.
  intros ((l & Hl & Hs) & _). unfold tells_it. simpl.
  by rewrite Hl, said_plain, silent_wire by (done || by apply silent_plain).
Qed.

Lemma keeps_told {A} (m : C A) s :
  keeps True hushed m -> hushed s -> wlp m (fun _ s' => tells_it None s') s.
Proof using Type.
  intros Hm Hs. eapply wpf_mono; [by apply Hm|]. intros a s'. apply hushed_told.
Qed.

Lemma push_says name b s :
  hushed s -> wlp (push name b) (fun _ s' => tells_it (Some (name, b)) s') s.
Proof using All.
  intros Hs. pose proof (hushed_told s Hs) as Hsaid. destruct Hs as (_ & Hc & Hg).
  assert (ready s e) as Hr by (destruct Hrd; split; rewrite ?Hg, ?Hc; done).
  eapply wpf_mono; [apply (push_conveyed True e); [|done..]|].
  { intros _. by rewrite Hc, Hn. }
  intros _ s' (data & Hlw & st & Hd & Hw). specialize (Hw I).
  assert (acc s' = acc s) as Ha by (by destruct Hlw as (? & -> & _)).
  apply (locked_write_dialogue n) in Hlw as [_ Hs']; [|by rewrite Hc].
  unfold tells_it in *. simpl in Hsaid. rewrite app_nil_r in Hsaid. rewrite Hs', Hsaid, Ha. f_equal.
  simpl. unfold written in Hw. destruct (json_line _ _); [by destruct Hw as (_ & _ & ?)|by destruct Hw].
Qed.

Lemma push_told name b s :
  hushed s -> wlp (push name b;; mret tt) (fun _ s' => tells_it (Some (name, b)) s') s.
Proof using All.
  intros Hs. wp_step. eapply wpf_mono; [by apply push_says|]. intros st s' Ht. exact Ht.
Qed.

(** The greeting. *)
Lemma greet_told :
  wlp greet_client (fun _ s' => tells_it (Some ("hello", build_hello_data)) s') s0.
Proof using All.
  unfold greet_client. wp_step. eapply wpf_mono; [apply push_says, hushed_start|].
  intros st s1 Hs1. wp_step. apply wpf_modify, wpf_log_call.
  unfold tells_it in *. simpl acc. rewrite <-Hs1. simpl hist.
  etrans; [apply (said_plain n [A_log 4 "Client connected" []] (hist s1)); by repeat constructor|].
  by rewrite app_nil_r.
Qed.

(** *** The callbacks *)

(** A callback that asks pjsua about the call first. *)
Lemma call_told name build id (k : call_info -> C unit) s1 :
  hushed s1 -> hist s1 = hist s0 ->
  (forall info s, hushed s -> wlp (k info) (fun _ s' => tells_it (Some (name, build info)) s') s) ->
  wlp ('(status, info) ← pjsua_call_get_info id;
       if negb (ok status) then PJ_PERROR 1 status "pjsua_call_get_info() failed" [] else k info)
    (fun _ s' => tells_it (call_news name build id s0) s') s1.
Proof using All.
  intros [Hl Hc] Hh Hk. unfold call_news. rewrite <-Hh. wp_step. apply wpf_ask.
  destruct (ans_call_get_info _ _) as [st info]. set (s2 := set_with hist _ s1).
  assert (Hs2 : hushed s2) by (split; [by apply logs_cons|exact Hc]). cbn beta iota.
  destruct (ok st); cbn [negb]; [by apply Hk|].
  apply keeps_told; [keeps_go|done].
Qed.

Lemma call_state_told id :
  wlp (pjsocky_call_on_call_state id)
    (fun _ s' => tells_it (call_news "call_state" build_call_state_data id s0) s') s0.
Proof using All.
  apply (call_told _ _ _ (fun info => _)); [apply hushed_start|done|]. intros info s Hs. do 3 keeps_over Hs. by apply push_told.
Qed.

Lemma media_state_told id :
  wlp (pjsocky_call_on_call_media_state id)
    (fun _ s' => tells_it (call_news "call_media_state" build_call_media_state_data id s0) s') s0.
Proof using All.
  apply (call_told _ _ _ (fun info => _)); [apply hushed_start|done|]. intros info s Hs. do 5 keeps_over Hs. by apply push_told.
Qed.

Lemma incoming_told acc_id id :
  wlp (pjsocky_call_on_incoming_call acc_id id)
    (fun _ s' => tells_it (call_news "incoming_call" build_incoming_call_data id s0) s') s0.
Proof using All.
  unfold pjsocky_call_on_incoming_call. wp_step. apply wpf_modify.
  apply (call_told _ _ _ (fun info => _)); [|done|].
  { destruct hushed_start as [Hl Hc]. by split. }
  intros info s Hs. do 2 keeps_over Hs. by apply push_told.
Qed.

Lemma reg_state_told acc_id info :
  wlp (reg_state_reported acc_id info) (fun _ s' => tells_it (
    if g_acc_id (acc s0) =? PJSUA_INVALID_ID then None else
    let '(st, i) := ans_acc_get_info (hist s0) acc_id in
    if ok st then Some ("reg_state", build_reg_state_data i) else None) s') s0.
Proof using All.
  unfold reg_state_reported, pjsocky_account_get_id. do 2 wp_step.
  destruct (_ =? _); cbn [negb when]; [apply wpf_ret, hushed_told, hushed_start|].
  unfold pjsocky_account_on_reg_state2. wp_step. apply wpf_ask.
  destruct (ans_acc_get_info _ _) as [st i]. set (s1 := set_with hist _ s0).
  assert (Hs1 : hushed s1) by (split; [|done]; apply logs_cons; [done|apply logs_refl]).
  clearbody s1. cbn beta iota. destruct (ok st); cbn [negb].
  - keeps_over Hs1. by apply push_told.
  - apply keeps_told; [keeps_go|done].
Qed.

(** Every callback tells its news. *)
Lemma tells_told m w : tells m w -> wlp m (fun _ s' => tells_it (w s0) s') s0.
Proof using All.
  intros [| | | | | | |t| | |].
  - apply reg_state_told.
  - apply call_state_told.
  - apply media_state_told.
  - apply incoming_told.
  - apply push_told, hushed_start.
  - apply push_told, hushed_start.
  - apply push_told, hushed_start.
  - apply keeps_told; [|apply hushed_start]. destruct t; keeps_go.
  - apply keeps_told; [keeps_go|apply hushed_start].
  - apply keeps_told; [keeps_go|apply hushed_start].
  - apply keeps_told; [keeps_go|apply hushed_start].
Qed.
End telling.

(** ** Told wherever the main thread is *)

Lemma events_told `{!Env, !EnvLaws, !PjJson, !PjJsonLaws} early l (s : St) m w :
  1 <= LONG_BIT -> select_waits -> interleaved early l s -> tells m w ->
  wp m (fun _ s' =>
    (attached_at l (conn s) = true -> obliging (conn_sock (conn s)) ->
     said (conn_sock (conn s)) (hist s') = said (conn_sock (conn s)) (hist s) ++ told (w s) (acc s')) /\
    (attached_at l (conn s) = false -> forall n, said n (hist s') = said n (hist s))) s.
Proof.
  intros HL Hclk Hi Hm. pose proof (tells_background m w Hm) as Hb.
  destruct (background_returns HL Hclk early l s m Hi Hb) as [s' Hrun].
  destruct (interleaved_located HL early l s Hi) as (c & v & Hl).
  pose proof (located_conn l c v s Hl) as [Hc _]. unfold wpf. rewrite Hrun, Hc. split; intros Hatt.
  - intros Hob. destruct (located_attached HL l c v s Hl Hatt) as [(e & Hrd & He) Hsk].
    by refine (wlp_run _ (fun _ s' => tells_it (conn_sock c) s (w s) s') _ _ _ _ Hrun);
      apply (tells_told (conn_sock c) s Hob e Hrd He Hsk).
  - intros n. pose proof (undisturbed_background (unattached_since s) m Hb s) as Hk.
    eapply wlp_run in Hk; [|split; [by eapply located_unattached|apply logs_refl]|exact Hrun].
    destruct Hk as [_ (k & Hk & Hsil)].
    by rewrite Hk, said_plain, silent_wire, app_nil_r by (done || by apply silent_plain).
Qed.

(** What a client has been told of when another thread acts between the moment its
    connection can be written to and its greeting. *)
Lemma attached_silence `{!Env, !EnvLaws, !PjJson, !PjJsonLaws} n (s s0 : St) :
  1 <= LONG_BIT -> accept_fresh -> interleaved True (Opening n) s ->
  turn (Opening n) s = Ok (Greeting, s0) -> conn_sock (conn s0) = n /\ said n (hist s0) = [].
Proof.
  intros HL Hfresh Hi Ht. destruct (interleaved_dialogue True HL _ s Hfresh Hi) as ((_ & Hs) & _).
  destruct (interleaved_located HL True _ s Hi) as (c & v & [Hd Hwf Hto Hv _ Ha]).
  cbn [turn] in Ht. apply run_bind in Ht as (b & s1 & Hatt & Ht). destruct b; [|done]. injection Ht as <-.
  assert (exists l, hist s1 = l ++ hist s /\ Forall silent l) as (l & Hl & Hsil).
  { exact (wlp_run _ _ _ _ _ (silent_attach_conn n s s (logs_refl _ _)) Hatt). }
  split.
  - eapply wlp_run in Hatt; [|by apply (attach_conn_spec True) with (c := c) (v := v)].
    destruct Hatt as (c' & Hg & <- & _). assert (conn s1 = c') as Hc by apply Hg. by rewrite Hc.
  - by rewrite Hl, said_plain, silent_wire, app_nil_r by (done || by apply silent_plain).
Qed.

(** ** Properties *)

(** C5: Every event reaches the client: wherever the main thread is, whatever
    pjsua reports - a registration, the state or the media of a call, an
    incoming call or message, the fate of a message, a typing peer - is told
    to a connected client that reads, and that the daemon has memory for
    ([obliging]), as exactly one line, the event of that
    report with what pjsua knows of the call or account at that moment, and
    nothing else; timers, camera failures, re-offers and the signal are told
    nothing; and without a connection no socket is sent anything.  The one
    exception is an event that does not fit the buffer it is printed to: it
    is not sent at all ([told]). *)
Theorem events_reach_client `{!Env, !EnvLaws, !PjJson, !PjJsonLaws} early l (s : St) m w :
  1 <= LONG_BIT -> select_waits -> interleaved early l s -> tells m w ->
  wp m (fun _ s' =>
    (attached_at l (conn s) = true -> obliging (conn_sock (conn s)) ->
     said (conn_sock (conn s)) (hist s') = said (conn_sock (conn s)) (hist s) ++ told (w s) (acc s')) /\
    (attached_at l (conn s) = false -> forall n, said n (hist s') = said n (hist s))) s.
Proof. apply events_told. Qed.

(** C37: The greeting can be overtaken: once a new connection can be written
    to, whatever another thread reports before the main thread greets the
    client is told first.  A client that reads has then been sent the line of
    that event followed by the line of the hello event, and nothing else. *)
Theorem greeting_overtaken `{!Env, !EnvLaws, !PjJson, !PjJsonLaws} n (s s0 s1 : St) m w :
  1 <= LONG_BIT -> select_waits -> accept_fresh -> interleaved True (Opening n) s ->
  turn (Opening n) s = Ok (Greeting, s0) -> tells m w -> m s0 = Ok (tt, s1) -> obliging n ->
  wp (turn Greeting) (fun l s2 =>
    l = Looping /\ active (conn s2) = true /\ conn_sock (conn s2) = n /\
    said n (hist s2) = told (w s0) (acc s1) ++ told (Some ("hello", build_hello_data)) (acc s2)) s1.
Proof.
  intros HL Hclk Hfresh Hi Ht Hm Hrun Hob.
  destruct (attached_silence n s s0 HL Hfresh Hi Ht) as [Hn Hquiet].
  assert (Hi0 : interleaved True Greeting s0) by by eapply il_turn.
  pose proof (tells_background m w Hm) as Hb.
  assert (Hi1 : interleaved True Greeting s1) by by eapply il_background.
  destruct (interleaved_located HL True _ _ Hi0) as (c & v & Hl0).
  assert (Hc1 : conn s1 = conn s0).
  { pose proof (background_located HL True (or_introl I) _ c v s0 m Hl0 Hb) as Hw.
    eapply wlp_run in Hw as (v' & Hl1 & _); [|exact Hrun].
    by rewrite (proj1 (located_conn _ c v s0 Hl0)), (proj1 (located_conn _ c v' s1 Hl1)). }
  pose proof (events_told True Greeting s0 m w HL Hclk Hi0 Hm) as Hw. unfold wpf in Hw.
  rewrite Hrun, Hn, Hquiet in Hw. destruct Hw as [Hw _]. specialize (Hw eq_refl Hob). simpl in Hw.
  destruct (interleaved_located HL True _ _ Hi1) as (c1 & v1 & Hl1).
  destruct (located_attached HL _ c1 v1 s1 Hl1 eq_refl) as [(e & Hrd & He) Hsk].
  assert (Hn1 : conn_sock c1 = n) by by rewrite <-(proj1 (located_conn _ c1 v1 s1 Hl1)), Hc1.
  rewrite Hn1 in Hsk.
  destruct (turn_returns HL Hclk True Greeting s1 Hi1 I) as (l & s2 & Hgreet).
  unfold wpf. rewrite Hgreet. cbn [turn] in Hgreet.
  apply run_bind in Hgreet as ([] & s3 & Hgreet & Hret). injection Hret as <- <-.
  pose proof (wlp_run _ _ _ _ _ (greet_told n s1 Hob e Hrd He Hsk) Hgreet) as Htold.
  assert (Hok : server_ok (c1 <| active := true |>) v1 s3).
  { destruct Hl1 as [Hd Hwf Hto Hv Hs Ha].
    refine (wlp_run _ (fun _ s' => server_ok _ v1 s') _ _ _ _ Hgreet).
    apply (greet_client_spec True); [by left|done|]. by split; [..|apply Hs]. }
  assert (Hc3 : conn s3 = c1 <| active := true |>) by apply Hok.
  split_and!; [done|by rewrite Hc3| |].
  - by rewrite Hc3.
  - unfold tells_it in Htold. by rewrite Htold, Hw.
Qed.
