(* ===== verification/Runs.v ===== *)
(** * Concrete runs of the daemon

    The theorems about the whole daemon - of System.v, Liveness.v and the files
    from Threads.v on - at work on simulated clients and SIP stacks. *)

From S2P Require Import Prelude Float32 Pjlib Env SimEnv State Framing Compact SimJson Wire JsonUtil Events Invariant Device Account Im Call Watchdog Dispatch Requests Server ServerInput ServerLoop Liveness Config Startup System Threads Lifecycle Session Pools Dialogue Progress News.
#[local] Open Scope string_scope.
#[local] Open Scope list_scope.
#[local] Open Scope Z_scope.

#[local] Existing Instance sim_json.
#[local] Existing Instance sim_json_laws.
#[local] Existing Instance sim_json_write_laws.

(** ** Clients that send once *)
Definition is_accept (a : action) : bool := match a with A_accept _ _ => true | _ => false end.
Definition is_recv (a : action) : bool := match a with A_sock_recv _ _ => true | _ => false end.

(** A client that connects, sends [chunk] and then [next]: nothing more, or
    the end of the stream. *)
Definition sends_once (chunk : bytes) (next : pj_status) : script :=
  quiet <| sim_select_read := fun h => SelectReady [if existsb is_accept h then 7 else 5] |>
        <| sim_accept := fun h => if decide (live 7 h = 0) then (PJ_SUCCESS, 7)
                                  else (PJ_STATUS_FROM_OS EAGAIN, -1) |>
        <| sim_recv := fun h cap =>
             if existsb is_recv h then (next, []) else (PJ_SUCCESS, take cap chunk) |>.

Lemma sends_once_ok chunk next : script_ok (sends_once chunk next).
Proof.
  destruct quiet_ok. split; simpl; try done. intros h cap data.
  destruct (existsb is_recv h); [intros [= _ <-]; simpl; lia|]. intros [= <-]. rewrite length_take. lia.
Qed.
Lemma sends_once_fresh chunk next : @accept_fresh (env_of (sends_once chunk next)).
Proof. intros h l n. simpl. case_decide; [by intros [= <-]|done]. Qed.
Lemma sends_once_obliging chunk next n : @obliging (env_of (sends_once chunk next)) n.
Proof.
  split; [|done]. intros h data Hd. exists (Z.of_nat (length data)). split; [done|]. by destruct data.
Qed.

(** All a connection ever hears is the beginning of the chunk. *)
Lemma heard_once chunk next n h : exists k, @heard (env_of (sends_once chunk next)) n h = take k chunk.
Proof.
  assert (Hno : forall h, existsb is_recv h = false -> @heard (env_of (sends_once chunk next)) n h = []).
  { intros h0. induction h0 as [|a h0 IH]; [done|]. simpl. intros [Ha Hh]%orb_false_iff.
    destruct (opens n a); [done|]. rewrite IH by done. by destruct a. }
  induction h as [|a h [k IH]]; [by exists 0%nat|]. cbn [heard].
  destruct (opens n a); [by exists 0%nat|]. destruct (existsb is_recv h) eqn:Hr.
  - exists k. rewrite IH. unfold delivery. destruct a; rewrite ?app_nil_r; try done.
    case_decide; [|by rewrite app_nil_r]. simpl. rewrite Hr. destruct next; by rewrite app_nil_r.
  - rewrite Hno by done. unfold delivery. destruct a; try by exists 0%nat.
    case_decide; [|by exists 0%nat]. simpl. rewrite Hr. by eexists.
Qed.

Lemma sends_once_in_range chunk next :
  Forall (line_ok False) (split_lines chunk).1 -> @clients_in_range (env_of (sends_once chunk next)) _.
Proof.
  intros Hok l s _ _. destruct (heard_once chunk next (conn_sock (conn s)) (hist s)) as [k ->].
  rewrite <-(take_drop k chunk), split_lines_app in Hok.
  destruct (split_lines (take k chunk)) as [l1 r1]. destruct (split_lines (r1 ++ _)) as [l2 r2].
  by apply Forall_app in Hok as [? _].
Qed.

(** A line without parameters has no number among them. *)
Lemma no_params_ok line :
  pjsocky_json_find (pj_json_parse line) "params" = None -> line_ok False line.
Proof. unfold line_ok. intros ->. by right. Qed.

(** ** Where the runs begin *)
Section beginnings.
Context `{!Env, !EnvLaws}.

(** The state after a program, where it returns. *)
Definition after {A} (m : C A) (s : St) : St :=
  match m s with Ok (_, s') => s' | _ => s end.

(** The state main() creates the control socket in, and that in which it has
    been created, with no variable set. *)
Definition unset (name : string) : option bytes := None.
Definition booted_state : St := after (start_up unset None) initial_state.
Definition created_state : St :=
  after (create_control_socket unset 5000) booted_state <| conn := zero_conn |>.

(** Both succeed. *)
Definition comes_up : Prop :=
  start_up unset None initial_state = Ok (true, booted_state) /\
  create_control_socket unset 5000 booted_state
    = Ok (PJ_SUCCESS, after (create_control_socket unset 5000) booted_state).

Lemma created_begun : comes_up -> begun (after (create_control_socket unset 5000) booted_state).
Proof using Type.
  intros [Hs Hc]. exists unset, None, (mret tt), booted_state, booted_state, 5000.
  split_and!; [done|constructor|done..].
Qed.
Lemma created_reachable : comes_up -> reachable created_state.
Proof using Type. intros Hc. apply reach_start, created_begun, Hc. Qed.
Lemma created_interleaved early : comes_up -> interleaved early Looping created_state.
Proof using Type. intros Hc. apply il_start, created_begun, Hc. Qed.

(** The main thread alone, for some turns. *)
Fixpoint advance (k : nat) (x : locus * St) : locus * St :=
  match k with
  | O => x
  | S k => match turn x.1 x.2 with Ok y => advance k y | _ => x end
  end.
Lemma advance_interleaved early k x :
  interleaved early x.1 x.2 -> interleaved early (advance k x).1 (advance k x).2.
Proof using Type.
  revert x. induction k as [|k IH]; intros x Hx; [done|]. simpl.
  destruct (turn x.1 x.2) as [y| |] eqn:Ht; [|done..]. apply IH. destruct y.
  by eapply il_turn.
Qed.
End beginnings.

(** ** A client that connects, sends a ping and one byte more, and leaves *)
Definition ping_line : bytes := json_text "{'id':'1','cmd':'ping'}".
Definition ping_client : script := sends_once (ping_line ++ [LF; "x"%char]) PJ_SUCCESS.
Lemma ping_line_ok : line_ok False ping_line.
Proof. apply no_params_ok. vm_compute. reflexivity. Qed.

#[local] Instance run_env : Env := env_of ping_client.
#[local] Instance run_laws : EnvLaws := env_of_laws _ (sends_once_ok _ _).
Lemma ping_in_range : clients_in_range.
Proof.
  apply sends_once_in_range. assert (split_lines (ping_line ++ [LF; "x"%char]) = ([ping_line], ["x"%char])) as ->
    by (vm_compute; reflexivity). by constructor; [apply ping_line_ok|].
Qed.

Lemma run_long : 1 <= LONG_BIT.
Proof. vm_compute. discriminate. Qed.

Lemma run_comes_up : comes_up.
Proof. by vm_compute. Qed.
Lemma created_state_reachable : reachable created_state.
Proof. apply created_reachable, run_comes_up. Qed.

Definition served_state : St :=
  after server_iteration (after (pjsocky_call_on_incoming_call 0 1)
    (after server_iteration created_state)).

Lemma served_state_reachable : reachable served_state.
Proof.
  unfold served_state.
  eapply reach_iteration; [eapply reach_background; [eapply reach_iteration|..]|..].
  - apply created_state_reachable.
  - vm_compute. reflexivity.
  - vm_compute. reflexivity.
  - apply bg_activity, (act_incoming_call 0 1).
  - vm_compute. reflexivity.
  - vm_compute. reflexivity.
  - vm_compute. reflexivity.
Qed.

(** What the client has been sent by then: the hello event, then the response. *)
Example served_state_wire :
  wire 7 (hist served_state) =
  json_text "{'event':'hello','data':{'protocol_version':'1.1.0','daemon_version':'1.0.0.1','pjsip_version':'2.15'}}"
    ++ [LF] ++ json_text "{'id':'1','ok':true,'result':{}}" ++ [LF].
Proof. vm_compute. reflexivity. Qed.

Lemma daemon_invariant_witness :
  active (conn served_state) = true /\
  (forall t, scheduled t (call served_state) = armed t (hist served_state)) /\
  live 7 (hist served_state) = 1.
Proof.
  split; [vm_compute; reflexivity|].
  destruct (daemon_invariant served_state run_long served_state_reachable)
    as (_ & Ht & _ & _ & _ & Hl).
  split; [exact Ht|]. rewrite (Hl 7). vm_compute. reflexivity.
Defined.

Lemma iterations_are_turns_witness :
  interleaved False Looping served_state /\
  goes (Selecting, created_state) (Looping, after server_iteration created_state).
Proof.
  split; [exact (proj1 (iterations_are_turns served_state run_long served_state_reachable))|].
  apply (proj2 (iterations_are_turns created_state run_long created_state_reachable) None).
  vm_compute. reflexivity.
Defined.

Lemma created_state_listening : exists v, listening v created_state.
Proof.
  destruct (reachable_server_ok created_state run_long created_state_reachable) as (c & v & Hok).
  exists v. apply (server_ok_listening c); [exact Hok|].
  assert (Hc : conn created_state = c) by apply Hok. by rewrite <-Hc.
Qed.

Lemma main_leaves_nothing_open_by_iterations_witness :
  wlp (main unset None (mret tt) (pjsocky_server_run [mret tt; mret tt; on_shutdown_signal])
         (pjsocky_call_on_call_state 1)) (fun code s' =>
    0 <= code <= 1 /\ (forall n, live n (hist s') = 0) /\
    (forall t, scheduled t (call s') = armed t (hist s')) /\
    (g_registered (acc s') = true -> g_acc_id (acc s') <> PJSUA_INVALID_ID) /\
    ((exists h, hist s' = A_pjsua_destroy :: h) \/
     exists st, st <> PJ_SUCCESS /\
       hist s' = [A_sua_perror "Error creating pjsua" st; A_pjsua_create st])) initial_state.
Proof.
  apply (main_leaves_nothing_open_by_iterations unset None (mret tt)
    [mret tt; mret tt; on_shutdown_signal] (pjsocky_call_on_call_state 1));
    [exact run_long|repeat constructor..].
Defined.

(** The same with the other threads acting between any two operations: a call
    comes in before the second one, a message while the listening socket is
    looked at. *)
Definition busy : list (C unit) :=
  [mret tt; pjsocky_call_on_incoming_call 0 1;
   pjsocky_im_on_typing2 0 "sip:a@b" "sip:me@b" "" true 0; on_shutdown_signal].

Lemma busy_background : Forall background busy.
Proof.
  repeat apply Forall_cons_2; [..|by apply Forall_nil_2].
  - apply bg_activity, act_nothing.
  - apply bg_activity, act_incoming_call.
  - apply bg_activity, act_typing2.
  - apply bg_signal.
Qed.

Lemma main_leaves_nothing_open_witness :
  wlp (main unset None (mret tt) (run_threads busy) (pjsocky_call_on_call_state 1)) (fun code s' =>
    0 <= code <= 1 /\ (forall n, live n (hist s') = 0) /\
    (forall t, scheduled t (call s') = armed t (hist s')) /\
    (g_registered (acc s') = true -> g_acc_id (acc s') <> PJSUA_INVALID_ID) /\
    ((exists h, hist s' = A_pjsua_destroy :: h) \/
     exists st, st <> PJ_SUCCESS /\
       hist s' = [A_sua_perror "Error creating pjsua" st; A_pjsua_create st])) initial_state.
Proof.
  apply (main_leaves_nothing_open unset None (mret tt) busy (pjsocky_call_on_call_state 1)).
  - exact run_long.
  - apply act_nothing.
  - exact busy_background.
  - apply bg_activity, act_call_state.
Defined.

Lemma main_returns_witness :
  exists code s', main unset None (pjsocky_call_on_call_state 0)
    (run_threads ([mret tt; pjsocky_call_on_incoming_call 0 1] ++ on_shutdown_signal ::
       replicate (9 + 3 * PJSOCKY_MAX_LINE) (timer_expires RING_TIMER)))
    (mret tt) initial_state = Ok (code, s').
Proof.
  apply (main_returns unset None (pjsocky_call_on_call_state 0)
    [mret tt; pjsocky_call_on_incoming_call 0 1]
    (replicate (9 + 3 * PJSOCKY_MAX_LINE) (timer_expires RING_TIMER)) (mret tt)).
  - exact run_long.
  - apply sim_select_waits.
  - apply sends_once_fresh.
  - exact ping_in_range.
  - split; [by intros h c p [= <-]|done].
  - by eexists.
  - apply act_call_state.
  - repeat constructor.
  - apply Forall_replicate, bg_activity, act_timer.
  - rewrite length_replicate. apply Nat.lt_succ_diag_r.
  - apply bg_activity, act_nothing.
Defined.

Definition quiet_run : C pj_status :=
  pjsocky_server_run [mret tt; pjsocky_call_on_incoming_call 0 1; mret tt; on_shutdown_signal].
Lemma server_run_by_turns_witness :
  exists schedule', Forall background schedule' /\
    run_threads schedule' created_state = Ok (PJ_SUCCESS, after quiet_run created_state).
Proof.
  destruct created_state_listening as (v & Hl).
  apply (server_run_by_turns [mret tt; pjsocky_call_on_incoming_call 0 1; mret tt; on_shutdown_signal]
    v created_state PJ_SUCCESS _ run_long Hl).
  - repeat constructor.
  - vm_compute. reflexivity.
Defined.

(** A whole run, by evaluation: the client above is served, the signal
    arrives, main() returns 0. *)
Example main_runs :
  (fun r => match r with Ok (code, s) => Some (code, wire 7 (hist s), hd_error (hist s)) | _ => None end)
    (main unset None (mret tt) (pjsocky_server_run [mret tt; mret tt; mret tt; on_shutdown_signal]) (mret tt)
       initial_state) =
  Some (0,
    json_text "{'event':'hello','data':{'protocol_version':'1.1.0','daemon_version':'1.0.0.1','pjsip_version':'2.15'}}"
      ++ [LF] ++ json_text "{'id':'1','ok':true,'result':{}}" ++ [LF],
    Some A_pjsua_destroy).
Proof. vm_compute. reflexivity. Qed.

(** The same client, the signal between two operations of the iteration that
    answers it: the answer is sent, main() returns. *)
Example main_runs_by_turns :
  (fun r => match r with Ok (code, s) => Some (code, wire 7 (hist s), hd_error (hist s)) | _ => None end)
    (main unset None (mret tt)
       (run_threads (replicate 10 (mret tt) ++ on_shutdown_signal :: replicate 12 (mret tt)))
       (mret tt) initial_state) =
  Some (0,
    json_text "{'event':'hello','data':{'protocol_version':'1.1.0','daemon_version':'1.0.0.1','pjsip_version':'2.15'}}"
      ++ [LF] ++ json_text "{'id':'1','ok':true,'result':{}}" ++ [LF],
    Some A_pjsua_destroy).
Proof. vm_compute. reflexivity. Qed.

Lemma booted_state_idle : idle booted_state.
Proof. split; [split|split]; try by vm_compute. by intros []; vm_compute. Qed.

Lemma server_create_calls_witness :
  wp (pjsocky_server_create "/tmp/s" 5000) (fun st s' =>
    if ok st then exists sock,
      srv s' = {| listen_sock := sock; sun_path := "/tmp/s";
                  srv_write_timeout_msec := 5000; stop_requested := false |} /\
      hist s' = [A_log 3 "Listening on %s" [LogStr "/tmp/s"];
                 A_listen sock 4; A_chmod "/tmp/s" 384; A_bind sock "/tmp/s";
                 A_unlink "/tmp/s"; A_socket (PJ_SUCCESS, sock)] ++ hist booted_state
    else forall n, live n (hist s') = 0) booted_state.
Proof. apply server_create_calls; [apply booted_state_idle|lia]. Defined.

(** The connection before its first input. *)
Definition fresh_state : St := after server_iteration created_state.
Lemma fresh_state_reachable : reachable fresh_state.
Proof.
  unfold fresh_state.
  eapply reach_iteration; [apply created_state_reachable|vm_compute; reflexivity..].
Qed.
Lemma fresh_state_ok : server_ok (conn fresh_state) (srv fresh_state) fresh_state.
Proof.
  destruct (reachable_server_ok fresh_state run_long fresh_state_reachable)
    as (c & v & Hok).
  assert (Hc : conn fresh_state = c) by apply Hok.
  assert (Hv : srv fresh_state = v) by apply Hok. by rewrite Hc, Hv.
Qed.

Lemma handle_conn_input_serves_witness :
  wp handle_conn_input (fun st s' =>
    conn_input_outcome fresh_state st s' /\
    exists f', server_ok (conn fresh_state <| conn_framing := f' |>) (srv fresh_state) s')
    fresh_state.
Proof.
  apply handle_conn_input_serves; [exact run_long|apply sim_select_waits|apply fresh_state_ok| |].
  - vm_compute. reflexivity.
  - assert ((split_lines (filled fresh_state).2).1 = [ping_line]) as -> by (vm_compute; reflexivity).
    constructor; [apply ping_line_ok|constructor].
Defined.

Lemma peer_reads : reads 7.
Proof.
  intros h data Hd. exists (Z.of_nat (length data)). split; [done|]. by destruct data.
Qed.

Lemma requests_answered_witness :
  wp server_iteration (fun res s' => res = None /\ exists k replies,
    Forall2 reply (take k [ping_line]) replies /\
    wire 7 (hist s') = wire 7 (hist fresh_state) ++ concat replies /\
    ((1 <= k)%nat /\ active (conn s') = true /\
       pending (conn_framing (conn s')) = ["x"%char] \/
     exists line st, [ping_line] !! k = Some line /\ unanswerable line st /\
       active (conn s') = false)) fresh_state.
Proof.
  apply (requests_answered (conn fresh_state) (srv fresh_state) fresh_state [7]
    (ping_line ++ [LF; "x"%char]) [ping_line] ["x"%char] run_long (sim_select_waits _));
    [exact peer_reads|exact fresh_state_ok|vm_compute; reflexivity|vm_compute; reflexivity|..].
  - vm_compute. left.
  - vm_compute. intros H. repeat (apply elem_of_cons in H as [H|H]; [discriminate|]).
    by apply not_elem_of_nil in H.
  - vm_compute. reflexivity.
  - vm_compute. reflexivity.
  - apply Nat.ltb_lt. vm_compute. reflexivity.
  - constructor; [apply ping_line_ok|constructor].
Defined.

Lemma bad_line_keeps_connection_witness :
  wp (handle_line (json_text "{'id':1}")) (fun st s' => st = PJ_SUCCESS /\
    exists data l st', s' = fresh_state <| hist := l ++ hist fresh_state |> /\
    wire (f_sock (conn_framing (conn fresh_state))) l = data /\
    delivered
      (event_object "error" (Some (build_error_event_data "bad_request" bad_line_message))
         (acc fresh_state)) PJSOCKY_MAX_LINE st' data) fresh_state.
Proof.
  assert (Ha : active (conn fresh_state) = true) by (vm_compute; reflexivity).
  pose proof (bad_line_keeps_connection (conn fresh_state) (srv fresh_state) fresh_state
    (json_text "{'id':1}") run_long (sim_select_waits _) fresh_state_ok) as Hw.
  unfold events_for in Hw. rewrite Ha in Hw. apply Hw.
  intros n cs _ n' id Heq. vm_compute in Heq. discriminate Heq.
Defined.

Lemma refuse_conn_leaves_client_witness :
  wp (refuse_conn 9) (fun _ s' => exists st data,
    turned_away 9 fresh_state s' st data /\
    exists l, s' = fresh_state <| hist := A_close 9 :: l ++ hist fresh_state |> /\
    (forall m, m <> 9 -> wire m l = []) /\ wire 9 l = data /\
    (data = [] \/ delivered (refusal (acc fresh_state)) 512 st data)) fresh_state.
Proof.
  exact (refuse_conn_leaves_client 9 fresh_state run_long (sim_select_waits _)
           (so_srv_timeout _ _ _ fresh_state_ok)).
Defined.

(** ** A second client gives up before it is accepted *)
Section refused_accept.
(** One client is accepted; the next one has gone when [accept] is called. *)
Definition giving_up : script :=
  quiet <| sim_select_read := fun _ => SelectReady [5] |>
        <| sim_accept := fun h => if existsb is_accept h then (PJ_STATUS_OTHER 120103, -1)
                                  else (PJ_SUCCESS, 7) |>.
Lemma giving_up_ok : script_ok giving_up.
Proof. by destruct quiet_ok. Qed.
#[local] Instance giving_env : Env := env_of giving_up.
#[local] Instance giving_laws : EnvLaws := env_of_laws _ giving_up_ok.

Lemma giving_long : 1 <= @LONG_BIT giving_env.
Proof. vm_compute. discriminate. Qed.

(** The first client is connected, the listening socket is reported again. *)
Lemma giving_comes_up : comes_up.
Proof. by vm_compute. Qed.
Definition reported : St := (advance 7 (Looping, created_state)).2.
Lemma reported_interleaved : interleaved True (Accepting [5]) reported.
Proof.
  assert (Hl : (advance 7 (Looping, created_state)).1 = Accepting [5]) by (vm_compute; reflexivity).
  unfold reported. rewrite <-Hl. apply advance_interleaved, created_interleaved, giving_comes_up.
Qed.

Lemma accept_failure_ends_daemon_witness :
  active (conn reported) = true /\ exists s1 s2,
    turn (Accepting [5]) reported = Ok (Returned (PJ_STATUS_OTHER 120103), s1) /\
    hist s1 = close_calls 7 ++ [A_perror 1 (PJ_STATUS_OTHER 120103) "accept() failed" [];
      A_accept 5 (PJ_STATUS_OTHER 120103, -1)] ++ hist reported /\
    wind_up (PJ_STATUS_OTHER 120103) (pjsocky_call_on_call_state 1) s1 = Ok (0, s2) /\
    forall m, live m (hist s2) = 0.
Proof.
  split; [vm_compute; reflexivity|].
  destruct (accept_failure_ends_daemon True [5] reported (PJ_STATUS_OTHER 120103) (-1)
    (pjsocky_call_on_call_state 1) giving_long (sim_select_waits _) reported_interleaved)
    as (s1 & s2 & Ht & _ & _ & Hh & _ & Hw & Hl & _).
  - vm_compute. left.
  - vm_compute. reflexivity.
  - discriminate.
  - apply bg_activity, act_call_state.
  - exists s1, s2. split; [exact Ht|]. split; [|split; [exact Hw|exact Hl]].
    rewrite Hh. vm_compute. reflexivity.
Defined.
End refused_accept.

(** ** A camera that dies in the middle of a call *)
Section dying_camera.
#[local] Instance camera_env : Env := env_of dead_camera.
#[local] Instance camera_laws : EnvLaws := env_of_laws _ dead_camera_ok.

Lemma camera_long : 1 <= @LONG_BIT camera_env.
Proof. vm_compute. discriminate. Qed.

(** The media of call 2 has changed; three seconds later its watchdog has
    expired once. *)
Definition media_state : St := after (pjsocky_call_on_call_media_state 2) created_state.
Definition read_once_state : St := after (timer_expires VIDEO_WATCHDOG) media_state.

Lemma read_once_state_reachable : reachable read_once_state.
Proof.
  unfold read_once_state, media_state.
  eapply reach_background; [eapply reach_background|..].
  - apply created_reachable. by vm_compute.
  - apply bg_activity, (act_call_media_state 2).
  - vm_compute. reflexivity.
  - apply bg_activity, (act_timer VIDEO_WATCHDOG).
  - vm_compute. reflexivity.
Qed.

Lemma read_once_state_interleaved : interleaved True Looping read_once_state.
Proof. apply reachable_interleaved_aux; [exact camera_long|exact read_once_state_reachable]. Qed.

(** The second expiry reads the same count: the video is given up. *)
Example camera_given_up :
  let s := after (timer_expires VIDEO_WATCHDOG) read_once_state in
  g_video_failed_call_id (call s) = 2 /\ removed_streams (hist s) = [(2, 0)].
Proof. vm_compute. by split. Qed.

Lemma call_refines_spec_witness :
  exists v, spec_run spec_start v /\ represents v read_once_state /\
    exists v', spec_steps (EXPIRY VIDEO_WATCHDOG) v v' /\
      represents v' (after (timer_expires VIDEO_WATCHDOG) read_once_state).
Proof.
  destruct (call_refines_spec True Looping read_once_state camera_long dead_camera_counters
    read_once_state_interleaved) as (v & Hv & Hrep & Hstep).
  exists v. split; [exact Hv|]. split; [exact Hrep|].
  apply (Hstep (EXPIRY VIDEO_WATCHDOG) (timer_expires VIDEO_WATCHDOG)).
  - apply by_timer.
  - vm_compute. reflexivity.
Defined.

Lemma watchdog_invariant_witness :
  g_video_watchdog_scheduled (call read_once_state) = true /\
  exists past, tracks past (call read_once_state) /\ progressing past.
Proof.
  assert (Hon : g_video_watchdog_scheduled (call read_once_state) = true)
    by (vm_compute; reflexivity).
  split; [exact Hon|].
  exact (proj2 (proj1 (watchdog_invariant True Looping read_once_state camera_long dead_camera_counters
    read_once_state_interleaved) Hon)).
Defined.
End dying_camera.

(** ** A client that is told of a message between its lines *)
Section polite_client.
Definition garbage_line : bytes := json_text "{'id':2}".
Definition second_line : bytes := json_text "{'id':'3','cmd':'nap'}".
Definition polite_chunk : bytes :=
  ping_line ++ [LF] ++ garbage_line ++ [LF] ++ second_line ++ [LF; "x"%char].
Definition polite_client : script := sends_once polite_chunk (PJ_STATUS_FROM_OS EAGAIN).
#[local] Instance polite_env : Env := env_of polite_client.
#[local] Instance polite_laws : EnvLaws := env_of_laws _ (sends_once_ok _ _).

Lemma polite_long : 1 <= @LONG_BIT polite_env.
Proof. vm_compute. discriminate. Qed.
Lemma polite_fresh : @accept_fresh polite_env.
Proof. apply sends_once_fresh. Qed.
Lemma polite_obliging : @obliging polite_env 7.
Proof. apply sends_once_obliging. Qed.
Lemma polite_in_range : @clients_in_range polite_env _.
Proof.
  apply sends_once_in_range.
  assert ((split_lines polite_chunk).1 = [ping_line; garbage_line; second_line]) as ->
    by (vm_compute; reflexivity).
  do 3 (apply Forall_cons_2; [apply no_params_ok; vm_compute; reflexivity|]). apply Forall_nil_2.
Qed.

Lemma polite_comes_up : comes_up.
Proof. by vm_compute. Qed.

(** The socket of the client accepted; its connection attached but not
    greeted; the peer's typing reported just then. *)
Definition accepted_state : St := (advance 3 (Looping, created_state)).2.
Definition ungreeted : St := (advance 1 (Opening 7, accepted_state)).2.
Definition overtaken : St :=
  after (pjsocky_im_on_typing2 0 "sip:a@b" "sip:me@b" "" true 0) ungreeted.

Lemma accepted_interleaved : interleaved True (Opening 7) accepted_state.
Proof.
  assert (Hl : (advance 3 (Looping, created_state)).1 = Opening 7) by (vm_compute; reflexivity).
  unfold accepted_state. rewrite <-Hl. apply advance_interleaved, created_interleaved, polite_comes_up.
Qed.
Lemma overtaken_interleaved : interleaved True Greeting overtaken.
Proof.
  eapply il_background; [|done|apply bg_activity, (act_typing2 0 "sip:a@b" "sip:me@b" "" true 0)|].
  - assert (Hg : (advance 1 (Opening 7, accepted_state)).1 = Greeting) by (vm_compute; reflexivity).
    unfold ungreeted. rewrite <-Hg. apply advance_interleaved, accepted_interleaved.
  - vm_compute. reflexivity.
Qed.

Definition typing_news : news := Some ("typing", build_typing_data "sip:a@b" "sip:me@b" true).
Example overtaken_stream :
  told typing_news (acc overtaken) ++ told (Some ("hello", build_hello_data)) (acc overtaken) =
    json_text "{'event':'typing','data':{'from':'sip:a@b','to':'sip:me@b','is_typing':true}}" ++ [LF] ++
    json_text "{'event':'hello','data':{'protocol_version':'1.1.0','daemon_version':'1.0.0.1','pjsip_version':'2.15'}}"
      ++ [LF].
Proof. vm_compute. reflexivity. Qed.

Lemma greeting_overtaken_witness :
  wp (turn Greeting) (fun l s2 =>
    l = Looping /\ active (conn s2) = true /\ conn_sock (conn s2) = 7 /\
    said 7 (hist s2) = told typing_news (acc overtaken)
                       ++ told (Some ("hello", build_hello_data)) (acc s2)) overtaken.
Proof.
  apply (greeting_overtaken 7 accepted_state ungreeted overtaken
    (pjsocky_im_on_typing2 0 "sip:a@b" "sip:me@b" "" true 0) (fun _ => typing_news) polite_long
    (sim_select_waits _) polite_fresh accepted_interleaved).
  - vm_compute. reflexivity.
  - apply tells_typing2.
  - vm_compute. reflexivity.
  - exact polite_obliging.
Defined.

(** The first line is answered; the peer stops typing; the main thread goes
    on until it is about to answer the third line. *)
Definition interrupted : St :=
  after (pjsocky_im_on_typing2 0 "sip:a@b" "sip:me@b" "" false 0) (advance 7 (Greeting, overtaken)).2.
Definition third : jelem := error_response "3" "unknown_command" "no such command".
Definition answering : St := (advance 5 (Extracting [7], interrupted)).2.

Lemma answering_interleaved : interleaved True (Answering [7] second_line third) answering.
Proof.
  assert (Hl : (advance 5 (Extracting [7], interrupted)).1 = Answering [7] second_line third)
    by (vm_compute; reflexivity).
  rewrite <-Hl. apply advance_interleaved. cbn [fst snd].
  eapply il_background; [|done|apply bg_activity, (act_typing2 0 "sip:a@b" "sip:me@b" "" false 0)|].
  - assert (He : (advance 7 (Greeting, overtaken)).1 = Extracting [7]) by (vm_compute; reflexivity).
    rewrite <-He. apply advance_interleaved, overtaken_interleaved.
  - vm_compute. reflexivity.
Qed.

Example answering_streams :
  split_lines (heard 7 (hist answering)) =
    ([ping_line; garbage_line; second_line], ["x"%char]) /\
  split_lines (said 7 (hist answering)) =
    ([json_text "{'event':'typing','data':{'from':'sip:a@b','to':'sip:me@b','is_typing':true}}";
      json_text "{'event':'hello','data':{'protocol_version':'1.1.0','daemon_version':'1.0.0.1','pjsip_version':'2.15'}}";
      json_text "{'id':'1','ok':true,'result':{}}";
      json_text "{'event':'typing','data':{'from':'sip:a@b','to':'sip:me@b','is_typing':false}}";
      json_text "{'event':'error','data':{'code':'bad_request','message':'not a JSON object with a string \'id\''}}"],
     []).
Proof. vm_compute. by split. Qed.

Lemma answering_conn : conn_sock (conn answering) = 7 /\
  talking (Answering [7] second_line third) (conn answering) = true /\
  unserved (Answering [7] second_line third) (pending (conn_framing (conn answering)))
    = ([second_line], ["x"%char]).
Proof. vm_compute. by split_and!. Qed.

Lemma session_follows_protocol_witness :
  exists ls, split_lines (heard 7 (hist answering)) = (ls ++ [second_line], ["x"%char]) /\
    conversation (obliging 7) True true ls (said 7 (hist answering)).
Proof.
  destruct answering_conn as (Hn & Ht & Hu).
  pose proof (session_follows_protocol True _ answering polite_long polite_fresh
    answering_interleaved Ht) as Hs.
  cbv zeta in Hs. rewrite Hn, Hu in Hs. exact Hs.
Defined.

Lemma session_transcript_witness :
  exists ls msgs texts,
    (split_lines (heard 7 (hist answering))).1 = ls ++ [second_line] /\
    split_lines (said 7 (hist answering)) = (texts, []) /\
    Forall2 (fun e text => json_line e PJSOCKY_MAX_LINE = inr (text ++ [LF])) msgs texts /\
    Forall message msgs /\ omap response_id msgs = omap request_id ls.
Proof.
  destruct answering_conn as (Hn & Ht & Hu).
  pose proof (session_transcript _ answering polite_long polite_fresh answering_interleaved Ht) as Hs.
  rewrite Hn, Hu in Hs. exact (Hs polite_obliging).
Defined.

Lemma pools_accounted_witness :
  pools "pjsocky" (hist answering) = 1 /\ pools "pjsocky-conn" (hist answering) = 1 /\
  pools "null-vid-render" (hist answering) = 1 /\ pools "pjsocky-event" (hist answering) = 0.
Proof.
  pose proof (fun name => pools_accounted True _ answering name polite_long answering_interleaved) as Hp.
  split_and!; (etrans; [apply Hp; discriminate|vm_compute; reflexivity]).
Defined.

(** The main thread and the other threads go on from there; and when the
    shutdown signal has been handled. *)
Definition gossip : C unit := pjsocky_im_on_typing2 0 "sip:a@b" "sip:me@b" "" true 0.
Definition said_by_gossip : bytes :=
  json_text "{'event':'typing','data':{'from':'sip:a@b','to':'sip:me@b','is_typing':true}}".
Lemma gossip_background : background gossip.
Proof. apply bg_activity, act_typing2. Qed.

Definition signalled : St := after on_shutdown_signal answering.
Lemma signalled_interleaved : interleaved True (Answering [7] second_line third) signalled.
Proof.
  eapply il_background; [exact answering_interleaved|done|apply bg_signal|]. vm_compute. reflexivity.
Qed.

Lemma threads_progress_witness :
  (exists l' s', turn (Answering [7] second_line third) answering = Ok (l', s')) /\
  (exists s', gossip answering = Ok (tt, s')).
Proof.
  destruct (threads_progress True (Answering [7] second_line third) answering polite_long
    (sim_select_waits _) answering_interleaved I) as [Ht Hm].
  split; [exact Ht|exact (Hm gossip gossip_background)].
Defined.

Lemma threads_stop_witness :
  wp (drive has_returned (replicate 11 gossip) (Answering [7] second_line third))
    (fun l' s' => (exists status, l' = Returned status) /\ active (conn s') = false) signalled.
Proof.
  assert (Hp : pend signalled = 1%nat) by (vm_compute; reflexivity).
  apply (threads_stop (Answering [7] second_line third) signalled (replicate 11 gossip) polite_long
    (sim_select_waits _) polite_fresh polite_in_range signalled_interleaved).
  - vm_compute. reflexivity.
  - apply Forall_replicate, gossip_background.
  - rewrite Hp, length_replicate. cbn [turns_left]. lia.
Defined.

Lemma threads_answer_witness :
  wp (drive at_rest (replicate 10 gossip) (Answering [7] second_line third)) (fun l' s' =>
    at_rest l' = true /\ let n := conn_sock (conn s') in
    (talking l' (conn s') = true -> obliging n -> exists msgs texts,
      split_lines (said n (hist s')) = (texts, []) /\
      Forall2 (fun e text => json_line e PJSOCKY_MAX_LINE = inr (text ++ [LF])) msgs texts /\
      Forall message msgs /\
      omap response_id msgs = omap request_id (split_lines (heard n (hist s'))).1)) answering.
Proof.
  assert (Hp : pend answering = 1%nat) by (vm_compute; reflexivity).
  apply (threads_answer (Answering [7] second_line third) answering (replicate 10 gossip) polite_long
    (sim_select_waits _) polite_fresh polite_in_range answering_interleaved).
  - apply Forall_replicate, gossip_background.
  - rewrite Hp, length_replicate. cbn [turns_left]. lia.
Defined.

(** A message that comes in just before that request is answered. *)
Definition greetings : C unit :=
  pjsocky_im_on_pager2 0 "sip:a@b" "sip:me@b" "" "text/plain" "hello there" 0.
Definition greetings_news : news :=
  Some ("incoming_message", build_incoming_message_data "sip:a@b" "sip:me@b" "text/plain" "hello there").
Example greetings_line :
  split_lines (told greetings_news (acc answering)) =
    ([json_text "{'event':'incoming_message','data':{'from':'sip:a@b','to':'sip:me@b','mime_type':'text/plain','body':'hello there'}}"], []).
Proof. vm_compute. reflexivity. Qed.

Lemma events_reach_client_witness :
  wp greetings (fun _ s' =>
    said 7 (hist s') = said 7 (hist answering) ++ told greetings_news (acc s')) answering.
Proof.
  destruct answering_conn as (Hn & _).
  pose proof (events_reach_client True (Answering [7] second_line third) answering
    greetings (fun _ => greetings_news)
    polite_long (sim_select_waits _) answering_interleaved
    (tells_pager2 0 "sip:a@b" "sip:me@b" "" "text/plain" "hello there" 0)) as Hw.
  rewrite Hn in Hw. eapply wpf_mono; [exact Hw|]. intros a s' [Htold _].
  apply Htold; [vm_compute; reflexivity|exact polite_obliging].
Defined.

(** There the third request has been answered, and the client is still
    connected. *)
Example answered_third :
  match drive at_rest (replicate 10 gossip) (Answering [7] second_line third) answering with
  | Ok (l', s') => l' = Looping /\ talking l' (conn s') = true /\ conn_sock (conn s') = 7 /\
      last (filter (fun line => line <> said_by_gossip) (split_lines (said 7 (hist s'))).1)
        = Some (json_text "{'id':'3','ok':false,'error':{'code':'unknown_command','message':'no such command'}}")
  | _ => False
  end.
Proof. vm_compute. by split_and!. Qed.

Lemma threads_invariant_witness :
  g_instance overtaken = Some {| ev_lock_held := false; ev_framing := Some CONN_FRAMING |} /\
  active (conn overtaken) = false /\ live 7 (hist overtaken) = 1.
Proof.
  destruct (threads_invariant True Greeting overtaken polite_long overtaken_interleaved)
    as (_ & _ & _ & Hi & _ & Hl).
  split; [exact Hi|]. split; [vm_compute; reflexivity|]. rewrite (Hl 7). vm_compute. reflexivity.
Defined.
End polite_client.
